(** * Store inventory engine: a shallow embedding of [src/logic/inventoryEngine.ts]

    The class [InventoryEngine] is embedded as a record of its fields and a
    small state monad over that record; every method becomes a monadic
    function with the method's name.

    Conventions of the embedding.
    - JavaScript numbers that hold quantities, versions and counters are [Z].
    - ISO timestamp strings are only ever compared through [toMs]; a timestamp
      is held as its [toMs] value, a [Z] count of milliseconds since the epoch.
    - Arrays are lists; a reference to an object that lives in an array
      ([this.tasks], [this.snapshots], [this.receivingOrders], ...) is the
      object's position in that array, and a field write through the reference
      is an update at that position.
    - A [Map] is an association list in insertion order, which is the order in
      which the source iterates it.
    - Calls to [Date.now()] become an explicit [hostNow] argument of the command
      that makes them. *)

From Stdlib Require Import ZArith List String Ascii Bool Lia Arith.
From Stdlib Require Import DecimalString DecimalNat Decimal Permutation.
Import ListNotations.
Open Scope string_scope.
Open Scope Z_scope.

(** ** JavaScript library functions used by the engine *)

Module JS.

(** [Array.prototype.sort] with the comparator [(a, b) => key a - key b]:
    a stable ascending sort, here by insertion. An element is inserted in
    front of the elements that followed it and have an equal key. *)
Fixpoint insertBy {A} (key : A -> Z) (x : A) (l : list A) : list A :=
  match l with
  | [] => [x]
  | y :: r => if key x <=? key y then x :: y :: r else y :: insertBy key x r
  end.

Definition sortBy {A} (key : A -> Z) (l : list A) : list A :=
  fold_right (insertBy key) [] l.

(** [new Set(xs)] followed by iteration: first occurrences, in order. *)
Fixpoint dedup (l : list string) : list string :=
  match l with
  | [] => []
  | x :: r => x :: filter (fun y => negb (String.eqb y x)) (dedup r)
  end.

Definition includes (l : list string) (x : string) : bool :=
  existsb (String.eqb x) l.

(** [xs.slice(0, n)]: a negative [n] counts from the end. *)
Definition slice0 {A} (n : Z) (l : list A) : list A :=
  if 0 <=? n then firstn (Z.to_nat n) l
  else firstn (List.length l - Z.to_nat (- n))%nat l.

(** [xs.slice(-n)] for [xs.slice(-limit)] in [getRecentRFIDReads]: the last
    [n] elements for a positive [n]; for a negative [n] the start index [-n]
    is positive and the first [-n] elements are dropped; [slice(-0)] is the
    whole array. *)
Definition sliceLast {A} (n : Z) (l : list A) : list A :=
  if 0 <? n then skipn (List.length l - Z.to_nat n)%nat l
  else skipn (Z.to_nat (- n)) l.

Definition findIndex {A} (p : A -> bool) (l : list A) : option nat :=
  (fix go (i : nat) (l : list A) : option nat :=
     match l with
     | [] => None
     | x :: r => if p x then Some i else go (S i) r
     end) 0%nat l.

(** [xs[i] = f(xs[i])], nothing when [i] is out of range. *)
Fixpoint updateAt {A} (i : nat) (f : A -> A) (l : list A) : list A :=
  match l, i with
  | [], _ => []
  | x :: r, O => f x :: r
  | x :: r, S j => x :: updateAt j f r
  end.

Fixpoint removeAt {A} (i : nat) (l : list A) : list A :=
  match l, i with
  | [], _ => []
  | _ :: r, O => r
  | x :: r, S j => x :: removeAt j r
  end.

Definition sumZ (l : list Z) : Z := fold_left Z.add l 0.

(** Decimal rendering of numbers inside template strings. *)
Definition showNat (n : nat) : string := NilEmpty.string_of_uint (Nat.to_uint n).
Definition showZ (z : Z) : string := NilZero.string_of_int (Z.to_int z).

Fixpoint repeatStr (n : nat) (c : ascii) : string :=
  match n with O => EmptyString | S k => String c (repeatStr k c) end.

Definition padStart (width : nat) (c : ascii) (s : string) : string :=
  repeatStr (width - String.length s) c ++ s.

Definition startsWith (s p : string) : bool := String.prefix p s.

Definition strIncludes (s pat : string) : bool :=
  match String.index 0 pat s with Some _ => true | None => false end.

(** Case mapping and trimming, on the ASCII range. *)
Definition lowerAscii (c : ascii) : ascii :=
  let n := nat_of_ascii c in
  if ((65 <=? n) && (n <=? 90))%nat then ascii_of_nat (n + 32) else c.

Definition upperAscii (c : ascii) : ascii :=
  let n := nat_of_ascii c in
  if ((97 <=? n) && (n <=? 122))%nat then ascii_of_nat (n - 32) else c.

Fixpoint mapStr (f : ascii -> ascii) (s : string) : string :=
  match s with EmptyString => EmptyString | String c r => String (f c) (mapStr f r) end.

Definition toLowerCase := mapStr lowerAscii.
Definition toUpperCase := mapStr upperAscii.

Definition isSpace (c : ascii) : bool :=
  let n := nat_of_ascii c in
  ((n =? 32) || ((9 <=? n) && (n <=? 13)))%nat.

Fixpoint trimStart (s : string) : string :=
  match s with
  | EmptyString => EmptyString
  | String c r => if isSpace c then trimStart r else s
  end.

Fixpoint revStr (s acc : string) : string :=
  match s with EmptyString => acc | String c r => revStr r (String c acc) end.

Definition trim (s : string) : string :=
  revStr (trimStart (revStr (trimStart s) EmptyString)) EmptyString.

(** Truthiness of a string and of an optional string. *)
Definition truthy (s : string) : bool := negb (String.eqb s EmptyString).
Definition truthyOpt (o : option string) : bool :=
  match o with Some s => truthy s | None => false end.

(** [a ?? b] *)
Definition orElse {A} (a : option A) (b : option A) : option A :=
  match a with Some _ => a | None => b end.

Definition optEqb (a : option string) (b : string) : bool :=
  match a with Some s => String.eqb s b | None => false end.

End JS.
Import JS.

(** ** Domain model ([src/domain/models.ts]) *)

Inductive InventorySource : Type := RFID | NON_RFID.
Inductive TaskStatus : Type := CREATED | ASSIGNED | IN_PROGRESS | CONFIRMED | REJECTED.
Inductive SalesEventType : Type := SALE | RETURN.
Inductive ReceivingStatus : Type := IN_TRANSIT | ORDER_CONFIRMED | CANCELLED.
Inductive StaffRole : Type := ASSOCIATE | SUPERVISOR.
Inductive AuditAction : Type :=
  | A_CREATED | A_ASSIGNED | A_STARTED | A_CONFIRMED | A_CLOSED | A_CANCELLED.
Inductive BasketStatus : Type := IN_CART | SOLD | REMOVED.
Inductive PickStatus : Type := PICK_IN_PROGRESS | PICK_COMPLETED.

Definition sourceEqb (a b : InventorySource) : bool :=
  match a, b with RFID, RFID | NON_RFID, NON_RFID => true | _, _ => false end.

Definition statusEqb (a b : TaskStatus) : bool :=
  match a, b with
  | CREATED, CREATED | ASSIGNED, ASSIGNED | IN_PROGRESS, IN_PROGRESS
  | CONFIRMED, CONFIRMED | REJECTED, REJECTED => true
  | _, _ => false
  end.

Definition showSource (s : InventorySource) : string :=
  match s with RFID => "RFID" | NON_RFID => "NON_RFID" end.

Definition showStatus (s : TaskStatus) : string :=
  match s with
  | CREATED => "CREATED" | ASSIGNED => "ASSIGNED" | IN_PROGRESS => "IN_PROGRESS"
  | CONFIRMED => "CONFIRMED" | REJECTED => "REJECTED"
  end.

Record ReplenishmentSourceRef : Type := mkSourceRef {
  ref_sourceZoneId : string;
  ref_sortOrder : Z
}.

Record SourceCandidate : Type := mkCandidate {
  cand_sourceZoneId : string;
  cand_sortOrder : Z;
  cand_availableQty : Z
}.

(** A location. The polygon's coordinates are carried as integer pairs; the engine only measures the polygon's length. *)
Record Zone : Type := mkZone {
  zone_id : string;
  zone_name : string;
  zone_color : string;
  zone_mapPolygon : list (Z * Z);
  zone_antennaIds : list string;
  zone_ruleIds : list string;
  zone_isSalesLocation : bool;
  zone_replenishmentSources : list ReplenishmentSourceRef;
  zone_isActive : bool;
  zone_createdAt : Z
}.

Definition zone_set_name (v : string) (x : Zone) : Zone :=
  {| zone_id := zone_id x; zone_name := v; zone_color := zone_color x;
     zone_mapPolygon := zone_mapPolygon x; zone_antennaIds := zone_antennaIds x;
     zone_ruleIds := zone_ruleIds x; zone_isSalesLocation := zone_isSalesLocation x;
     zone_replenishmentSources := zone_replenishmentSources x;
     zone_isActive := zone_isActive x; zone_createdAt := zone_createdAt x |}.

Definition zone_set_color (v : string) (x : Zone) : Zone :=
  {| zone_id := zone_id x; zone_name := zone_name x; zone_color := v;
     zone_mapPolygon := zone_mapPolygon x; zone_antennaIds := zone_antennaIds x;
     zone_ruleIds := zone_ruleIds x; zone_isSalesLocation := zone_isSalesLocation x;
     zone_replenishmentSources := zone_replenishmentSources x;
     zone_isActive := zone_isActive x; zone_createdAt := zone_createdAt x |}.

Definition zone_set_mapPolygon (v : list (Z * Z)) (x : Zone) : Zone :=
  {| zone_id := zone_id x; zone_name := zone_name x; zone_color := zone_color x;
     zone_mapPolygon := v; zone_antennaIds := zone_antennaIds x;
     zone_ruleIds := zone_ruleIds x; zone_isSalesLocation := zone_isSalesLocation x;
     zone_replenishmentSources := zone_replenishmentSources x;
     zone_isActive := zone_isActive x; zone_createdAt := zone_createdAt x |}.

Definition zone_set_isSalesLocation (v : bool) (x : Zone) : Zone :=
  {| zone_id := zone_id x; zone_name := zone_name x; zone_color := zone_color x;
     zone_mapPolygon := zone_mapPolygon x; zone_antennaIds := zone_antennaIds x;
     zone_ruleIds := zone_ruleIds x; zone_isSalesLocation := v;
     zone_replenishmentSources := zone_replenishmentSources x;
     zone_isActive := zone_isActive x; zone_createdAt := zone_createdAt x |}.

Definition zone_set_replenishmentSources (v : list ReplenishmentSourceRef) (x : Zone) : Zone :=
  {| zone_id := zone_id x; zone_name := zone_name x; zone_color := zone_color x;
     zone_mapPolygon := zone_mapPolygon x; zone_antennaIds := zone_antennaIds x;
     zone_ruleIds := zone_ruleIds x; zone_isSalesLocation := zone_isSalesLocation x;
     zone_replenishmentSources := v; zone_isActive := zone_isActive x;
     zone_createdAt := zone_createdAt x |}.

(** An antenna, without its map coordinates, which the engine never reads. *)
Record Antenna : Type := mkAntenna {
  ant_id : string;
  ant_zoneId : string;
  ant_name : string;
  ant_isActive : bool;
  ant_createdAt : Z
}.

(** A tag read. [rssi] is only stored; it is held in tenths of a dBm. *)
Record RFIDReadEvent : Type := mkRead {
  read_id : string;
  read_epc : string;
  read_antennaId : string;
  read_zoneId : string;
  read_timestamp : Z;
  read_rssi : option Z;
  read_ingestedAt : Z
}.

Record EPCSkuMapping : Type := mkMapping {
  map_id : string;
  map_epc : string;
  map_skuId : string;
  map_skuName : option string;
  map_activeFrom : Z;
  map_activeTo : option Z
}.

(** A snapshot row. [confidence] is held in hundredths (0.9 is 90). *)
Record InventorySnapshotByZone : Type := mkSnapshot {
  snap_id : string;
  snap_zoneId : string;
  snap_skuId : string;
  snap_qty : Z;
  snap_source : InventorySource;
  snap_confidence : option Z;
  snap_lastCalculatedAt : Z;
  snap_version : Z
}.

Record ReplenishmentRule : Type := mkRule {
  rule_id : string;
  rule_zoneId : string;
  rule_skuId : string;
  rule_source : InventorySource;
  rule_inboundSourceLocationId : option string;
  rule_minQty : Z;
  rule_maxQty : Z;
  rule_priority : Z;
  rule_isActive : bool;
  rule_updatedAt : Z
}.

Record ReplenishmentTask : Type := mkTask {
  task_id : string;
  task_ruleId : string;
  task_zoneId : string;
  task_skuId : string;
  task_sourceZoneId : option string;
  task_sourceCandidates : option (list SourceCandidate);
  task_assignedStaffId : option string;
  task_assignedAt : option Z;
  task_status : TaskStatus;
  task_triggerQty : Z;
  task_deficitQty : Z;
  task_targetQty : Z;
  task_createdAt : Z;
  task_updatedAt : Z;
  task_closedAt : option Z;
  task_confirmedQty : option Z;
  task_confirmedBy : option string;
  task_closeReason : option string
}.

Definition task_set_sourceZoneId (v : option string) (x : ReplenishmentTask) : ReplenishmentTask :=
  {| task_id := task_id x; task_ruleId := task_ruleId x; task_zoneId := task_zoneId x;
     task_skuId := task_skuId x; task_sourceZoneId := v;
     task_sourceCandidates := task_sourceCandidates x;
     task_assignedStaffId := task_assignedStaffId x; task_assignedAt := task_assignedAt x;
     task_status := task_status x; task_triggerQty := task_triggerQty x;
     task_deficitQty := task_deficitQty x; task_targetQty := task_targetQty x;
     task_createdAt := task_createdAt x; task_updatedAt := task_updatedAt x;
     task_closedAt := task_closedAt x; task_confirmedQty := task_confirmedQty x;
     task_confirmedBy := task_confirmedBy x; task_closeReason := task_closeReason x |}.

Definition task_set_sourceCandidates (v : option (list SourceCandidate)) (x : ReplenishmentTask) : ReplenishmentTask :=
  {| task_id := task_id x; task_ruleId := task_ruleId x; task_zoneId := task_zoneId x;
     task_skuId := task_skuId x; task_sourceZoneId := task_sourceZoneId x;
     task_sourceCandidates := v; task_assignedStaffId := task_assignedStaffId x;
     task_assignedAt := task_assignedAt x; task_status := task_status x;
     task_triggerQty := task_triggerQty x; task_deficitQty := task_deficitQty x;
     task_targetQty := task_targetQty x; task_createdAt := task_createdAt x;
     task_updatedAt := task_updatedAt x; task_closedAt := task_closedAt x;
     task_confirmedQty := task_confirmedQty x; task_confirmedBy := task_confirmedBy x;
     task_closeReason := task_closeReason x |}.

Definition task_set_assignedStaffId (v : option string) (x : ReplenishmentTask) : ReplenishmentTask :=
  {| task_id := task_id x; task_ruleId := task_ruleId x; task_zoneId := task_zoneId x;
     task_skuId := task_skuId x; task_sourceZoneId := task_sourceZoneId x;
     task_sourceCandidates := task_sourceCandidates x; task_assignedStaffId := v;
     task_assignedAt := task_assignedAt x; task_status := task_status x;
     task_triggerQty := task_triggerQty x; task_deficitQty := task_deficitQty x;
     task_targetQty := task_targetQty x; task_createdAt := task_createdAt x;
     task_updatedAt := task_updatedAt x; task_closedAt := task_closedAt x;
     task_confirmedQty := task_confirmedQty x; task_confirmedBy := task_confirmedBy x;
     task_closeReason := task_closeReason x |}.

Definition task_set_assignedAt (v : option Z) (x : ReplenishmentTask) : ReplenishmentTask :=
  {| task_id := task_id x; task_ruleId := task_ruleId x; task_zoneId := task_zoneId x;
     task_skuId := task_skuId x; task_sourceZoneId := task_sourceZoneId x;
     task_sourceCandidates := task_sourceCandidates x;
     task_assignedStaffId := task_assignedStaffId x; task_assignedAt := v;
     task_status := task_status x; task_triggerQty := task_triggerQty x;
     task_deficitQty := task_deficitQty x; task_targetQty := task_targetQty x;
     task_createdAt := task_createdAt x; task_updatedAt := task_updatedAt x;
     task_closedAt := task_closedAt x; task_confirmedQty := task_confirmedQty x;
     task_confirmedBy := task_confirmedBy x; task_closeReason := task_closeReason x |}.

Definition task_set_status (v : TaskStatus) (x : ReplenishmentTask) : ReplenishmentTask :=
  {| task_id := task_id x; task_ruleId := task_ruleId x; task_zoneId := task_zoneId x;
     task_skuId := task_skuId x; task_sourceZoneId := task_sourceZoneId x;
     task_sourceCandidates := task_sourceCandidates x;
     task_assignedStaffId := task_assignedStaffId x; task_assignedAt := task_assignedAt x;
     task_status := v; task_triggerQty := task_triggerQty x;
     task_deficitQty := task_deficitQty x; task_targetQty := task_targetQty x;
     task_createdAt := task_createdAt x; task_updatedAt := task_updatedAt x;
     task_closedAt := task_closedAt x; task_confirmedQty := task_confirmedQty x;
     task_confirmedBy := task_confirmedBy x; task_closeReason := task_closeReason x |}.

Definition task_set_deficitQty (v : Z) (x : ReplenishmentTask) : ReplenishmentTask :=
  {| task_id := task_id x; task_ruleId := task_ruleId x; task_zoneId := task_zoneId x;
     task_skuId := task_skuId x; task_sourceZoneId := task_sourceZoneId x;
     task_sourceCandidates := task_sourceCandidates x;
     task_assignedStaffId := task_assignedStaffId x; task_assignedAt := task_assignedAt x;
     task_status := task_status x; task_triggerQty := task_triggerQty x; task_deficitQty := v;
     task_targetQty := task_targetQty x; task_createdAt := task_createdAt x;
     task_updatedAt := task_updatedAt x; task_closedAt := task_closedAt x;
     task_confirmedQty := task_confirmedQty x; task_confirmedBy := task_confirmedBy x;
     task_closeReason := task_closeReason x |}.

Definition task_set_updatedAt (v : Z) (x : ReplenishmentTask) : ReplenishmentTask :=
  {| task_id := task_id x; task_ruleId := task_ruleId x; task_zoneId := task_zoneId x;
     task_skuId := task_skuId x; task_sourceZoneId := task_sourceZoneId x;
     task_sourceCandidates := task_sourceCandidates x;
     task_assignedStaffId := task_assignedStaffId x; task_assignedAt := task_assignedAt x;
     task_status := task_status x; task_triggerQty := task_triggerQty x;
     task_deficitQty := task_deficitQty x; task_targetQty := task_targetQty x;
     task_createdAt := task_createdAt x; task_updatedAt := v; task_closedAt := task_closedAt x;
     task_confirmedQty := task_confirmedQty x; task_confirmedBy := task_confirmedBy x;
     task_closeReason := task_closeReason x |}.

Definition task_set_closedAt (v : option Z) (x : ReplenishmentTask) : ReplenishmentTask :=
  {| task_id := task_id x; task_ruleId := task_ruleId x; task_zoneId := task_zoneId x;
     task_skuId := task_skuId x; task_sourceZoneId := task_sourceZoneId x;
     task_sourceCandidates := task_sourceCandidates x;
     task_assignedStaffId := task_assignedStaffId x; task_assignedAt := task_assignedAt x;
     task_status := task_status x; task_triggerQty := task_triggerQty x;
     task_deficitQty := task_deficitQty x; task_targetQty := task_targetQty x;
     task_createdAt := task_createdAt x; task_updatedAt := task_updatedAt x;
     task_closedAt := v; task_confirmedQty := task_confirmedQty x;
     task_confirmedBy := task_confirmedBy x; task_closeReason := task_closeReason x |}.

Definition task_set_confirmedQty (v : option Z) (x : ReplenishmentTask) : ReplenishmentTask :=
  {| task_id := task_id x; task_ruleId := task_ruleId x; task_zoneId := task_zoneId x;
     task_skuId := task_skuId x; task_sourceZoneId := task_sourceZoneId x;
     task_sourceCandidates := task_sourceCandidates x;
     task_assignedStaffId := task_assignedStaffId x; task_assignedAt := task_assignedAt x;
     task_status := task_status x; task_triggerQty := task_triggerQty x;
     task_deficitQty := task_deficitQty x; task_targetQty := task_targetQty x;
     task_createdAt := task_createdAt x; task_updatedAt := task_updatedAt x;
     task_closedAt := task_closedAt x; task_confirmedQty := v;
     task_confirmedBy := task_confirmedBy x; task_closeReason := task_closeReason x |}.

Definition task_set_confirmedBy (v : option string) (x : ReplenishmentTask) : ReplenishmentTask :=
  {| task_id := task_id x; task_ruleId := task_ruleId x; task_zoneId := task_zoneId x;
     task_skuId := task_skuId x; task_sourceZoneId := task_sourceZoneId x;
     task_sourceCandidates := task_sourceCandidates x;
     task_assignedStaffId := task_assignedStaffId x; task_assignedAt := task_assignedAt x;
     task_status := task_status x; task_triggerQty := task_triggerQty x;
     task_deficitQty := task_deficitQty x; task_targetQty := task_targetQty x;
     task_createdAt := task_createdAt x; task_updatedAt := task_updatedAt x;
     task_closedAt := task_closedAt x; task_confirmedQty := task_confirmedQty x;
     task_confirmedBy := v; task_closeReason := task_closeReason x |}.

Definition task_set_closeReason (v : option string) (x : ReplenishmentTask) : ReplenishmentTask :=
  {| task_id := task_id x; task_ruleId := task_ruleId x; task_zoneId := task_zoneId x;
     task_skuId := task_skuId x; task_sourceZoneId := task_sourceZoneId x;
     task_sourceCandidates := task_sourceCandidates x;
     task_assignedStaffId := task_assignedStaffId x; task_assignedAt := task_assignedAt x;
     task_status := task_status x; task_triggerQty := task_triggerQty x;
     task_deficitQty := task_deficitQty x; task_targetQty := task_targetQty x;
     task_createdAt := task_createdAt x; task_updatedAt := task_updatedAt x;
     task_closedAt := task_closedAt x; task_confirmedQty := task_confirmedQty x;
     task_confirmedBy := task_confirmedBy x; task_closeReason := v |}.

Record SalesEvent : Type := mkSale {
  sale_id : string;
  sale_skuId : string;
  sale_zoneId : string;
  sale_eventType : SalesEventType;
  sale_qty : Z;
  sale_timestamp : Z;
  sale_posTxnId : option string;
  sale_ingestedAt : Z
}.

Record EPCPresence : Type := mkPresence {
  pres_epc : string;
  pres_skuId : string;
  pres_zoneId : string;
  pres_antennaId : string;
  pres_lastSeenAt : Z;
  pres_lastRssi : option Z
}.

Definition pres_set_zoneId (v : string) (x : EPCPresence) : EPCPresence :=
  {| pres_epc := pres_epc x; pres_skuId := pres_skuId x; pres_zoneId := v;
     pres_antennaId := pres_antennaId x; pres_lastSeenAt := pres_lastSeenAt x;
     pres_lastRssi := pres_lastRssi x |}.

Definition pres_set_antennaId (v : string) (x : EPCPresence) : EPCPresence :=
  {| pres_epc := pres_epc x; pres_skuId := pres_skuId x; pres_zoneId := pres_zoneId x;
     pres_antennaId := v; pres_lastSeenAt := pres_lastSeenAt x;
     pres_lastRssi := pres_lastRssi x |}.

Definition pres_set_lastSeenAt (v : Z) (x : EPCPresence) : EPCPresence :=
  {| pres_epc := pres_epc x; pres_skuId := pres_skuId x; pres_zoneId := pres_zoneId x;
     pres_antennaId := pres_antennaId x; pres_lastSeenAt := v;
     pres_lastRssi := pres_lastRssi x |}.

Record StaffMember : Type := mkStaff {
  staff_id : string;
  staff_name : string;
  staff_role : StaffRole;
  staff_activeShift : bool;
  staff_shiftLabel : string;
  staff_scopeAllZones : bool;
  staff_zoneScopeZoneIds : list string
}.

Definition staff_set_activeShift (v : bool) (x : StaffMember) : StaffMember :=
  {| staff_id := staff_id x; staff_name := staff_name x; staff_role := staff_role x;
     staff_activeShift := v; staff_shiftLabel := staff_shiftLabel x;
     staff_scopeAllZones := staff_scopeAllZones x;
     staff_zoneScopeZoneIds := staff_zoneScopeZoneIds x |}.

Definition staff_set_scopeAllZones (v : bool) (x : StaffMember) : StaffMember :=
  {| staff_id := staff_id x; staff_name := staff_name x; staff_role := staff_role x;
     staff_activeShift := staff_activeShift x; staff_shiftLabel := staff_shiftLabel x;
     staff_scopeAllZones := v; staff_zoneScopeZoneIds := staff_zoneScopeZoneIds x |}.

Definition staff_set_zoneScopeZoneIds (v : list string) (x : StaffMember) : StaffMember :=
  {| staff_id := staff_id x; staff_name := staff_name x; staff_role := staff_role x;
     staff_activeShift := staff_activeShift x; staff_shiftLabel := staff_shiftLabel x;
     staff_scopeAllZones := staff_scopeAllZones x; staff_zoneScopeZoneIds := v |}.

(** An audit entry, without its [id]: the source builds the id from the host clock and a random suffix and never reads it. *)
Record TaskAuditEntry : Type := mkAudit {
  audit_taskId : string;
  audit_action : AuditAction;
  audit_actorId : option string;
  audit_details : string;
  audit_timestamp : Z
}.

Record ReceivingOrder : Type := mkOrder {
  order_id : string;
  order_sourceLocationId : string;
  order_destinationZoneId : string;
  order_skuId : string;
  order_source : InventorySource;
  order_assignedStaffId : option string;
  order_assignedAt : option Z;
  order_requestedQty : Z;
  order_confirmedQty : Z;
  order_status : ReceivingStatus;
  order_createdAt : Z;
  order_updatedAt : Z;
  order_confirmedAt : option Z;
  order_confirmedBy : option string;
  order_note : option string
}.

Definition order_set_assignedStaffId (v : option string) (x : ReceivingOrder) : ReceivingOrder :=
  {| order_id := order_id x; order_sourceLocationId := order_sourceLocationId x;
     order_destinationZoneId := order_destinationZoneId x; order_skuId := order_skuId x;
     order_source := order_source x; order_assignedStaffId := v;
     order_assignedAt := order_assignedAt x; order_requestedQty := order_requestedQty x;
     order_confirmedQty := order_confirmedQty x; order_status := order_status x;
     order_createdAt := order_createdAt x; order_updatedAt := order_updatedAt x;
     order_confirmedAt := order_confirmedAt x; order_confirmedBy := order_confirmedBy x;
     order_note := order_note x |}.

Definition order_set_assignedAt (v : option Z) (x : ReceivingOrder) : ReceivingOrder :=
  {| order_id := order_id x; order_sourceLocationId := order_sourceLocationId x;
     order_destinationZoneId := order_destinationZoneId x; order_skuId := order_skuId x;
     order_source := order_source x; order_assignedStaffId := order_assignedStaffId x;
     order_assignedAt := v; order_requestedQty := order_requestedQty x;
     order_confirmedQty := order_confirmedQty x; order_status := order_status x;
     order_createdAt := order_createdAt x; order_updatedAt := order_updatedAt x;
     order_confirmedAt := order_confirmedAt x; order_confirmedBy := order_confirmedBy x;
     order_note := order_note x |}.

Definition order_set_confirmedQty (v : Z) (x : ReceivingOrder) : ReceivingOrder :=
  {| order_id := order_id x; order_sourceLocationId := order_sourceLocationId x;
     order_destinationZoneId := order_destinationZoneId x; order_skuId := order_skuId x;
     order_source := order_source x; order_assignedStaffId := order_assignedStaffId x;
     order_assignedAt := order_assignedAt x; order_requestedQty := order_requestedQty x;
     order_confirmedQty := v; order_status := order_status x;
     order_createdAt := order_createdAt x; order_updatedAt := order_updatedAt x;
     order_confirmedAt := order_confirmedAt x; order_confirmedBy := order_confirmedBy x;
     order_note := order_note x |}.

Definition order_set_status (v : ReceivingStatus) (x : ReceivingOrder) : ReceivingOrder :=
  {| order_id := order_id x; order_sourceLocationId := order_sourceLocationId x;
     order_destinationZoneId := order_destinationZoneId x; order_skuId := order_skuId x;
     order_source := order_source x; order_assignedStaffId := order_assignedStaffId x;
     order_assignedAt := order_assignedAt x; order_requestedQty := order_requestedQty x;
     order_confirmedQty := order_confirmedQty x; order_status := v;
     order_createdAt := order_createdAt x; order_updatedAt := order_updatedAt x;
     order_confirmedAt := order_confirmedAt x; order_confirmedBy := order_confirmedBy x;
     order_note := order_note x |}.

Definition order_set_updatedAt (v : Z) (x : ReceivingOrder) : ReceivingOrder :=
  {| order_id := order_id x; order_sourceLocationId := order_sourceLocationId x;
     order_destinationZoneId := order_destinationZoneId x; order_skuId := order_skuId x;
     order_source := order_source x; order_assignedStaffId := order_assignedStaffId x;
     order_assignedAt := order_assignedAt x; order_requestedQty := order_requestedQty x;
     order_confirmedQty := order_confirmedQty x; order_status := order_status x;
     order_createdAt := order_createdAt x; order_updatedAt := v;
     order_confirmedAt := order_confirmedAt x; order_confirmedBy := order_confirmedBy x;
     order_note := order_note x |}.

Definition order_set_confirmedAt (v : option Z) (x : ReceivingOrder) : ReceivingOrder :=
  {| order_id := order_id x; order_sourceLocationId := order_sourceLocationId x;
     order_destinationZoneId := order_destinationZoneId x; order_skuId := order_skuId x;
     order_source := order_source x; order_assignedStaffId := order_assignedStaffId x;
     order_assignedAt := order_assignedAt x; order_requestedQty := order_requestedQty x;
     order_confirmedQty := order_confirmedQty x; order_status := order_status x;
     order_createdAt := order_createdAt x; order_updatedAt := order_updatedAt x;
     order_confirmedAt := v; order_confirmedBy := order_confirmedBy x;
     order_note := order_note x |}.

Definition order_set_confirmedBy (v : option string) (x : ReceivingOrder) : ReceivingOrder :=
  {| order_id := order_id x; order_sourceLocationId := order_sourceLocationId x;
     order_destinationZoneId := order_destinationZoneId x; order_skuId := order_skuId x;
     order_source := order_source x; order_assignedStaffId := order_assignedStaffId x;
     order_assignedAt := order_assignedAt x; order_requestedQty := order_requestedQty x;
     order_confirmedQty := order_confirmedQty x; order_status := order_status x;
     order_createdAt := order_createdAt x; order_updatedAt := order_updatedAt x;
     order_confirmedAt := order_confirmedAt x; order_confirmedBy := v;
     order_note := order_note x |}.

Record Customer : Type := mkCustomer {
  cust_id : string;
  cust_name : string
}.

Record CustomerBasketItem : Type := mkBasketItem {
  item_id : string;
  item_customerId : string;
  item_zoneId : string;
  item_skuId : string;
  item_qty : Z;
  item_pickedConfirmedQty : Z;
  item_status : BasketStatus;
  item_createdAt : Z
}.

Definition item_set_pickedConfirmedQty (v : Z) (x : CustomerBasketItem) : CustomerBasketItem :=
  {| item_id := item_id x; item_customerId := item_customerId x; item_zoneId := item_zoneId x;
     item_skuId := item_skuId x; item_qty := item_qty x; item_pickedConfirmedQty := v;
     item_status := item_status x; item_createdAt := item_createdAt x |}.

Definition item_set_status (v : BasketStatus) (x : CustomerBasketItem) : CustomerBasketItem :=
  {| item_id := item_id x; item_customerId := item_customerId x; item_zoneId := item_zoneId x;
     item_skuId := item_skuId x; item_qty := item_qty x;
     item_pickedConfirmedQty := item_pickedConfirmedQty x; item_status := v;
     item_createdAt := item_createdAt x |}.

Record PendingRFIDPick : Type := mkPick {
  pick_basketItemId : string;
  pick_zoneId : string;
  pick_skuId : string;
  pick_qtyRemaining : Z;
  pick_consumedEpcs : list string;
  pick_status : PickStatus
}.

Definition pick_set_qtyRemaining (v : Z) (x : PendingRFIDPick) : PendingRFIDPick :=
  {| pick_basketItemId := pick_basketItemId x; pick_zoneId := pick_zoneId x;
     pick_skuId := pick_skuId x; pick_qtyRemaining := v;
     pick_consumedEpcs := pick_consumedEpcs x; pick_status := pick_status x |}.

Definition pick_set_consumedEpcs (v : list string) (x : PendingRFIDPick) : PendingRFIDPick :=
  {| pick_basketItemId := pick_basketItemId x; pick_zoneId := pick_zoneId x;
     pick_skuId := pick_skuId x; pick_qtyRemaining := pick_qtyRemaining x;
     pick_consumedEpcs := v; pick_status := pick_status x |}.

Definition pick_set_status (v : PickStatus) (x : PendingRFIDPick) : PendingRFIDPick :=
  {| pick_basketItemId := pick_basketItemId x; pick_zoneId := pick_zoneId x;
     pick_skuId := pick_skuId x; pick_qtyRemaining := pick_qtyRemaining x;
     pick_consumedEpcs := pick_consumedEpcs x; pick_status := v |}.

Record ConfirmationMovement : Type := mkMovement {
  mov_zoneId : string;
  mov_skuId : string;
  mov_qty : Z;
  mov_timestamp : Z;
  mov_taskId : string
}.

(** ** The engine's state *)

(** The fields of [InventoryEngine]. *)
Record Engine : Type := mkEngine {
  zones : list Zone;
  antennas : list Antenna;
  mapping : list EPCSkuMapping;
  rules : list ReplenishmentRule;
  skuSourceById : list (string * InventorySource);
  nonRfidBaselines : list (string * InventorySnapshotByZone);
  snapshots : list InventorySnapshotByZone;
  rfidEvents : list RFIDReadEvent;
  salesEvents : list SalesEvent;
  tasks : list ReplenishmentTask;
  epcPresence : list (string * EPCPresence);
  customers : list (string * Customer);
  customerBasketItems : list CustomerBasketItem;
  pendingRFIDPicks : list PendingRFIDPick;
  replenishmentConfirmations : list ConfirmationMovement;
  receivingOrders : list ReceivingOrder;
  staff : list StaffMember;
  taskAudit : list TaskAuditEntry;
  nowCursor : Z;
  generatedEpcSeq : Z;
  personalizableSkuIds : list string
}.

Definition set_zones (v : list Zone) (x : Engine) : Engine :=
  {| zones := v; antennas := antennas x; mapping := mapping x; rules := rules x;
     skuSourceById := skuSourceById x; nonRfidBaselines := nonRfidBaselines x;
     snapshots := snapshots x; rfidEvents := rfidEvents x; salesEvents := salesEvents x;
     tasks := tasks x; epcPresence := epcPresence x; customers := customers x;
     customerBasketItems := customerBasketItems x; pendingRFIDPicks := pendingRFIDPicks x;
     replenishmentConfirmations := replenishmentConfirmations x;
     receivingOrders := receivingOrders x; staff := staff x; taskAudit := taskAudit x;
     nowCursor := nowCursor x; generatedEpcSeq := generatedEpcSeq x;
     personalizableSkuIds := personalizableSkuIds x |}.

Definition set_mapping (v : list EPCSkuMapping) (x : Engine) : Engine :=
  {| zones := zones x; antennas := antennas x; mapping := v; rules := rules x;
     skuSourceById := skuSourceById x; nonRfidBaselines := nonRfidBaselines x;
     snapshots := snapshots x; rfidEvents := rfidEvents x; salesEvents := salesEvents x;
     tasks := tasks x; epcPresence := epcPresence x; customers := customers x;
     customerBasketItems := customerBasketItems x; pendingRFIDPicks := pendingRFIDPicks x;
     replenishmentConfirmations := replenishmentConfirmations x;
     receivingOrders := receivingOrders x; staff := staff x; taskAudit := taskAudit x;
     nowCursor := nowCursor x; generatedEpcSeq := generatedEpcSeq x;
     personalizableSkuIds := personalizableSkuIds x |}.

Definition set_rules (v : list ReplenishmentRule) (x : Engine) : Engine :=
  {| zones := zones x; antennas := antennas x; mapping := mapping x; rules := v;
     skuSourceById := skuSourceById x; nonRfidBaselines := nonRfidBaselines x;
     snapshots := snapshots x; rfidEvents := rfidEvents x; salesEvents := salesEvents x;
     tasks := tasks x; epcPresence := epcPresence x; customers := customers x;
     customerBasketItems := customerBasketItems x; pendingRFIDPicks := pendingRFIDPicks x;
     replenishmentConfirmations := replenishmentConfirmations x;
     receivingOrders := receivingOrders x; staff := staff x; taskAudit := taskAudit x;
     nowCursor := nowCursor x; generatedEpcSeq := generatedEpcSeq x;
     personalizableSkuIds := personalizableSkuIds x |}.

Definition set_snapshots (v : list InventorySnapshotByZone) (x : Engine) : Engine :=
  {| zones := zones x; antennas := antennas x; mapping := mapping x; rules := rules x;
     skuSourceById := skuSourceById x; nonRfidBaselines := nonRfidBaselines x; snapshots := v;
     rfidEvents := rfidEvents x; salesEvents := salesEvents x; tasks := tasks x;
     epcPresence := epcPresence x; customers := customers x;
     customerBasketItems := customerBasketItems x; pendingRFIDPicks := pendingRFIDPicks x;
     replenishmentConfirmations := replenishmentConfirmations x;
     receivingOrders := receivingOrders x; staff := staff x; taskAudit := taskAudit x;
     nowCursor := nowCursor x; generatedEpcSeq := generatedEpcSeq x;
     personalizableSkuIds := personalizableSkuIds x |}.

Definition set_rfidEvents (v : list RFIDReadEvent) (x : Engine) : Engine :=
  {| zones := zones x; antennas := antennas x; mapping := mapping x; rules := rules x;
     skuSourceById := skuSourceById x; nonRfidBaselines := nonRfidBaselines x;
     snapshots := snapshots x; rfidEvents := v; salesEvents := salesEvents x; tasks := tasks x;
     epcPresence := epcPresence x; customers := customers x;
     customerBasketItems := customerBasketItems x; pendingRFIDPicks := pendingRFIDPicks x;
     replenishmentConfirmations := replenishmentConfirmations x;
     receivingOrders := receivingOrders x; staff := staff x; taskAudit := taskAudit x;
     nowCursor := nowCursor x; generatedEpcSeq := generatedEpcSeq x;
     personalizableSkuIds := personalizableSkuIds x |}.

Definition set_salesEvents (v : list SalesEvent) (x : Engine) : Engine :=
  {| zones := zones x; antennas := antennas x; mapping := mapping x; rules := rules x;
     skuSourceById := skuSourceById x; nonRfidBaselines := nonRfidBaselines x;
     snapshots := snapshots x; rfidEvents := rfidEvents x; salesEvents := v; tasks := tasks x;
     epcPresence := epcPresence x; customers := customers x;
     customerBasketItems := customerBasketItems x; pendingRFIDPicks := pendingRFIDPicks x;
     replenishmentConfirmations := replenishmentConfirmations x;
     receivingOrders := receivingOrders x; staff := staff x; taskAudit := taskAudit x;
     nowCursor := nowCursor x; generatedEpcSeq := generatedEpcSeq x;
     personalizableSkuIds := personalizableSkuIds x |}.

Definition set_tasks (v : list ReplenishmentTask) (x : Engine) : Engine :=
  {| zones := zones x; antennas := antennas x; mapping := mapping x; rules := rules x;
     skuSourceById := skuSourceById x; nonRfidBaselines := nonRfidBaselines x;
     snapshots := snapshots x; rfidEvents := rfidEvents x; salesEvents := salesEvents x;
     tasks := v; epcPresence := epcPresence x; customers := customers x;
     customerBasketItems := customerBasketItems x; pendingRFIDPicks := pendingRFIDPicks x;
     replenishmentConfirmations := replenishmentConfirmations x;
     receivingOrders := receivingOrders x; staff := staff x; taskAudit := taskAudit x;
     nowCursor := nowCursor x; generatedEpcSeq := generatedEpcSeq x;
     personalizableSkuIds := personalizableSkuIds x |}.

Definition set_epcPresence (v : list (string * EPCPresence)) (x : Engine) : Engine :=
  {| zones := zones x; antennas := antennas x; mapping := mapping x; rules := rules x;
     skuSourceById := skuSourceById x; nonRfidBaselines := nonRfidBaselines x;
     snapshots := snapshots x; rfidEvents := rfidEvents x; salesEvents := salesEvents x;
     tasks := tasks x; epcPresence := v; customers := customers x;
     customerBasketItems := customerBasketItems x; pendingRFIDPicks := pendingRFIDPicks x;
     replenishmentConfirmations := replenishmentConfirmations x;
     receivingOrders := receivingOrders x; staff := staff x; taskAudit := taskAudit x;
     nowCursor := nowCursor x; generatedEpcSeq := generatedEpcSeq x;
     personalizableSkuIds := personalizableSkuIds x |}.

Definition set_customers (v : list (string * Customer)) (x : Engine) : Engine :=
  {| zones := zones x; antennas := antennas x; mapping := mapping x; rules := rules x;
     skuSourceById := skuSourceById x; nonRfidBaselines := nonRfidBaselines x;
     snapshots := snapshots x; rfidEvents := rfidEvents x; salesEvents := salesEvents x;
     tasks := tasks x; epcPresence := epcPresence x; customers := v;
     customerBasketItems := customerBasketItems x; pendingRFIDPicks := pendingRFIDPicks x;
     replenishmentConfirmations := replenishmentConfirmations x;
     receivingOrders := receivingOrders x; staff := staff x; taskAudit := taskAudit x;
     nowCursor := nowCursor x; generatedEpcSeq := generatedEpcSeq x;
     personalizableSkuIds := personalizableSkuIds x |}.

Definition set_customerBasketItems (v : list CustomerBasketItem) (x : Engine) : Engine :=
  {| zones := zones x; antennas := antennas x; mapping := mapping x; rules := rules x;
     skuSourceById := skuSourceById x; nonRfidBaselines := nonRfidBaselines x;
     snapshots := snapshots x; rfidEvents := rfidEvents x; salesEvents := salesEvents x;
     tasks := tasks x; epcPresence := epcPresence x; customers := customers x;
     customerBasketItems := v; pendingRFIDPicks := pendingRFIDPicks x;
     replenishmentConfirmations := replenishmentConfirmations x;
     receivingOrders := receivingOrders x; staff := staff x; taskAudit := taskAudit x;
     nowCursor := nowCursor x; generatedEpcSeq := generatedEpcSeq x;
     personalizableSkuIds := personalizableSkuIds x |}.

Definition set_pendingRFIDPicks (v : list PendingRFIDPick) (x : Engine) : Engine :=
  {| zones := zones x; antennas := antennas x; mapping := mapping x; rules := rules x;
     skuSourceById := skuSourceById x; nonRfidBaselines := nonRfidBaselines x;
     snapshots := snapshots x; rfidEvents := rfidEvents x; salesEvents := salesEvents x;
     tasks := tasks x; epcPresence := epcPresence x; customers := customers x;
     customerBasketItems := customerBasketItems x; pendingRFIDPicks := v;
     replenishmentConfirmations := replenishmentConfirmations x;
     receivingOrders := receivingOrders x; staff := staff x; taskAudit := taskAudit x;
     nowCursor := nowCursor x; generatedEpcSeq := generatedEpcSeq x;
     personalizableSkuIds := personalizableSkuIds x |}.

Definition set_replenishmentConfirmations (v : list ConfirmationMovement) (x : Engine) : Engine :=
  {| zones := zones x; antennas := antennas x; mapping := mapping x; rules := rules x;
     skuSourceById := skuSourceById x; nonRfidBaselines := nonRfidBaselines x;
     snapshots := snapshots x; rfidEvents := rfidEvents x; salesEvents := salesEvents x;
     tasks := tasks x; epcPresence := epcPresence x; customers := customers x;
     customerBasketItems := customerBasketItems x; pendingRFIDPicks := pendingRFIDPicks x;
     replenishmentConfirmations := v; receivingOrders := receivingOrders x; staff := staff x;
     taskAudit := taskAudit x; nowCursor := nowCursor x; generatedEpcSeq := generatedEpcSeq x;
     personalizableSkuIds := personalizableSkuIds x |}.

Definition set_receivingOrders (v : list ReceivingOrder) (x : Engine) : Engine :=
  {| zones := zones x; antennas := antennas x; mapping := mapping x; rules := rules x;
     skuSourceById := skuSourceById x; nonRfidBaselines := nonRfidBaselines x;
     snapshots := snapshots x; rfidEvents := rfidEvents x; salesEvents := salesEvents x;
     tasks := tasks x; epcPresence := epcPresence x; customers := customers x;
     customerBasketItems := customerBasketItems x; pendingRFIDPicks := pendingRFIDPicks x;
     replenishmentConfirmations := replenishmentConfirmations x; receivingOrders := v;
     staff := staff x; taskAudit := taskAudit x; nowCursor := nowCursor x;
     generatedEpcSeq := generatedEpcSeq x; personalizableSkuIds := personalizableSkuIds x |}.

Definition set_staff (v : list StaffMember) (x : Engine) : Engine :=
  {| zones := zones x; antennas := antennas x; mapping := mapping x; rules := rules x;
     skuSourceById := skuSourceById x; nonRfidBaselines := nonRfidBaselines x;
     snapshots := snapshots x; rfidEvents := rfidEvents x; salesEvents := salesEvents x;
     tasks := tasks x; epcPresence := epcPresence x; customers := customers x;
     customerBasketItems := customerBasketItems x; pendingRFIDPicks := pendingRFIDPicks x;
     replenishmentConfirmations := replenishmentConfirmations x;
     receivingOrders := receivingOrders x; staff := v; taskAudit := taskAudit x;
     nowCursor := nowCursor x; generatedEpcSeq := generatedEpcSeq x;
     personalizableSkuIds := personalizableSkuIds x |}.

Definition set_taskAudit (v : list TaskAuditEntry) (x : Engine) : Engine :=
  {| zones := zones x; antennas := antennas x; mapping := mapping x; rules := rules x;
     skuSourceById := skuSourceById x; nonRfidBaselines := nonRfidBaselines x;
     snapshots := snapshots x; rfidEvents := rfidEvents x; salesEvents := salesEvents x;
     tasks := tasks x; epcPresence := epcPresence x; customers := customers x;
     customerBasketItems := customerBasketItems x; pendingRFIDPicks := pendingRFIDPicks x;
     replenishmentConfirmations := replenishmentConfirmations x;
     receivingOrders := receivingOrders x; staff := staff x; taskAudit := v;
     nowCursor := nowCursor x; generatedEpcSeq := generatedEpcSeq x;
     personalizableSkuIds := personalizableSkuIds x |}.

Definition set_nowCursor (v : Z) (x : Engine) : Engine :=
  {| zones := zones x; antennas := antennas x; mapping := mapping x; rules := rules x;
     skuSourceById := skuSourceById x; nonRfidBaselines := nonRfidBaselines x;
     snapshots := snapshots x; rfidEvents := rfidEvents x; salesEvents := salesEvents x;
     tasks := tasks x; epcPresence := epcPresence x; customers := customers x;
     customerBasketItems := customerBasketItems x; pendingRFIDPicks := pendingRFIDPicks x;
     replenishmentConfirmations := replenishmentConfirmations x;
     receivingOrders := receivingOrders x; staff := staff x; taskAudit := taskAudit x;
     nowCursor := v; generatedEpcSeq := generatedEpcSeq x;
     personalizableSkuIds := personalizableSkuIds x |}.

Definition set_generatedEpcSeq (v : Z) (x : Engine) : Engine :=
  {| zones := zones x; antennas := antennas x; mapping := mapping x; rules := rules x;
     skuSourceById := skuSourceById x; nonRfidBaselines := nonRfidBaselines x;
     snapshots := snapshots x; rfidEvents := rfidEvents x; salesEvents := salesEvents x;
     tasks := tasks x; epcPresence := epcPresence x; customers := customers x;
     customerBasketItems := customerBasketItems x; pendingRFIDPicks := pendingRFIDPicks x;
     replenishmentConfirmations := replenishmentConfirmations x;
     receivingOrders := receivingOrders x; staff := staff x; taskAudit := taskAudit x;
     nowCursor := nowCursor x; generatedEpcSeq := v;
     personalizableSkuIds := personalizableSkuIds x |}.

(** ** The state monad of engine methods *)

Definition M (A : Type) : Type := Engine -> A * Engine.

Definition ret {A} (a : A) : M A := fun e => (a, e).

Definition bind {A B} (c : M A) (k : A -> M B) : M B :=
  fun e => let r := c e in k (fst r) (snd r).

Definition get : M Engine := fun e => (e, e).
Definition gets {A} (f : Engine -> A) : M A := fun e => (f e, e).
Definition modify (f : Engine -> Engine) : M unit := fun e => (tt, f e).

Declare Scope engine_scope.
Delimit Scope engine_scope with engine.
Notation "x <- c ;; k" := (bind c (fun x => k))
  (at level 61, c at next level, right associativity) : engine_scope.
Notation "c ;; k" := (bind c (fun _ => k))
  (at level 61, right associativity) : engine_scope.
Open Scope engine_scope.

(** [for (const x of xs) body(x)] *)
Fixpoint forEach {A} (l : list A) (body : A -> M unit) : M unit :=
  match l with
  | [] => ret tt
  | x :: r => body x ;; forEach r body
  end.

(** A loop that also carries local variables [s]. *)
Fixpoint foldM {A S} (l : list A) (s : S) (body : S -> A -> M S) : M S :=
  match l with
  | [] => ret s
  | x :: r => s' <- body s x ;; foldM r s' body
  end.

Definition when (b : bool) (c : M unit) : M unit := if b then c else ret tt.

Definition exec {A} (c : M A) (e : Engine) : Engine := snd (c e).
Definition eval {A} (c : M A) (e : Engine) : A := fst (c e).

(** ** Maps in insertion order *)

Fixpoint mapSet {V} (k : string) (v : V) (m : list (string * V)) : list (string * V) :=
  match m with
  | [] => [(k, v)]
  | (k', v') :: r => if String.eqb k' k then (k, v) :: r else (k', v') :: mapSet k v r
  end.

Definition mapGet {V} (k : string) (m : list (string * V)) : option V :=
  option_map snd (find (fun p => String.eqb (fst p) k) m).

Definition mapHas {V} (k : string) (m : list (string * V)) : bool :=
  existsb (fun p => String.eqb (fst p) k) m.

Definition mapDelete {V} (k : string) (m : list (string * V)) : list (string * V) :=
  filter (fun p => negb (String.eqb (fst p) k)) m.

Definition mapValues {V} (m : list (string * V)) : list V := map snd m.

(** [new Map(pairs)] *)
Definition mapOfList {V} (l : list (string * V)) : list (string * V) :=
  fold_left (fun m p => mapSet (fst p) (snd p) m) l [].

(** ** Constants *)

Definition dedupWindowSec : Z := 15.
Definition rfidPresenceTtlSec : Z := 300.
Definition CASHIER_STORAGE_ZONE_ID : string := "zone-cashier-storage".
Definition PRINTING_WALL_ZONE_ID : string := "zone-printing-wall".

(** [toMs("2026-02-10T10:00:00Z")] and [toMs("2026-02-10T09:00:00Z")] *)
Definition initialCursor : Z := 1770717600000.
Definition defaultBaselineAt : Z := 1770714000000.

Definition taskIsOpen (s : TaskStatus) : bool :=
  match s with CREATED | ASSIGNED | IN_PROGRESS => true | _ => false end.

(** An array paired with the positions of its elements. *)
Definition indexed {A} (l : list A) : list (nat * A) := combine (seq 0 (List.length l)) l.

Definition updTask (i : nat) (f : ReplenishmentTask -> ReplenishmentTask) (e : Engine) : Engine :=
  set_tasks (updateAt i f (tasks e)) e.

Definition updOrder (i : nat) (f : ReceivingOrder -> ReceivingOrder) (e : Engine) : Engine :=
  set_receivingOrders (updateAt i f (receivingOrders e)) e.

Definition skuSource (e : Engine) (skuId : string) : InventorySource :=
  match mapGet skuId (skuSourceById e) with Some s => s | None => NON_RFID end.

Definition findZone (e : Engine) (zoneId : string) : option Zone :=
  find (fun z => String.eqb (zone_id z) zoneId) (zones e).

(** [antennas.find(a => a.zoneId === zoneId)?.id ?? "system-transfer"] *)
Definition antennaOfZone (e : Engine) (zoneId : string) : string :=
  match find (fun a => String.eqb (ant_zoneId a) zoneId) (antennas e) with
  | Some a => ant_id a
  | None => "system-transfer"
  end.

Definition sortedSources (z : Zone) : list ReplenishmentSourceRef :=
  sortBy ref_sortOrder (zone_replenishmentSources z).

(** ** Audit and staff assignment *)

Definition pushTaskAudit (taskId : string) (action : AuditAction)
    (actorId : option string) (details : string) : M unit :=
  modify (fun e =>
    set_taskAudit (mkAudit taskId action actorId details (nowCursor e) :: taskAudit e) e).

Definition isAssociate (m : StaffMember) : bool :=
  match staff_role m with ASSOCIATE => true | SUPERVISOR => false end.

Definition getAssignableActiveStaff (e : Engine) : list StaffMember :=
  let activeAssociates := filter (fun m => staff_activeShift m && isAssociate m) (staff e) in
  if (0 <? List.length activeAssociates)%nat then activeAssociates
  else filter staff_activeShift (staff e).

Definition inScope (m : StaffMember) (zoneId : string) : bool :=
  staff_scopeAllZones m || includes (staff_zoneScopeZoneIds m) zoneId.

Definition hasAnyAssignableStaffInScope (e : Engine) (zoneId : string) : bool :=
  existsb (fun m => inScope m zoneId) (getAssignableActiveStaff e).

Definition loadOf (loadByStaff : list (string * Z)) (id : string) : Z :=
  match mapGet id loadByStaff with Some n => n | None => 0 end.

(** The [loadByStaff] map both assigners build: open tasks and orders in
    transit, counted per available member. *)
Definition bumpLoad (id : option string) (loadByStaff : list (string * Z)) : list (string * Z) :=
  match id with
  | Some s => if truthy s && mapHas s loadByStaff
              then mapSet s (loadOf loadByStaff s + 1) loadByStaff else loadByStaff
  | None => loadByStaff
  end.

Definition orderInTransit (o : ReceivingOrder) : bool :=
  match order_status o with IN_TRANSIT => true | _ => false end.

Definition initialLoad (e : Engine) (availableStaff : list StaffMember) : list (string * Z) :=
  let l0 := fold_left (fun m s => mapSet (staff_id s) 0 m) availableStaff [] in
  let l1 := fold_left (fun m t =>
              if taskIsOpen (task_status t) then bumpLoad (task_assignedStaffId t) m else m)
              (tasks e) l0 in
  fold_left (fun m o =>
              if orderInTransit o then bumpLoad (order_assignedStaffId o) m else m)
              (receivingOrders e) l1.

(** [assignPool.reduce(...)]: least load, ties to the smaller id. *)
Definition pickMember (loadByStaff : list (string * Z)) (assignPool : list StaffMember)
    : option StaffMember :=
  match assignPool with
  | [] => None
  | first :: rest =>
      Some (fold_left (fun selected candidate =>
              let selectedLoad := loadOf loadByStaff (staff_id selected) in
              let candidateLoad := loadOf loadByStaff (staff_id candidate) in
              if candidateLoad =? selectedLoad
              then (if String.ltb (staff_id candidate) (staff_id selected)
                    then candidate else selected)
              else (if candidateLoad <? selectedLoad then candidate else selected))
            rest first)
  end.

Definition assignPoolFor (availableStaff : list StaffMember) (zoneId : string)
    : list StaffMember * bool :=
  let eligibleByScope := filter (fun m => inScope m zoneId) availableStaff in
  if (0 <? List.length eligibleByScope)%nat then (eligibleByScope, true)
  else (availableStaff, false).

Definition isCreated (s : TaskStatus) : bool :=
  match s with CREATED => true | _ => false end.

(** One turn of the loop of [autoAssignPendingTasks] over the pending tasks. *)
Definition assignPendingTask (at_ : Z) (availableStaff : list StaffMember)
    (loadByStaff : list (string * Z)) (i : nat) : M (list (string * Z)) :=
  e <- get ;;
  match nth_error (tasks e) i with
  | None => ret loadByStaff
  | Some task =>
      let (assignPool, scoped) := assignPoolFor availableStaff (task_zoneId task) in
      match pickMember loadByStaff assignPool with
      | None => ret loadByStaff
      | Some member =>
          modify (updTask i (fun t =>
            task_set_updatedAt at_ (task_set_status ASSIGNED
              (task_set_assignedAt (Some at_)
                (task_set_assignedStaffId (Some (staff_id member)) t))))) ;;
          modify (set_nowCursor at_) ;;
          pushTaskAudit (task_id task) A_ASSIGNED (Some (staff_id member))
            (if scoped then "auto_assigned_to=" ++ staff_name member
             else "auto_assigned_fallback_to=" ++ staff_name member
                  ++ " reason=no_scope_match") ;;
          ret (mapSet (staff_id member) (loadOf loadByStaff (staff_id member) + 1)
                      loadByStaff)
      end
  end.

Definition autoAssignPendingTasks (at_ : Z) : M unit :=
  e <- get ;;
  let pendingTasks :=
    map fst (sortBy (fun p => task_createdAt (snd p))
      (filter (fun p => isCreated (task_status (snd p))
                        && negb (truthyOpt (task_assignedStaffId (snd p))))
              (indexed (tasks e)))) in
  if (List.length pendingTasks =? 0)%nat then ret tt else
  let availableStaff := getAssignableActiveStaff e in
  if (List.length availableStaff =? 0)%nat then ret tt else
  _ <- foldM pendingTasks (initialLoad e availableStaff)
         (assignPendingTask at_ availableStaff) ;;
  ret tt.

Definition autoAssignPendingReceivingOrders (at_ : Z) : M unit :=
  e <- get ;;
  let pendingOrders :=
    map fst (sortBy (fun p => order_createdAt (snd p))
      (filter (fun p => orderInTransit (snd p)
                        && negb (truthyOpt (order_assignedStaffId (snd p))))
              (indexed (receivingOrders e)))) in
  if (List.length pendingOrders =? 0)%nat then ret tt else
  let availableStaff := getAssignableActiveStaff e in
  if (List.length availableStaff =? 0)%nat then ret tt else
  _ <- foldM pendingOrders (initialLoad e availableStaff) (fun loadByStaff i =>
    e <- get ;;
    match nth_error (receivingOrders e) i with
    | None => ret loadByStaff
    | Some order =>
        let (assignPool, _) := assignPoolFor availableStaff (order_destinationZoneId order) in
        match pickMember loadByStaff assignPool with
        | None => ret loadByStaff
        | Some member =>
            modify (updOrder i (fun o =>
              order_set_updatedAt at_ (order_set_assignedAt (Some at_)
                (order_set_assignedStaffId (Some (staff_id member)) o)))) ;;
            modify (set_nowCursor at_) ;;
            ret (mapSet (staff_id member) (loadOf loadByStaff (staff_id member) + 1)
                        loadByStaff)
        end
    end) ;;
  ret tt.

(** ** Snapshots *)

Definition getBaselineKey (zoneId skuId : string) : string := zoneId ++ "::" ++ skuId.

Definition getBaselineSnapshot (e : Engine) (zoneId skuId : string) : InventorySnapshotByZone :=
  match mapGet (getBaselineKey zoneId skuId) (nonRfidBaselines e) with
  | Some exact => exact
  | None =>
      mkSnapshot ("baseline-" ++ zoneId ++ "-" ++ skuId) zoneId skuId 0 NON_RFID None
                 defaultBaselineAt 1
  end.

Definition snapMatches (zoneId skuId : string) (source : InventorySource)
    (s : InventorySnapshotByZone) : bool :=
  String.eqb (snap_zoneId s) zoneId && String.eqb (snap_skuId s) skuId
  && sourceEqb (snap_source s) source.

(** The matching snapshot with the latest [lastCalculatedAt] (the first of
    them on a tie), or 0. *)
Definition getCurrentInventoryQty (e : Engine) (zoneId skuId : string)
    (source : InventorySource) : Z :=
  match sortBy (fun s => - snap_lastCalculatedAt s)
               (filter (snapMatches zoneId skuId source) (snapshots e)) with
  | s :: _ => snap_qty s
  | [] => 0
  end.

Definition upsertSnapshot (zoneId skuId : string) (qty : Z) (source : InventorySource)
    (confidence : option Z) : M unit :=
  modify (fun e =>
    let existing := findIndex (snapMatches zoneId skuId source) (snapshots e) in
    if String.eqb zoneId CASHIER_STORAGE_ZONE_ID && (qty <=? 0) then
      match existing with
      | Some i => set_snapshots (removeAt i (snapshots e)) e
      | None => e
      end
    else
      match existing with
      | None =>
          set_snapshots
            (snapshots e ++
             [mkSnapshot ("snap-" ++ zoneId ++ "-" ++ skuId ++ "-" ++ showSource source)
                         zoneId skuId qty source confidence (nowCursor e) 1])%list e
      | Some i =>
          set_snapshots
            (updateAt i (fun s =>
               mkSnapshot (snap_id s) (snap_zoneId s) (snap_skuId s) qty (snap_source s)
                 (match confidence with Some c => Some c | None => snap_confidence s end)
                 (nowCursor e) (snap_version s + 1))
               (snapshots e)) e
      end).

(** ** Source candidates *)

Definition getReservedTaskQtyFromSource (e : Engine) (sourceZoneId skuId : string)
    (excludeTaskId : option string) : Z :=
  sumZ (map (fun t => Z.max 0 (task_deficitQty t))
    (filter (fun t =>
       negb (optEqb excludeTaskId (task_id t))
       && taskIsOpen (task_status t)
       && String.eqb (task_skuId t) skuId
       && optEqb (task_sourceZoneId t) sourceZoneId)
     (tasks e))).

Definition availableFrom (e : Engine) (sourceZoneId skuId : string)
    (source : InventorySource) (excludeTaskId : option string) : Z :=
  Z.max 0 (getCurrentInventoryQty e sourceZoneId skuId source
           - getReservedTaskQtyFromSource e sourceZoneId skuId excludeTaskId).

Definition buildSourceCandidates (e : Engine) (rule : ReplenishmentRule)
    (excludeTaskId : option string) : list SourceCandidate :=
  match findZone e (rule_zoneId rule) with
  | None => []
  | Some zone =>
      map (fun source =>
             mkCandidate (ref_sourceZoneId source) (ref_sortOrder source)
               (availableFrom e (ref_sourceZoneId source) (rule_skuId rule)
                              (rule_source rule) excludeTaskId))
          (sortedSources zone)
  end.

Definition firstAvailable (cands : list SourceCandidate) : option string :=
  option_map cand_sourceZoneId (find (fun c => 0 <? cand_availableQty c) cands).

Definition firstCandidate (cands : list SourceCandidate) : option string :=
  option_map cand_sourceZoneId (hd_error cands).

(** ** Replenishment tasks *)

Definition findTask (e : Engine) (taskId : string) : option (nat * ReplenishmentTask) :=
  find (fun p => String.eqb (task_id (snd p)) taskId) (indexed (tasks e)).

Definition closeReplenishmentTask (taskId : string) (reason : string) : M (option nat) :=
  e <- get ;;
  match findTask e taskId with
  | None => ret None
  | Some (i, task) =>
      if negb (taskIsOpen (task_status task)) then ret (Some i) else
      modify (updTask i (fun t =>
        task_set_updatedAt (nowCursor e) (task_set_closedAt (Some (nowCursor e))
          (task_set_closeReason (Some reason)
            (task_set_status (if startsWith reason "confirmed" then CONFIRMED else REJECTED)
               t))))) ;;
      pushTaskAudit (task_id task) A_CLOSED (task_confirmedBy task) ("reason=" ++ reason) ;;
      now <- gets nowCursor ;;
      autoAssignPendingTasks now ;;
      now <- gets nowCursor ;;
      autoAssignPendingReceivingOrders now ;;
      ret (Some i)
  end.

Definition generateReplenishmentTask (rule : ReplenishmentRule) (deficitQty triggerQty : Z)
    (sourceZoneId : option string) (sourceCandidatesInput : option (list SourceCandidate))
    : M nat :=
  e <- get ;;
  let sourceCandidates :=
    match sourceCandidatesInput with
    | Some c => c
    | None => buildSourceCandidates e rule None
    end in
  let selectedSource :=
    orElse sourceZoneId (orElse (firstAvailable sourceCandidates)
                                (firstCandidate sourceCandidates)) in
  let task :=
    mkTask ("task-" ++ showNat (List.length (tasks e) + 1)) (rule_id rule) (rule_zoneId rule)
           (rule_skuId rule) selectedSource (Some sourceCandidates) None None CREATED
           triggerQty deficitQty (rule_maxQty rule) (nowCursor e) (nowCursor e)
           None None None None in
  modify (set_tasks (tasks e ++ [task])%list) ;;
  pushTaskAudit (task_id task) A_CREATED None
    ("zone=" ++ task_zoneId task ++ " sku=" ++ task_skuId task
     ++ " deficit=" ++ showZ (task_deficitQty task)) ;;
  now <- gets nowCursor ;;
  autoAssignPendingTasks now ;;
  ret (List.length (tasks e)).

(** ** Receiving orders *)

Record ReceivingPayload : Type := mkReceivingPayload {
  rp_sourceLocationId : string;
  rp_destinationZoneId : string;
  rp_skuId : string;
  rp_source : InventorySource;
  rp_requestedQty : Z;
  rp_note : option string;
  rp_createdAt : Z
}.

Definition isExternal (id : string) : bool := startsWith id "external-".

Definition createReceivingOrder (payload : ReceivingPayload) : M string :=
  e <- get ;;
  let requestedQty := Z.max 0 (rp_requestedQty payload) in
  if requestedQty <=? 0 then ret "invalid_qty" else
  match findZone e (rp_destinationZoneId payload) with
  | None => ret "destination_not_found"
  | Some _ =>
  if negb (mapHas (rp_skuId payload) (skuSourceById e)) then ret "sku_not_found" else
  if negb (sourceEqb (skuSource e (rp_skuId payload)) (rp_source payload))
  then ret "source_mismatch" else
  let isExternalSource := isExternal (rp_sourceLocationId payload) in
  if negb isExternalSource
     && negb (existsb (fun z => String.eqb (zone_id z) (rp_sourceLocationId payload)) (zones e))
  then ret "source_not_found" else
  if negb isExternalSource
     && String.eqb (rp_sourceLocationId payload) (rp_destinationZoneId payload)
  then ret "source_equals_destination" else
  modify (set_nowCursor (rp_createdAt payload)) ;;
  let order :=
    mkOrder ("recv-" ++ showNat (List.length (receivingOrders e) + 1))
            (rp_sourceLocationId payload) (rp_destinationZoneId payload) (rp_skuId payload)
            (rp_source payload) None None requestedQty 0 IN_TRANSIT
            (rp_createdAt payload) (rp_createdAt payload) None None (rp_note payload) in
  modify (set_receivingOrders (order :: receivingOrders e)) ;;
  autoAssignPendingReceivingOrders (rp_createdAt payload) ;;
  ret "created"
  end.

Definition resolveInboundSourceLocation (e : Engine) (zone : Zone) (rule : ReplenishmentRule)
    (requiredQty : Z) : string :=
  let ordered := sortedSources zone in
  match ordered with
  | [] => "external-esbo"
  | first :: _ =>
      let internalCandidates :=
        map (fun source =>
               (ref_sourceZoneId source,
                getCurrentInventoryQty e (ref_sourceZoneId source) (rule_skuId rule)
                                       (rule_source rule)))
            (filter (fun source => negb (isExternal (ref_sourceZoneId source))) ordered) in
      match find (fun c => requiredQty <=? snd c) internalCandidates with
      | Some enoughInternal => fst enoughInternal
      | None =>
      match find (fun c => 0 <? snd c) internalCandidates with
      | Some someInternal => fst someInternal
      | None =>
      match find (fun source => isExternal (ref_sourceZoneId source)) ordered with
      | Some firstExternal => ref_sourceZoneId firstExternal
      | None => ref_sourceZoneId first
      end end end
  end.

Definition isInProgress (s : TaskStatus) : bool :=
  match s with IN_PROGRESS => true | _ => false end.

(** A loop over references into [this.tasks], reading each task when its
    turn comes. *)
Definition forTasks (refs : list nat) (body : nat -> ReplenishmentTask -> M unit) : M unit :=
  forEach refs (fun i =>
    e <- get ;;
    match nth_error (tasks e) i with
    | Some t => body i t
    | None => ret tt
    end).

Definition evaluateInboundReceivingNeed (zone : Zone) (rule : ReplenishmentRule)
    (currentQty : Z) : M unit :=
  e <- get ;;
  forTasks (seq 0 (List.length (tasks e))) (fun _ task =>
    if negb (String.eqb (task_ruleId task) (rule_id rule)) then ret tt else
    if negb (taskIsOpen (task_status task)) then ret tt else
    if isInProgress (task_status task) then ret tt else
    closeReplenishmentTask (task_id task) "non_sales_receiving_flow" ;; ret tt) ;;
  if rule_minQty rule <? currentQty then ret tt else
  let desiredQty := Z.max 0 (rule_maxQty rule - currentQty) in
  if desiredQty <=? 0 then ret tt else
  e <- get ;;
  let plannedInTransitQty :=
    sumZ (map (fun order => Z.max 0 (order_requestedQty order))
      (filter (fun order =>
         orderInTransit order
         && String.eqb (order_destinationZoneId order) (zone_id zone)
         && String.eqb (order_skuId order) (rule_skuId rule)
         && sourceEqb (order_source order) (rule_source rule))
       (receivingOrders e))) in
  let remainingQty := Z.max 0 (desiredQty - plannedInTransitQty) in
  if remainingQty <=? 0 then ret tt else
  let sourceLocationId := resolveInboundSourceLocation e zone rule remainingQty in
  createReceivingOrder
    (mkReceivingPayload sourceLocationId (zone_id zone) (rule_skuId rule) (rule_source rule)
       remainingQty (Some "auto_replenishment_non_sales") (nowCursor e)) ;;
  ret tt.

(** ** Min/max evaluation *)

(** [this.tasks.filter(t => t.ruleId === rule.id && taskIsOpen(t.status))
      .sort(by createdAt)], as references. *)
Definition openTaskRefs (e : Engine) (ruleId : string) : list nat :=
  map fst (sortBy (fun p => task_createdAt (snd p))
    (filter (fun p => String.eqb (task_ruleId (snd p)) ruleId
                      && taskIsOpen (task_status (snd p)))
            (indexed (tasks e)))).

Definition notInProgress (e : Engine) (refs : list nat) : list nat :=
  filter (fun i => match nth_error (tasks e) i with
                   | Some t => negb (isInProgress (task_status t))
                   | None => false
                   end) refs.

Definition deficitAt (e : Engine) (i : nat) : Z :=
  match nth_error (tasks e) i with Some t => task_deficitQty t | None => 0 end.

Definition sourceKeyAt (e : Engine) (i : nat) : string :=
  match nth_error (tasks e) i with
  | Some t => match task_sourceZoneId t with Some s => s | None => "__none__" end
  | None => "__none__"
  end.

(** The merge step: several adjustable tasks of one rule collapse into the
    oldest when the destination has at most one source or they share one. *)
Definition mergePlan (zone : Zone) (rule : ReplenishmentRule)
    (openTasks autoRejectableTasks : list nat) : M (list nat * list nat) :=
  if negb (1 <? List.length autoRejectableTasks)%nat
  then ret (openTasks, autoRejectableTasks) else
  e <- get ;;
  let distinctTaskSources := dedup (map (sourceKeyAt e) autoRejectableTasks) in
  let singleSourceDestination :=
    (List.length (zone_replenishmentSources zone) <=? 1)%nat in
  let singleTaskSource := (List.length distinctTaskSources <=? 1)%nat in
  if negb (singleSourceDestination || singleTaskSource)
  then ret (openTasks, autoRejectableTasks) else
  match autoRejectableTasks with
  | [] => ret (openTasks, autoRejectableTasks)
  | keeper :: extraTasks =>
      let mergedDeficit :=
        fold_left (fun sum i => sum + Z.max 0 (deficitAt e i)) autoRejectableTasks 0 in
      modify (updTask keeper (fun t =>
        task_set_updatedAt (nowCursor e) (task_set_deficitQty mergedDeficit t))) ;;
      forTasks extraTasks (fun _ extraTask =>
        closeReplenishmentTask (task_id extraTask) "merged_plan" ;; ret tt) ;;
      e <- get ;;
      let openTasks := openTaskRefs e (rule_id rule) in
      ret (openTasks, notInProgress e openTasks)
  end.

(** The trim step, newest task first, while [overflow] is positive. *)
Definition trimPlan (autoRejectableTasks : list nat) (overflow : Z) : M Z :=
  foldM (List.rev autoRejectableTasks) overflow (fun overflow i =>
    if overflow <=? 0 then ret overflow else
    e <- get ;;
    match nth_error (tasks e) i with
    | None => ret overflow
    | Some task =>
        if task_deficitQty task <=? overflow then
          closeReplenishmentTask (task_id task) "plan_adjusted" ;;
          ret (overflow - task_deficitQty task)
        else
          modify (updTask i (fun t =>
            task_set_updatedAt (nowCursor e)
              (task_set_deficitQty (task_deficitQty t - overflow) t))) ;;
          ret 0
    end).

(** The source refresh of every task that was open when the rule's turn began. *)
Definition refreshSources (rule : ReplenishmentRule) (openTasks : list nat) : M unit :=
  forTasks openTasks (fun i task =>
    e <- get ;;
    let sourceCandidates := buildSourceCandidates e rule (Some (task_id task)) in
    modify (updTask i (fun t =>
      task_set_updatedAt (nowCursor e)
        (task_set_sourceZoneId
           (orElse (task_sourceZoneId t)
                   (orElse (firstAvailable sourceCandidates) (firstCandidate sourceCandidates)))
           (task_set_sourceCandidates (Some sourceCandidates) t))))).

(** The trigger step: split [remainingQty] over the candidates in order. *)
Definition triggerPlan (rule : ReplenishmentRule) (currentQty remainingQty : Z) : M unit :=
  e <- get ;;
  let candidates := buildSourceCandidates e rule None in
  r <- foldM candidates (false, remainingQty) (fun st source =>
         let '(createdAnyTask, remainingQty) := st in
         if remainingQty <=? 0 then ret st else
         let allocQty := Z.min remainingQty (cand_availableQty source) in
         if allocQty <=? 0 then ret st else
         generateReplenishmentTask rule allocQty currentQty
           (Some (cand_sourceZoneId source)) (Some candidates) ;;
         ret (true, remainingQty - allocQty)) ;;
  let '(createdAnyTask, remainingQty) := r in
  if negb createdAnyTask && (0 <? remainingQty) then
    generateReplenishmentTask rule remainingQty currentQty
      (firstCandidate candidates) (Some candidates) ;;
    ret tt
  else ret tt.

(** The body of the loop of [evaluateMinMax] for a sales location. *)
Definition evaluateSalesRule (zone : Zone) (rule : ReplenishmentRule) (currentQty : Z)
    : M unit :=
  e <- get ;;
  let openTasks := openTaskRefs e (rule_id rule) in
  let autoRejectableTasks := notInProgress e openTasks in
  merged <- mergePlan zone rule openTasks autoRejectableTasks ;;
  let '(openTasks, autoRejectableTasks) := merged in
  if rule_maxQty rule <=? currentQty then
    forTasks autoRejectableTasks (fun _ task =>
      closeReplenishmentTask (task_id task) "stock_recovered" ;; ret tt)
  else
    let desiredQty := Z.max 0 (rule_maxQty rule - currentQty) in
    e <- get ;;
    let plannedQty := fold_left (fun sum i => sum + deficitAt e i) openTasks 0 in
    plannedQty <-
      (if desiredQty <? plannedQty then
         trimPlan autoRejectableTasks (plannedQty - desiredQty) ;; ret desiredQty
       else ret plannedQty) ;;
    refreshSources rule openTasks ;;
    if currentQty <=? rule_minQty rule then
      let remainingQty := Z.max 0 (desiredQty - plannedQty) in
      if remainingQty <=? 0 then ret tt
      else triggerPlan rule currentQty remainingQty
    else ret tt.

Definition evaluateMinMax (zoneId : string) : M unit :=
  e <- get ;;
  let rules := filter (fun r => String.eqb (rule_zoneId r) zoneId && rule_isActive r)
                      (rules e) in
  match findZone e zoneId with
  | None => ret tt
  | Some zone =>
      forEach rules (fun rule =>
        e <- get ;;
        let currentQty :=
          getCurrentInventoryQty e zoneId (rule_skuId rule) (rule_source rule) in
        if negb (zone_isSalesLocation zone)
        then evaluateInboundReceivingNeed zone rule currentQty
        else evaluateSalesRule zone rule currentQty)
  end.

(** ** Quantity computation *)

Definition isSale (s : SalesEvent) : bool :=
  match sale_eventType s with SALE => true | RETURN => false end.

Definition calculateNonRFIDInventory (e : Engine) (skuId zoneId : string) : Z :=
  let baseline := getBaselineSnapshot e zoneId skuId in
  let baselineMs := snap_lastCalculatedAt baseline in
  let sold :=
    fold_left (fun acc s => acc + sale_qty s)
      (filter (fun s => String.eqb (sale_zoneId s) zoneId && String.eqb (sale_skuId s) skuId
                        && isSale s && (baselineMs <=? sale_timestamp s))
              (salesEvents e)) 0 in
  let returns :=
    fold_left (fun acc s => acc + sale_qty s)
      (filter (fun s => String.eqb (sale_zoneId s) zoneId && String.eqb (sale_skuId s) skuId
                        && negb (isSale s) && (baselineMs <=? sale_timestamp s))
              (salesEvents e)) 0 in
  let confirmedReplenishment :=
    fold_left (fun acc c => acc + mov_qty c)
      (filter (fun c => String.eqb (mov_zoneId c) zoneId && String.eqb (mov_skuId c) skuId
                        && (baselineMs <=? mov_timestamp c))
              (replenishmentConfirmations e)) 0 in
  Z.max 0 (snap_qty baseline - sold + returns + confirmedReplenishment).

Definition ttlMs : Z := rfidPresenceTtlSec * 1000.

(** [bySku]: the present EPCs of a location, grouped by SKU in first-seen order. *)
Definition presentBySku (e : Engine) (zoneId : string) : list (string * list string) :=
  fold_left (fun bySku p =>
      if negb (String.eqb (pres_zoneId p) zoneId) then bySku else
      if pres_lastSeenAt p <? nowCursor e - ttlMs then bySku else
      let bucket := match mapGet (pres_skuId p) bySku with Some b => b | None => [] end in
      mapSet (pres_skuId p)
             (if includes bucket (pres_epc p) then bucket else (bucket ++ [pres_epc p])%list)
             bySku)
    (mapValues (epcPresence e)) [].

Definition isRfid (s : InventorySource) : bool := sourceEqb s RFID.

Definition calculateZoneInventory (zoneId : string) : M (list InventorySnapshotByZone) :=
  e <- get ;;
  let bySku := presentBySku e zoneId in
  let rfidSkuCandidates :=
    dedup (map fst bySku
           ++ map rule_skuId
                (filter (fun r => String.eqb (rule_zoneId r) zoneId
                                  && isRfid (rule_source r) && rule_isActive r) (rules e))
           ++ map snap_skuId
                (filter (fun s => String.eqb (snap_zoneId s) zoneId && isRfid (snap_source s))
                        (snapshots e)))%list in
  forEach rfidSkuCandidates (fun skuId =>
    let qty := match mapGet skuId bySku with
               | Some b => Z.of_nat (List.length b)
               | None => 0
               end in
    upsertSnapshot zoneId skuId qty RFID (Some (if 0 <? qty then 90 else 70))) ;;
  let nonRfidSkusInZone :=
    map rule_skuId
      (filter (fun r => String.eqb (rule_zoneId r) zoneId
                        && negb (isRfid (rule_source r)) && rule_isActive r) (rules e)) in
  forEach (dedup nonRfidSkusInZone) (fun skuId =>
    e <- get ;;
    upsertSnapshot zoneId skuId (calculateNonRFIDInventory e skuId zoneId) NON_RFID None) ;;
  evaluateMinMax zoneId ;;
  gets (fun e => filter (fun s => String.eqb (snap_zoneId s) zoneId) (snapshots e)).

(** ** RFID reads and presence *)

Definition getPresentEPCs (e : Engine) (zoneId skuId : string) : list string :=
  map pres_epc
    (sortBy pres_lastSeenAt
      (filter (fun p => String.eqb (pres_zoneId p) zoneId && String.eqb (pres_skuId p) skuId
                        && negb (pres_lastSeenAt p <? nowCursor e - ttlMs))
              (mapValues (epcPresence e)))).

Definition lookupSkuByEPC (e : Engine) (epc : string) (at_ : Z) : option EPCSkuMapping :=
  find (fun m =>
          String.eqb (map_epc m) epc
          && (map_activeFrom m <=? at_)
          && match map_activeTo m with Some t => at_ <=? t | None => true end)
       (mapping e).

Definition deduplicateReads (e : Engine) (epc antennaId : string) (timeWindowSec : Z)
    (eventTimestamp : Z) : bool :=
  let lowerBound := eventTimestamp - timeWindowSec * 1000 in
  match find (fun r => String.eqb (read_epc r) epc && String.eqb (read_antennaId r) antennaId)
             (List.rev (rfidEvents e)) with
  | None => false
  | Some last => lowerBound <=? read_timestamp last
  end.

Definition deletePresence (epcs : list string) (e : Engine) : Engine :=
  set_epcPresence (fold_left (fun m epc => mapDelete epc m) epcs (epcPresence e)) e.

Definition pickActive (p : PendingRFIDPick) : bool :=
  match pick_status p with PICK_IN_PROGRESS => true | PICK_COMPLETED => false end.

Definition applyPendingRFIDPicks (zoneId : string) : M Z :=
  e <- get ;;
  let pending :=
    map fst (filter (fun p => String.eqb (pick_zoneId (snd p)) zoneId && pickActive (snd p))
                    (indexed (pendingRFIDPicks e))) in
  if (List.length pending =? 0)%nat then ret 0 else
  removedEpcs <- foldM pending 0 (fun removedEpcs i =>
    e <- get ;;
    match nth_error (pendingRFIDPicks e) i with
    | None => ret removedEpcs
    | Some pick =>
        let epcs := slice0 (pick_qtyRemaining pick)
                           (getPresentEPCs e (pick_zoneId pick) (pick_skuId pick)) in
        let n := Z.of_nat (List.length epcs) in
        if n =? 0 then ret removedEpcs else
        modify (deletePresence epcs) ;;
        modify (fun e => set_pendingRFIDPicks
          (updateAt i (fun p =>
             let remaining := pick_qtyRemaining p - n in
             let p1 := pick_set_qtyRemaining remaining
                         (pick_set_consumedEpcs (pick_consumedEpcs p ++ epcs)%list p) in
             if remaining <=? 0
             then pick_set_status PICK_COMPLETED (pick_set_qtyRemaining 0 p1) else p1)
           (pendingRFIDPicks e)) e) ;;
        modify (fun e =>
          match findIndex (fun it => String.eqb (item_id it) (pick_basketItemId pick))
                          (customerBasketItems e) with
          | Some b => set_customerBasketItems
                        (updateAt b (fun it =>
                           item_set_pickedConfirmedQty (item_pickedConfirmedQty it + n) it)
                         (customerBasketItems e)) e
          | None => e
          end) ;;
        ret (removedEpcs + n)
    end) ;;
  evaluateMinMax zoneId ;;
  ret removedEpcs.

Definition ingestRFIDRead (event : RFIDReadEvent) : M (string * option string) :=
  e <- get ;;
  match find (fun a => String.eqb (ant_id a) (read_antennaId event)
                       && String.eqb (ant_zoneId a) (read_zoneId event)) (antennas e) with
  | None => ret ("invalid_antenna_or_zone", None)
  | Some _ =>
  if deduplicateReads e (read_epc event) (read_antennaId event) dedupWindowSec
                      (read_timestamp event)
  then ret ("duplicate_ignored", None) else
  match lookupSkuByEPC e (read_epc event) (read_timestamp event) with
  | None => ret ("unknown_epc", None)
  | Some mapping =>
      modify (set_rfidEvents (rfidEvents e ++ [event])%list) ;;
      modify (set_nowCursor (read_timestamp event)) ;;
      modify (fun e => set_epcPresence
        (mapSet (read_epc event)
           (mkPresence (read_epc event) (map_skuId mapping) (read_zoneId event)
                       (read_antennaId event) (read_timestamp event) (read_rssi event))
           (epcPresence e)) e) ;;
      applyPendingRFIDPicks (read_zoneId event) ;;
      calculateZoneInventory (read_zoneId event) ;;
      ret ("accepted", Some (map_skuId mapping))
  end end.

(** [for (const presence of this.epcPresence.values())
      if (presence.zoneId === zoneId) presence.lastSeenAt = timestamp] *)
Definition refreshPresence (zoneId : string) (timestamp : Z) (e : Engine) : Engine :=
  set_epcPresence
    (map (fun kv => if String.eqb (pres_zoneId (snd kv)) zoneId
                    then (fst kv, pres_set_lastSeenAt timestamp (snd kv)) else kv)
         (epcPresence e)) e.

Definition forceZoneSweep (zoneId : string) (timestamp : Z) : M (string * option Z) :=
  e <- get ;;
  match findZone e zoneId with
  | None => ret ("zone_not_found", None)
  | Some _ =>
      modify (set_nowCursor timestamp) ;;
      modify (refreshPresence zoneId timestamp) ;;
      removedEpcs <- applyPendingRFIDPicks zoneId ;;
      calculateZoneInventory zoneId ;;
      ret ("accepted", Some removedEpcs)
  end.

Definition scanZone (zoneId : string) (timestamp : Z) : M string :=
  e <- get ;;
  match findZone e zoneId with
  | None => ret "zone_not_found"
  | Some _ =>
      modify (set_nowCursor timestamp) ;;
      modify (refreshPresence zoneId timestamp) ;;
      calculateZoneInventory zoneId ;;
      ret "accepted"
  end.

(** ** Sales *)

Definition deductRFIDImmediate (zoneId skuId : string) (qty : Z) : M unit :=
  e <- get ;;
  let beforeQty := getCurrentInventoryQty e zoneId skuId RFID in
  let epcs := slice0 qty (getPresentEPCs e zoneId skuId) in
  modify (deletePresence epcs) ;;
  calculateZoneInventory zoneId ;;
  let targetQty := Z.max 0 (beforeQty - qty) in
  e <- get ;;
  let recalculatedQty := getCurrentInventoryQty e zoneId skuId RFID in
  if targetQty <? recalculatedQty then
    upsertSnapshot zoneId skuId targetQty RFID (Some 55) ;;
    evaluateMinMax zoneId
  else ret tt.

Definition restoreRFIDQty (zoneId skuId : string) (qty : Z) : M unit :=
  e <- get ;;
  let currentQty := getCurrentInventoryQty e zoneId skuId RFID in
  upsertSnapshot zoneId skuId (currentQty + qty) RFID (Some 55) ;;
  evaluateMinMax zoneId.

Definition ingestSalesEvent (event : SalesEvent) : M string :=
  modify (fun e => set_salesEvents (salesEvents e ++ [event])%list e) ;;
  modify (set_nowCursor (sale_timestamp event)) ;;
  e <- get ;;
  let source := skuSource e (sale_skuId event) in
  if isRfid source && isSale event then
    deductRFIDImmediate (sale_zoneId event) (sale_skuId event) (sale_qty event) ;;
    ret "accepted_rfid_immediate"
  else
    calculateZoneInventory (sale_zoneId event) ;;
    ret "accepted".

(** ** Customer cart *)

Definition upsertCustomer (id : string) (name : option string) : M Customer :=
  e <- get ;;
  match mapGet id (customers e) with
  | Some existing =>
      match name with
      | Some n =>
          if truthy n then
            let updated := mkCustomer (cust_id existing) n in
            modify (set_customers (mapSet id updated (customers e))) ;; ret updated
          else ret existing
      | None => ret existing
      end
  | None =>
      let customer := mkCustomer id (match name with Some n => n | None => id end) in
      modify (set_customers (mapSet id customer (customers e))) ;; ret customer
  end.

Definition getCustomers (e : Engine) : list Customer := mapValues (customers e).

Definition inCart (it : CustomerBasketItem) : bool :=
  match item_status it with IN_CART => true | _ => false end.

Definition getReservedOpenQty (e : Engine) (zoneId skuId : string) : Z :=
  fold_left (fun sum item =>
      if isRfid (skuSource e (item_skuId item))
      then sum + Z.max 0 (item_qty item - item_pickedConfirmedQty item)
      else sum + item_qty item)
    (filter (fun item => inCart item && String.eqb (item_zoneId item) zoneId
                         && String.eqb (item_skuId item) skuId)
            (customerBasketItems e)) 0.

Definition getAvailableQtyForCart (e : Engine) (zoneId skuId : string)
    (source : InventorySource) : Z :=
  let currentQty := getCurrentInventoryQty e zoneId skuId source in
  let reservedQty := getReservedOpenQty e zoneId skuId in
  Z.max 0 (currentQty - reservedQty).

Record AddItemPayload : Type := mkAddItem {
  add_customerId : string;
  add_zoneId : string;
  add_skuId : string;
  add_qty : Z;
  add_timestamp : Z
}.

Record AddItemResult : Type := mkAddResult {
  addr_status : string;
  addr_basketItemId : option string;
  addr_availableQty : option Z
}.

Definition addCustomerItem (hostNow : Z) (payload : AddItemPayload) : M AddItemResult :=
  modify (set_nowCursor (add_timestamp payload)) ;;
  upsertCustomer (add_customerId payload) None ;;
  e <- get ;;
  match findZone e (add_zoneId payload) with
  | None => ret (mkAddResult "zone_not_found" None None)
  | Some zone =>
  if negb (zone_isSalesLocation zone) then ret (mkAddResult "zone_not_orderable" None None) else
  calculateZoneInventory (add_zoneId payload) ;;
  e <- get ;;
  let source := skuSource e (add_skuId payload) in
  let availableQty := getAvailableQtyForCart e (add_zoneId payload) (add_skuId payload) source in
  if availableQty <? add_qty payload
  then ret (mkAddResult "insufficient_inventory" None (Some availableQty)) else
  let item :=
    mkBasketItem ("basket-" ++ showZ hostNow ++ "-"
                  ++ showNat (List.length (customerBasketItems e) + 1))
                 (add_customerId payload) (add_zoneId payload) (add_skuId payload)
                 (add_qty payload) 0 IN_CART (add_timestamp payload) in
  modify (set_customerBasketItems (customerBasketItems e ++ [item])%list) ;;
  when (isRfid source)
    (modify (fun e => set_pendingRFIDPicks
       (pendingRFIDPicks e ++
        [mkPick (item_id item) (add_zoneId payload) (add_skuId payload) (add_qty payload)
                [] PICK_IN_PROGRESS])%list e)) ;;
  evaluateMinMax (add_zoneId payload) ;;
  ret (mkAddResult "accepted" (Some (item_id item)) None)
  end.

Definition getCustomerBasket (e : Engine) (customerId : string) : list CustomerBasketItem :=
  filter (fun item => String.eqb (item_customerId item) customerId && inCart item)
         (customerBasketItems e).

(** [EPC-RCV-<seq padded to six digits>] *)
Definition generatedEpc (seq : Z) : string :=
  "EPC-RCV-" ++ padStart 6 "0"%char (showZ seq).

Definition createExternalRFIDForDestination (skuId destinationZoneId : string) (qty : Z)
    (at_ : Z) : M Z :=
  e <- get ;;
  let destinationAntenna := antennaOfZone e destinationZoneId in
  foldM (seq 0 (Z.to_nat qty)) 0 (fun created _ =>
    e <- get ;;
    let epc := generatedEpc (generatedEpcSeq e) in
    modify (set_generatedEpcSeq (generatedEpcSeq e + 1)) ;;
    modify (fun e => set_mapping
      (mapping e ++ [mkMapping ("map-rcv-" ++ toLowerCase epc) epc skuId None at_ None])%list e) ;;
    modify (fun e => set_epcPresence
      (mapSet epc (mkPresence epc skuId destinationZoneId destinationAntenna at_ None)
              (epcPresence e)) e) ;;
    ret (created + 1)).

Definition completePick (p : PendingRFIDPick) : PendingRFIDPick :=
  pick_set_qtyRemaining 0 (pick_set_status PICK_COMPLETED p).

(** Re-materialise the EPCs a basket item's pending picks consumed, in
    [zoneId], and close those picks; the count of EPCs restored. *)
Definition restoreConsumedEpcs (basketItemId skuId zoneId destinationAntenna : string)
    (at_ : Z) : M Z :=
  e <- get ;;
  foldM (seq 0 (List.length (pendingRFIDPicks e))) 0 (fun restored i =>
    e <- get ;;
    match nth_error (pendingRFIDPicks e) i with
    | None => ret restored
    | Some pending =>
        if negb (String.eqb (pick_basketItemId pending) basketItemId) then ret restored else
        modify (fun e => set_epcPresence
          (fold_left (fun m epc =>
             mapSet epc (mkPresence epc skuId zoneId destinationAntenna at_ None) m)
             (pick_consumedEpcs pending) (epcPresence e)) e) ;;
        modify (fun e => set_pendingRFIDPicks
          (updateAt i (fun p => completePick (pick_set_consumedEpcs [] p))
                    (pendingRFIDPicks e)) e) ;;
        ret (restored + Z.of_nat (List.length (pick_consumedEpcs pending)))
    end).

Definition updItem (i : nat) (f : CustomerBasketItem -> CustomerBasketItem) (e : Engine)
    : Engine :=
  set_customerBasketItems (updateAt i f (customerBasketItems e)) e.

Definition removeCustomerItem (basketItemId : string) (timestamp : Z) : M (string * Z) :=
  modify (set_nowCursor timestamp) ;;
  e <- get ;;
  match find (fun p => String.eqb (item_id (snd p)) basketItemId)
             (indexed (customerBasketItems e)) with
  | None => ret ("not_found_or_closed", 0)
  | Some (i, item) =>
  if negb (inCart item) then ret ("not_found_or_closed", 0) else
  let source := skuSource e (item_skuId item) in
  restoredQty <-
    (if isRfid source then
       restored <- restoreConsumedEpcs (item_id item) (item_skuId item) (item_zoneId item)
                     (antennaOfZone e (item_zoneId item)) timestamp ;;
       restored <-
         (if restored <? item_pickedConfirmedQty item then
            created <- createExternalRFIDForDestination (item_skuId item) (item_zoneId item)
                         (item_pickedConfirmedQty item - restored) timestamp ;;
            ret (restored + created)
          else ret restored) ;;
       modify (updItem i (item_set_pickedConfirmedQty 0)) ;;
       ret restored
     else
       modify (fun e => set_pendingRFIDPicks
         (map (fun p => if String.eqb (pick_basketItemId p) (item_id item)
                        then completePick p else p)
              (pendingRFIDPicks e)) e) ;;
       ret 0) ;;
  modify (updItem i (item_set_status REMOVED)) ;;
  calculateZoneInventory (item_zoneId item) ;;
  ret ("removed", restoredQty)
  end.

(** ** Transfers *)

(** [presence.zoneId = ...; presence.antennaId = ...; presence.lastSeenAt = ...]
    for every EPC of [epcs] that has a presence record. *)
Definition rebindPresence (epcs : list string) (zoneId antennaId : string) (at_ : Z)
    (e : Engine) : Engine :=
  set_epcPresence
    (fold_left (fun m epc =>
       match mapGet epc m with
       | Some presence =>
           mapSet epc (pres_set_lastSeenAt at_ (pres_set_antennaId antennaId
                         (pres_set_zoneId zoneId presence))) m
       | None => m
       end) epcs (epcPresence e)) e.

Definition moveRFIDEpcs (sourceZoneId destinationZoneId skuId : string) (qty : Z) (at_ : Z)
    : M (list string) :=
  e <- get ;;
  let movedEpcs := slice0 qty (getPresentEPCs e sourceZoneId skuId) in
  let destinationAntenna := antennaOfZone e destinationZoneId in
  modify (rebindPresence movedEpcs destinationZoneId destinationAntenna at_) ;;
  ret movedEpcs.

Definition transferConsumedPendingEpcsToZone (basketItemId skuId destinationZoneId : string)
    (at_ : Z) : M Z :=
  e <- get ;;
  restoreConsumedEpcs basketItemId skuId destinationZoneId
    (antennaOfZone e destinationZoneId) at_.

Definition transferNonRfid (sourceZoneId destinationZoneId skuId : string) (qty : Z) : M Z :=
  e <- get ;;
  let currentSource := getCurrentInventoryQty e sourceZoneId skuId NON_RFID in
  let movedQty := Z.min (Z.max 0 qty) currentSource in
  if movedQty <=? 0 then ret 0 else
  upsertSnapshot sourceZoneId skuId (currentSource - movedQty) NON_RFID None ;;
  e <- get ;;
  let currentDestination := getCurrentInventoryQty e destinationZoneId skuId NON_RFID in
  upsertSnapshot destinationZoneId skuId (currentDestination + movedQty) NON_RFID None ;;
  ret movedQty.

Record TransferResult : Type := mkTransfer {
  tr_movedQty : Z;
  tr_movedEpcs : list string;
  tr_sourceType : InventorySource;
  tr_destinationAntennaId : option string
}.

Definition applyTransferFromSource (sourceZoneId destinationZoneId skuId : string) (qty : Z)
    : M TransferResult :=
  e <- get ;;
  let sourceType := skuSource e skuId in
  if isRfid sourceType then
    let movedEpcs := slice0 qty (getPresentEPCs e sourceZoneId skuId) in
    let destinationAntenna := antennaOfZone e destinationZoneId in
    let baseTs := nowCursor e in
    modify (rebindPresence movedEpcs destinationZoneId destinationAntenna (nowCursor e)) ;;
    modify (fun e => set_rfidEvents
      (rfidEvents e ++
       map (fun p =>
              let index := Z.of_nat (fst p) in
              let ts := baseTs + index in
              mkRead ("rr-transfer-" ++ sourceZoneId ++ "-" ++ destinationZoneId ++ "-"
                      ++ snd p ++ "-" ++ showZ baseTs ++ "-" ++ showZ index)
                     (snd p) destinationAntenna destinationZoneId ts (Some (-475)) ts)
           (indexed movedEpcs))%list e) ;;
    ret (mkTransfer (Z.of_nat (List.length movedEpcs)) movedEpcs sourceType
                    (Some destinationAntenna))
  else
    let current := getCurrentInventoryQty e sourceZoneId skuId NON_RFID in
    let movedQty := Z.min (Z.max 0 qty) current in
    upsertSnapshot sourceZoneId skuId (current - movedQty) NON_RFID None ;;
    ret (mkTransfer movedQty [] sourceType None).

(** ** Personalisation sales *)

Definition getProjectedSupplyForOrigin (e : Engine) (zone : Zone) (skuId : string)
    (source : InventorySource) : Z :=
  let currentInOrigin := getCurrentInventoryQty e (zone_id zone) skuId source in
  let openInboundQty :=
    fold_left (fun sum task => sum + Z.max 0 (task_deficitQty task))
      (filter (fun task => String.eqb (task_zoneId task) (zone_id zone)
                           && String.eqb (task_skuId task) skuId
                           && taskIsOpen (task_status task))
              (tasks e)) 0 in
  let sourcePotentialQty :=
    fold_left (fun sum sourceRef =>
                 sum + availableFrom e (ref_sourceZoneId sourceRef) skuId source None)
      (sortedSources zone) 0 in
  currentInOrigin + openInboundQty + sourcePotentialQty.

Definition buildManualSourceCandidates (e : Engine) (destinationZoneId skuId : string)
    (source : InventorySource) (preferredSourceZoneId : option string)
    : list SourceCandidate :=
  let candidates :=
    match preferredSourceZoneId with
    | Some p => if truthy p
                then [mkCandidate p 1 (availableFrom e p skuId source None)] else []
    | None => []
    end in
  match findZone e destinationZoneId with
  | None => candidates
  | Some destination =>
      fold_left (fun candidates sourceRef =>
          if existsb (fun entry =>
               String.eqb (cand_sourceZoneId entry) (ref_sourceZoneId sourceRef)) candidates
          then candidates
          else (candidates ++
                [mkCandidate (ref_sourceZoneId sourceRef) (ref_sortOrder sourceRef + 1)
                   (availableFrom e (ref_sourceZoneId sourceRef) skuId source None)])%list)
        (sortedSources destination) candidates
  end.

Definition createPersonalizationTask (destinationZoneId skuId : string) (qty : Z)
    (source : InventorySource) (projectedSupply : Z) : M unit :=
  e <- get ;;
  let normalizedQty := Z.max 1 qty in
  let sourceCandidates :=
    buildManualSourceCandidates e destinationZoneId skuId source
                                (Some CASHIER_STORAGE_ZONE_ID) in
  let selectedSource :=
    match orElse (firstAvailable sourceCandidates) (firstCandidate sourceCandidates) with
    | Some s => s
    | None => CASHIER_STORAGE_ZONE_ID
    end in
  let currentDestinationQty := getCurrentInventoryQty e destinationZoneId skuId source in
  let task :=
    mkTask ("task-" ++ showNat (List.length (tasks e) + 1))
           (toLowerCase ("rule-printing-sale-" ++ destinationZoneId ++ "-" ++ skuId))
           destinationZoneId skuId (Some selectedSource) (Some sourceCandidates) None None
           CREATED currentDestinationQty normalizedQty (currentDestinationQty + normalizedQty)
           (nowCursor e) (nowCursor e) None None None None in
  modify (set_tasks (tasks e ++ [task])%list) ;;
  pushTaskAudit (task_id task) A_CREATED None
    ("sale_personalization source=" ++ CASHIER_STORAGE_ZONE_ID ++ " destination="
     ++ destinationZoneId ++ " qty=" ++ showZ normalizedQty ++ " projected_supply="
     ++ showZ projectedSupply) ;;
  now <- gets nowCursor ;;
  autoAssignPendingTasks now.

(** The first half of [processPersonalizationSale]: the units of basket item
    [i] go to cashier storage. The result tells whether the method goes on
    (it returns early when a NON_RFID transfer moves nothing). *)
Definition routeToCashierStorage (i : nat) (item : CustomerBasketItem)
    (source : InventorySource) (timestamp : Z) : M bool :=
  if isRfid source then
    let pickedFromReads := Z.max 0 (item_pickedConfirmedQty item) in
    restoredFromPending <-
      transferConsumedPendingEpcsToZone (item_id item) (item_skuId item)
        CASHIER_STORAGE_ZONE_ID timestamp ;;
    when (restoredFromPending <? pickedFromReads)
      (createExternalRFIDForDestination (item_skuId item) CASHIER_STORAGE_ZONE_ID
         (pickedFromReads - restoredFromPending) timestamp ;; ret tt) ;;
    let outstanding := Z.max 0 (item_qty item - pickedFromReads) in
    when (0 <? outstanding)
      (moveRFIDEpcs (item_zoneId item) CASHIER_STORAGE_ZONE_ID (item_skuId item)
         outstanding timestamp ;; ret tt) ;;
    modify (updItem i (item_set_pickedConfirmedQty 0)) ;;
    ret true
  else
    movedQty <- transferNonRfid (item_zoneId item) CASHIER_STORAGE_ZONE_ID
                  (item_skuId item) (item_qty item) ;;
    ret (negb (movedQty <=? 0)).

(** [item] is the reference [i] into [this.customerBasketItems]. *)
Definition processPersonalizationSale (i : nat) (source : InventorySource) (timestamp : Z)
    : M unit :=
  e <- get ;;
  match nth_error (customerBasketItems e) i with
  | None => ret tt
  | Some item =>
  match findZone e CASHIER_STORAGE_ZONE_ID, findZone e (item_zoneId item) with
  | Some _, Some _ =>
    routed <- routeToCashierStorage i item source timestamp ;;
    if negb routed then ret tt else
    calculateZoneInventory (item_zoneId item) ;;
    calculateZoneInventory CASHIER_STORAGE_ZONE_ID ;;
    e <- get ;;
    match findZone e (item_zoneId item) with
    | None => ret tt
    | Some sourceZone =>
        let projectedSupply :=
          getProjectedSupplyForOrigin e sourceZone (item_skuId item) source in
        let isLastUnit := projectedSupply <=? 0 in
        let destinationZoneId :=
          if isLastUnit then PRINTING_WALL_ZONE_ID else item_zoneId item in
        createPersonalizationTask destinationZoneId (item_skuId item) (item_qty item) source
                                  projectedSupply
    end
  | _, _ => ret tt
  end end.

(** The sale of one basket item at checkout; [soldItems] counts the items
    sold before it. *)
Definition checkoutItem (hostNow : Z) (timestamp : Z) (soldItems : Z) (i : nat)
    (item : CustomerBasketItem) : M unit :=
  e <- get ;;
  let source := skuSource e (item_skuId item) in
  (if includes (personalizableSkuIds e) (item_skuId item) then
     processPersonalizationSale i source timestamp
   else if negb (isRfid source) then
     ingestSalesEvent
       (mkSale ("sale-" ++ showZ hostNow ++ "-" ++ showZ (soldItems + 1))
               (item_skuId item) (item_zoneId item) SALE (item_qty item) timestamp
               (Some ("POS-" ++ showZ hostNow)) timestamp) ;;
     ret tt
   else
     let outstanding := Z.max 0 (item_qty item - item_pickedConfirmedQty item) in
     when (0 <? outstanding)
       (deductRFIDImmediate (item_zoneId item) (item_skuId item) outstanding)) ;;
  modify (updItem i (item_set_status SOLD)).

Definition checkoutCustomer (hostNow : Z) (customerId : string) (timestamp : Z)
    : M (string * Z) :=
  modify (set_nowCursor timestamp) ;;
  e <- get ;;
  let items :=
    map fst (filter (fun p => String.eqb (item_customerId (snd p)) customerId
                              && inCart (snd p))
                    (indexed (customerBasketItems e))) in
  if (List.length items =? 0)%nat then ret ("empty_cart", 0) else
  r <- foldM items (0, []) (fun st i =>
    let '(soldItems, affectedZones) := st in
    e <- get ;;
    match nth_error (customerBasketItems e) i with
    | None => ret st
    | Some item =>
        checkoutItem hostNow timestamp soldItems i item ;;
        ret (soldItems + 1,
             (affectedZones ++ [item_zoneId item; CASHIER_STORAGE_ZONE_ID;
                                PRINTING_WALL_ZONE_ID])%list)
    end) ;;
  let '(soldItems, affectedZones) := r in
  modify (fun e => set_pendingRFIDPicks
    (map (fun pending =>
            match find (fun it => String.eqb (item_id it) (pick_basketItemId pending))
                       (customerBasketItems e) with
            | Some basket =>
                if String.eqb (item_customerId basket) customerId
                then completePick pending else pending
            | None => pending
            end)
         (pendingRFIDPicks e)) e) ;;
  forEach (dedup affectedZones) (fun zoneId => calculateZoneInventory zoneId ;; ret tt) ;;
  ret ("checked_out", soldItems).

(** ** Task confirmation *)

Record ConfirmPayload : Type := mkConfirm {
  cp_confirmedQty : Z;
  cp_confirmedBy : string;
  cp_confirmedAt : Z;
  cp_sourceZoneId : option string
}.

Definition getFallbackSourceZoneIds (e : Engine) (task : ReplenishmentTask)
    (exclude : list string) : list string :=
  let step (st : list string * list string) (id : string) :=
    let '(candidates, excludeSet) := st in
    if includes excludeSet id then st
    else ((candidates ++ [id])%list, (excludeSet ++ [id])%list) in
  let taskSources :=
    match task_sourceCandidates task with Some c => c | None => [] end in
  let st1 := fold_left step (map cand_sourceZoneId (sortBy cand_sortOrder taskSources))
                       ([], exclude) in
  let st2 :=
    match findZone e (task_zoneId task) with
    | Some zone => fold_left step (map ref_sourceZoneId (sortedSources zone)) st1
    | None => st1
    end in
  fst st2.

(** One turn of the fallback loop of [confirmTask]; [st] holds the transfer so
    far and whether the loop has hit its [break]. *)
Definition tryFallbackSource (i : nat) (destinationZoneId skuId : string) (requestedQty : Z)
    (st : TransferResult * bool) (candidateSourceZoneId : string)
    : M (TransferResult * bool) :=
  if snd st then ret st else
  candidateTransfer <-
    applyTransferFromSource candidateSourceZoneId destinationZoneId skuId requestedQty ;;
  if tr_movedQty candidateTransfer <=? 0 then ret st else
  modify (updTask i (task_set_sourceZoneId (Some candidateSourceZoneId))) ;;
  ret (candidateTransfer, true).

(** The transfer attempts of [confirmTask]: the chosen source first, then,
    while nothing has moved, the fallback sources in order. [i] is the
    reference to the task. *)
Definition attemptTransfers (i : nat) (task : ReplenishmentTask) (requestedQty : Z)
    (sourceZoneId : option string) : M TransferResult :=
  e <- get ;;
  let transfer0 := mkTransfer requestedQty [] (skuSource e (task_skuId task)) None in
  transfer <-
    (match sourceZoneId with
     | Some s =>
         if truthy s then
           t <- applyTransferFromSource s (task_zoneId task) (task_skuId task) requestedQty ;;
           modify (updTask i (task_set_sourceZoneId (Some s))) ;;
           ret t
         else ret transfer0
     | None => ret transfer0
     end) ;;
  let attemptedSources :=
    match sourceZoneId with Some s => if truthy s then [s] else [] | None => [] end in
  if tr_movedQty transfer <=? 0 then
    e <- get ;;
    match nth_error (tasks e) i with
    | None => ret transfer
    | Some task =>
        let fallbackSources := getFallbackSourceZoneIds e task attemptedSources in
        r <- foldM fallbackSources (transfer, false)
               (tryFallbackSource i (task_zoneId task) (task_skuId task) requestedQty) ;;
        ret (fst r)
    end
  else ret transfer.

Definition confirmTask (taskId : string) (payload : ConfirmPayload)
    : M (option (nat * TransferResult)) :=
  e <- get ;;
  match findTask e taskId with
  | None => ret None
  | Some (i, task) =>
  if negb (isInProgress (task_status task)) then ret None else
  modify (set_nowCursor (cp_confirmedAt payload)) ;;
  let requestedQty := Z.max 0 (cp_confirmedQty payload) in
  let sourceZoneId := orElse (cp_sourceZoneId payload) (task_sourceZoneId task) in
  transfer <- attemptTransfers i task requestedQty sourceZoneId ;;
  let movedQty := tr_movedQty transfer in
  if movedQty <=? 0 then ret None else
  modify (updTask i (fun t =>
    task_set_updatedAt (cp_confirmedAt payload)
      (task_set_confirmedBy (Some (cp_confirmedBy payload))
        (task_set_confirmedQty (Some movedQty) t)))) ;;
  modify (fun e => set_replenishmentConfirmations
    (replenishmentConfirmations e ++
     [mkMovement (task_zoneId task) (task_skuId task) movedQty (cp_confirmedAt payload)
                 (task_id task)])%list e) ;;
  pushTaskAudit (task_id task) A_CONFIRMED (Some (cp_confirmedBy payload))
    ("confirmed_qty=" ++ showZ movedQty ++ " source_zone="
     ++ match sourceZoneId with Some s => s | None => "n/a" end) ;;
  let partial := movedQty <? Z.max 0 (task_deficitQty task) in
  closeReplenishmentTask (task_id task)
    (if partial then "confirmed_partial" else "confirmed") ;;
  calculateZoneInventory (task_zoneId task) ;;
  when (match sourceZoneId with
        | Some s => truthy s && negb (String.eqb s (task_zoneId task))
        | None => false
        end)
    (calculateZoneInventory (match sourceZoneId with Some s => s | None => EmptyString end) ;;
     ret tt) ;;
  ret (Some (i, transfer))
  end.

(** ** Receiving confirmation *)

Definition recalculateZonesDependingOnSource (sourceZoneId : string) : M unit :=
  e <- get ;;
  forEach (zones e) (fun zone =>
    if String.eqb (zone_id zone) sourceZoneId then ret tt else
    if negb (existsb (fun source => String.eqb (ref_sourceZoneId source) sourceZoneId)
                     (zone_replenishmentSources zone)) then ret tt else
    calculateZoneInventory (zone_id zone) ;; ret tt).

Definition refreshOpenTaskSourceCandidates : M unit :=
  e <- get ;;
  forTasks (seq 0 (List.length (tasks e))) (fun i task =>
    if negb (taskIsOpen (task_status task)) then ret tt else
    e <- get ;;
    match find (fun entry => String.eqb (rule_id entry) (task_ruleId task)) (rules e) with
    | None => ret tt
    | Some rule =>
        if negb (rule_isActive rule) then ret tt else
        let candidates := buildSourceCandidates e rule (Some (task_id task)) in
        modify (updTask i (fun t =>
          let t1 := task_set_sourceCandidates (Some candidates) t in
          let keep :=
            truthyOpt (task_sourceZoneId t1)
            && existsb (fun entry => optEqb (task_sourceZoneId t1) (cand_sourceZoneId entry))
                       candidates in
          let t2 := if keep then t1
                    else task_set_sourceZoneId
                           (orElse (firstAvailable candidates) (firstCandidate candidates)) t1 in
          task_set_updatedAt (nowCursor e) t2))
    end).

Record ConfirmReceivingPayload : Type := mkConfirmReceiving {
  crp_confirmedAt : Z;
  crp_confirmedBy : string
}.

Definition pushConfirmation (m : ConfirmationMovement) : M unit :=
  modify (fun e =>
    set_replenishmentConfirmations (replenishmentConfirmations e ++ [m])%list e).

Definition confirmReceivingOrder (orderId : string) (payload : ConfirmReceivingPayload)
    : M (string * option Z) :=
  e <- get ;;
  match find (fun p => String.eqb (order_id (snd p)) orderId)
             (indexed (receivingOrders e)) with
  | None => ret ("order_not_found", None)
  | Some (i, order) =>
  if negb (orderInTransit order) then ret ("order_not_open", None) else
  modify (set_nowCursor (crp_confirmedAt payload)) ;;
  let sourceIsExternal := isExternal (order_sourceLocationId order) in
  let src := order_sourceLocationId order in
  let dst := order_destinationZoneId order in
  let sku := order_skuId order in
  movedQty <-
    (if isRfid (order_source order) then
       if sourceIsExternal then
         movedQty <- createExternalRFIDForDestination sku dst (order_requestedQty order)
                       (crp_confirmedAt payload) ;;
         when (0 <? movedQty)
           (e <- get ;;
            let destinationCurrent := getCurrentInventoryQty e dst sku RFID in
            upsertSnapshot dst sku (destinationCurrent + movedQty) RFID (Some 90)) ;;
         ret movedQty
       else
         movedEpcs <- moveRFIDEpcs src dst sku (order_requestedQty order)
                        (crp_confirmedAt payload) ;;
         ret (Z.of_nat (List.length movedEpcs))
     else
       movedQty <-
         (if negb sourceIsExternal then
            e <- get ;;
            let sourceCurrent := getCurrentInventoryQty e src sku NON_RFID in
            let movedQty := Z.min (order_requestedQty order) sourceCurrent in
            when (0 <? movedQty)
              (upsertSnapshot src sku (sourceCurrent - movedQty) NON_RFID None ;;
               pushConfirmation
                 (mkMovement src sku (- movedQty) (crp_confirmedAt payload) (order_id order))) ;;
            ret movedQty
          else ret (order_requestedQty order)) ;;
       when (0 <? movedQty)
         (e <- get ;;
          let destinationCurrent := getCurrentInventoryQty e dst sku NON_RFID in
          upsertSnapshot dst sku (destinationCurrent + movedQty) NON_RFID None ;;
          pushConfirmation
            (mkMovement dst sku movedQty (crp_confirmedAt payload) (order_id order))) ;;
       ret movedQty) ;;
  if movedQty <=? 0 then ret ("no_inventory_moved", Some 0) else
  modify (updOrder i (fun o =>
    order_set_updatedAt (crp_confirmedAt payload)
      (order_set_confirmedBy (Some (crp_confirmedBy payload))
        (order_set_confirmedAt (Some (crp_confirmedAt payload))
          (order_set_status ORDER_CONFIRMED (order_set_confirmedQty movedQty o)))))) ;;
  calculateZoneInventory dst ;;
  recalculateZonesDependingOnSource dst ;;
  when (negb sourceIsExternal)
    (calculateZoneInventory src ;; recalculateZonesDependingOnSource src) ;;
  refreshOpenTaskSourceCandidates ;;
  autoAssignPendingTasks (crp_confirmedAt payload) ;;
  autoAssignPendingReceivingOrders (crp_confirmedAt payload) ;;
  ret (if movedQty <? order_requestedQty order then "confirmed_partial" else "confirmed",
       Some movedQty)
  end.

(** ** Locations, staff, task workflow and rules *)

Record UpdateLocationPayload : Type := mkUpdateLocation {
  ul_zoneId : string;
  ul_name : option string;
  ul_color : option string;
  ul_isSalesLocation : option bool;
  ul_mapPolygon : option (list (Z * Z));
  ul_replenishmentSources : option (list ReplenishmentSourceRef)
}.

Definition updZone (i : nat) (f : Zone -> Zone) (e : Engine) : Engine :=
  set_zones (updateAt i f (zones e)) e.

Definition zoneExists (e : Engine) (id : string) : bool :=
  existsb (fun z => String.eqb (zone_id z) id) (zones e).

(** The accepted sources of a location: external ids and known locations other
    than the location itself, the last sort order of a repeated id winning. *)
Definition normalizeSources (e : Engine) (zoneId : string)
    (sources : list ReplenishmentSourceRef) : list ReplenishmentSourceRef :=
  let unique :=
    fold_left (fun unique source =>
        if negb (isExternal (ref_sourceZoneId source))
           && negb (zoneExists e (ref_sourceZoneId source)) then unique else
        if String.eqb (ref_sourceZoneId source) zoneId then unique else
        mapSet (ref_sourceZoneId source) (ref_sortOrder source) unique)
      sources [] in
  sortBy ref_sortOrder (map (fun kv => mkSourceRef (fst kv) (snd kv)) unique).

Definition updateLocation (payload : UpdateLocationPayload) : M string :=
  e <- get ;;
  match find (fun p => String.eqb (zone_id (snd p)) (ul_zoneId payload)) (indexed (zones e)) with
  | None => ret "zone_not_found"
  | Some (i, zone) =>
      let previousSourceIds := dedup (map ref_sourceZoneId (zone_replenishmentSources zone)) in
      when (match ul_name payload with Some _ => true | None => false end)
        (modify (updZone i (fun z =>
           match ul_name payload with
           | Some n => zone_set_name (if truthy (trim n) then trim n else zone_name z) z
           | None => z
           end))) ;;
      match ul_color payload with
      | Some c => modify (updZone i (zone_set_color c))
      | None => ret tt
      end ;;
      match ul_isSalesLocation payload with
      | Some b => modify (updZone i (zone_set_isSalesLocation b))
      | None => ret tt
      end ;;
      match ul_mapPolygon payload with
      | Some poly => when (3 <=? List.length poly)%nat (modify (updZone i (zone_set_mapPolygon poly)))
      | None => ret tt
      end ;;
      match ul_replenishmentSources payload with
      | None => ret tt
      | Some sources =>
          e <- get ;;
          let newSources := normalizeSources e (zone_id zone) sources in
          modify (updZone i (zone_set_replenishmentSources newSources)) ;;
          let currentSourceIds := dedup (map ref_sourceZoneId newSources) in
          let removedSourceIds :=
            filter (fun sourceId => negb (includes currentSourceIds sourceId))
                   previousSourceIds in
          if (0 <? List.length removedSourceIds)%nat then
            forTasks (seq 0 (List.length (tasks e))) (fun j task =>
              if negb (String.eqb (task_zoneId task) (zone_id zone)) then ret tt else
              if negb (taskIsOpen (task_status task)) then ret tt else
              match task_sourceZoneId task with
              | None => ret tt
              | Some s =>
                  if negb (truthy s) || negb (includes removedSourceIds s) then ret tt else
                  e <- get ;;
                  modify (updTask j (fun t =>
                    task_set_updatedAt (nowCursor e) (task_set_closedAt (Some (nowCursor e))
                      (task_set_closeReason (Some "source_removed")
                        (task_set_status REJECTED t))))) ;;
                  pushTaskAudit (task_id task) A_CANCELLED None ("source_removed=" ++ s)
              end)
          else ret tt
      end ;;
      calculateZoneInventory (zone_id zone) ;;
      ret "updated"
  end.

Record CreateLocationPayload : Type := mkCreateLocation {
  cl_zoneId : string;
  cl_name : string;
  cl_color : string;
  cl_isSalesLocation : bool;
  cl_mapPolygon : list (Z * Z);
  cl_replenishmentSources : option (list ReplenishmentSourceRef)
}.

Definition createLocation (payload : CreateLocationPayload) : M string :=
  e <- get ;;
  if negb (truthy (trim (cl_zoneId payload))) then ret "invalid_zone_id" else
  if (List.length (cl_mapPolygon payload) <? 3)%nat then ret "invalid_polygon" else
  if zoneExists e (cl_zoneId payload) then ret "zone_exists" else
  let zone :=
    mkZone (cl_zoneId payload)
      (if truthy (trim (cl_name payload)) then trim (cl_name payload) else cl_zoneId payload)
      (cl_color payload) (cl_mapPolygon payload) [] [] (cl_isSalesLocation payload)
      (sortBy ref_sortOrder
        (filter (fun source =>
           if String.eqb (ref_sourceZoneId source) (cl_zoneId payload) then false
           else isExternal (ref_sourceZoneId source) || zoneExists e (ref_sourceZoneId source))
         (match cl_replenishmentSources payload with Some l => l | None => [] end)))
      true (nowCursor e) in
  modify (set_zones (zones e ++ [zone])%list) ;;
  ret "created".

Definition updStaff (i : nat) (f : StaffMember -> StaffMember) (e : Engine) : Engine :=
  set_staff (updateAt i f (staff e)) e.

Definition reassign : M unit :=
  now <- gets nowCursor ;;
  autoAssignPendingTasks now ;;
  now <- gets nowCursor ;;
  autoAssignPendingReceivingOrders now.

Definition updateStaffShift (staffId : string) (activeShift : bool) : M string :=
  e <- get ;;
  match findIndex (fun m => String.eqb (staff_id m) staffId) (staff e) with
  | None => ret "staff_not_found"
  | Some i =>
      modify (updStaff i (staff_set_activeShift activeShift)) ;;
      reassign ;;
      ret "updated"
  end.

Definition updateStaffScope (staffId : string) (scopeAllZones : bool)
    (zoneScopeZoneIds : list string) : M string :=
  e <- get ;;
  match findIndex (fun m => String.eqb (staff_id m) staffId) (staff e) with
  | None => ret "staff_not_found"
  | Some i =>
      modify (updStaff i (fun m =>
        staff_set_zoneScopeZoneIds
          (if scopeAllZones then [] else filter (zoneExists e) zoneScopeZoneIds)
          (staff_set_scopeAllZones scopeAllZones m))) ;;
      reassign ;;
      ret "updated"
  end.

Definition findActiveStaff (e : Engine) (staffId : string) : option StaffMember :=
  find (fun m => String.eqb (staff_id m) staffId && staff_activeShift m) (staff e).

Definition assignTask (taskId staffId : string) (at_ : Z) : M string :=
  e <- get ;;
  match findTask e taskId with
  | None => ret "task_not_found"
  | Some (i, task) =>
  if negb (taskIsOpen (task_status task)) then ret "task_not_open" else
  match findActiveStaff e staffId with
  | None => ret "staff_not_active"
  | Some member =>
  if negb (staff_scopeAllZones member)
     && negb (includes (staff_zoneScopeZoneIds member) (task_zoneId task))
  then ret "staff_not_eligible_for_zone" else
  modify (updTask i (fun t =>
    task_set_updatedAt at_ (task_set_status ASSIGNED
      (task_set_assignedAt (Some at_)
        (task_set_assignedStaffId (Some (staff_id member)) t))))) ;;
  modify (set_nowCursor at_) ;;
  pushTaskAudit (task_id task) A_ASSIGNED (Some (staff_id member))
    ("assigned_to=" ++ staff_name member) ;;
  ret "assigned"
  end end.

Definition startTask (taskId staffId : string) (at_ : Z) : M string :=
  e <- get ;;
  match findTask e taskId with
  | None => ret "task_not_found"
  | Some (i, task) =>
  if negb (taskIsOpen (task_status task)) then ret "task_not_open" else
  if isInProgress (task_status task) then ret "already_in_progress" else
  match findActiveStaff e staffId with
  | None => ret "staff_not_active"
  | Some member =>
  let inScope := inScope member (task_zoneId task) in
  let outOfScopeFallbackAssigned :=
    negb inScope
    && optEqb (task_assignedStaffId task) (staff_id member)
    && negb (hasAnyAssignableStaffInScope e (task_zoneId task)) in
  if negb inScope && negb outOfScopeFallbackAssigned
  then ret "staff_not_eligible_for_zone" else
  if truthyOpt (task_assignedStaffId task)
     && negb (optEqb (task_assignedStaffId task) (staff_id member))
  then ret "task_assigned_to_other_staff" else
  modify (updTask i (fun t =>
    task_set_updatedAt at_ (task_set_status IN_PROGRESS
      (task_set_assignedAt
         (match task_assignedAt t with Some a => Some a | None => Some at_ end)
         (task_set_assignedStaffId (Some (staff_id member)) t))))) ;;
  modify (set_nowCursor at_) ;;
  pushTaskAudit (task_id task) A_STARTED (Some (staff_id member))
    ("started_by=" ++ staff_name member ++ " status=IN_PROGRESS") ;;
  ret "started"
  end end.

Record UpsertRulePayload : Type := mkUpsertRule {
  ur_zoneId : string;
  ur_skuId : string;
  ur_source : InventorySource;
  ur_inboundSourceLocationId : option string;
  ur_minQty : Z;
  ur_maxQty : Z;
  ur_priority : option Z
}.

Definition updRule (i : nat) (f : ReplenishmentRule -> ReplenishmentRule) (e : Engine)
    : Engine :=
  set_rules (updateAt i f (rules e)) e.

Definition upsertRule (payload : UpsertRulePayload) : M string :=
  e <- get ;;
  match findIndex (fun rule =>
          String.eqb (rule_zoneId rule) (ur_zoneId payload)
          && String.eqb (rule_skuId rule) (ur_skuId payload)
          && sourceEqb (rule_source rule) (ur_source payload)) (rules e) with
  | Some i =>
      modify (updRule i (fun existing =>
        mkRule (rule_id existing) (rule_zoneId existing) (rule_skuId existing)
               (rule_source existing) (ur_inboundSourceLocationId payload)
               (ur_minQty payload) (ur_maxQty payload)
               (match ur_priority payload with Some p => p | None => rule_priority existing end)
               true (nowCursor e))) ;;
      calculateZoneInventory (ur_zoneId payload) ;;
      gets (fun e => match nth_error (rules e) i with
                     | Some r => rule_id r
                     | None => EmptyString
                     end)
  | None =>
      let rule :=
        mkRule (toLowerCase ("rule-" ++ ur_zoneId payload ++ "-" ++ ur_skuId payload ++ "-"
                             ++ showSource (ur_source payload)))
               (ur_zoneId payload) (ur_skuId payload) (ur_source payload)
               (ur_inboundSourceLocationId payload) (ur_minQty payload) (ur_maxQty payload)
               (match ur_priority payload with Some p => p | None => 2 end)
               true (nowCursor e) in
      modify (set_rules (rules e ++ [rule])%list) ;;
      calculateZoneInventory (ur_zoneId payload) ;;
      ret (rule_id rule)
  end.

Definition deleteRule (ruleId : string) : M (string * option string) :=
  e <- get ;;
  match find (fun p => String.eqb (rule_id (snd p)) ruleId) (indexed (rules e)) with
  | None => ret ("not_found", None)
  | Some (i, rule) =>
      if negb (rule_isActive rule) then ret ("already_inactive", Some (rule_zoneId rule)) else
      modify (updRule i (fun r =>
        mkRule (rule_id r) (rule_zoneId r) (rule_skuId r) (rule_source r)
               (rule_inboundSourceLocationId r) (rule_minQty r) (rule_maxQty r)
               (rule_priority r) false (nowCursor e))) ;;
      forTasks (seq 0 (List.length (tasks e))) (fun j task =>
        if negb (String.eqb (task_ruleId task) (rule_id rule)) then ret tt else
        if negb (taskIsOpen (task_status task)) then ret tt else
        e <- get ;;
        modify (updTask j (fun t =>
          task_set_updatedAt (nowCursor e) (task_set_closedAt (Some (nowCursor e))
            (task_set_closeReason (Some "rule_deleted") (task_set_status REJECTED t))))) ;;
        pushTaskAudit (task_id task) A_CANCELLED None "rule_deleted") ;;
      calculateZoneInventory (rule_zoneId rule) ;;
      ret ("deleted", Some (rule_zoneId rule))
  end.

(** ** Read models *)

Definition getZoneSnapshots (e : Engine) (zoneId : string) : list InventorySnapshotByZone :=
  filter (fun s => String.eqb (snap_zoneId s) zoneId) (snapshots e).

Definition getAllSnapshots (e : Engine) : list InventorySnapshotByZone := snapshots e.

Definition getTasks (status : option TaskStatus) : M (list ReplenishmentTask) :=
  now <- gets nowCursor ;;
  autoAssignPendingTasks now ;;
  e <- get ;;
  match status with
  | None => ret (tasks e)
  | Some s => ret (filter (fun t => statusEqb (task_status t) s) (tasks e))
  end.

Definition receivingStatusEqb (a b : ReceivingStatus) : bool :=
  match a, b with
  | IN_TRANSIT, IN_TRANSIT | ORDER_CONFIRMED, ORDER_CONFIRMED | CANCELLED, CANCELLED => true
  | _, _ => false
  end.

Definition getReceivingOrders (status : option ReceivingStatus) : M (list ReceivingOrder) :=
  now <- gets nowCursor ;;
  autoAssignPendingReceivingOrders now ;;
  e <- get ;;
  match status with
  | None => ret (receivingOrders e)
  | Some s => ret (filter (fun o => receivingStatusEqb (order_status o) s) (receivingOrders e))
  end.

Definition getRules (e : Engine) (zoneId : option string) : list ReplenishmentRule :=
  match zoneId with
  | Some z => if truthy z
              then filter (fun r => String.eqb (rule_zoneId r) z && rule_isActive r) (rules e)
              else filter rule_isActive (rules e)
  | None => filter rule_isActive (rules e)
  end.

Definition getLocations (e : Engine) : list Zone :=
  map (fun z => zone_set_replenishmentSources (sortedSources z) z) (zones e).

Definition getStaff (e : Engine) (activeOnly : bool) : list StaffMember :=
  if activeOnly then filter staff_activeShift (staff e) else staff e.

Definition getTaskAudit (e : Engine) (taskId : option string) : list TaskAuditEntry :=
  match taskId with
  | Some t => if truthy t then filter (fun a => String.eqb (audit_taskId a) t) (taskAudit e)
              else taskAudit e
  | None => taskAudit e
  end.

Definition getRecentRFIDReads (e : Engine) (zoneId : string) (limit : Z) : list RFIDReadEvent :=
  List.rev (sliceLast limit (filter (fun r => String.eqb (read_zoneId r) zoneId) (rfidEvents e))).

Definition getNow (e : Engine) : Z := nowCursor e.

(** ** Construction and boot *)

Record SKU : Type := mkSKU { sku_id : string; sku_name : string; sku_source : InventorySource }.

Inductive CatalogRole : Type := role_player | role_goalkeeper | role_staff.

Record CatalogVariant : Type := mkVariant {
  var_id : string;
  var_skuId : string;
  var_role : option CatalogRole
}.

Record CatalogProduct : Type := mkProduct {
  prod_id : string;
  prod_title : string;
  prod_variants : list CatalogVariant
}.

Record SampleDataset : Type := mkDataset {
  ds_zones : list Zone;
  ds_antennas : list Antenna;
  ds_skus : list SKU;
  ds_catalogProducts : list CatalogProduct;
  ds_epcSkuMapping : list EPCSkuMapping;
  ds_replenishmentRules : list ReplenishmentRule;
  ds_inventorySeed : list InventorySnapshotByZone;
  ds_rfidReadEvents : list RFIDReadEvent;
  ds_salesEvents : list SalesEvent;
  ds_staff : list StaffMember
}.

Definition isPersonalizable (product : CatalogProduct) (variant : CatalogVariant) : bool :=
  match var_role variant with
  | Some role_player | Some role_goalkeeper => true
  | _ => strIncludes (toUpperCase (prod_title product)) "JSY"
  end.

Definition constructor (dataset : SampleDataset) : Engine :=
  mkEngine
    (ds_zones dataset) (ds_antennas dataset) (ds_epcSkuMapping dataset)
    (ds_replenishmentRules dataset)
    (mapOfList (map (fun sku => (sku_id sku, sku_source sku)) (ds_skus dataset)))
    (mapOfList
      (map (fun snapshot =>
              (getBaselineKey (snap_zoneId snapshot) (snap_skuId snapshot), snapshot))
           (filter (fun snapshot => negb (isRfid (snap_source snapshot)))
                   (ds_inventorySeed dataset))))
    (ds_inventorySeed dataset) [] [] [] [] [] [] [] [] [] (ds_staff dataset) []
    initialCursor
    (Z.of_nat (List.length (ds_epcSkuMapping dataset)) + 1)
    (dedup (flat_map (fun product =>
              map var_skuId (filter (isPersonalizable product) (prod_variants product)))
            (ds_catalogProducts dataset))).

Definition seedDemoEvents : M unit :=
  e <- get ;;
  forEach (zones e) (fun z => calculateZoneInventory (zone_id z) ;; ret tt).

Definition loadDemoStream (rfidEvents : list RFIDReadEvent) (salesEvents : list SalesEvent)
    : M unit :=
  forEach rfidEvents (fun ev => ingestRFIDRead ev ;; ret tt) ;;
  forEach salesEvents (fun ev => ingestSalesEvent ev ;; ret tt) ;;
  e <- get ;;
  forEach (zones e) (fun zone => calculateZoneInventory (zone_id zone) ;; ret tt).

(** ** Commands

    The public methods of the class that change the engine, as one type, and
    their dispatch. *)

Inductive Command : Type :=
  | CmdSeedDemoEvents
  | CmdIngestRFIDRead (event : RFIDReadEvent)
  | CmdForceZoneSweep (zoneId : string) (timestamp : Z)
  | CmdScanZone (zoneId : string) (timestamp : Z)
  | CmdCalculateZoneInventory (zoneId : string)
  | CmdEvaluateMinMax (zoneId : string)
  | CmdGenerateReplenishmentTask (rule : ReplenishmentRule) (deficitQty triggerQty : Z)
      (sourceZoneId : option string) (sourceCandidates : option (list SourceCandidate))
  | CmdCloseReplenishmentTask (taskId reason : string)
  | CmdIngestSalesEvent (event : SalesEvent)
  | CmdUpsertCustomer (id : string) (name : option string)
  | CmdAddCustomerItem (hostNow : Z) (payload : AddItemPayload)
  | CmdRemoveCustomerItem (basketItemId : string) (timestamp : Z)
  | CmdCheckoutCustomer (hostNow : Z) (customerId : string) (timestamp : Z)
  | CmdConfirmTask (taskId : string) (payload : ConfirmPayload)
  | CmdLoadDemoStream (rfidEvents : list RFIDReadEvent) (salesEvents : list SalesEvent)
  | CmdGetTasks (status : option TaskStatus)
  | CmdGetReceivingOrders (status : option ReceivingStatus)
  | CmdCreateReceivingOrder (payload : ReceivingPayload)
  | CmdConfirmReceivingOrder (orderId : string) (payload : ConfirmReceivingPayload)
  | CmdUpdateLocation (payload : UpdateLocationPayload)
  | CmdCreateLocation (payload : CreateLocationPayload)
  | CmdUpdateStaffShift (staffId : string) (activeShift : bool)
  | CmdUpdateStaffScope (staffId : string) (scopeAllZones : bool) (zoneIds : list string)
  | CmdAssignTask (taskId staffId : string) (at_ : Z)
  | CmdStartTask (taskId staffId : string) (at_ : Z)
  | CmdUpsertRule (payload : UpsertRulePayload)
  | CmdDeleteRule (ruleId : string).

Definition run (c : Command) : M unit :=
  match c with
  | CmdSeedDemoEvents => seedDemoEvents
  | CmdIngestRFIDRead event => ingestRFIDRead event ;; ret tt
  | CmdForceZoneSweep zoneId timestamp => forceZoneSweep zoneId timestamp ;; ret tt
  | CmdScanZone zoneId timestamp => scanZone zoneId timestamp ;; ret tt
  | CmdCalculateZoneInventory zoneId => calculateZoneInventory zoneId ;; ret tt
  | CmdEvaluateMinMax zoneId => evaluateMinMax zoneId
  | CmdGenerateReplenishmentTask rule d t s c => generateReplenishmentTask rule d t s c ;; ret tt
  | CmdCloseReplenishmentTask taskId reason => closeReplenishmentTask taskId reason ;; ret tt
  | CmdIngestSalesEvent event => ingestSalesEvent event ;; ret tt
  | CmdUpsertCustomer id name => upsertCustomer id name ;; ret tt
  | CmdAddCustomerItem hostNow payload => addCustomerItem hostNow payload ;; ret tt
  | CmdRemoveCustomerItem id timestamp => removeCustomerItem id timestamp ;; ret tt
  | CmdCheckoutCustomer hostNow id timestamp => checkoutCustomer hostNow id timestamp ;; ret tt
  | CmdConfirmTask taskId payload => confirmTask taskId payload ;; ret tt
  | CmdLoadDemoStream rs ss => loadDemoStream rs ss
  | CmdGetTasks status => getTasks status ;; ret tt
  | CmdGetReceivingOrders status => getReceivingOrders status ;; ret tt
  | CmdCreateReceivingOrder payload => createReceivingOrder payload ;; ret tt
  | CmdConfirmReceivingOrder id payload => confirmReceivingOrder id payload ;; ret tt
  | CmdUpdateLocation payload => updateLocation payload ;; ret tt
  | CmdCreateLocation payload => createLocation payload ;; ret tt
  | CmdUpdateStaffShift id b => updateStaffShift id b ;; ret tt
  | CmdUpdateStaffScope id b zs => updateStaffScope id b zs ;; ret tt
  | CmdAssignTask t s a => assignTask t s a ;; ret tt
  | CmdStartTask t s a => startTask t s a ;; ret tt
  | CmdUpsertRule payload => upsertRule payload ;; ret tt
  | CmdDeleteRule ruleId => deleteRule ruleId ;; ret tt
  end.

(** ** Predicates on engine states *)

Definition snapshotsNonNegative (e : Engine) : Prop :=
  Forall (fun s => 0 <= snap_qty s) (snapshots e).

(** What the planning methods never touch: every field except [tasks],
    [taskAudit] and [receivingOrders]. *)
Definition planFrame (e : Engine) :=
  (zones e, antennas e, mapping e, rules e, skuSourceById e, nonRfidBaselines e,
   snapshots e, rfidEvents e, salesEvents e, epcPresence e, customers e,
   customerBasketItems e, pendingRFIDPicks e, replenishmentConfirmations e, staff e,
   nowCursor e, generatedEpcSeq e, personalizableSkuIds e).

(** What a recompute of a location never touches: as above, without
    [snapshots]. *)
Definition invFrame (e : Engine) :=
  (zones e, antennas e, mapping e, rules e, skuSourceById e, nonRfidBaselines e,
   rfidEvents e, salesEvents e, epcPresence e, customers e,
   customerBasketItems e, pendingRFIDPicks e, replenishmentConfirmations e, staff e,
   nowCursor e, generatedEpcSeq e, personalizableSkuIds e).

(** What neither a recompute nor the resolution of pending picks touches. *)
Definition coreFrame (e : Engine) :=
  (zones e, antennas e, mapping e, rules e, skuSourceById e, nonRfidBaselines e,
   rfidEvents e, salesEvents e, customers e, replenishmentConfirmations e, staff e,
   nowCursor e, generatedEpcSeq e, personalizableSkuIds e).

(** ** Auxiliary definitions for the statements *)

(** The state [ingestSalesEvent] reaches before it recomputes anything. *)
Definition afterSaleLogged (event : SalesEvent) (e : Engine) : Engine :=
  set_nowCursor (sale_timestamp event) (set_salesEvents (salesEvents e ++ [event])%list e).

(** The state an accepted read reaches before pending picks are resolved. *)
Definition afterReadStored (event : RFIDReadEvent) (mapping : EPCSkuMapping) (e : Engine)
    : Engine :=
  set_epcPresence
    (mapSet (read_epc event)
       (mkPresence (read_epc event) (map_skuId mapping) (read_zoneId event)
                   (read_antennaId event) (read_timestamp event) (read_rssi event))
       (epcPresence e))
    (set_nowCursor (read_timestamp event) (set_rfidEvents (rfidEvents e ++ [event])%list e)).

Definition validAntenna (e : Engine) (event : RFIDReadEvent) : bool :=
  existsb (fun a => String.eqb (ant_id a) (read_antennaId event)
                    && String.eqb (ant_zoneId a) (read_zoneId event)) (antennas e).

(** The last entry of the engine's read log for [(epc, antennaId)]. The log
    holds the reads [ingestRFIDRead] accepted and also the synthetic
    [rr-transfer-...] reads [applyTransferFromSource] appends, without
    ingesting them, for every tag it moves. *)
Definition lastLoggedRead (e : Engine) (epc antennaId : string) : option RFIDReadEvent :=
  last (map Some (filter (fun r => String.eqb (read_epc r) epc
                                   && String.eqb (read_antennaId r) antennaId)
                         (rfidEvents e))) None.

(** The NON_RFID ledger in the words of the specification: a baseline and
    signed entries, a sale counting negatively, a return and a confirmed
    replenishment positively. *)
Record LedgerEntry : Type := mkLedgerEntry {
  le_zoneId : string;
  le_skuId : string;
  le_delta : Z;
  le_timestamp : Z
}.

Definition ledgerEntries (e : Engine) : list LedgerEntry :=
  (map (fun s => mkLedgerEntry (sale_zoneId s) (sale_skuId s)
                   (match sale_eventType s with SALE => - sale_qty s | RETURN => sale_qty s end)
                   (sale_timestamp s))
       (salesEvents e)
   ++ map (fun c => mkLedgerEntry (mov_zoneId c) (mov_skuId c) (mov_qty c) (mov_timestamp c))
          (replenishmentConfirmations e))%list.

Definition ledgerQty (e : Engine) (zoneId skuId : string) : Z :=
  let baseline := getBaselineSnapshot e zoneId skuId in
  Z.max 0 (snap_qty baseline
           + sumZ (map le_delta
               (filter (fun l => String.eqb (le_zoneId l) zoneId && String.eqb (le_skuId l) skuId
                                 && (snap_lastCalculatedAt baseline <=? le_timestamp l))
                       (ledgerEntries e)))).

(** A small store used in examples: one sales shelf fed by a warehouse, one
    NON_RFID and one RFID SKU, one antenna per location, one associate. *)
Definition demoDataset : SampleDataset :=
  mkDataset
    [mkZone "shelf-a" "Shelf A" "blue" [] ["ant-a"] [] true [mkSourceRef "warehouse" 1] true 0;
     mkZone "warehouse" "Warehouse" "grey" [] ["ant-w"] [] false [] true 0]
    [mkAntenna "ant-a" "shelf-a" "A" true 0; mkAntenna "ant-w" "warehouse" "W" true 0]
    [mkSKU "SKU-NR-1" "Scarf" NON_RFID; mkSKU "SKU-RFID-1" "Shirt" RFID]
    []
    [mkMapping "m1" "EPC-0001" "SKU-RFID-1" None 0 None;
     mkMapping "m2" "EPC-0002" "SKU-RFID-1" None 0 None]
    [mkRule "rule-shelf-a-sku-nr-1-non_rfid" "shelf-a" "SKU-NR-1" NON_RFID None 2 8 1 true 0]
    [mkSnapshot "seed-1" "shelf-a" "SKU-NR-1" 7 NON_RFID None initialCursor 1;
     mkSnapshot "seed-2" "warehouse" "SKU-NR-1" 180 NON_RFID None initialCursor 1]
    [] []
    [mkStaff "staff-1" "Ann" ASSOCIATE true "day" true []].

Definition demoEngine : Engine := constructor demoDataset.

(** An out-of-order sale, one minute before the initial cursor, and a read of
    a mapped tag at the shelf antenna. *)
Definition lateSale : SalesEvent :=
  mkSale "sale-late" "SKU-NR-1" "shelf-a" SALE 1 (initialCursor - 60000) None
         (initialCursor - 60000).

Definition demoRead : RFIDReadEvent :=
  mkRead "read-1" "EPC-0001" "ant-a" "shelf-a" (initialCursor + 1000) None
         (initialCursor + 1000).

(** The state [addCustomerItem] checks availability in: the cursor moved, the
    customer registered and the location recomputed. *)
Definition beforeAdd (payload : AddItemPayload) (e : Engine) : Engine :=
  exec (calculateZoneInventory (add_zoneId payload))
       (exec (upsertCustomer (add_customerId payload) None)
             (set_nowCursor (add_timestamp payload) e)).

(** [current - reserved] of a location and SKU. *)
Definition freeQty (e : Engine) (zoneId skuId : string) : Z :=
  getCurrentInventoryQty e zoneId skuId (skuSource e skuId) - getReservedOpenQty e zoneId skuId.

Definition isSalesZone (e : Engine) (zoneId : string) : bool :=
  match findZone e zoneId with Some z => zone_isSalesLocation z | None => false end.

(** The basket item and the pending pick a successful add creates. *)
Definition newBasketItem (hostNow : Z) (payload : AddItemPayload) (e : Engine)
    : CustomerBasketItem :=
  mkBasketItem ("basket-" ++ showZ hostNow ++ "-"
                ++ showNat (List.length (customerBasketItems e) + 1))
               (add_customerId payload) (add_zoneId payload) (add_skuId payload)
               (add_qty payload) 0 IN_CART (add_timestamp payload).

Definition withNewItem (hostNow : Z) (payload : AddItemPayload) (e : Engine) : Engine :=
  let item := newBasketItem hostNow payload e in
  let e1 := set_customerBasketItems (customerBasketItems e ++ [item])%list e in
  if isRfid (skuSource e (add_skuId payload))
  then set_pendingRFIDPicks
         (pendingRFIDPicks e1 ++
          [mkPick (item_id item) (add_zoneId payload) (add_skuId payload) (add_qty payload)
                  [] PICK_IN_PROGRESS])%list e1
  else e1.

Definition cartPayload (qty : Z) (timestamp : Z) : AddItemPayload :=
  mkAddItem "cust-1" "shelf-a" "SKU-NR-1" qty timestamp.

(** The shelf after a customer put all 7 scarves in the cart and 5 were then
    sold at the till: 2 on hand, 7 reserved. *)
Definition overReservedEngine : Engine :=
  exec (ingestSalesEvent
          (mkSale "sale-1" "SKU-NR-1" "shelf-a" SALE 5 (initialCursor + 2000) None
                  (initialCursor + 2000)))
       (exec (addCustomerItem 0 (cartPayload 7 (initialCursor + 1000))) demoEngine).

(** Every field a confirmation that moves nothing must leave alone: all but
    [snapshots], [tasks] and [nowCursor]. *)
Definition zeroMoveFrame (e : Engine) :=
  (zones e, antennas e, mapping e, rules e, skuSourceById e, nonRfidBaselines e,
   rfidEvents e, salesEvents e, epcPresence e, customers e, customerBasketItems e,
   pendingRFIDPicks e, replenishmentConfirmations e, receivingOrders e, staff e,
   taskAudit e, generatedEpcSeq e, personalizableSkuIds e).

(** [payload.sourceZoneId ?? task.sourceZoneId], and the write
    [task.sourceZoneId = sourceZoneId] that follows the first attempt. *)
Definition chosenSource (payload : ConfirmPayload) (task : ReplenishmentTask) : option string :=
  orElse (cp_sourceZoneId payload) (task_sourceZoneId task).

Definition sourceWritten (sourceZoneId : option string) (task : ReplenishmentTask)
    : ReplenishmentTask :=
  match sourceZoneId with
  | Some s => if truthy s then task_set_sourceZoneId (Some s) task else task
  | None => task
  end.

Definition withChosenSource (i : nat) (sourceZoneId : option string)
    (l : list ReplenishmentTask) : list ReplenishmentTask :=
  match sourceZoneId with
  | Some s => if truthy s then updateAt i (task_set_sourceZoneId (Some s)) l else l
  | None => l
  end.

(** The demo store with an empty warehouse, after a sale of 5 scarves has
    raised a replenishment task and the associate has started it. *)
Definition emptyWarehouseDataset : SampleDataset :=
  mkDataset (ds_zones demoDataset) (ds_antennas demoDataset) (ds_skus demoDataset)
    (ds_catalogProducts demoDataset) (ds_epcSkuMapping demoDataset)
    (ds_replenishmentRules demoDataset)
    [mkSnapshot "seed-1" "shelf-a" "SKU-NR-1" 7 NON_RFID None initialCursor 1]
    [] [] (ds_staff demoDataset).

Definition taskStartedEngine : Engine :=
  exec (startTask "task-1" "staff-1" (initialCursor + 2000))
    (exec (ingestSalesEvent
             (mkSale "sale-1" "SKU-NR-1" "shelf-a" SALE 5 (initialCursor + 1000) None
                     (initialCursor + 1000)))
          (constructor emptyWarehouseDataset)).

Definition demoConfirm : ConfirmPayload :=
  mkConfirm 6 "staff-1" (initialCursor + 3000) None.

(** The same confirmation, against a source the store does not have. *)
Definition backroomConfirm : ConfirmPayload :=
  mkConfirm 6 "staff-1" (initialCursor + 3000) (Some "backroom").

(** [e'] differs from [e] at most in its snapshots, and not even there when
    [skuId] is an RFID SKU. *)
Definition onlySnapshotsMoved (skuId : string) (e e' : Engine) : Prop :=
  zeroMoveFrame e' = zeroMoveFrame e /\ tasks e' = tasks e /\ nowCursor e' = nowCursor e
  /\ (skuSource e skuId = RFID -> snapshots e' = snapshots e).

(** A run of commands from a state. *)
Fixpoint runAll (cs : list Command) (e : Engine) : Engine :=
  match cs with
  | [] => e
  | c :: r => runAll r (exec (run c) e)
  end.

(** The reads [ingestRFIDRead] accepts along a run of commands from [e]:
    the engine keeps no separate record of them. *)
Definition acceptedBy (event : RFIDReadEvent) (e : Engine) : list RFIDReadEvent :=
  if String.eqb (fst (eval (ingestRFIDRead event) e)) "accepted" then [event] else [].

Fixpoint acceptedInStream (events : list RFIDReadEvent) (e : Engine) : list RFIDReadEvent :=
  match events with
  | [] => []
  | event :: r =>
      (acceptedBy event e ++ acceptedInStream r (exec (ingestRFIDRead event) e))%list
  end.

Fixpoint acceptedReads (cs : list Command) (e : Engine) : list RFIDReadEvent :=
  match cs with
  | [] => []
  | c :: r =>
      (match c with
       | CmdIngestRFIDRead event => acceptedBy event e
       | CmdLoadDemoStream events _ => acceptedInStream events e
       | _ => []
       end ++ acceptedReads r (exec (run c) e))%list
  end.

(** The demo store with a min/max rule for the RFID shirt on the shelf. One
    shirt is read in the warehouse; a scan of the empty shelf raises a task,
    the associate starts it and confirms one shirt, which moves the tag to
    the shelf. One second later the shelf antenna reads the tag for the
    first time. *)
Definition shirtDataset : SampleDataset :=
  mkDataset (ds_zones demoDataset) (ds_antennas demoDataset) (ds_skus demoDataset)
    (ds_catalogProducts demoDataset) (ds_epcSkuMapping demoDataset)
    [mkRule "rule-shelf-a-sku-rfid-1-rfid" "shelf-a" "SKU-RFID-1" RFID None 1 2 1 true 0]
    (ds_inventorySeed demoDataset) [] [] (ds_staff demoDataset).

Definition warehouseRead : RFIDReadEvent :=
  mkRead "read-w" "EPC-0001" "ant-w" "warehouse" (initialCursor + 1000) None
         (initialCursor + 1000).

Definition shirtMovedRun : list Command :=
  [CmdIngestRFIDRead warehouseRead;
   CmdScanZone "shelf-a" (initialCursor + 2000);
   CmdStartTask "task-1" "staff-1" (initialCursor + 3000);
   CmdConfirmTask "task-1" (mkConfirm 1 "staff-1" (initialCursor + 4000) None)].

Definition firstShelfRead : RFIDReadEvent :=
  mkRead "read-a" "EPC-0001" "ant-a" "shelf-a" (initialCursor + 5000) None
         (initialCursor + 5000).

(** The shelf antenna reads the tag of [demoRead] again five seconds later. *)
Definition repeatedRead : RFIDReadEvent :=
  mkRead "read-2" "EPC-0001" "ant-a" "shelf-a" (initialCursor + 6000) None
         (initialCursor + 6000).

(** What auto-assignment does to a task: nothing, or it assigns a task that
    was CREATED or ASSIGNED. *)
Definition assignedAs (a : option Z) (s : option string) (u : Z) (t : ReplenishmentTask)
    : ReplenishmentTask :=
  task_set_updatedAt u (task_set_status ASSIGNED
    (task_set_assignedAt a (task_set_assignedStaffId s t))).

Definition isAdjustable (s : TaskStatus) : bool :=
  match s with CREATED | ASSIGNED => true | _ => false end.

Definition bumped (t t' : ReplenishmentTask) : Prop :=
  t' = t \/ (isAdjustable (task_status t) = true /\ exists a s u, t' = assignedAs a s u t).

(** A personalisable jersey sold on the shelf, with the two reserved
    locations of the personalisation flow. [withRule] adds a min/max rule for
    the jersey on the shelf, which makes the shelf's quantity follow the sales
    ledger. *)
Definition jerseyDataset (withRule : bool) : SampleDataset :=
  mkDataset
    [mkZone "shelf-a" "Shelf A" "blue" [] ["ant-a"] [] true [mkSourceRef "warehouse" 1] true 0;
     mkZone "warehouse" "Warehouse" "grey" [] ["ant-w"] [] false [] true 0;
     mkZone CASHIER_STORAGE_ZONE_ID "Cashier storage" "red" [] [] [] false [] true 0;
     mkZone PRINTING_WALL_ZONE_ID "Printing wall" "green" [] [] [] false [] true 0]
    [mkAntenna "ant-a" "shelf-a" "A" true 0; mkAntenna "ant-w" "warehouse" "W" true 0]
    [mkSKU "SKU-JSY-1" "Home jersey" NON_RFID]
    [mkProduct "prod-1" "Home JSY" [mkVariant "var-1" "SKU-JSY-1" (Some role_player)]]
    []
    (if withRule
     then [mkRule "rule-shelf-a-sku-jsy-1-non_rfid" "shelf-a" "SKU-JSY-1" NON_RFID None 0 5 1
                  true 0]
     else [])
    [mkSnapshot "seed-1" "shelf-a" "SKU-JSY-1" 1 NON_RFID None initialCursor 1]
    [] []
    [mkStaff "staff-1" "Ann" ASSOCIATE true "day" true []].

Definition jerseyPayload : AddItemPayload :=
  mkAddItem "cust-1" "shelf-a" "SKU-JSY-1" 1 (initialCursor + 1000).

(** The last jersey is in a cart. *)
Definition jerseyInCart (withRule : bool) : Engine :=
  exec (addCustomerItem 0 jerseyPayload) (constructor (jerseyDataset withRule)).

(** The last jersey is in a cart and has meanwhile been sold at the till. *)
Definition jerseySoldOut : Engine :=
  exec (ingestSalesEvent
          (mkSale "sale-1" "SKU-JSY-1" "shelf-a" SALE 1 (initialCursor + 2000) None
                  (initialCursor + 2000)))
       (jerseyInCart true).

Definition deficitsNonNegative (e : Engine) : Prop :=
  Forall (fun t => 0 <= task_deficitQty t) (tasks e).

(** Projected supply of a location for a SKU, in the words of the
    specification: on hand, plus the deficits of the open tasks inbound to the
    location, plus, for every configured source, what the source holds beyond
    the deficits already reserved from it, if anything. *)
Definition reservedFrom (e : Engine) (sourceZoneId skuId : string) : Z :=
  sumZ (map task_deficitQty
    (filter (fun t => taskIsOpen (task_status t) && String.eqb (task_skuId t) skuId
                      && optEqb (task_sourceZoneId t) sourceZoneId)
            (tasks e))).

Definition projectedSupply (e : Engine) (zone : Zone) (skuId : string)
    (source : InventorySource) : Z :=
  getCurrentInventoryQty e (zone_id zone) skuId source
  + sumZ (map task_deficitQty
      (filter (fun t => String.eqb (task_zoneId t) (zone_id zone)
                        && String.eqb (task_skuId t) skuId && taskIsOpen (task_status t))
              (tasks e)))
  + sumZ (map (fun ref =>
                 Z.max 0 (getCurrentInventoryQty e (ref_sourceZoneId ref) skuId source
                          - reservedFrom e (ref_sourceZoneId ref) skuId))
              (zone_replenishmentSources zone)).

Definition jerseyItem : CustomerBasketItem :=
  mkBasketItem "basket-0-1" "cust-1" "shelf-a" "SKU-JSY-1" 1 0 IN_CART (initialCursor + 1000).

Definition jerseyShelf : Zone :=
  mkZone "shelf-a" "Shelf A" "blue" [] ["ant-a"] [] true [mkSourceRef "warehouse" 1] true 0.

Definition jerseyCashier : Zone :=
  mkZone CASHIER_STORAGE_ZONE_ID "Cashier storage" "red" [] [] [] false [] true 0.

(** The catalog's criterion for a personalisable variant, as the
    specification words it. *)
Definition personalisableInCatalog (product : CatalogProduct) (variant : CatalogVariant)
    : Prop :=
  var_role variant = Some role_player \/ var_role variant = Some role_goalkeeper
  \/ strIncludes (prod_title product) "JSY" = true.

(** ** Read models and sharing

    The methods above pass lists by value. What a getter hands to its caller
    is, in the source, a reference: to the engine's own array
    ([return this.snapshots], [return this.tasks]), or to a fresh array that
    holds the engine's own objects ([[...this.receivingOrders]],
    [[...this.taskAudit]], the result of [filter]). The store below makes
    the references explicit: objects and arrays live at addresses, an array
    holds the addresses of its elements. *)

Section Store.

Variable T : Type.

Record Store : Type := mkStore {
  st_objects : list T;
  st_arrays : list (list nat)
}.

Definition readArray (h : Store) (a : nat) : list nat := nth a (st_arrays h) [].

(** The contents of the array at [a]. *)
Definition deref (h : Store) (a : nat) : list T :=
  flat_map (fun o => match nth_error (st_objects h) o with Some x => [x] | None => [] end)
           (readArray h a).

(** [[...xs]] and [xs.filter(p)]: a new array over the same objects. *)
Definition copyArray (h : Store) (a : nat) (keep : T -> bool) : nat * Store :=
  let elems :=
    filter (fun o => match nth_error (st_objects h) o with Some x => keep x | None => false end)
           (readArray h a) in
  (List.length (st_arrays h), mkStore (st_objects h) (st_arrays h ++ [elems])%list).

(** What a caller can do with a reference it holds. *)
Definition writeArray (a : nat) (f : list nat -> list nat) (h : Store) : Store :=
  mkStore (st_objects h) (updateAt a f (st_arrays h)).

Definition writeObject (o : nat) (f : T -> T) (h : Store) : Store :=
  mkStore (updateAt o f (st_objects h)) (st_arrays h).

(** A store that holds the list [l] as the array at address 0. *)
Definition storeOf (l : list T) : Store := mkStore l [seq 0 (List.length l)].

End Store.

Arguments mkStore {T}.
Arguments st_objects {T}.
Arguments st_arrays {T}.
Arguments readArray {T}.
Arguments deref {T}.
Arguments copyArray {T}.
Arguments writeArray {T}.
Arguments writeObject {T}.
Arguments storeOf {T}.

(** The engine with [this.snapshots] and [this.receivingOrders] held by
    reference. *)
Record SharedEngine : Type := mkShared {
  sh_fields : Engine;
  sh_snapshotStore : Store InventorySnapshotByZone;
  sh_snapshots : nat;
  sh_orderStore : Store ReceivingOrder;
  sh_receivingOrders : nat
}.

Definition share (e : Engine) : SharedEngine :=
  mkShared e (storeOf (snapshots e)) 0 (storeOf (receivingOrders e)) 0.

(** The engine state the methods see. *)
Definition contents (s : SharedEngine) : Engine :=
  set_receivingOrders (deref (sh_orderStore s) (sh_receivingOrders s))
    (set_snapshots (deref (sh_snapshotStore s) (sh_snapshots s)) (sh_fields s)).

(** [getAllSnapshots() { return this.snapshots; }] *)
Definition getAllSnapshotsRef (s : SharedEngine) : nat := sh_snapshots s.

(** [getZoneSnapshots(zoneId) { return this.snapshots.filter(...); }] *)
Definition getZoneSnapshotsRef (zoneId : string) (s : SharedEngine) : nat * SharedEngine :=
  let r := copyArray (sh_snapshotStore s) (sh_snapshots s)
                     (fun x => String.eqb (snap_zoneId x) zoneId) in
  (fst r, mkShared (sh_fields s) (snd r) (sh_snapshots s) (sh_orderStore s)
                   (sh_receivingOrders s)).

(** [getReceivingOrders() { ...; return [...this.receivingOrders]; }], the
    assignment of pending orders left aside. *)
Definition getReceivingOrdersRef (s : SharedEngine) : nat * SharedEngine :=
  let r := copyArray (sh_orderStore s) (sh_receivingOrders s) (fun _ => true) in
  (fst r, mkShared (sh_fields s) (sh_snapshotStore s) (sh_snapshots s) (snd r)
                   (sh_receivingOrders s)).

(** A caller's writes through a snapshot array or a snapshot it was given. *)
Definition callerWritesSnapshotArray (a : nat) (f : list nat -> list nat) (s : SharedEngine)
    : SharedEngine :=
  mkShared (sh_fields s) (writeArray a f (sh_snapshotStore s)) (sh_snapshots s)
           (sh_orderStore s) (sh_receivingOrders s).

Definition callerWritesSnapshot (o : nat)
    (f : InventorySnapshotByZone -> InventorySnapshotByZone) (s : SharedEngine)
    : SharedEngine :=
  mkShared (sh_fields s) (writeObject o f (sh_snapshotStore s)) (sh_snapshots s)
           (sh_orderStore s) (sh_receivingOrders s).

Definition callerWritesOrderArray (a : nat) (f : list nat -> list nat) (s : SharedEngine)
    : SharedEngine :=
  mkShared (sh_fields s) (sh_snapshotStore s) (sh_snapshots s)
           (writeArray a f (sh_orderStore s)) (sh_receivingOrders s).

Definition setQty (q : Z) (x : InventorySnapshotByZone) : InventorySnapshotByZone :=
  mkSnapshot (snap_id x) (snap_zoneId x) (snap_skuId x) q (snap_source x)
             (snap_confidence x) (snap_lastCalculatedAt x) (snap_version x).

Definition callerWritesOrder (o : nat) (f : ReceivingOrder -> ReceivingOrder)
    (s : SharedEngine) : SharedEngine :=
  mkShared (sh_fields s) (sh_snapshotStore s) (sh_snapshots s)
           (writeObject o f (sh_orderStore s)) (sh_receivingOrders s).

(** The demo store with one receiving order of 5 scarves in transit. *)
Definition orderedEngine : Engine :=
  exec (createReceivingOrder
          (mkReceivingPayload "external-esbo" "shelf-a" "SKU-NR-1" NON_RFID 5 None
                              (initialCursor + 1000)))
       demoEngine.

(** ** Open deficits of a rule *)

Definition ofOpenRule (ruleId : string) (t : ReplenishmentTask) : bool :=
  String.eqb (task_ruleId t) ruleId && taskIsOpen (task_status t).

(** The deficits of the open tasks of a rule, summed. *)
Definition openDeficit (e : Engine) (ruleId : string) : Z :=
  sumZ (map task_deficitQty (filter (ofOpenRule ruleId) (tasks e))).

(** Every open task of the rule has been started. *)
Definition onlyInProgressOpen (e : Engine) (ruleId : string) : Prop :=
  forall t, In t (tasks e) -> ofOpenRule ruleId t = true -> task_status t = IN_PROGRESS.

(** Task ids are the ones [generateReplenishmentTask] gives out: the task at
    position [i] is [task-(i+1)]. *)
Definition taskIdsInSequence (e : Engine) : Prop :=
  forall i t, nth_error (tasks e) i = Some t -> task_id t = "task-" ++ showNat (i + 1).

(** The rules [evaluateMinMax] walks through. *)
Definition activeRulesOf (e : Engine) (zoneId : string) : list ReplenishmentRule :=
  filter (fun r => String.eqb (rule_zoneId r) zoneId && rule_isActive r) (rules e).

(** What planning looks at in a task: its id, its rule, its deficit, and
    whether it can still be adjusted, has been started, or is closed. *)
Inductive TaskClass : Type := Adjustable | Started | Done.

Definition classOf (s : TaskStatus) : TaskClass :=
  match s with
  | CREATED | ASSIGNED => Adjustable
  | IN_PROGRESS => Started
  | CONFIRMED | REJECTED => Done
  end.

Record TaskView : Type := mkView {
  v_id : string;
  v_rule : string;
  v_deficit : Z;
  v_class : TaskClass
}.

Definition viewOf (t : ReplenishmentTask) : TaskView :=
  mkView (task_id t) (task_ruleId t) (task_deficitQty t) (classOf (task_status t)).

Definition views (e : Engine) : list TaskView := map viewOf (tasks e).

Definition closeV (v : TaskView) : TaskView := mkView (v_id v) (v_rule v) (v_deficit v) Done.

Definition setDeficitV (d : Z) (v : TaskView) : TaskView :=
  mkView (v_id v) (v_rule v) d (v_class v).

Definition closeAllV (refs : list nat) (vs : list TaskView) : list TaskView :=
  fold_left (fun vs i => updateAt i closeV vs) refs vs.

(** One turn of the trim loop, on views. *)
Definition trimStepV (st : Z * list TaskView) (i : nat) : Z * list TaskView :=
  if fst st <=? 0 then st else
  match nth_error (snd st) i with
  | None => st
  | Some v =>
      if v_deficit v <=? fst st
      then (fst st - v_deficit v, updateAt i closeV (snd st))
      else (0, updateAt i (setDeficitV (v_deficit v - fst st)) (snd st))
  end.

Definition isOpenV (v : TaskView) : bool :=
  match v_class v with Done => false | _ => true end.

(** What a view adds to the open deficit of [ruleId]. *)
Definition contrib (ruleId : string) (v : TaskView) : Z :=
  if String.eqb (v_rule v) ruleId && isOpenV v then v_deficit v else 0.

Definition openSumV (ruleId : string) (vs : list TaskView) : Z := sumZ (map (contrib ruleId) vs).

Definition ridViews (ruleId : string) (vs : list TaskView) : list TaskView :=
  filter (fun v => String.eqb (v_rule v) ruleId) vs.

Definition noAdjV (ruleId : string) (vs : list TaskView) : Prop :=
  Forall (fun v => v_rule v = ruleId -> v_class v <> Adjustable) vs.

Definition wfV (vs : list TaskView) : Prop :=
  forall i v, nth_error vs i = Some v -> v_id v = "task-" ++ showNat (i + 1).

(** A freshly generated task of the rule. *)
Definition newFor (ruleId : string) (v : TaskView) : Prop :=
  v_rule v = ruleId /\ v_class v = Adjustable.

(** The view at [i], if there is one, belongs to another rule. *)
Definition otherAt (ruleId : string) (vs : list TaskView) (i : nat) : Prop :=
  forall v, nth_error vs i = Some v -> v_rule v <> ruleId.

(** The view at [i] is an adjustable task of the rule. *)
Definition adjAt (ruleId : string) (vs : list TaskView) (i : nat) : Prop :=
  exists v, nth_error vs i = Some v /\ v_rule v = ruleId /\ v_class v = Adjustable.

(** The demo store after a sale of 6 scarves has raised a task for 7, the
    associate has started the task, and one scarf has come back. *)
Definition returnAfterStartRun : list Command :=
  [CmdIngestSalesEvent
     (mkSale "sale-1" "SKU-NR-1" "shelf-a" SALE 6 (initialCursor + 1000) None
             (initialCursor + 1000));
   CmdStartTask "task-1" "staff-1" (initialCursor + 2000);
   CmdIngestSalesEvent
     (mkSale "sale-2" "SKU-NR-1" "shelf-a" RETURN 1 (initialCursor + 3000) None
             (initialCursor + 3000))].

Definition returnAfterStart : Engine := runAll returnAfterStartRun (constructor demoDataset).

Definition demoRule : ReplenishmentRule :=
  mkRule "rule-shelf-a-sku-nr-1-non_rfid" "shelf-a" "SKU-NR-1" NON_RFID None 2 8 1 true 0.

Definition demoShelf : Zone :=
  mkZone "shelf-a" "Shelf A" "blue" [] ["ant-a"] [] true [mkSourceRef "warehouse" 1] true 0.

(** A method keeps an invariant of the engine's state. *)
Definition preserves {A} (I : Engine -> Prop) (c : M A) : Prop :=
  forall e, I e -> I (exec c e).

(** ** Logs

    [e] has the logs of [e0], each with entries added where the engine adds
    them: at the end of the sales, read and confirmation logs, at the front
    of the audit log. *)
Definition logsExtend (e0 e : Engine) : Prop :=
  (exists s, salesEvents e = (salesEvents e0 ++ s)%list)
  /\ (exists s, rfidEvents e = (rfidEvents e0 ++ s)%list)
  /\ (exists s, replenishmentConfirmations e = (replenishmentConfirmations e0 ++ s)%list)
  /\ (exists s, taskAudit e = (s ++ taskAudit e0)%list).

(** ** What is fixed in a task

    The fields a task is given when it is created. *)
Definition taskKey (t : ReplenishmentTask) :=
  (task_id t, task_ruleId t, task_zoneId t, task_skuId t,
   task_triggerQty t, task_targetQty t, task_createdAt t).

(** The task at position [i] is [t0] as far as its creation fields go, and,
    if [t0] is closed, it is [t0]. *)
Definition frozenAt (i : nat) (t0 : ReplenishmentTask) (e : Engine) : Prop :=
  exists t, nth_error (tasks e) i = Some t
            /\ taskKey t = taskKey t0
            /\ (taskIsOpen (task_status t0) = false -> t = t0).

(** The demo store after a sale of 6 scarves has raised a task and the task
    has been cancelled. *)
Definition cancelledTaskRun : list Command :=
  [CmdIngestSalesEvent
     (mkSale "sale-1" "SKU-NR-1" "shelf-a" SALE 6 (initialCursor + 1000) None
             (initialCursor + 1000));
   CmdCloseReplenishmentTask "task-1" "cancelled"].

Definition cancelledTaskEngine : Engine := runAll cancelledTaskRun (constructor demoDataset).
(** ** One snapshot per location, SKU and source *)

Definition snapKey (s : InventorySnapshotByZone) : string * string * InventorySource :=
  (snap_zoneId s, snap_skuId s, snap_source s).

Definition uniqueSnapshots (e : Engine) : Prop := NoDup (map snapKey (snapshots e)).

(** What [getCurrentInventoryQty] reads after [upsertSnapshot] has written
    [qty]: cashier storage keeps no snapshot for a quantity of 0 or less. *)
Definition writtenQty (zoneId : string) (qty : Z) : Z :=
  if String.eqb zoneId CASHIER_STORAGE_ZONE_ID && (qty <=? 0) then 0 else qty.

(** A property of the list of snapshots, as a property of the engine. *)
Definition snapshotsSatisfy (P : list InventorySnapshotByZone -> Prop) (e : Engine) : Prop :=
  P (snapshots e).

(** The cashier storage keeps no row without stock. *)
Definition cashierRowsPositive (l : list InventorySnapshotByZone) : Prop :=
  forall s, In s l -> snap_zoneId s = CASHIER_STORAGE_ZONE_ID -> 0 < snap_qty s.

(** ** What is fixed in a basket item

    The fields a basket item is given when it is put in the cart. *)
Definition itemKey (it : CustomerBasketItem) :=
  (item_id it, item_customerId it, item_zoneId it, item_skuId it, item_qty it,
   item_createdAt it).

(** The basket item at position [k] is [it0] as far as its creation fields
    go and, if [it0] is no longer in the cart, has the status of [it0]; with
    [grow] unset, the basket still has [n] items. *)
Definition basketAt (grow : bool) (n k : nat) (it0 : CustomerBasketItem) (e : Engine) : Prop :=
  (grow = false -> List.length (customerBasketItems e) = n)
  /\ exists it, nth_error (customerBasketItems e) k = Some it
                /\ itemKey it = itemKey it0
                /\ (inCart it0 = false -> item_status it = item_status it0).

(** One turn of the loop of [checkoutCustomer] over the customer's items. *)
Definition checkoutTurn (hostNow timestamp : Z) (st : Z * list string) (i : nat)
    : M (Z * list string) :=
  let '(soldItems, affectedZones) := st in
  e <- get ;;
  match nth_error (customerBasketItems e) i with
  | None => ret st
  | Some item =>
      checkoutItem hostNow timestamp soldItems i item ;;
      ret (soldItems + 1,
           (affectedZones ++ [item_zoneId item; CASHIER_STORAGE_ZONE_ID;
                              PRINTING_WALL_ZONE_ID])%list)
  end.

(** The references to the items a customer has in the cart. *)
Definition cartRefs (e : Engine) (customerId : string) : list nat :=
  map fst (filter (fun p => String.eqb (item_customerId (snd p)) customerId
                            && inCart (snd p))
                  (indexed (customerBasketItems e))).

(** What [checkoutCustomer] does after its loop: the customer's pending
    picks are completed and the affected locations recomputed. *)
Definition checkoutWrapUp (customerId : string) (affectedZones : list string) : M unit :=
  modify (fun e => set_pendingRFIDPicks
    (map (fun pending =>
            match find (fun it => String.eqb (item_id it) (pick_basketItemId pending))
                       (customerBasketItems e) with
            | Some basket =>
                if String.eqb (item_customerId basket) customerId
                then completePick pending else pending
            | None => pending
            end)
         (pendingRFIDPicks e)) e) ;;
  forEach (dedup affectedZones) (fun zoneId => calculateZoneInventory zoneId ;; ret tt).

(** ** Automatic assignment *)

(** A task [autoAssignPendingTasks] picks up: created and without assignee. *)
Definition isPending (t : ReplenishmentTask) : bool :=
  isCreated (task_status t) && negb (truthyOpt (task_assignedStaffId t)).

(** The write [autoAssignPendingTasks] makes to a task it gives to [member]. *)
Definition assignedTo (member : StaffMember) (at_ : Z) (t : ReplenishmentTask)
    : ReplenishmentTask :=
  task_set_updatedAt at_ (task_set_status ASSIGNED
    (task_set_assignedAt (Some at_)
      (task_set_assignedStaffId (Some (staff_id member)) t))).

(** How [autoAssignPendingTasks] treats a task, with [availableStaff] on
    shift: a pending task goes to a member of its pool, any other task is
    left alone. *)
Definition autoAssignOutcome (availableStaff : list StaffMember) (at_ : Z)
    (t t' : ReplenishmentTask) : Prop :=
  if isPending t
  then exists member,
         In member (fst (assignPoolFor availableStaff (task_zoneId t)))
         /\ t' = assignedTo member at_ t
  else t' = t.

(** The demo store where a sale of 6 scarves raised a task while nobody was
    on shift, at the moment the associate's shift is switched back on: the
    state [updateStaffShift] hands to [autoAssignPendingTasks]. *)
Definition offShiftRun : list Command :=
  [CmdUpdateStaffShift "staff-1" false;
   CmdIngestSalesEvent
     (mkSale "sale-1" "SKU-NR-1" "shelf-a" SALE 6 (initialCursor + 1000) None
             (initialCursor + 1000))].

Definition waitingTaskEngine : Engine :=
  updStaff 0 (staff_set_activeShift true) (runAll offShiftRun (constructor demoDataset)).

(** A request leaves the state as it is whenever its result is one of the
    [rejected] ones. *)
Definition leavesStateWhen {A} (c : M A) (rejected : A -> bool) : Prop :=
  forall e, rejected (eval c e) = true -> exec c e = e.

Definition isNot (status result : string) : bool := negb (String.eqb result status).

(** ** The writes to the receiving orders

    The write of [autoAssignPendingReceivingOrders] to an order, the write of
    [confirmReceivingOrder], and the three ways the list of orders changes:
    a new order in transit is put in front with the next id, an order in
    transit is assigned, an order in transit is confirmed. *)
Definition orderAssigned (staffId : string) (at_ : Z) (o : ReceivingOrder) : ReceivingOrder :=
  order_set_updatedAt at_ (order_set_assignedAt (Some at_)
    (order_set_assignedStaffId (Some staffId) o)).

Definition orderConfirmed (movedQty : Z) (confirmedBy : string) (confirmedAt : Z)
    (o : ReceivingOrder) : ReceivingOrder :=
  order_set_updatedAt confirmedAt
    (order_set_confirmedBy (Some confirmedBy)
      (order_set_confirmedAt (Some confirmedAt)
        (order_set_status ORDER_CONFIRMED (order_set_confirmedQty movedQty o)))).

Inductive orderWrite : list ReceivingOrder -> list ReceivingOrder -> Prop :=
  | write_create l o :
      order_id o = "recv-" ++ showNat (List.length l + 1) ->
      order_status o = IN_TRANSIT ->
      orderWrite l (o :: l)
  | write_assign l i o staffId at_ :
      nth_error l i = Some o -> orderInTransit o = true ->
      orderWrite l (updateAt i (orderAssigned staffId at_) l)
  | write_confirm l i o movedQty confirmedBy confirmedAt :
      nth_error l i = Some o -> orderInTransit o = true ->
      orderWrite l (updateAt i (orderConfirmed movedQty confirmedBy confirmedAt) l).

Inductive ordersEvolve : list ReceivingOrder -> list ReceivingOrder -> Prop :=
  | evolve_refl l : ordersEvolve l l
  | evolve_step l1 l2 l3 : ordersEvolve l1 l2 -> orderWrite l2 l3 -> ordersEvolve l1 l3.

(** The orders of [e] come from [l0] by such writes. *)
Definition ordersFrom (l0 : list ReceivingOrder) (e : Engine) : Prop :=
  ordersEvolve l0 (receivingOrders e).

(** The fields an order is created with. *)
Definition orderKey (o : ReceivingOrder) :=
  (order_id o, order_sourceLocationId o, order_destinationZoneId o, order_skuId o,
   order_source o, order_requestedQty o, order_createdAt o, order_note o).

(** Order ids are the ones [createReceivingOrder] gives out: the newest
    order is in front, the [k]-th order created is [recv-k]. *)
Definition orderIdsInSequence (l : list ReceivingOrder) : Prop :=
  map order_id l
  = map (fun k => "recv-" ++ showNat k) (List.rev (seq 1 (List.length l))).

(** The orders of [e] come from [l0] by such writes and are the list [l]. *)
Definition ordersKept (l0 l : list ReceivingOrder) (e : Engine) : Prop :=
  ordersFrom l0 e /\ receivingOrders e = l.

(** ** Rules *)

(** The rule [upsertRule] looks for: same location, SKU and source. *)
Definition ruleMatches (payload : UpsertRulePayload) (rule : ReplenishmentRule) : bool :=
  String.eqb (rule_zoneId rule) (ur_zoneId payload)
  && String.eqb (rule_skuId rule) (ur_skuId payload)
  && sourceEqb (rule_source rule) (ur_source payload).

(** ** Retired rules *)

(** No task of the rule [ruleId] is open. *)
Definition noOpenTaskOf (ruleId : string) (e : Engine) : Prop :=
  forall t, In t (tasks e) -> task_ruleId t = ruleId -> taskIsOpen (task_status t) = false.

(** No active rule has the id [ruleId]. *)
Definition noActiveRule (ruleId : string) (e : Engine) : Prop :=
  forall r, In r (rules e) -> rule_id r = ruleId -> rule_isActive r = false.

Definition ruleRetired (ruleId : string) (e : Engine) : Prop :=
  noOpenTaskOf ruleId e /\ noActiveRule ruleId e.

(** The demo store after a sale of 6 scarves has raised a task and the
    associate has started it. *)
Definition startedTaskRun : list Command :=
  [CmdIngestSalesEvent
     (mkSale "sale-1" "SKU-NR-1" "shelf-a" SALE 6 (initialCursor + 1000) None
             (initialCursor + 1000));
   CmdStartTask "task-1" "staff-1" (initialCursor + 2000)].

Definition startedTaskEngine : Engine := runAll startedTaskRun (constructor demoDataset).

(** ** Confirmations that move stock *)

(** While a confirmation tries its sources: the cursor is [now] and the
    task at position [i] is [t0] but for its source. *)
Definition taskButSource (i : nat) (t0 : ReplenishmentTask) (now : Z) (e : Engine) : Prop :=
  nowCursor e = now
  /\ exists t, nth_error (tasks e) i = Some t
               /\ t = task_set_sourceZoneId (task_sourceZoneId t) t0.

(** The writes of [confirmTask] and of the [closeReplenishmentTask] it ends
    with, to a task confirmed for [movedQty] units. *)
Definition taskConfirmed (payload : ConfirmPayload) (movedQty : Z) (reason : string)
    (t : ReplenishmentTask) : ReplenishmentTask :=
  task_set_updatedAt (cp_confirmedAt payload)
    (task_set_closedAt (Some (cp_confirmedAt payload))
      (task_set_closeReason (Some reason)
        (task_set_status CONFIRMED
          (task_set_updatedAt (cp_confirmedAt payload)
            (task_set_confirmedBy (Some (cp_confirmedBy payload))
              (task_set_confirmedQty (Some movedQty) t)))))).

(** What a confirmation moves is added to the ledger of the destination. *)
Definition confirmationOf (payload : ConfirmPayload) (movedQty : Z) (task : ReplenishmentTask)
    : ConfirmationMovement :=
  mkMovement (task_zoneId task) (task_skuId task) movedQty (cp_confirmedAt payload)
             (task_id task).

(** ** Fallback sources *)

(** The source zones configured for a task: its own candidates, then the
    sources of its destination zone. *)
Definition configuredSourceIds (e : Engine) (task : ReplenishmentTask) : list string :=
  (map cand_sourceZoneId
       (match task_sourceCandidates task with Some c => c | None => [] end)
   ++ match findZone e (task_zoneId task) with
      | Some zone => map ref_sourceZoneId (zone_replenishmentSources zone)
      | None => []
      end)%list.

(** One turn of the two loops of [getFallbackSourceZoneIds]. *)
Definition fallbackStep (st : list string * list string) (id : string) :=
  let '(candidates, excludeSet) := st in
  if includes excludeSet id then st
  else ((candidates ++ [id])%list, (excludeSet ++ [id])%list).

(** ** Sources of a location *)

(** [l] is in ascending order. *)
Fixpoint ascending (l : list Z) : bool :=
  match l with
  | [] => true
  | x :: r => match r with [] => true | y :: _ => (x <=? y) && ascending r end
  end.

(** A source zone that [updateLocation] accepts for the location [zoneId]:
    another location, known or external. *)
Definition acceptedSource (e : Engine) (zoneId id : string) : Prop :=
  id <> zoneId /\ (isExternal id = true \/ zoneExists e id = true).

(** The writes of [updateLocation] to a task whose source was removed. *)
Definition sourceRemoved (now : Z) (t : ReplenishmentTask) : ReplenishmentTask :=
  task_set_updatedAt now (task_set_closedAt (Some now)
    (task_set_closeReason (Some "source_removed") (task_set_status REJECTED t))).

(** The test of the loop of [updateLocation] over the tasks. *)
Definition usesRemovedSource (zoneId : string) (removedSourceIds : list string)
    (task : ReplenishmentTask) : bool :=
  String.eqb (task_zoneId task) zoneId
  && taskIsOpen (task_status task)
  && match task_sourceZoneId task with
     | Some s => truthy s && includes removedSourceIds s
     | None => false
     end.

(** ** Tags *)

(** The presence records are filed under their own EPC, once each. *)
Definition presenceKeyed (e : Engine) : Prop :=
  NoDup (map fst (epcPresence e))
  /\ forall k p, In (k, p) (epcPresence e) -> pres_epc p = k.

(** The number of tags of a SKU present in a location. *)
Definition tagCount (e : Engine) (zoneId skuId : string) : Z :=
  Z.of_nat (List.length (getPresentEPCs e zoneId skuId)).

(** ** The audit trail *)

(** An audit entry with this action accounts for a task in this status. *)
Definition explains (action : AuditAction) (status : TaskStatus) : Prop :=
  match status with
  | CREATED => True
  | ASSIGNED => action = A_ASSIGNED
  | IN_PROGRESS => action = A_STARTED
  | CONFIRMED => action = A_CLOSED
  | REJECTED => action = A_CLOSED \/ action = A_CANCELLED
  end.

(** The audit trail has, for the task, an entry of its creation and an entry
    that accounts for its status. *)
Definition audited (audit : list TaskAuditEntry) (t : ReplenishmentTask) : Prop :=
  (exists a, In a audit /\ audit_taskId a = task_id t /\ audit_action a = A_CREATED)
  /\ (exists a, In a audit /\ audit_taskId a = task_id t
                /\ explains (audit_action a) (task_status t)).

Definition auditComplete (e : Engine) : Prop :=
  forall t, In t (tasks e) -> audited (taskAudit e) t.

(** ** Inbound orders *)

(** [plannedInTransitQty] of [evaluateInboundReceivingNeed]: what the orders
    in transit to a location ask for, for a SKU and source. *)
Definition plannedInTransitQty (e : Engine) (zoneId skuId : string) (source : InventorySource)
    : Z :=
  sumZ (map (fun order => Z.max 0 (order_requestedQty order))
    (filter (fun order =>
       orderInTransit order
       && String.eqb (order_destinationZoneId order) zoneId
       && String.eqb (order_skuId order) skuId
       && sourceEqb (order_source order) source)
     (receivingOrders e))).

(** The fields of an order that [plannedInTransitQty] reads. *)
Definition planKey (o : ReceivingOrder) :=
  (orderInTransit o, order_destinationZoneId o, order_skuId o, order_source o,
   order_requestedQty o).

Definition ordersPlanned (keys : list (bool * string * string * InventorySource * Z))
    (e : Engine) : Prop :=
  map planKey (receivingOrders e) = keys.

(** ** Routing to cashier storage *)

(** The tag [epc] has a presence record, and it is in the location [zoneId]. *)
Definition filedIn (e : Engine) (zoneId epc : string) : Prop :=
  exists p, mapGet epc (epcPresence e) = Some p /\ pres_zoneId p = zoneId.

(** * Properties *)

(** ** Reasoning about monadic code *)

Lemma exec_bind {A B} (c : M A) (k : A -> M B) e :
  exec (bind c k) e = exec (k (eval c e)) (exec c e).
Proof. reflexivity. Qed.

Lemma eval_bind {A B} (c : M A) (k : A -> M B) e :
  eval (bind c k) e = eval (k (eval c e)) (exec c e).
Proof. reflexivity. Qed.

Lemma preserves_ret {A} I (a : A) : preserves I (ret a).
Proof. intros e H; exact H. Qed.

Lemma preserves_bind {A B} I (c : M A) (k : A -> M B) :
  preserves I c -> (forall a, preserves I (k a)) -> preserves I (bind c k).
Proof. intros Hc Hk e H. rewrite exec_bind. apply Hk, Hc, H. Qed.

Lemma preserves_bind_get {B} I (k : Engine -> M B) :
  (forall e0, I e0 -> preserves I (k e0)) -> preserves I (bind get k).
Proof. intros Hk e H. rewrite exec_bind. apply (Hk e H), H. Qed.

Lemma preserves_bind_gets {A B} I (f : Engine -> A) (k : A -> M B) :
  (forall e0, I e0 -> preserves I (k (f e0))) -> preserves I (bind (gets f) k).
Proof. intros Hk e H. rewrite exec_bind. apply (Hk e H), H. Qed.

Lemma preserves_gets {A} I (f : Engine -> A) : preserves I (gets f).
Proof. intros e H; exact H. Qed.

Lemma preserves_modify I (f : Engine -> Engine) :
  (forall e, I e -> I (f e)) -> preserves I (modify f).
Proof. intros Hf e H. apply Hf, H. Qed.

Lemma preserves_when I b (c : M unit) : (b = true -> preserves I c) -> preserves I (when b c).
Proof. intros Hc. destruct b; [apply Hc; reflexivity | apply preserves_ret]. Qed.

Lemma preserves_forEach {A} I (l : list A) (body : A -> M unit) :
  (forall x, preserves I (body x)) -> preserves I (forEach l body).
Proof.
  intros Hb. induction l as [|x r IH]; simpl.
  - apply preserves_ret.
  - apply preserves_bind; [apply Hb | intros _; exact IH].
Qed.

Lemma preserves_foldM {A S} I (l : list A) (s : S) (body : S -> A -> M S) :
  (forall s x, preserves I (body s x)) -> preserves I (foldM l s body).
Proof.
  intros Hb. revert s. induction l as [|x r IH]; intros s; simpl.
  - apply preserves_ret.
  - apply preserves_bind; [apply Hb | intros s'; apply IH].
Qed.

Lemma preserves_forTasks I refs (body : nat -> ReplenishmentTask -> M unit) :
  (forall i t, preserves I (body i t)) -> preserves I (forTasks refs body).
Proof.
  intros Hb. unfold forTasks. apply preserves_forEach. intros i.
  apply preserves_bind_get. intros e0 _.
  destruct (nth_error (tasks e0) i); [apply Hb | apply preserves_ret].
Qed.

(** One step through the structure of a method's body. *)
Ltac pres_step :=
  lazymatch goal with
  | |- preserves _ (bind get _) => apply preserves_bind_get; intros ? ?
  | |- preserves _ (bind (gets _) _) => apply preserves_bind_gets; intros ? ?
  | |- preserves _ (bind _ _) => apply preserves_bind; [ | intros ? ]
  | |- preserves _ (ret _) => apply preserves_ret
  | |- preserves _ (gets _) => apply preserves_gets
  | |- preserves _ (modify _) => apply preserves_modify; intros ? ?
  | |- preserves _ (when _ _) => apply preserves_when; intros ?
  | |- preserves _ (forEach _ _) => apply preserves_forEach; intros ?
  | |- preserves _ (forTasks _ _) => apply preserves_forTasks; intros ? ?
  | |- preserves _ (foldM _ _ _) => apply preserves_foldM; intros ? ?
  | |- preserves _ (if ?b then _ else _) => destruct b eqn:?
  | |- preserves _ (match ?x with _ => _ end) => destruct x eqn:?
  end.

Create HintDb frame discriminated.

Lemma planFrame_cursor e1 e0 : planFrame e1 = planFrame e0 -> nowCursor e1 = nowCursor e0.
Proof. unfold planFrame. intros H. injection H. intros; assumption. Qed.

Lemma invFrame_cursor e1 e0 : invFrame e1 = invFrame e0 -> nowCursor e1 = nowCursor e0.
Proof. unfold invFrame. intros H. injection H. intros; assumption. Qed.

Lemma coreFrame_cursor e1 e0 : coreFrame e1 = coreFrame e0 -> nowCursor e1 = nowCursor e0.
Proof. unfold coreFrame. intros H. injection H. intros; assumption. Qed.

Lemma planFrame_inv e1 e0 : planFrame e1 = planFrame e0 -> invFrame e1 = invFrame e0.
Proof. unfold planFrame, invFrame. intros H. injection H. intros. congruence. Qed.

Lemma invFrame_core e1 e0 : invFrame e1 = invFrame e0 -> coreFrame e1 = coreFrame e0.
Proof. unfold coreFrame, invFrame. intros H. injection H. intros. congruence. Qed.

Ltac norm_cursor :=
  repeat match goal with
  | H : planFrame ?e1 = planFrame ?e0 |- context [nowCursor ?e1] =>
      progress rewrite (planFrame_cursor _ _ H)
  | H : invFrame ?e1 = invFrame ?e0 |- context [nowCursor ?e1] =>
      progress rewrite (invFrame_cursor _ _ H)
  | H : coreFrame ?e1 = coreFrame ?e0 |- context [nowCursor ?e1] =>
      progress rewrite (coreFrame_cursor _ _ H)
  end.

(** A write that leaves the frame alone. *)
Ltac frame_leaf :=
  repeat match goal with
         | |- _ (match ?x with _ => _ end) = _ => destruct x
         end;
  match goal with
  | H : planFrame ?e = planFrame ?e0 |- planFrame _ = planFrame ?e0 =>
      rewrite <- H; pose proof (planFrame_cursor _ _ H);
      unfold planFrame, updTask, updOrder; simpl; congruence
  | H : invFrame ?e = invFrame ?e0 |- invFrame _ = invFrame ?e0 =>
      rewrite <- H; pose proof (invFrame_cursor _ _ H);
      unfold invFrame, updTask, updOrder; simpl; congruence
  | H : coreFrame ?e = coreFrame ?e0 |- coreFrame _ = coreFrame ?e0 =>
      rewrite <- H; pose proof (coreFrame_cursor _ _ H);
      unfold coreFrame, updTask, updOrder, updItem, deletePresence; simpl; congruence
  end.

Ltac frame_auto :=
  repeat (norm_cursor;
          first [ solve [eauto with frame] | frame_leaf | pres_step ]).

Section PlanningFrame.

Variable e0 : Engine.
Let I := fun e => planFrame e = planFrame e0.

Lemma pushTaskAudit_plan taskId action actorId details :
  preserves I (pushTaskAudit taskId action actorId details).
Proof. unfold pushTaskAudit, I. frame_auto. Qed.

Lemma autoAssignPendingTasks_plan : preserves I (autoAssignPendingTasks (nowCursor e0)).
Proof.
  pose proof pushTaskAudit_plan. unfold autoAssignPendingTasks, assignPendingTask, I in *.
  frame_auto.
Qed.

Lemma autoAssignPendingReceivingOrders_plan :
  preserves I (autoAssignPendingReceivingOrders (nowCursor e0)).
Proof. unfold autoAssignPendingReceivingOrders, I. frame_auto. Qed.

End PlanningFrame.

#[export] Hint Resolve pushTaskAudit_plan autoAssignPendingTasks_plan
  autoAssignPendingReceivingOrders_plan : frame.

Section PlanningFrame2.

Variable e0 : Engine.
Let I := fun e => planFrame e = planFrame e0.

Lemma closeReplenishmentTask_plan taskId reason :
  preserves I (closeReplenishmentTask taskId reason).
Proof. unfold closeReplenishmentTask, I. frame_auto. Qed.

Lemma generateReplenishmentTask_plan rule d t s c :
  preserves I (generateReplenishmentTask rule d t s c).
Proof. unfold generateReplenishmentTask, I. frame_auto. Qed.

Lemma createReceivingOrder_plan payload :
  rp_createdAt payload = nowCursor e0 -> preserves I (createReceivingOrder payload).
Proof. intros Hc. unfold createReceivingOrder, I. rewrite Hc. frame_auto. Qed.

End PlanningFrame2.

#[export] Hint Resolve closeReplenishmentTask_plan generateReplenishmentTask_plan : frame.

Section PlanningFrame3.

Variable e0 : Engine.
Let I := fun e => planFrame e = planFrame e0.

Lemma evaluateInboundReceivingNeed_plan zone rule currentQty :
  preserves I (evaluateInboundReceivingNeed zone rule currentQty).
Proof.
  unfold evaluateInboundReceivingNeed, I. frame_auto.
  apply createReceivingOrder_plan. reflexivity.
Qed.

Lemma mergePlan_plan zone rule o a : preserves I (mergePlan zone rule o a).
Proof. unfold mergePlan, I. frame_auto. Qed.

Lemma trimPlan_plan a overflow : preserves I (trimPlan a overflow).
Proof. unfold trimPlan, I. frame_auto. Qed.

Lemma refreshSources_plan rule o : preserves I (refreshSources rule o).
Proof. unfold refreshSources, I. frame_auto. Qed.

Lemma triggerPlan_plan rule c r : preserves I (triggerPlan rule c r).
Proof. unfold triggerPlan, I. frame_auto. Qed.

End PlanningFrame3.

#[export] Hint Resolve evaluateInboundReceivingNeed_plan mergePlan_plan trimPlan_plan
  refreshSources_plan triggerPlan_plan : frame.

Section PlanningFrame4.

Variable e0 : Engine.
Let I := fun e => planFrame e = planFrame e0.

Lemma evaluateSalesRule_plan zone rule currentQty :
  preserves I (evaluateSalesRule zone rule currentQty).
Proof. unfold evaluateSalesRule, I. frame_auto. Qed.

Lemma evaluateMinMax_plan zoneId : preserves I (evaluateMinMax zoneId).
Proof.
  pose proof evaluateSalesRule_plan. unfold evaluateMinMax, I in *. frame_auto.
Qed.

End PlanningFrame4.

#[export] Hint Resolve evaluateMinMax_plan : frame.

(** [evaluateMinMax] changes nothing but tasks, audit and receiving orders. *)
Lemma evaluateMinMax_frame zoneId e :
  planFrame (exec (evaluateMinMax zoneId) e) = planFrame e.
Proof. apply (evaluateMinMax_plan e zoneId e). reflexivity. Qed.

(** ** What a recompute leaves alone *)

Lemma evaluateMinMax_inv e0 zoneId :
  preserves (fun e => invFrame e = invFrame e0) (evaluateMinMax zoneId).
Proof.
  intros e H. rewrite <- H. apply planFrame_inv, evaluateMinMax_frame.
Qed.

Lemma upsertSnapshot_inv e0 zoneId skuId qty source confidence :
  preserves (fun e => invFrame e = invFrame e0)
            (upsertSnapshot zoneId skuId qty source confidence).
Proof.
  unfold upsertSnapshot. apply preserves_modify. intros e H.
  destruct (_ && _); destruct (findIndex _ _); frame_leaf.
Qed.

#[export] Hint Resolve evaluateMinMax_inv upsertSnapshot_inv : frame.

Lemma calculateZoneInventory_inv e0 zoneId :
  preserves (fun e => invFrame e = invFrame e0) (calculateZoneInventory zoneId).
Proof. unfold calculateZoneInventory. frame_auto. Qed.

#[export] Hint Resolve calculateZoneInventory_inv : frame.

Lemma calculateZoneInventory_frame zoneId e :
  invFrame (exec (calculateZoneInventory zoneId) e) = invFrame e.
Proof. apply (calculateZoneInventory_inv e zoneId e). reflexivity. Qed.

Lemma evaluateMinMax_core e0 zoneId :
  preserves (fun e => coreFrame e = coreFrame e0) (evaluateMinMax zoneId).
Proof.
  intros e H. rewrite <- H. apply invFrame_core, planFrame_inv, evaluateMinMax_frame.
Qed.

Lemma calculateZoneInventory_core e0 zoneId :
  preserves (fun e => coreFrame e = coreFrame e0) (calculateZoneInventory zoneId).
Proof.
  intros e H. rewrite <- H. apply invFrame_core, calculateZoneInventory_frame.
Qed.

Lemma upsertSnapshot_core e0 zoneId skuId qty source confidence :
  preserves (fun e => coreFrame e = coreFrame e0)
            (upsertSnapshot zoneId skuId qty source confidence).
Proof.
  intros e H. rewrite <- H. apply invFrame_core.
  apply (upsertSnapshot_inv e zoneId skuId qty source confidence e). reflexivity.
Qed.

#[export] Hint Resolve evaluateMinMax_core calculateZoneInventory_core upsertSnapshot_core
  : frame.

Lemma applyPendingRFIDPicks_core e0 zoneId :
  preserves (fun e => coreFrame e = coreFrame e0) (applyPendingRFIDPicks zoneId).
Proof.
  unfold applyPendingRFIDPicks. frame_auto.
Qed.

Lemma deductRFIDImmediate_core e0 zoneId skuId qty :
  preserves (fun e => coreFrame e = coreFrame e0) (deductRFIDImmediate zoneId skuId qty).
Proof. unfold deductRFIDImmediate. frame_auto. Qed.

#[export] Hint Resolve applyPendingRFIDPicks_core deductRFIDImmediate_core : frame.

(** ** Running a method on a given state *)

Lemma exec_ret {A} (a : A) e : exec (ret a) e = e.
Proof. reflexivity. Qed.
Lemma eval_ret {A} (a : A) e : eval (ret a) e = a.
Proof. reflexivity. Qed.
Lemma exec_get e : exec get e = e.
Proof. reflexivity. Qed.
Lemma eval_get e : eval get e = e.
Proof. reflexivity. Qed.
Lemma exec_gets {A} (f : Engine -> A) e : exec (gets f) e = e.
Proof. reflexivity. Qed.
Lemma eval_gets {A} (f : Engine -> A) e : eval (gets f) e = f e.
Proof. reflexivity. Qed.
Lemma exec_modify f e : exec (modify f) e = f e.
Proof. reflexivity. Qed.
Lemma eval_modify f e : eval (modify f) e = tt.
Proof. reflexivity. Qed.

Create Rewrite HintDb run.

#[export] Hint Rewrite @exec_bind @eval_bind @exec_ret @eval_ret exec_get eval_get
  @exec_gets @eval_gets exec_modify eval_modify : run.

Ltac run := repeat (progress (autorewrite with run; cbv beta iota)).

Lemma exec_if {A} (b : bool) (c1 c2 : M A) e :
  exec (if b then c1 else c2) e = if b then exec c1 e else exec c2 e.
Proof. destruct b; reflexivity. Qed.

Lemma eval_if {A} (b : bool) (c1 c2 : M A) e :
  eval (if b then c1 else c2) e = if b then eval c1 e else eval c2 e.
Proof. destruct b; reflexivity. Qed.

Lemma coreFrame_sales e1 e0 : coreFrame e1 = coreFrame e0 -> salesEvents e1 = salesEvents e0.
Proof. unfold coreFrame. intros H. injection H. intros; assumption. Qed.

Lemma coreFrame_reads e1 e0 : coreFrame e1 = coreFrame e0 -> rfidEvents e1 = rfidEvents e0.
Proof. unfold coreFrame. intros H. injection H. intros; assumption. Qed.

Lemma calculateZoneInventory_coreFrame zoneId e :
  coreFrame (exec (calculateZoneInventory zoneId) e) = coreFrame e.
Proof. apply (calculateZoneInventory_core e zoneId e). reflexivity. Qed.

Lemma deductRFIDImmediate_coreFrame zoneId skuId qty e :
  coreFrame (exec (deductRFIDImmediate zoneId skuId qty) e) = coreFrame e.
Proof. apply (deductRFIDImmediate_core e zoneId skuId qty e). reflexivity. Qed.

Lemma applyPendingRFIDPicks_coreFrame zoneId e :
  coreFrame (exec (applyPendingRFIDPicks zoneId) e) = coreFrame e.
Proof. apply (applyPendingRFIDPicks_core e zoneId e). reflexivity. Qed.

(** ** Sales ingestion *)

Lemma ingestSalesEvent_unfold event e :
  ingestSalesEvent event e =
  (if isRfid (skuSource e (sale_skuId event)) && isSale event
   then ("accepted_rfid_immediate",
         exec (deductRFIDImmediate (sale_zoneId event) (sale_skuId event) (sale_qty event))
              (afterSaleLogged event e))
   else ("accepted",
         exec (calculateZoneInventory (sale_zoneId event)) (afterSaleLogged event e))).
Proof.
  unfold ingestSalesEvent, afterSaleLogged, bind, modify, get, ret, exec. simpl.
  unfold skuSource at 1. simpl.
  change (match mapGet (sale_skuId event) (skuSourceById e) with
          | Some s => s | None => NON_RFID end) with (skuSource e (sale_skuId event)).
  destruct (isRfid (skuSource e (sale_skuId event)) && isSale event); reflexivity.
Qed.

Lemma ingestSalesEvent_effect (event : SalesEvent) (e : Engine) :
  salesEvents (snd (ingestSalesEvent event e)) = (salesEvents e ++ [event])%list
  /\ nowCursor (snd (ingestSalesEvent event e)) = sale_timestamp event
  /\ fst (ingestSalesEvent event e) =
     if isRfid (skuSource e (sale_skuId event)) && isSale event
     then "accepted_rfid_immediate" else "accepted".
Proof.
  rewrite ingestSalesEvent_unfold.
  destruct (isRfid (skuSource e (sale_skuId event)) && isSale event) eqn:Hb; simpl.
  - pose proof (deductRFIDImmediate_coreFrame (sale_zoneId event) (sale_skuId event)
                  (sale_qty event) (afterSaleLogged event e)) as H.
    rewrite (coreFrame_sales _ _ H), (coreFrame_cursor _ _ H). auto.
  - pose proof (calculateZoneInventory_coreFrame (sale_zoneId event)
                  (afterSaleLogged event e)) as H.
    rewrite (coreFrame_sales _ _ H), (coreFrame_cursor _ _ H). auto.
Qed.

(** C9. [ingestSalesEvent] validates nothing: whatever the event (unknown
    location, unknown SKU, zero or negative quantity) it is appended to the
    sales log, the cursor is its timestamp when the command returns, and the
    status is [accepted] or [accepted_rfid_immediate]; a SKU missing from the
    SKU table is handled as NON_RFID and so answers [accepted]. *)
Theorem ingestSalesEvent_never_rejects (event : SalesEvent) (e : Engine) :
  let r := ingestSalesEvent event e in
  salesEvents (snd r) = (salesEvents e ++ [event])%list
  /\ nowCursor (snd r) = sale_timestamp event
  /\ (fst r = "accepted" \/ fst r = "accepted_rfid_immediate")
  /\ (mapGet (sale_skuId event) (skuSourceById e) = None -> fst r = "accepted").
Proof.
  cbv zeta. destruct (ingestSalesEvent_effect event e) as [Hs [Hc Hr]].
  repeat split; auto.
  - rewrite Hr. destruct (_ && _); auto.
  - intros Hn. rewrite Hr. unfold skuSource. rewrite Hn. reflexivity.
Qed.

(** ** RFID ingestion *)

Lemma ingestRFIDRead_unfold event e :
  ingestRFIDRead event e =
  if negb (validAntenna e event) then (("invalid_antenna_or_zone", None), e) else
  if deduplicateReads e (read_epc event) (read_antennaId event) dedupWindowSec
                      (read_timestamp event)
  then (("duplicate_ignored", None), e) else
  match lookupSkuByEPC e (read_epc event) (read_timestamp event) with
  | None => (("unknown_epc", None), e)
  | Some mapping =>
      (("accepted", Some (map_skuId mapping)),
       exec (calculateZoneInventory (read_zoneId event))
            (exec (applyPendingRFIDPicks (read_zoneId event))
                  (afterReadStored event mapping e)))
  end.
Proof.
  unfold ingestRFIDRead, validAntenna.
  unfold bind at 1. unfold get. cbv zeta. cbn [fst snd].
  destruct (find _ (antennas e)) eqn:Hf.
  - assert (Hx : existsb (fun a => String.eqb (ant_id a) (read_antennaId event)
                   && String.eqb (ant_zoneId a) (read_zoneId event)) (antennas e) = true).
    { apply existsb_exists. apply find_some in Hf. exists a. exact Hf. }
    rewrite Hx. simpl negb. cbv iota.
    destruct (deduplicateReads _ _ _ _ _); [reflexivity|].
    destruct (lookupSkuByEPC _ _ _); reflexivity.
  - assert (Hx : existsb (fun a => String.eqb (ant_id a) (read_antennaId event)
                   && String.eqb (ant_zoneId a) (read_zoneId event)) (antennas e) = false).
    { apply not_true_is_false. intros Hx. apply existsb_exists in Hx.
      destruct Hx as [a [Hin Ha]]. apply (find_none _ _ Hf) in Hin. congruence. }
    rewrite Hx. reflexivity.
Qed.

Lemma find_app {A} (p : A -> bool) (l1 l2 : list A) :
  find p (l1 ++ l2)%list = match find p l1 with Some x => Some x | None => find p l2 end.
Proof. induction l1 as [|x r IH]; simpl; [reflexivity|]. destruct (p x); auto. Qed.

Lemma last_some_cons {A} (x : A) (l : list A) :
  last (map Some (x :: l)) None =
  match last (map Some l) None with Some y => Some y | None => Some x end.
Proof.
  revert x. induction l as [|y r IH]; intros x; [reflexivity|].
  change (last (map Some (x :: y :: r)) None) with (last (map Some (y :: r)) None).
  rewrite (IH y). destruct (last (map Some r) None); reflexivity.
Qed.

(** Searching the reversed log finds the last matching entry of the log. *)
Lemma find_rev_last {A} (p : A -> bool) (l : list A) :
  find p (List.rev l) = last (map Some (filter p l)) None.
Proof.
  induction l as [|x r IH]; [reflexivity|].
  simpl List.rev. rewrite find_app, IH. simpl filter. simpl find.
  destruct (p x).
  - rewrite last_some_cons. reflexivity.
  - destruct (last (map Some (filter p r)) None); reflexivity.
Qed.

Lemma deduplicateReads_spec e epc antennaId timestamp :
  deduplicateReads e epc antennaId dedupWindowSec timestamp = true <->
  exists prev, lastLoggedRead e epc antennaId = Some prev
               /\ timestamp - 15 * 1000 <= read_timestamp prev.
Proof.
  unfold deduplicateReads, lastLoggedRead, dedupWindowSec. rewrite find_rev_last.
  destruct (last _ None) as [prev|].
  - rewrite Z.leb_le. split.
    + intros H. exists prev. split; [reflexivity | exact H].
    + intros [p [Hp H]]. inversion Hp. subst. exact H.
  - split; [discriminate | intros [p [Hp _]]; discriminate].
Qed.

(** C5, amended. A read on a valid antenna/zone pair answers
    [duplicate_ignored] exactly when the last entry of the read log for the
    same (epc, antenna), be it an accepted read or a synthetic read a transfer
    appended, is at most 15 s older than it; and a read answered so leaves the
    whole engine state as it was: no event stored, no presence record
    updated, cursor not moved. *)
Theorem duplicate_read_is_ignored (event : RFIDReadEvent) (e : Engine) :
  validAntenna e event = true ->
  let r := ingestRFIDRead event e in
  (fst (fst r) = "duplicate_ignored" <->
     exists prev, lastLoggedRead e (read_epc event) (read_antennaId event) = Some prev
                  /\ read_timestamp event - 15 * 1000 <= read_timestamp prev)
  /\ (fst (fst r) = "duplicate_ignored" ->
      snd r = e /\ rfidEvents (snd r) = rfidEvents e
      /\ epcPresence (snd r) = epcPresence e /\ nowCursor (snd r) = nowCursor e).
Proof.
  intros Hv. cbv zeta. rewrite ingestRFIDRead_unfold, Hv. simpl negb. cbv iota.
  rewrite <- deduplicateReads_spec.
  destruct (deduplicateReads _ _ _ _ _) eqn:Hd.
  - simpl. repeat split; auto.
  - destruct (lookupSkuByEPC _ _ _); simpl; split;
      try (split; [discriminate | intros H; discriminate]); intros H; discriminate.
Qed.

(** ** The cursor *)

(** C1, as stated, fails: a sale stamped one minute before the cursor is
    accepted and the cursor goes back to the sale's timestamp, which is not
    [max(cursor, timestamp)]. *)
Lemma cursor_rewinds_on_late_sale :
  let r := ingestSalesEvent lateSale demoEngine in
  fst r = "accepted"
  /\ sale_timestamp lateSale < nowCursor demoEngine
  /\ nowCursor (snd r) <> Z.max (nowCursor demoEngine) (sale_timestamp lateSale)
  /\ nowCursor (snd r) < nowCursor demoEngine.
Proof. vm_compute. repeat split; try reflexivity; discriminate. Qed.

(** C1, amended. After a sales event, and after an RFID read that is
    accepted, the cursor is the event's timestamp, whatever the cursor was
    before. *)
Theorem cursor_is_event_timestamp (sale : SalesEvent) (read : RFIDReadEvent) (e : Engine) :
  nowCursor (snd (ingestSalesEvent sale e)) = sale_timestamp sale
  /\ (fst (fst (ingestRFIDRead read e)) = "accepted" ->
      nowCursor (snd (ingestRFIDRead read e)) = read_timestamp read).
Proof.
  split.
  - apply (ingestSalesEvent_effect sale e).
  - rewrite ingestRFIDRead_unfold.
    destruct (negb (validAntenna e read)); [discriminate|].
    destruct (deduplicateReads _ _ _ _ _); [discriminate|].
    destruct (lookupSkuByEPC _ _ _) as [m|]; [|discriminate].
    intros _. simpl snd.
    rewrite (coreFrame_cursor _ _ (calculateZoneInventory_coreFrame _ _)).
    rewrite (coreFrame_cursor _ _ (applyPendingRFIDPicks_coreFrame _ _)).
    reflexivity.
Qed.

Lemma cursor_is_event_timestamp_witness :
  nowCursor (snd (ingestSalesEvent lateSale demoEngine)) = sale_timestamp lateSale
  /\ nowCursor (snd (ingestRFIDRead demoRead demoEngine)) = read_timestamp demoRead.
Proof.
  destruct (cursor_is_event_timestamp lateSale demoRead demoEngine) as [H1 H2].
  split; [exact H1 | apply H2; vm_compute; reflexivity].
Defined.

Lemma duplicate_read_is_ignored_witness :
  let e := snd (ingestRFIDRead demoRead demoEngine) in
  lastLoggedRead e (read_epc repeatedRead) (read_antennaId repeatedRead) = Some demoRead
  /\ fst (fst (ingestRFIDRead repeatedRead e)) = "duplicate_ignored"
  /\ snd (ingestRFIDRead repeatedRead e) = e.
Proof.
  cbv zeta.
  destruct (duplicate_read_is_ignored repeatedRead (snd (ingestRFIDRead demoRead demoEngine)))
    as [Hiff Hsame]; [vm_compute; reflexivity|].
  assert (Hlast : lastLoggedRead (snd (ingestRFIDRead demoRead demoEngine))
                    (read_epc repeatedRead) (read_antennaId repeatedRead) = Some demoRead)
    by (vm_compute; reflexivity).
  assert (Hdup : fst (fst (ingestRFIDRead repeatedRead
                             (snd (ingestRFIDRead demoRead demoEngine))))
                 = "duplicate_ignored").
  { apply Hiff. exists demoRead. split; [exact Hlast | vm_compute; discriminate]. }
  split; [exact Hlast|]. split; [exact Hdup | apply Hsame, Hdup].
Defined.

(** C5, as stated, fails: a confirmed task moves a tag from the warehouse to
    the shelf, and the transfer appends a synthetic read for the shelf antenna
    to the read log. One second later the shelf antenna reads the tag for the
    first time: no read of that tag and antenna was ever accepted, yet the
    read is answered [duplicate_ignored]. *)
Lemma synthetic_read_blocks_first_read :
  let e := runAll shirtMovedRun (constructor shirtDataset) in
  validAntenna e firstShelfRead = true
  /\ filter (fun r => String.eqb (read_epc r) (read_epc firstShelfRead)
                      && String.eqb (read_antennaId r) (read_antennaId firstShelfRead))
            (acceptedReads shirtMovedRun (constructor shirtDataset)) = []
  /\ acceptedReads shirtMovedRun (constructor shirtDataset) = [warehouseRead]
  /\ fst (fst (ingestRFIDRead firstShelfRead e)) = "duplicate_ignored".
Proof. vm_compute. repeat split; reflexivity. Qed.

(** ** The NON_RFID ledger *)

Lemma fold_left_Zadd_acc (l : list Z) (b : Z) :
  fold_left Z.add l b = b + fold_left Z.add l 0.
Proof.
  revert b. induction l as [|y l IH]; intros b; simpl; [lia|].
  rewrite IH, (IH y). lia.
Qed.

Lemma sumZ_cons x l : sumZ (x :: l) = x + sumZ l.
Proof. unfold sumZ. simpl. apply fold_left_Zadd_acc. Qed.

Lemma sumZ_app l1 l2 : sumZ (l1 ++ l2)%list = sumZ l1 + sumZ l2.
Proof.
  induction l1 as [|x r IH]; [reflexivity|].
  rewrite <- app_comm_cons, !sumZ_cons, IH. lia.
Qed.

Lemma fold_left_add_acc {A} (f : A -> Z) (l : list A) (a : Z) :
  fold_left (fun acc x => acc + f x) l a = a + sumZ (map f l).
Proof.
  revert a. induction l as [|x r IH]; intros a; simpl.
  - unfold sumZ. simpl. lia.
  - rewrite IH, sumZ_cons. lia.
Qed.

Section Ledger.

Variables (zoneId skuId : string) (baselineMs : Z).

Let wanted (l : LedgerEntry) : bool :=
  String.eqb (le_zoneId l) zoneId && String.eqb (le_skuId l) skuId
  && (baselineMs <=? le_timestamp l).

Let saleEntry (s : SalesEvent) : LedgerEntry :=
  mkLedgerEntry (sale_zoneId s) (sale_skuId s)
    (match sale_eventType s with SALE => - sale_qty s | RETURN => sale_qty s end)
    (sale_timestamp s).

Lemma sales_entries_sum (l : list SalesEvent) :
  sumZ (map le_delta (filter wanted (map saleEntry l))) =
  - sumZ (map sale_qty
       (filter (fun s => String.eqb (sale_zoneId s) zoneId && String.eqb (sale_skuId s) skuId
                         && isSale s && (baselineMs <=? sale_timestamp s)) l))
  + sumZ (map sale_qty
       (filter (fun s => String.eqb (sale_zoneId s) zoneId && String.eqb (sale_skuId s) skuId
                         && negb (isSale s) && (baselineMs <=? sale_timestamp s)) l)).
Proof.
  induction l as [|s r IH]; [reflexivity|].
  simpl map. simpl filter. unfold wanted at 1. simpl le_zoneId. simpl le_skuId.
  simpl le_timestamp. unfold isSale in *.
  destruct (String.eqb (sale_zoneId s) zoneId), (String.eqb (sale_skuId s) skuId),
    (baselineMs <=? sale_timestamp s), (sale_eventType s) eqn:Ht;
    simpl; rewrite ?sumZ_cons; simpl le_delta; rewrite ?Ht; lia.
Qed.

Lemma confirmation_entries_sum (l : list ConfirmationMovement) :
  sumZ (map le_delta (filter wanted
     (map (fun c => mkLedgerEntry (mov_zoneId c) (mov_skuId c) (mov_qty c) (mov_timestamp c))
          l))) =
  sumZ (map mov_qty
     (filter (fun c => String.eqb (mov_zoneId c) zoneId && String.eqb (mov_skuId c) skuId
                       && (baselineMs <=? mov_timestamp c)) l)).
Proof.
  induction l as [|c r IH]; [reflexivity|].
  simpl map. simpl filter. unfold wanted at 1. simpl.
  destruct (_ && _); simpl; rewrite ?sumZ_cons; simpl; lia.
Qed.

End Ledger.


(** ** Cart reservations *)

Lemma run_pair {A} (c : M A) e : c e = (eval c e, exec c e).
Proof. unfold eval, exec. destruct (c e); reflexivity. Qed.

Lemma exec_when b c e : exec (when b c) e = if b then exec c e else e.
Proof. destruct b; reflexivity. Qed.

Lemma upsertCustomer_zones id name e : zones (exec (upsertCustomer id name) e) = zones e.
Proof.
  unfold upsertCustomer, exec, bind, get, ret, modify. simpl.
  destruct (mapGet id (customers e)); [destruct name as [n|]; [destruct (truthy n)|]|]; reflexivity.
Qed.

Lemma addCustomerItem_unfold hostNow payload e :
  isSalesZone e (add_zoneId payload) = true ->
  addCustomerItem hostNow payload e =
  let e1 := beforeAdd payload e in
  let availableQty := Z.max 0 (freeQty e1 (add_zoneId payload) (add_skuId payload)) in
  if availableQty <? add_qty payload
  then (mkAddResult "insufficient_inventory" None (Some availableQty), e1)
  else (mkAddResult "accepted" (Some (item_id (newBasketItem hostNow payload e1))) None,
        exec (evaluateMinMax (add_zoneId payload)) (withNewItem hostNow payload e1)).
Proof.
  unfold isSalesZone. intros Hz.
  rewrite (run_pair (addCustomerItem hostNow payload) e). unfold addCustomerItem. run.
  unfold findZone in *. rewrite upsertCustomer_zones. simpl zones.
  destruct (find _ (zones e)) as [z|]; [|discriminate].
  rewrite Hz. simpl negb. cbv iota. run.
  fold (beforeAdd payload e).
  unfold getAvailableQtyForCart. fold (freeQty (beforeAdd payload e) (add_zoneId payload) (add_skuId payload)).
  cbv zeta.
  destruct (_ <? _); run; [reflexivity|].
  rewrite exec_when. run.
  unfold withNewItem, newBasketItem.
  destruct (isRfid _); reflexivity.
Qed.

Lemma planFrame_snapshots e1 e0 : planFrame e1 = planFrame e0 -> snapshots e1 = snapshots e0.
Proof. unfold planFrame. intros H. injection H. intros; assumption. Qed.
Lemma planFrame_basket e1 e0 :
  planFrame e1 = planFrame e0 -> customerBasketItems e1 = customerBasketItems e0.
Proof. unfold planFrame. intros H. injection H. intros; assumption. Qed.
Lemma planFrame_skuSource e1 e0 :
  planFrame e1 = planFrame e0 -> skuSourceById e1 = skuSourceById e0.
Proof. unfold planFrame. intros H. injection H. intros; assumption. Qed.

Lemma freeQty_ext e1 e0 zoneId skuId :
  snapshots e1 = snapshots e0 -> customerBasketItems e1 = customerBasketItems e0 ->
  skuSourceById e1 = skuSourceById e0 ->
  freeQty e1 zoneId skuId = freeQty e0 zoneId skuId.
Proof.
  intros Hs Hb Hk.
  unfold freeQty, getCurrentInventoryQty, getReservedOpenQty, skuSource.
  rewrite Hs, Hb, Hk. reflexivity.
Qed.

Lemma freeQty_withNewItem hostNow payload e :
  freeQty (withNewItem hostNow payload e) (add_zoneId payload) (add_skuId payload) =
  freeQty e (add_zoneId payload) (add_skuId payload)
  - (if isRfid (skuSource e (add_skuId payload)) then Z.max 0 (add_qty payload)
     else add_qty payload).
Proof.
  assert (Hs : snapshots (withNewItem hostNow payload e) = snapshots e).
  { unfold withNewItem. destruct (isRfid _); reflexivity. }
  assert (Hk : skuSourceById (withNewItem hostNow payload e) = skuSourceById e).
  { unfold withNewItem. destruct (isRfid _); reflexivity. }
  assert (Hb : customerBasketItems (withNewItem hostNow payload e) =
               (customerBasketItems e ++ [newBasketItem hostNow payload e])%list).
  { unfold withNewItem. destruct (isRfid _); reflexivity. }
  unfold freeQty, getCurrentInventoryQty, getReservedOpenQty, skuSource.
  rewrite Hs, Hb, Hk, filter_app, fold_left_app.
  simpl filter. rewrite !String.eqb_refl. simpl fold_left.
  fold (skuSource e (add_skuId payload)).
  destruct (isRfid (skuSource e (add_skuId payload))); lia.
Qed.

(** C3, amended. On a sales location [addCustomerItem] succeeds exactly when
    the requested quantity is at most [max(0, current - reserved)], measured
    after the recompute the command starts with; for a positive quantity that
    is exactly [qty <= current - reserved]. After a successful add of a
    non-negative quantity, or of any quantity of a NON_RFID SKU,
    [current - reserved] has gone down by the quantity. *)
Theorem addCustomerItem_reservation (hostNow : Z) (payload : AddItemPayload) (e : Engine) :
  isSalesZone e (add_zoneId payload) = true ->
  let zoneId := add_zoneId payload in
  let skuId := add_skuId payload in
  let qty := add_qty payload in
  let before := freeQty (beforeAdd payload e) zoneId skuId in
  let r := addCustomerItem hostNow payload e in
  (addr_status (fst r) = "accepted" <-> qty <= Z.max 0 before)
  /\ (0 < qty -> (addr_status (fst r) = "accepted" <-> qty <= before))
  /\ (addr_status (fst r) = "accepted" ->
      0 <= qty \/ skuSource (beforeAdd payload e) skuId = NON_RFID ->
      freeQty (snd r) zoneId skuId = before - qty).
Proof.
  intros Hz. cbv zeta. rewrite (addCustomerItem_unfold hostNow payload e Hz). cbv zeta.
  destruct (Z.max 0 _ <? add_qty payload) eqn:Hlt; simpl.
  - apply Z.ltb_lt in Hlt. repeat split; try discriminate; intros; lia.
  - apply Z.ltb_ge in Hlt. repeat split; auto; try lia.
    intros _ Hq.
    pose proof (evaluateMinMax_frame (add_zoneId payload)
                  (withNewItem hostNow payload (beforeAdd payload e))) as Hf.
    rewrite (freeQty_ext _ _ _ _ (planFrame_snapshots _ _ Hf) (planFrame_basket _ _ Hf)
               (planFrame_skuSource _ _ Hf)).
    rewrite freeQty_withNewItem.
    destruct Hq as [Hq | Hq]; [| rewrite Hq; reflexivity].
    destruct (isRfid _); lia.
Qed.

(** C3, as stated, fails: with 2 on hand and 7 reserved, adding a quantity of
    0 succeeds although 0 is more than [current - reserved], which is -5. *)
Lemma zero_add_accepted_when_over_reserved :
  let payload := cartPayload 0 (initialCursor + 3000) in
  let r := addCustomerItem 1 payload overReservedEngine in
  isSalesZone overReservedEngine (add_zoneId payload) = true
  /\ addr_status (fst r) = "accepted"
  /\ freeQty (beforeAdd payload overReservedEngine) (add_zoneId payload) (add_skuId payload)
     = -5
  /\ ~ (add_qty payload
        <= freeQty (beforeAdd payload overReservedEngine) (add_zoneId payload)
                   (add_skuId payload)).
Proof.
  cbv zeta. split; [vm_compute; reflexivity|]. split; [vm_compute; reflexivity|].
  assert (H : freeQty (beforeAdd (cartPayload 0 (initialCursor + 3000)) overReservedEngine)
                (add_zoneId (cartPayload 0 (initialCursor + 3000)))
                (add_skuId (cartPayload 0 (initialCursor + 3000))) = -5)
    by (vm_compute; reflexivity).
  split; [exact H|]. rewrite H. simpl. lia.
Qed.

Lemma addCustomerItem_reservation_witness :
  let payload := cartPayload 3 (initialCursor + 1000) in
  addr_status (fst (addCustomerItem 1 payload demoEngine)) = "accepted" <->
  add_qty payload
  <= Z.max 0 (freeQty (beforeAdd payload demoEngine) (add_zoneId payload) (add_skuId payload)).
Proof.
  cbv zeta.
  assert (Hz : isSalesZone demoEngine (add_zoneId (cartPayload 3 (initialCursor + 1000)))
               = true) by (vm_compute; reflexivity).
  destruct (addCustomerItem_reservation 1 (cartPayload 3 (initialCursor + 1000))
              demoEngine Hz) as [H _].
  exact H.
Defined.

(** ** Confirmation that moves nothing *)

Lemma zeroMoveFrame_skuSource e1 e0 skuId :
  zeroMoveFrame e1 = zeroMoveFrame e0 -> skuSource e1 skuId = skuSource e0 skuId.
Proof.
  intros H. assert (Hk : skuSourceById e1 = skuSourceById e0).
  { unfold zeroMoveFrame in H. injection H. intros; assumption. }
  unfold skuSource. rewrite Hk. reflexivity.
Qed.

Lemma onlySnapshotsMoved_refl skuId e : onlySnapshotsMoved skuId e e.
Proof. repeat split. Qed.

Lemma onlySnapshotsMoved_trans skuId e1 e2 e3 :
  onlySnapshotsMoved skuId e1 e2 -> onlySnapshotsMoved skuId e2 e3 ->
  onlySnapshotsMoved skuId e1 e3.
Proof.
  intros (F1 & T1 & C1 & S1) (F2 & T2 & C2 & S2). repeat split; try congruence.
  intros H. rewrite S2, S1; auto. rewrite (zeroMoveFrame_skuSource _ _ _ F1). exact H.
Qed.

Lemma upsertSnapshot_zeroMoveFrame zoneId skuId qty source confidence e :
  let e' := exec (upsertSnapshot zoneId skuId qty source confidence) e in
  zeroMoveFrame e' = zeroMoveFrame e /\ tasks e' = tasks e /\ nowCursor e' = nowCursor e.
Proof.
  unfold upsertSnapshot. rewrite exec_modify.
  destruct (_ && _); destruct (findIndex _ _); repeat split.
Qed.

Lemma applyTransferFromSource_zero sourceZoneId destinationZoneId skuId qty e :
  tr_movedQty (eval (applyTransferFromSource sourceZoneId destinationZoneId skuId qty) e) <= 0 ->
  onlySnapshotsMoved skuId e
    (exec (applyTransferFromSource sourceZoneId destinationZoneId skuId qty) e).
Proof.
  unfold applyTransferFromSource. run.
  destruct (isRfid (skuSource e skuId)) eqn:Hr; run.
  - destruct (slice0 qty (getPresentEPCs e sourceZoneId skuId)) as [|x l]; simpl tr_movedQty.
    + intros _. unfold onlySnapshotsMoved, zeroMoveFrame, rebindPresence. simpl.
      rewrite app_nil_r. repeat split.
    + intros H. simpl List.length in H. lia.
  - intros _.
    destruct (upsertSnapshot_zeroMoveFrame sourceZoneId skuId
                (getCurrentInventoryQty e sourceZoneId skuId NON_RFID
                 - Z.min (Z.max 0 qty) (getCurrentInventoryQty e sourceZoneId skuId NON_RFID))
                NON_RFID None e) as (F & T & C).
    repeat split; auto.
    intros H. rewrite H in Hr. discriminate.
Qed.

Lemma eval_foldM_cons {A S} (x : A) (r : list A) (s : S) (body : S -> A -> M S) e :
  eval (foldM (x :: r) s body) e = eval (foldM r (eval (body s x) e) body) (exec (body s x) e).
Proof. reflexivity. Qed.

Lemma exec_foldM_cons {A S} (x : A) (r : list A) (s : S) (body : S -> A -> M S) e :
  exec (foldM (x :: r) s body) e = exec (foldM r (eval (body s x) e) body) (exec (body s x) e).
Proof. reflexivity. Qed.

Section Attempts.

Variables (i : nat) (destinationZoneId skuId : string) (requestedQty : Z).

Let body := tryFallbackSource i destinationZoneId skuId requestedQty.

Lemma fallback_found l t e :
  eval (foldM l (t, true) body) e = (t, true) /\ exec (foldM l (t, true) body) e = e.
Proof.
  induction l as [|x r IH]; [split; reflexivity|].
  rewrite eval_foldM_cons, exec_foldM_cons. exact IH.
Qed.

Lemma tryFallbackSource_zero t x e :
  tr_movedQty (eval (applyTransferFromSource x destinationZoneId skuId requestedQty) e) <= 0 ->
  eval (body (t, false) x) e = (t, false)
  /\ exec (body (t, false) x) e =
     exec (applyTransferFromSource x destinationZoneId skuId requestedQty) e.
Proof.
  intros H. apply Z.leb_le in H.
  unfold body, tryFallbackSource. simpl snd. run. rewrite H. split; reflexivity.
Qed.

Lemma tryFallbackSource_moved t x e :
  0 < tr_movedQty (eval (applyTransferFromSource x destinationZoneId skuId requestedQty) e) ->
  eval (body (t, false) x) e =
  (eval (applyTransferFromSource x destinationZoneId skuId requestedQty) e, true).
Proof.
  intros H. apply Z.leb_gt in H.
  unfold body, tryFallbackSource. simpl snd. run. rewrite H. reflexivity.
Qed.

Lemma fallback_zero l t e :
  tr_movedQty (fst (eval (foldM l (t, false) body) e)) <= 0 ->
  onlySnapshotsMoved skuId e (exec (foldM l (t, false) body) e)
  /\ eval (foldM l (t, false) body) e = (t, false).
Proof.
  revert e. induction l as [|x r IH]; intros e.
  - intros _. split; [apply onlySnapshotsMoved_refl | reflexivity].
  - rewrite eval_foldM_cons, exec_foldM_cons.
    destruct (Z_le_gt_dec
      (tr_movedQty (eval (applyTransferFromSource x destinationZoneId skuId requestedQty) e))
      0) as [Hm | Hm].
    + destruct (tryFallbackSource_zero t x e Hm) as [Hv Hx]. rewrite Hv, Hx.
      intros H. destruct (IH _ H) as [Ho He]. split; [|exact He].
      eapply onlySnapshotsMoved_trans; [|exact Ho].
      apply applyTransferFromSource_zero. exact Hm.
    + rewrite (tryFallbackSource_moved t x e) by lia.
      rewrite (proj1 (fallback_found r _ _)). simpl fst. lia.
Qed.

End Attempts.

Lemma updateAt_nth_error {A} (f : A -> A) (l : list A) (i : nat) :
  nth_error (updateAt i f l) i = option_map f (nth_error l i).
Proof.
  revert i. induction l as [|x r IH]; intros [|i]; simpl; auto.
Qed.

(** What [attemptTransfers] leaves behind when nothing could be moved. *)
Lemma attemptTransfers_zero i task requestedQty sourceZoneId e :
  nth_error (tasks e) i = Some task ->
  tr_movedQty (eval (attemptTransfers i task requestedQty sourceZoneId) e) <= 0 ->
  let e' := exec (attemptTransfers i task requestedQty sourceZoneId) e in
  zeroMoveFrame e' = zeroMoveFrame e
  /\ tasks e' = withChosenSource i sourceZoneId (tasks e)
  /\ nowCursor e' = nowCursor e
  /\ (skuSource e (task_skuId task) = RFID -> snapshots e' = snapshots e).
Proof.
  intros Hi. unfold attemptTransfers. run.
  set (first := match sourceZoneId with
                | Some s => if truthy s then _ else _
                | None => _
                end).
  assert (Hfirst :
    tr_movedQty (eval first e) <= 0 ->
    zeroMoveFrame (exec first e) = zeroMoveFrame e
    /\ tasks (exec first e) = withChosenSource i sourceZoneId (tasks e)
    /\ nowCursor (exec first e) = nowCursor e
    /\ (skuSource e (task_skuId task) = RFID -> snapshots (exec first e) = snapshots e)
    /\ exists task', nth_error (tasks (exec first e)) i = Some task'
                     /\ task_skuId task' = task_skuId task
                     /\ task_zoneId task' = task_zoneId task).
  { unfold first, withChosenSource. destruct sourceZoneId as [s|]; [destruct (truthy s)|];
      run; intros H.
    - destruct (applyTransferFromSource_zero _ _ _ _ _ H) as (F & T & C & S).
      unfold updTask. simpl. rewrite T. repeat split; auto.
      rewrite updateAt_nth_error, Hi. simpl. eexists. repeat split.
    - repeat split; auto. exists task. auto.
    - repeat split; auto. exists task. auto. }
  destruct (tr_movedQty (eval first e) <=? 0) eqn:Hm; run.
  - apply Z.leb_le in Hm. destruct (Hfirst Hm) as (F & T & C & S & task' & Ht & Hs & Hz).
    rewrite Ht. run. rewrite Hs, Hz. intros H.
    destruct (fallback_zero i (task_zoneId task) (task_skuId task) requestedQty _ _ _ H)
      as [(F2 & T2 & C2 & S2) _].
    repeat split; try congruence.
    intros Hr. rewrite S2, S; auto.
    rewrite (zeroMoveFrame_skuSource _ _ _ F). exact Hr.
  - apply Z.leb_gt in Hm. intros H. lia.
Qed.

Lemma combine_seq_in {A} (l : list A) (k i : nat) (x : A) :
  In (i, x) (combine (seq k (List.length l)) l) -> (k <= i)%nat /\ nth_error l (i - k) = Some x.
Proof.
  revert k. induction l as [|y r IH]; intros k; simpl; [tauto|].
  intros [H | H].
  - inversion H; subst. rewrite Nat.sub_diag. split; [lia | reflexivity].
  - apply IH in H. destruct H as [Hk Hn]. split; [lia|].
    replace (i - k)%nat with (S (i - S k)) by lia. exact Hn.
Qed.

Lemma indexed_in {A} (l : list A) (i : nat) (x : A) :
  In (i, x) (indexed l) -> nth_error l i = Some x.
Proof.
  intros H. apply combine_seq_in in H. rewrite Nat.sub_0_r in H. apply H.
Qed.

Lemma findTask_some e taskId i task :
  findTask e taskId = Some (i, task) ->
  nth_error (tasks e) i = Some task /\ task_id task = taskId.
Proof.
  unfold findTask. intros H. apply find_some in H. destruct H as [Hin Hid].
  split; [apply indexed_in; exact Hin | apply String.eqb_eq; exact Hid].
Qed.

Lemma updateAt_nth_error_other {A} (f : A -> A) (l : list A) (i j : nat) :
  j <> i -> nth_error (updateAt i f l) j = nth_error l j.
Proof.
  revert i j. induction l as [|x r IH]; intros [|i] [|j] H; simpl; auto; try congruence.
Qed.

Lemma confirmTask_unfold taskId payload e i task :
  findTask e taskId = Some (i, task) ->
  task_status task = IN_PROGRESS ->
  tr_movedQty (eval (attemptTransfers i task (Z.max 0 (cp_confirmedQty payload))
                       (chosenSource payload task))
                    (set_nowCursor (cp_confirmedAt payload) e)) <= 0 ->
  confirmTask taskId payload e =
  (None, exec (attemptTransfers i task (Z.max 0 (cp_confirmedQty payload))
                 (chosenSource payload task))
              (set_nowCursor (cp_confirmedAt payload) e)).
Proof.
  intros Hf Hs Hz. rewrite (run_pair (confirmTask taskId payload) e).
  unfold confirmTask. run. rewrite Hf. run. rewrite Hs. simpl negb. run.
  fold (chosenSource payload task). apply Z.leb_le in Hz. rewrite Hz. run. reflexivity.
Qed.




(** ** Non-negative snapshots *)

Lemma insertBy_perm {A} (key : A -> Z) (x : A) (l : list A) :
  Permutation (insertBy key x l) (x :: l).
Proof.
  induction l as [|y r IH]; simpl; [constructor; constructor|].
  destruct (key x <=? key y); [apply Permutation_refl|].
  eapply Permutation_trans; [apply perm_skip, IH | apply perm_swap].
Qed.

Lemma sortBy_perm {A} (key : A -> Z) (l : list A) : Permutation (sortBy key l) l.
Proof.
  induction l as [|x r IH]; simpl; [constructor|].
  eapply Permutation_trans; [apply insertBy_perm | apply perm_skip, IH].
Qed.

Lemma getCurrentInventoryQty_nonneg e zoneId skuId source :
  snapshotsNonNegative e -> 0 <= getCurrentInventoryQty e zoneId skuId source.
Proof.
  intros H. unfold getCurrentInventoryQty.
  destruct (sortBy _ _) as [|s l] eqn:Hs; [lia|].
  assert (Hin : In s (snapshots e)).
  { eapply filter_In. eapply Permutation_in; [apply sortBy_perm|].
    rewrite Hs. left; reflexivity. }
  unfold snapshotsNonNegative in H. rewrite Forall_forall in H. apply H, Hin.
Qed.

Lemma Forall_removeAt {A} (P : A -> Prop) (l : list A) i :
  Forall P l -> Forall P (removeAt i l).
Proof.
  revert i. induction l as [|x r IH]; intros i H; [destruct i; constructor|].
  inversion H; subst. destruct i; simpl; [assumption | constructor; auto].
Qed.

Lemma Forall_updateAt {A} (P : A -> Prop) (f : A -> A) (l : list A) i :
  (forall x, P x -> P (f x)) -> Forall P l -> Forall P (updateAt i f l).
Proof.
  intros Hf. revert i. induction l as [|x r IH]; intros i H; [destruct i; constructor|].
  inversion H; subst. destruct i; simpl; constructor; auto.
Qed.

Lemma upsertSnapshot_nonneg zoneId skuId qty source confidence :
  0 <= qty ->
  preserves snapshotsNonNegative (upsertSnapshot zoneId skuId qty source confidence).
Proof.
  intros Hq. unfold upsertSnapshot. apply preserves_modify. intros e H.
  unfold snapshotsNonNegative in *.
  destruct (_ && _); destruct (findIndex _ _); simpl; auto.
  - apply Forall_removeAt, H.
  - apply Forall_updateAt; auto.
  - apply Forall_app. split; [exact H | constructor; [exact Hq | constructor]].
Qed.

Lemma planFrame_nonneg e1 e0 :
  planFrame e1 = planFrame e0 -> snapshotsNonNegative e0 -> snapshotsNonNegative e1.
Proof.
  intros H. unfold snapshotsNonNegative. rewrite (planFrame_snapshots _ _ H). auto.
Qed.

Lemma evaluateMinMax_nonneg zoneId : preserves snapshotsNonNegative (evaluateMinMax zoneId).
Proof. intros e H. exact (planFrame_nonneg _ _ (evaluateMinMax_frame zoneId e) H). Qed.

Create HintDb nonneg discriminated.
#[export] Hint Resolve evaluateMinMax_nonneg : nonneg.

Ltac bool_facts :=
  repeat match goal with
  | H : (_ <=? _) = true |- _ => apply Z.leb_le in H
  | H : (_ <=? _) = false |- _ => apply Z.leb_gt in H
  | H : (_ <? _) = true |- _ => apply Z.ltb_lt in H
  | H : (_ <? _) = false |- _ => apply Z.ltb_ge in H
  end.

Ltac pose_current :=
  repeat match goal with
  | H : snapshotsNonNegative ?e |- context [getCurrentInventoryQty ?e ?z ?s ?src] =>
      lazymatch goal with
      | _ : 0 <= getCurrentInventoryQty e z s src |- _ => fail
      | _ => pose proof (getCurrentInventoryQty_nonneg e z s src H)
      end
  end.

(** A call of [upsertSnapshot]: its quantity must be shown non-negative. *)
Ltac upsert_step :=
  match goal with
  | |- preserves snapshotsNonNegative (upsertSnapshot _ _ _ _ _) =>
      apply upsertSnapshot_nonneg; bool_facts; pose_current;
      unfold calculateNonRFIDInventory;
      repeat match goal with
             | |- context [match ?x with _ => _ end] => destruct x
             end;
      lia
  end.

(** A write to a field other than [snapshots]. *)
Ltac nonneg_leaf :=
  match goal with
  | H : snapshotsNonNegative ?e |- snapshotsNonNegative _ =>
      repeat match goal with
             | |- snapshotsNonNegative (match ?x with _ => _ end) => destruct x
             end;
      solve [ exact H
            | unfold snapshotsNonNegative, updTask, updOrder, updItem, updZone, updRule,
                updStaff, deletePresence, rebindPresence, refreshPresence in *;
              simpl; exact H ]
  end.

Ltac nonneg_auto :=
  repeat first [ solve [eauto with nonneg] | nonneg_leaf | upsert_step | pres_step ].

Lemma calculateZoneInventory_nonneg zoneId :
  preserves snapshotsNonNegative (calculateZoneInventory zoneId).
Proof. unfold calculateZoneInventory. nonneg_auto. Qed.
#[export] Hint Resolve calculateZoneInventory_nonneg : nonneg.

Lemma applyPendingRFIDPicks_nonneg zoneId :
  preserves snapshotsNonNegative (applyPendingRFIDPicks zoneId).
Proof. unfold applyPendingRFIDPicks. nonneg_auto. Qed.
#[export] Hint Resolve applyPendingRFIDPicks_nonneg : nonneg.

Lemma ingestRFIDRead_nonneg event : preserves snapshotsNonNegative (ingestRFIDRead event).
Proof. unfold ingestRFIDRead. nonneg_auto. Qed.

Lemma forceZoneSweep_nonneg z t : preserves snapshotsNonNegative (forceZoneSweep z t).
Proof. unfold forceZoneSweep. nonneg_auto. Qed.

Lemma scanZone_nonneg z t : preserves snapshotsNonNegative (scanZone z t).
Proof. unfold scanZone. nonneg_auto. Qed.

Lemma deductRFIDImmediate_nonneg z s q :
  preserves snapshotsNonNegative (deductRFIDImmediate z s q).
Proof. unfold deductRFIDImmediate. nonneg_auto. Qed.
#[export] Hint Resolve deductRFIDImmediate_nonneg : nonneg.

Lemma ingestSalesEvent_nonneg event : preserves snapshotsNonNegative (ingestSalesEvent event).
Proof. unfold ingestSalesEvent. nonneg_auto. Qed.
#[export] Hint Resolve ingestRFIDRead_nonneg ingestSalesEvent_nonneg : nonneg.

Lemma pushTaskAudit_nonneg a b c d : preserves snapshotsNonNegative (pushTaskAudit a b c d).
Proof. unfold pushTaskAudit. nonneg_auto. Qed.
#[export] Hint Resolve pushTaskAudit_nonneg : nonneg.

Lemma autoAssignPendingTasks_nonneg at_ :
  preserves snapshotsNonNegative (autoAssignPendingTasks at_).
Proof. unfold autoAssignPendingTasks, assignPendingTask. nonneg_auto. Qed.

Lemma autoAssignPendingReceivingOrders_nonneg at_ :
  preserves snapshotsNonNegative (autoAssignPendingReceivingOrders at_).
Proof. unfold autoAssignPendingReceivingOrders. nonneg_auto. Qed.
#[export] Hint Resolve autoAssignPendingTasks_nonneg autoAssignPendingReceivingOrders_nonneg
  : nonneg.

Lemma closeReplenishmentTask_nonneg t r :
  preserves snapshotsNonNegative (closeReplenishmentTask t r).
Proof. unfold closeReplenishmentTask. nonneg_auto. Qed.

Lemma generateReplenishmentTask_nonneg rule d t s c :
  preserves snapshotsNonNegative (generateReplenishmentTask rule d t s c).
Proof. unfold generateReplenishmentTask. nonneg_auto. Qed.

Lemma createReceivingOrder_nonneg p : preserves snapshotsNonNegative (createReceivingOrder p).
Proof. unfold createReceivingOrder. nonneg_auto. Qed.
#[export] Hint Resolve closeReplenishmentTask_nonneg generateReplenishmentTask_nonneg
  createReceivingOrder_nonneg : nonneg.

Lemma upsertCustomer_nonneg id name : preserves snapshotsNonNegative (upsertCustomer id name).
Proof. unfold upsertCustomer. nonneg_auto. Qed.
#[export] Hint Resolve upsertCustomer_nonneg : nonneg.

Lemma addCustomerItem_nonneg h p : preserves snapshotsNonNegative (addCustomerItem h p).
Proof. unfold addCustomerItem. nonneg_auto. Qed.

Lemma createExternalRFIDForDestination_nonneg s d q a :
  preserves snapshotsNonNegative (createExternalRFIDForDestination s d q a).
Proof. unfold createExternalRFIDForDestination. nonneg_auto. Qed.

Lemma restoreConsumedEpcs_nonneg b s z d a :
  preserves snapshotsNonNegative (restoreConsumedEpcs b s z d a).
Proof. unfold restoreConsumedEpcs. nonneg_auto. Qed.
#[export] Hint Resolve createExternalRFIDForDestination_nonneg restoreConsumedEpcs_nonneg
  : nonneg.

Lemma removeCustomerItem_nonneg b t : preserves snapshotsNonNegative (removeCustomerItem b t).
Proof. unfold removeCustomerItem. nonneg_auto. Qed.

Lemma moveRFIDEpcs_nonneg s d k q a : preserves snapshotsNonNegative (moveRFIDEpcs s d k q a).
Proof. unfold moveRFIDEpcs. nonneg_auto. Qed.

Lemma transferConsumedPendingEpcsToZone_nonneg b s d a :
  preserves snapshotsNonNegative (transferConsumedPendingEpcsToZone b s d a).
Proof. unfold transferConsumedPendingEpcsToZone. nonneg_auto. Qed.

Lemma transferNonRfid_nonneg s d k q : preserves snapshotsNonNegative (transferNonRfid s d k q).
Proof. unfold transferNonRfid. nonneg_auto. Qed.

Lemma applyTransferFromSource_nonneg s d k q :
  preserves snapshotsNonNegative (applyTransferFromSource s d k q).
Proof. unfold applyTransferFromSource. nonneg_auto. Qed.
#[export] Hint Resolve moveRFIDEpcs_nonneg transferConsumedPendingEpcsToZone_nonneg
  transferNonRfid_nonneg applyTransferFromSource_nonneg : nonneg.

Lemma createPersonalizationTask_nonneg d s q src p :
  preserves snapshotsNonNegative (createPersonalizationTask d s q src p).
Proof. unfold createPersonalizationTask. nonneg_auto. Qed.
#[export] Hint Resolve createPersonalizationTask_nonneg : nonneg.

Lemma routeToCashierStorage_nonneg i item src t :
  preserves snapshotsNonNegative (routeToCashierStorage i item src t).
Proof. unfold routeToCashierStorage. nonneg_auto. Qed.
#[export] Hint Resolve routeToCashierStorage_nonneg : nonneg.

Lemma processPersonalizationSale_nonneg i src t :
  preserves snapshotsNonNegative (processPersonalizationSale i src t).
Proof. unfold processPersonalizationSale. nonneg_auto. Qed.
#[export] Hint Resolve processPersonalizationSale_nonneg : nonneg.

Lemma checkoutItem_nonneg h t n i item :
  preserves snapshotsNonNegative (checkoutItem h t n i item).
Proof. unfold checkoutItem. nonneg_auto. Qed.
#[export] Hint Resolve checkoutItem_nonneg : nonneg.

Lemma checkoutCustomer_nonneg h c t : preserves snapshotsNonNegative (checkoutCustomer h c t).
Proof. unfold checkoutCustomer. nonneg_auto. Qed.

Lemma tryFallbackSource_nonneg i d s q st c :
  preserves snapshotsNonNegative (tryFallbackSource i d s q st c).
Proof. unfold tryFallbackSource. nonneg_auto. Qed.
#[export] Hint Resolve tryFallbackSource_nonneg : nonneg.

Lemma attemptTransfers_nonneg i t q s : preserves snapshotsNonNegative (attemptTransfers i t q s).
Proof. unfold attemptTransfers. nonneg_auto. Qed.
#[export] Hint Resolve attemptTransfers_nonneg : nonneg.

Lemma confirmTask_nonneg t p : preserves snapshotsNonNegative (confirmTask t p).
Proof. unfold confirmTask. nonneg_auto. Qed.

Lemma recalculateZonesDependingOnSource_nonneg s :
  preserves snapshotsNonNegative (recalculateZonesDependingOnSource s).
Proof. unfold recalculateZonesDependingOnSource. nonneg_auto. Qed.

Lemma refreshOpenTaskSourceCandidates_nonneg :
  preserves snapshotsNonNegative refreshOpenTaskSourceCandidates.
Proof. unfold refreshOpenTaskSourceCandidates. nonneg_auto. Qed.
#[export] Hint Resolve recalculateZonesDependingOnSource_nonneg
  refreshOpenTaskSourceCandidates_nonneg : nonneg.

Lemma pushConfirmation_nonneg m : preserves snapshotsNonNegative (pushConfirmation m).
Proof. unfold pushConfirmation. nonneg_auto. Qed.
#[export] Hint Resolve pushConfirmation_nonneg : nonneg.

Lemma confirmReceivingOrder_nonneg o p :
  preserves snapshotsNonNegative (confirmReceivingOrder o p).
Proof. unfold confirmReceivingOrder. nonneg_auto. Qed.

Lemma updateLocation_nonneg p : preserves snapshotsNonNegative (updateLocation p).
Proof. unfold updateLocation. nonneg_auto. Qed.

Lemma createLocation_nonneg p : preserves snapshotsNonNegative (createLocation p).
Proof. unfold createLocation. nonneg_auto. Qed.

Lemma reassign_nonneg : preserves snapshotsNonNegative reassign.
Proof. unfold reassign. nonneg_auto. Qed.
#[export] Hint Resolve reassign_nonneg : nonneg.

Lemma updateStaffShift_nonneg s b : preserves snapshotsNonNegative (updateStaffShift s b).
Proof. unfold updateStaffShift. nonneg_auto. Qed.

Lemma updateStaffScope_nonneg s b z : preserves snapshotsNonNegative (updateStaffScope s b z).
Proof. unfold updateStaffScope. nonneg_auto. Qed.

Lemma assignTask_nonneg t s a : preserves snapshotsNonNegative (assignTask t s a).
Proof. unfold assignTask. nonneg_auto. Qed.

Lemma startTask_nonneg t s a : preserves snapshotsNonNegative (startTask t s a).
Proof. unfold startTask. nonneg_auto. Qed.

Lemma upsertRule_nonneg p : preserves snapshotsNonNegative (upsertRule p).
Proof. unfold upsertRule. nonneg_auto. Qed.

Lemma deleteRule_nonneg r : preserves snapshotsNonNegative (deleteRule r).
Proof. unfold deleteRule. nonneg_auto. Qed.

Lemma getTasks_nonneg s : preserves snapshotsNonNegative (getTasks s).
Proof. unfold getTasks. nonneg_auto. Qed.

Lemma getReceivingOrders_nonneg s : preserves snapshotsNonNegative (getReceivingOrders s).
Proof. unfold getReceivingOrders. nonneg_auto. Qed.

Lemma seedDemoEvents_nonneg : preserves snapshotsNonNegative seedDemoEvents.
Proof. unfold seedDemoEvents. nonneg_auto. Qed.

Lemma loadDemoStream_nonneg r s : preserves snapshotsNonNegative (loadDemoStream r s).
Proof. unfold loadDemoStream. nonneg_auto. Qed.

#[export] Hint Resolve forceZoneSweep_nonneg scanZone_nonneg addCustomerItem_nonneg
  removeCustomerItem_nonneg checkoutCustomer_nonneg confirmTask_nonneg
  confirmReceivingOrder_nonneg updateLocation_nonneg createLocation_nonneg
  updateStaffShift_nonneg updateStaffScope_nonneg assignTask_nonneg startTask_nonneg
  upsertRule_nonneg deleteRule_nonneg getTasks_nonneg getReceivingOrders_nonneg
  seedDemoEvents_nonneg loadDemoStream_nonneg : nonneg.

Lemma run_nonneg (c : Command) : preserves snapshotsNonNegative (run c).
Proof. destruct c; unfold run; nonneg_auto. Qed.

(** C10. Snapshot quantities are never negative: every public command keeps
    the snapshots non-negative, so an engine built from a dataset whose seed
    quantities are non-negative has non-negative snapshots after any run of
    commands. *)
Theorem snapshots_never_negative :
  (forall (c : Command) (e : Engine),
     snapshotsNonNegative e -> snapshotsNonNegative (exec (run c) e))
  /\ (forall (dataset : SampleDataset) (cs : list Command),
        Forall (fun s => 0 <= snap_qty s) (ds_inventorySeed dataset) ->
        snapshotsNonNegative (runAll cs (constructor dataset))).
Proof.
  split; [exact run_nonneg|].
  intros dataset cs H.
  assert (H0 : snapshotsNonNegative (constructor dataset)) by exact H.
  clear H. revert H0. generalize (constructor dataset).
  induction cs as [|c r IH]; intros e He; simpl; [exact He|].
  apply IH, run_nonneg, He.
Qed.

Lemma snapshots_never_negative_witness :
  snapshotsNonNegative
    (runAll [CmdIngestSalesEvent lateSale; CmdIngestRFIDRead demoRead]
            (constructor demoDataset)).
Proof.
  apply (proj2 snapshots_never_negative).
  repeat constructor; vm_compute; discriminate.
Defined.

(** ** Auto-assignment only assigns *)

Lemma bumped_refl t : bumped t t.
Proof. left; reflexivity. Qed.

Lemma bumped_adjustable t t' :
  bumped t t' -> isAdjustable (task_status t) = true -> isAdjustable (task_status t') = true.
Proof. intros [-> | [_ (a & s & u & ->)]] H; [exact H | reflexivity]. Qed.

Lemma bumped_trans t1 t2 t3 : bumped t1 t2 -> bumped t2 t3 -> bumped t1 t3.
Proof.
  intros [-> | [H1 (a & s & u & ->)]] H; [exact H|].
  destruct H as [-> | [_ (a' & s' & u' & ->)]]; right; split; auto.
  - exists a, s, u. reflexivity.
  - exists a', s', u'. reflexivity.
Qed.

Lemma Forall2_bumped_refl l : Forall2 bumped l l.
Proof. induction l; constructor; auto using bumped_refl. Qed.

Lemma Forall2_bumped_trans l1 l2 l3 :
  Forall2 bumped l1 l2 -> Forall2 bumped l2 l3 -> Forall2 bumped l1 l3.
Proof.
  intros H. revert l3. induction H; intros l3 H3; inversion H3; subst; constructor.
  - eapply bumped_trans; eauto.
  - auto.
Qed.

Lemma Forall2_bumped_updateAt l i a s u :
  (forall t, nth_error l i = Some t -> isAdjustable (task_status t) = true) ->
  Forall2 bumped l (updateAt i (assignedAs a s u) l).
Proof.
  revert i. induction l as [|x r IH]; intros i H; [destruct i; constructor|].
  destruct i; simpl.
  - constructor; [|apply Forall2_bumped_refl].
    right. split; [apply H; reflexivity | exists a, s, u; reflexivity].
  - constructor; [apply bumped_refl | apply IH; intros t Ht; apply H; exact Ht].
Qed.

Lemma Forall2_nth_error_r {A B} (R : A -> B -> Prop) l l' j y :
  Forall2 R l l' -> nth_error l' j = Some y -> exists x, nth_error l j = Some x /\ R x y.
Proof.
  intros H. revert j. induction H as [|a b l l' Hab H IH]; intros j Hj.
  - destruct j; discriminate.
  - destruct j; simpl in *.
    + inversion Hj; subst. exists a. auto.
    + apply IH, Hj.
Qed.

(** A loop over task references each turn of which only assigns, provided
    the task it is given is CREATED or ASSIGNED. *)
Lemma foldM_bumped {S} (body : S -> nat -> M S) :
  (forall s i e,
     (forall t, nth_error (tasks e) i = Some t -> isAdjustable (task_status t) = true) ->
     Forall2 bumped (tasks e) (tasks (exec (body s i) e))) ->
  forall refs s e,
    (forall i, In i refs ->
       forall t, nth_error (tasks e) i = Some t -> isAdjustable (task_status t) = true) ->
    Forall2 bumped (tasks e) (tasks (exec (foldM refs s body) e)).
Proof.
  intros Hb refs. induction refs as [|i r IH]; intros s e Hp.
  - apply Forall2_bumped_refl.
  - rewrite exec_foldM_cons.
    assert (Hstep := Hb s i e (Hp i (or_introl eq_refl))).
    eapply Forall2_bumped_trans; [exact Hstep|].
    apply IH. intros j Hj t Ht.
    destruct (Forall2_nth_error_r _ _ _ _ _ Hstep Ht) as [t0 [Ht0 Hbt]].
    eapply bumped_adjustable; [exact Hbt|]. apply (Hp j (or_intror Hj) t0 Ht0).
Qed.

Lemma assignPendingTask_bumped at_ staff load i e :
  (forall t, nth_error (tasks e) i = Some t -> isAdjustable (task_status t) = true) ->
  Forall2 bumped (tasks e) (tasks (exec (assignPendingTask at_ staff load i) e)).
Proof.
  intros Hp. unfold assignPendingTask. run.
  destruct (nth_error (tasks e) i) as [task|] eqn:Hi; run; [|apply Forall2_bumped_refl].
  destruct (assignPoolFor _ _) as [pool scoped].
  destruct (pickMember load pool) as [member|]; run; [|apply Forall2_bumped_refl].
  unfold pushTaskAudit. run. simpl tasks.
  apply (Forall2_bumped_updateAt (tasks e) i (Some at_) (Some (staff_id member)) at_).
  intros t Ht. rewrite Hi in Ht. inversion Ht; subst. apply Hp. reflexivity.
Qed.

Lemma indexed_filter_sorted_in {A} (p : nat * A -> bool) (key : nat * A -> Z) (l : list A) i :
  In i (map fst (sortBy key (filter p (indexed l)))) ->
  exists x, nth_error l i = Some x /\ p (i, x) = true.
Proof.
  intros H. apply in_map_iff in H. destruct H as [[j x] [Hj Hin]]. simpl in Hj. subst j.
  apply (Permutation_in _ (sortBy_perm key _)) in Hin.
  apply filter_In in Hin. destruct Hin as [Hin Hp].
  exists x. split; [apply indexed_in; exact Hin | exact Hp].
Qed.

(** Whatever [autoAssignPendingTasks] is given, the tasks after it are the
    tasks before it, some of the adjustable ones newly assigned. *)
Lemma autoAssignPendingTasks_bumped at_ e :
  Forall2 bumped (tasks e) (tasks (exec (autoAssignPendingTasks at_) e)).
Proof.
  unfold autoAssignPendingTasks. run.
  set (pending := map fst (sortBy _ (filter _ (indexed (tasks e))))).
  destruct (List.length pending =? 0)%nat; run; [apply Forall2_bumped_refl|].
  destruct (List.length (getAssignableActiveStaff e) =? 0)%nat; run;
    [apply Forall2_bumped_refl|].
  apply foldM_bumped.
  - intros s i e1 H1. apply assignPendingTask_bumped. exact H1.
  - intros i Hi t Ht. apply indexed_filter_sorted_in in Hi.
    destruct Hi as [x [Hx Hc]]. rewrite Ht in Hx. inversion Hx; subst x.
    simpl in Hc. apply andb_prop in Hc. destruct Hc as [Hc _].
    destruct (task_status t); simpl in *; congruence.
Qed.

Lemma bumped_fields t t' :
  bumped t t' ->
  task_id t' = task_id t /\ task_ruleId t' = task_ruleId t /\ task_zoneId t' = task_zoneId t
  /\ task_skuId t' = task_skuId t /\ task_deficitQty t' = task_deficitQty t
  /\ task_sourceZoneId t' = task_sourceZoneId t
  /\ taskIsOpen (task_status t') = taskIsOpen (task_status t)
  /\ isInProgress (task_status t') = isInProgress (task_status t).
Proof.
  intros [-> | [H (a & s & u & ->)]]; [repeat split|].
  simpl. repeat split; destruct (task_status t); simpl in *; congruence.
Qed.

Lemma Forall2_app_inv_single {A B} (R : A -> B -> Prop) l x l' :
  Forall2 R (l ++ [x])%list l' ->
  exists l1 y, l' = (l1 ++ [y])%list /\ Forall2 R l l1 /\ R x y.
Proof.
  intros H. apply Forall2_app_inv_l in H. destruct H as (l1 & l2 & H1 & H2 & ->).
  inversion H2 as [|a b la lb Hab Hn]; subst. inversion Hn; subst.
  exists l1, b. auto.
Qed.

(** [createPersonalizationTask] appends one task, bound for the given
    destination, and otherwise only assigns. *)
Lemma createPersonalizationTask_appends destinationZoneId skuId qty source supply e :
  exists older task,
    tasks (exec (createPersonalizationTask destinationZoneId skuId qty source supply) e)
    = (older ++ [task])%list
    /\ Forall2 bumped (tasks e) older
    /\ task_zoneId task = destinationZoneId
    /\ task_skuId task = skuId
    /\ task_deficitQty task = Z.max 1 qty
    /\ taskIsOpen (task_status task) = true.
Proof.
  unfold createPersonalizationTask. run. unfold pushTaskAudit at 1. run.
  match goal with
  | |- context [exec (autoAssignPendingTasks ?a) ?e1] =>
      pose proof (autoAssignPendingTasks_bumped a e1) as H
  end.
  simpl tasks in H at 1.
  apply Forall2_app_inv_single in H. destruct H as (older & task & Ht & Ho & Hb).
  exists older, task. split; [exact Ht|]. split; [exact Ho|].
  destruct (bumped_fields _ _ Hb) as (_ & _ & Hz & Hs & Hd & _ & Hopen & _).
  rewrite Hz, Hs, Hd, Hopen. simpl. auto.
Qed.

(** ** Projected supply *)

Lemma sumZ_perm l l' : Permutation l l' -> sumZ l = sumZ l'.
Proof.
  induction 1; rewrite ?sumZ_cons; try lia; congruence.
Qed.

Lemma sumZ_map_ext_in {A} (f g : A -> Z) (l : list A) :
  (forall x, In x l -> f x = g x) -> sumZ (map f l) = sumZ (map g l).
Proof. intros H. f_equal. apply map_ext_in, H. Qed.

Lemma getReservedTaskQtyFromSource_spec e sourceZoneId skuId :
  deficitsNonNegative e ->
  getReservedTaskQtyFromSource e sourceZoneId skuId None = reservedFrom e sourceZoneId skuId.
Proof.
  intros H. unfold getReservedTaskQtyFromSource, reservedFrom. simpl negb.
  apply sumZ_map_ext_in. intros t Ht. apply filter_In in Ht. destruct Ht as [Ht _].
  unfold deficitsNonNegative in H. rewrite Forall_forall in H. specialize (H t Ht). lia.
Qed.

(** The quantity [getProjectedSupplyForOrigin] computes is the projected
    supply of the specification, whatever the order of the sources. *)
Lemma getProjectedSupplyForOrigin_spec e zone skuId source :
  deficitsNonNegative e ->
  getProjectedSupplyForOrigin e zone skuId source = projectedSupply e zone skuId source.
Proof.
  intros H. unfold getProjectedSupplyForOrigin, projectedSupply, sortedSources.
  rewrite !fold_left_add_acc. f_equal; [f_equal|].
  - simpl. apply sumZ_map_ext_in. intros t Ht. apply filter_In in Ht. destruct Ht as [Ht _].
    unfold deficitsNonNegative in H. rewrite Forall_forall in H. specialize (H t Ht). lia.
  - simpl. rewrite (sumZ_perm _ _ (Permutation_map _ (sortBy_perm ref_sortOrder _))).
    apply sumZ_map_ext_in. intros r _. unfold availableFrom.
    rewrite getReservedTaskQtyFromSource_spec by exact H. reflexivity.
Qed.

(** ** Task deficits stay non-negative *)

Create HintDb deficit discriminated.

Lemma preserves_bind_get_here {B} I (k : Engine -> M B) :
  (forall e0, I e0 -> I (exec (k e0) e0)) -> preserves I (bind get k).
Proof. intros Hk e H. rewrite exec_bind. apply (Hk e H). Qed.

Lemma Forall_updateAt_here {A} (P : A -> Prop) (f : A -> A) (l : list A) i x :
  nth_error l i = Some x -> P (f x) -> Forall P l -> Forall P (updateAt i f l).
Proof.
  revert i. induction l as [|y r IH]; intros i Hi Hx H; [destruct i; discriminate|].
  inversion H; subst. destruct i; simpl in *.
  - inversion Hi; subst. constructor; auto.
  - constructor; eauto.
Qed.

(** A write to a field other than [tasks], a task update that keeps or
    resets the deficit, or a new task with a deficit known to be positive. *)
Ltac deficit_leaf :=
  match goal with
  | H : deficitsNonNegative ?e |- deficitsNonNegative _ =>
      repeat match goal with
             | |- deficitsNonNegative (match ?x with _ => _ end) => destruct x
             end;
      solve [ exact H
            | unfold deficitsNonNegative, updTask, updOrder, updItem, updZone, updRule,
                updStaff, deletePresence, rebindPresence, refreshPresence in *;
              simpl;
              first [ exact H
                    | apply Forall_updateAt; [intros ? ?; simpl; assumption | exact H]
                    | apply Forall_app; split;
                      [exact H | constructor; [simpl; bool_facts; lia | constructor]] ] ]
  end.

Ltac deficit_auto :=
  repeat first [ solve [eauto with deficit] | deficit_leaf | pres_step ].

Lemma upsertSnapshot_deficit z s q src c :
  preserves deficitsNonNegative (upsertSnapshot z s q src c).
Proof.
  unfold upsertSnapshot. apply preserves_modify. intros e H.
  destruct (_ && _); destruct (findIndex _ _); exact H.
Qed.

Lemma pushTaskAudit_deficit a b c d : preserves deficitsNonNegative (pushTaskAudit a b c d).
Proof. unfold pushTaskAudit. deficit_auto. Qed.
#[export] Hint Resolve upsertSnapshot_deficit pushTaskAudit_deficit : deficit.

Lemma autoAssignPendingTasks_deficit at_ :
  preserves deficitsNonNegative (autoAssignPendingTasks at_).
Proof. unfold autoAssignPendingTasks, assignPendingTask. deficit_auto. Qed.

Lemma autoAssignPendingReceivingOrders_deficit at_ :
  preserves deficitsNonNegative (autoAssignPendingReceivingOrders at_).
Proof. unfold autoAssignPendingReceivingOrders. deficit_auto. Qed.
#[export] Hint Resolve autoAssignPendingTasks_deficit autoAssignPendingReceivingOrders_deficit
  : deficit.

Lemma closeReplenishmentTask_deficit t r :
  preserves deficitsNonNegative (closeReplenishmentTask t r).
Proof. unfold closeReplenishmentTask. deficit_auto. Qed.

Lemma generateReplenishmentTask_deficit rule d t s c :
  0 <= d -> preserves deficitsNonNegative (generateReplenishmentTask rule d t s c).
Proof. intros Hd. unfold generateReplenishmentTask. deficit_auto. Qed.

Lemma createReceivingOrder_deficit p : preserves deficitsNonNegative (createReceivingOrder p).
Proof. unfold createReceivingOrder. deficit_auto. Qed.
#[export] Hint Resolve closeReplenishmentTask_deficit createReceivingOrder_deficit : deficit.

Lemma evaluateInboundReceivingNeed_deficit z r c :
  preserves deficitsNonNegative (evaluateInboundReceivingNeed z r c).
Proof. unfold evaluateInboundReceivingNeed. deficit_auto. Qed.

Lemma merged_deficit_nonneg e l a :
  0 <= a -> 0 <= fold_left (fun sum i => sum + Z.max 0 (deficitAt e i)) l a.
Proof.
  revert a. induction l as [|i r IH]; intros a Ha; simpl; [exact Ha|]. apply IH. lia.
Qed.

Lemma mergePlan_deficit z r o a : preserves deficitsNonNegative (mergePlan z r o a).
Proof.
  unfold mergePlan. destruct (negb _); [apply preserves_ret|].
  apply preserves_bind_get. intros e0 H0.
  destruct (negb _); [apply preserves_ret|].
  destruct a as [|keeper extra]; [apply preserves_ret|].
  apply preserves_bind.
  - apply preserves_modify. intros e H. unfold deficitsNonNegative, updTask in *. simpl.
    apply Forall_updateAt; [|exact H]. intros x _. simpl.
    apply merged_deficit_nonneg. lia.
  - intros _. deficit_auto.
Qed.

Lemma trimPlan_deficit a overflow : preserves deficitsNonNegative (trimPlan a overflow).
Proof.
  unfold trimPlan. apply preserves_foldM. intros o i.
  destruct (o <=? 0) eqn:Ho; [apply preserves_ret|].
  apply preserves_bind_get_here. intros e0 H0.
  destruct (nth_error (tasks e0) i) as [task|] eqn:Hi; [|exact H0].
  destruct (task_deficitQty task <=? o) eqn:Hd.
  - rewrite exec_bind. apply preserves_ret. apply closeReplenishmentTask_deficit. exact H0.
  - rewrite exec_bind, exec_modify. apply preserves_ret.
    unfold deficitsNonNegative, updTask in *. simpl.
    apply (Forall_updateAt_here _ _ _ _ task); auto. simpl. bool_facts. lia.
Qed.

Lemma refreshSources_deficit r o : preserves deficitsNonNegative (refreshSources r o).
Proof. unfold refreshSources. deficit_auto. Qed.

Lemma triggerPlan_deficit rule c r : preserves deficitsNonNegative (triggerPlan rule c r).
Proof.
  unfold triggerPlan. apply preserves_bind_get. intros e0 H0.
  apply preserves_bind.
  - apply preserves_foldM. intros [created remaining] source.
    destruct (remaining <=? 0); [apply preserves_ret|].
    destruct (Z.min remaining (cand_availableQty source) <=? 0) eqn:Ha; [apply preserves_ret|].
    apply preserves_bind; [|intros; apply preserves_ret].
    apply generateReplenishmentTask_deficit. bool_facts. lia.
  - intros [created remaining].
    destruct (negb created && (0 <? remaining)) eqn:Hc; [|apply preserves_ret].
    apply preserves_bind; [|intros; apply preserves_ret].
    apply generateReplenishmentTask_deficit.
    apply andb_prop in Hc. destruct Hc as [_ Hc]. bool_facts. lia.
Qed.
#[export] Hint Resolve evaluateInboundReceivingNeed_deficit mergePlan_deficit trimPlan_deficit
  refreshSources_deficit triggerPlan_deficit : deficit.

Lemma evaluateSalesRule_deficit z r c : preserves deficitsNonNegative (evaluateSalesRule z r c).
Proof. unfold evaluateSalesRule. deficit_auto. Qed.
#[export] Hint Resolve evaluateSalesRule_deficit : deficit.

Lemma evaluateMinMax_deficit z : preserves deficitsNonNegative (evaluateMinMax z).
Proof. unfold evaluateMinMax. deficit_auto. Qed.
#[export] Hint Resolve evaluateMinMax_deficit : deficit.

Lemma calculateZoneInventory_deficit z : preserves deficitsNonNegative (calculateZoneInventory z).
Proof. unfold calculateZoneInventory. deficit_auto. Qed.

Lemma createExternalRFIDForDestination_deficit s d q a :
  preserves deficitsNonNegative (createExternalRFIDForDestination s d q a).
Proof. unfold createExternalRFIDForDestination. deficit_auto. Qed.

Lemma restoreConsumedEpcs_deficit b s z d a :
  preserves deficitsNonNegative (restoreConsumedEpcs b s z d a).
Proof. unfold restoreConsumedEpcs. deficit_auto. Qed.
#[export] Hint Resolve calculateZoneInventory_deficit createExternalRFIDForDestination_deficit
  restoreConsumedEpcs_deficit : deficit.

Lemma routeToCashierStorage_deficit i item src t :
  preserves deficitsNonNegative (routeToCashierStorage i item src t).
Proof.
  unfold routeToCashierStorage, transferConsumedPendingEpcsToZone, moveRFIDEpcs,
    transferNonRfid.
  deficit_auto.
Qed.

(** ** Personalisation sales *)

Lemma invFrame_zones e1 e0 : invFrame e1 = invFrame e0 -> zones e1 = zones e0.
Proof. unfold invFrame. intros H. injection H. intros; assumption. Qed.

Ltac zones_leaf :=
  match goal with
  | H : zones ?e = ?v |- zones _ = ?v =>
      repeat match goal with
             | |- zones (match ?x with _ => _ end) = _ => destruct x
             end;
      solve [ exact H
            | unfold updTask, updOrder, updItem, deletePresence, rebindPresence in *;
              simpl; exact H ]
  end.

Create HintDb zonesdb discriminated.

Ltac zones_auto := repeat first [ solve [eauto with zonesdb] | zones_leaf | pres_step ].

Lemma upsertSnapshot_zones v z s q src c :
  preserves (fun e => zones e = v) (upsertSnapshot z s q src c).
Proof.
  unfold upsertSnapshot. apply preserves_modify. intros e H.
  destruct (_ && _); destruct (findIndex _ _); exact H.
Qed.
#[export] Hint Resolve upsertSnapshot_zones : zonesdb.

Lemma routeToCashierStorage_zones v i item src t :
  preserves (fun e => zones e = v) (routeToCashierStorage i item src t).
Proof.
  unfold routeToCashierStorage, transferConsumedPendingEpcsToZone, moveRFIDEpcs,
    transferNonRfid, restoreConsumedEpcs, createExternalRFIDForDestination.
  zones_auto.
Qed.

Lemma routeToCashierStorage_routed i item source timestamp e :
  eval (routeToCashierStorage i item source timestamp) e =
  if isRfid source then true
  else 0 <? Z.min (Z.max 0 (item_qty item))
                  (getCurrentInventoryQty e (item_zoneId item) (item_skuId item) NON_RFID).
Proof.
  unfold routeToCashierStorage. destruct (isRfid source); run; [reflexivity|].
  unfold transferNonRfid. run.
  destruct (Z.min _ _ <=? 0) eqn:Hm; run; rewrite ?Hm; bool_facts.
  - symmetry. apply Z.ltb_ge. exact Hm.
  - simpl. symmetry. apply Z.ltb_lt. exact Hm.
Qed.

Lemma routeToCashierStorage_nothing i item source timestamp e :
  eval (routeToCashierStorage i item source timestamp) e = false ->
  exec (routeToCashierStorage i item source timestamp) e = e.
Proof.
  unfold routeToCashierStorage. destruct (isRfid source); run; [discriminate|].
  unfold transferNonRfid. run.
  destruct (Z.min _ _ <=? 0) eqn:Hm; run; rewrite ?Hm; [reflexivity|].
  simpl. discriminate.
Qed.

Lemma tasks_updItem i f e : tasks (updItem i f e) = tasks e.
Proof. reflexivity. Qed.

Lemma find_zone_id e zoneId z : findZone e zoneId = Some z -> zone_id z = zoneId.
Proof. unfold findZone. intros H. apply find_some in H. apply String.eqb_eq, H. Qed.


(** ** The personalisable set *)

Lemma dedup_in l x : In x (dedup l) <-> In x l.
Proof.
  induction l as [|y r IH]; simpl; [tauto|].
  rewrite filter_In, IH. split.
  - intros [H | [H _]]; auto.
  - intros [H | H]; auto. destruct (String.eqb x y) eqn:E.
    + left. symmetry. apply String.eqb_eq. exact E.
    + right. split; [exact H | reflexivity].
Qed.

Lemma includes_in l x : includes l x = true <-> In x l.
Proof.
  unfold includes. rewrite existsb_exists. split.
  - intros [y [Hy E]]. apply String.eqb_eq in E. subst. exact Hy.
  - intros H. exists x. split; [exact H | apply String.eqb_refl].
Qed.

Lemma substring_mapStr f n m s : substring n m (mapStr f s) = mapStr f (substring n m s).
Proof.
  revert n m. induction s as [|c r IH]; intros n m.
  - destruct n, m; reflexivity.
  - destruct n; simpl.
    + destruct m; simpl; [reflexivity|]. rewrite IH. reflexivity.
    + apply IH.
Qed.

Lemma strIncludes_upper s : strIncludes s "JSY" = true -> strIncludes (toUpperCase s) "JSY" = true.
Proof.
  unfold strIncludes. destruct (index 0 "JSY" s) as [n|] eqn:Hn; [|discriminate]. intros _.
  apply index_correct1 in Hn.
  destruct (index 0 "JSY" (toUpperCase s)) eqn:Hu; [reflexivity|].
  exfalso. apply (index_correct3 0 n "JSY" (toUpperCase s) Hu); [discriminate | lia |].
  unfold toUpperCase. rewrite substring_mapStr, Hn. reflexivity.
Qed.

(** Every variant the catalog's criterion names ends up in the engine's set
    of personalisable SKUs. *)
Lemma constructor_personalizable dataset product variant :
  In product (ds_catalogProducts dataset) -> In variant (prod_variants product) ->
  personalisableInCatalog product variant ->
  includes (personalizableSkuIds (constructor dataset)) (var_skuId variant) = true.
Proof.
  intros Hp Hv Hc. apply includes_in. simpl. apply dedup_in. apply in_flat_map.
  exists product. split; [exact Hp|]. apply in_map. apply filter_In. split; [exact Hv|].
  unfold isPersonalizable. destruct Hc as [-> | [-> | H]]; try reflexivity.
  rewrite (strIncludes_upper _ H). destruct (var_role variant) as [[]|]; reflexivity.
Qed.

(** ** Read models *)

Lemma deref_storeOf {T} (l : list T) : deref (storeOf l) 0 = l.
Proof.
  unfold deref, storeOf, readArray. simpl.
  assert (H : forall (pre : list T),
            flat_map (fun o => match nth_error (pre ++ l)%list o with
                               | Some x => [x] | None => [] end)
                     (seq (List.length pre) (List.length l)) = l).
  { induction l as [|x r IH]; intros pre; [reflexivity|].
    simpl. rewrite nth_error_app2 by lia. rewrite Nat.sub_diag. simpl. f_equal.
    specialize (IH (pre ++ [x])%list). rewrite <- app_assoc in IH. simpl in IH.
    rewrite length_app in IH. simpl in IH. rewrite Nat.add_1_r in IH. exact IH. }
  exact (H []).
Qed.

(** Sharing changes nothing as long as no caller writes. *)
Lemma contents_share e : contents (share e) = e.
Proof.
  unfold contents, share. simpl. rewrite !deref_storeOf. destruct e; reflexivity.
Qed.

(** A fresh array protects the engine's array: whatever the caller does to
    the array it was given, the engine's array has the same contents. *)
Lemma copyArray_protects_array {T} (h : Store T) a keep f :
  (a < List.length (st_arrays h))%nat ->
  deref (writeArray (fst (copyArray h a keep)) f (snd (copyArray h a keep))) a = deref h a.
Proof.
  intros Ha. unfold deref, readArray, writeArray, copyArray. simpl.
  assert (Hn : forall (l : list (list nat)) extra g,
            (a < List.length l)%nat ->
            nth a (updateAt (List.length l) g (l ++ [extra])%list) [] = nth a l []).
  { clear. intros l. revert a. induction l as [|x r IH]; intros a extra g Ha;
      simpl in *; [lia|].
    destruct a; [reflexivity|]. apply IH. lia. }
  rewrite Hn by exact Ha. reflexivity.
Qed.

(** C8 (every getter returns a defensive copy): [getAllSnapshots] hands out
    the engine's own array. On the demo engine the stock of SKU-NR-1 on
    shelf-a reads 7; after the caller empties the array it was given the
    engine reads 0, and after the caller sets [qty] on the first snapshot
    the engine reads 99. [getZoneSnapshots], which filters into a fresh
    array, and [getReceivingOrders], which spreads into one, are immune to
    the first kind of write, not to the second: the objects are shared. *)
Theorem getAllSnapshots_returns_internal_array :
  let s := share demoEngine in
  let r := getAllSnapshotsRef s in
  getCurrentInventoryQty (contents s) "shelf-a" "SKU-NR-1" NON_RFID = 7
  /\ getCurrentInventoryQty (contents (callerWritesSnapshotArray r (fun _ => []) s))
       "shelf-a" "SKU-NR-1" NON_RFID = 0
  /\ getCurrentInventoryQty (contents (callerWritesSnapshot 0 (setQty 99) s))
       "shelf-a" "SKU-NR-1" NON_RFID = 99
  /\ (let g := getZoneSnapshotsRef "shelf-a" s in
      getCurrentInventoryQty (contents (callerWritesSnapshotArray (fst g) (fun _ => []) (snd g)))
        "shelf-a" "SKU-NR-1" NON_RFID = 7
      /\ getCurrentInventoryQty (contents (callerWritesSnapshot 0 (setQty 99) (snd g)))
           "shelf-a" "SKU-NR-1" NON_RFID = 99)
  /\ (let g := getReceivingOrdersRef (share orderedEngine) in
      map order_confirmedQty (receivingOrders (contents (snd g))) = [0]
      /\ map order_confirmedQty
           (receivingOrders (contents (callerWritesOrderArray (fst g) (fun _ => []) (snd g))))
         = [0]
      /\ map order_confirmedQty
           (receivingOrders
              (contents (callerWritesOrder 0 (order_set_confirmedQty 99) (snd g))))
         = [99]).
Proof. vm_compute. repeat split; reflexivity. Qed.

(** ** Open deficits after an evaluation *)

Lemma showNat_inj n m : showNat n = showNat m -> n = m.
Proof.
  unfold showNat. intros H.
  assert (Hu : Nat.to_uint n = Nat.to_uint m).
  { apply (f_equal NilEmpty.uint_of_string) in H. rewrite !NilEmpty.usu in H.
    inversion H. reflexivity. }
  apply (f_equal Nat.of_uint) in Hu. rewrite !Unsigned.of_to in Hu. exact Hu.
Qed.

Lemma nth_error_indexed {A} (l : list A) i x :
  nth_error l i = Some x -> In (i, x) (indexed l).
Proof.
  intros Hi. unfold indexed.
  assert (H : forall k, In ((k + i)%nat, x) (combine (seq k (List.length l)) l)).
  { revert i Hi. induction l as [|y r IH]; intros i Hi k; [destruct i; discriminate|].
    destruct i; simpl in *.
    - inversion Hi; subst. left. f_equal. lia.
    - right. specialize (IH i Hi (S k)).
      replace (S k + i)%nat with (k + S i)%nat in IH by lia. exact IH. }
  exact (H 0%nat).
Qed.

Lemma find_indexed_at {A} (p : nat * A -> bool) (l : list A) i x :
  nth_error l i = Some x -> p (i, x) = true ->
  (forall j y, nth_error l j = Some y -> p (j, y) = true -> j = i) ->
  find p (indexed l) = Some (i, x).
Proof.
  intros Hi Hp Hu. destruct (find p (indexed l)) as [[j y]|] eqn:Hf.
  - apply find_some in Hf. destruct Hf as [Hin Hpj]. apply indexed_in in Hin.
    assert (j = i) by (eapply Hu; eauto). subst j. congruence.
  - pose proof (find_none _ _ Hf _ (nth_error_indexed l i x Hi)) as Hn. congruence.
Qed.

Lemma nth_error_views e i :
  nth_error (views e) i = option_map viewOf (nth_error (tasks e) i).
Proof. unfold views. apply nth_error_map. Qed.

Lemma wf_views e : taskIdsInSequence e <-> wfV (views e).
Proof.
  unfold taskIdsInSequence, wfV. split; intros H i x Hx.
  - rewrite nth_error_views in Hx. destruct (nth_error (tasks e) i) as [t|] eqn:Ht;
      [|discriminate]. inversion Hx; subst. simpl. apply H, Ht.
  - apply (H i (viewOf x)). rewrite nth_error_views, Hx. reflexivity.
Qed.

Lemma findTask_at e i t :
  taskIdsInSequence e -> nth_error (tasks e) i = Some t ->
  findTask e (task_id t) = Some (i, t).
Proof.
  intros Hw Hi. unfold findTask. apply find_indexed_at; [exact Hi | apply String.eqb_refl |].
  intros j y Hj Hp. simpl in Hp. apply String.eqb_eq in Hp.
  rewrite (Hw j y Hj), (Hw i t Hi) in Hp. simpl in Hp. inversion Hp as [Hs].
  apply showNat_inj in Hs. lia.
Qed.

Lemma updateAt_same {A} (f : A -> A) (l : list A) i x :
  nth_error l i = Some x -> f x = x -> updateAt i f l = l.
Proof.
  revert i. induction l as [|y r IH]; intros [|i] Hi Hf; simpl in *; try discriminate.
  - inversion Hi; subst. rewrite Hf. reflexivity.
  - f_equal. eapply IH; eauto.
Qed.

Lemma map_updateAt {A B} (g : A -> B) (f : A -> A) (f' : B -> B) (l : list A) i :
  (forall x, g (f x) = f' (g x)) -> map g (updateAt i f l) = updateAt i f' (map g l).
Proof.
  intros H. revert i. induction l as [|y r IH]; intros [|i]; simpl; auto; f_equal; auto.
Qed.

Lemma length_updateAt {A} (f : A -> A) (l : list A) i :
  List.length (updateAt i f l) = List.length l.
Proof. revert i. induction l as [|y r IH]; intros [|i]; simpl; auto. Qed.

(** ** What the planning steps do to the views *)

Lemma bumped_view t t' : bumped t t' -> viewOf t' = viewOf t.
Proof.
  intros [-> | [H (a & s & u & ->)]]; [reflexivity|].
  unfold viewOf, assignedAs. simpl. destruct (task_status t); simpl in *; congruence.
Qed.

Lemma Forall2_bumped_views l l' : Forall2 bumped l l' -> map viewOf l' = map viewOf l.
Proof.
  induction 1; simpl; [reflexivity|]. f_equal; [apply bumped_view; assumption | assumption].
Qed.

Lemma autoAssignPendingTasks_views at_ e :
  views (exec (autoAssignPendingTasks at_) e) = views e.
Proof. apply Forall2_bumped_views, autoAssignPendingTasks_bumped. Qed.

Lemma autoAssignPendingReceivingOrders_tasks at_ e :
  tasks (exec (autoAssignPendingReceivingOrders at_) e) = tasks e.
Proof.
  assert (H : preserves (fun e' => tasks e' = tasks e) (autoAssignPendingReceivingOrders at_)).
  { unfold autoAssignPendingReceivingOrders.
    repeat first [ pres_step | assumption | solve [unfold updOrder; simpl; assumption] ]. }
  apply H. reflexivity.
Qed.

Lemma autoAssignPendingReceivingOrders_views at_ e :
  views (exec (autoAssignPendingReceivingOrders at_) e) = views e.
Proof. unfold views. rewrite autoAssignPendingReceivingOrders_tasks. reflexivity. Qed.

Lemma pushTaskAudit_views a b c d e : views (exec (pushTaskAudit a b c d) e) = views e.
Proof. reflexivity. Qed.

Lemma views_updTask i f e : views (updTask i f e) = map viewOf (updateAt i f (tasks e)).
Proof. reflexivity. Qed.

#[export] Hint Rewrite autoAssignPendingTasks_views autoAssignPendingReceivingOrders_views
  pushTaskAudit_views : run.

Lemma closeReplenishmentTask_views e i t reason :
  taskIdsInSequence e -> nth_error (tasks e) i = Some t ->
  views (exec (closeReplenishmentTask (task_id t) reason) e) = updateAt i closeV (views e).
Proof.
  intros Hw Hi. unfold closeReplenishmentTask. run. rewrite (findTask_at e i t Hw Hi).
  destruct (taskIsOpen (task_status t)) eqn:Ho; simpl negb; run.
  - rewrite views_updTask. apply map_updateAt. intros x.
    destruct (startsWith reason "confirmed"); reflexivity.
  - symmetry. apply (updateAt_same _ _ _ (viewOf t)).
    + rewrite nth_error_views, Hi. reflexivity.
    + unfold closeV, viewOf. simpl. destruct (task_status t); simpl in *; congruence.
Qed.

Lemma generateReplenishmentTask_views rule d trig src cands e :
  views (exec (generateReplenishmentTask rule d trig src cands) e)
  = (views e ++ [mkView ("task-" ++ showNat (List.length (views e) + 1)) (rule_id rule) d
                        Adjustable])%list.
Proof.
  unfold generateReplenishmentTask. run. unfold views at 1. simpl tasks.
  rewrite map_app. unfold views. rewrite length_map. reflexivity.
Qed.

Lemma generateReplenishmentTask_eval rule d trig src cands e :
  eval (generateReplenishmentTask rule d trig src cands) e = List.length (tasks e).
Proof. unfold generateReplenishmentTask. run. reflexivity. Qed.

Lemma map_updateAt_at {A B} (g : A -> B) (f : A -> A) (f' : B -> B) (l : list A) i x :
  nth_error l i = Some x -> g (f x) = f' (g x) ->
  map g (updateAt i f l) = updateAt i f' (map g l).
Proof.
  revert i. induction l as [|y r IH]; intros [|i] Hi H; simpl in *; try discriminate.
  - inversion Hi; subst. rewrite H. reflexivity.
  - f_equal. apply IH; assumption.
Qed.

Lemma updateAt_none {A} (f : A -> A) (l : list A) i :
  nth_error l i = None -> updateAt i f l = l.
Proof.
  revert i. induction l as [|y r IH]; intros [|i] Hi; simpl in *; try discriminate; auto.
  f_equal. apply IH, Hi.
Qed.

Lemma wfV_updateAt f vs i :
  (forall v, v_id (f v) = v_id v) -> wfV vs -> wfV (updateAt i f vs).
Proof.
  intros Hf Hw j v Hj. destruct (Nat.eq_dec j i) as [->|Hn].
  - rewrite updateAt_nth_error in Hj. destruct (nth_error vs i) as [v0|] eqn:H0;
      [|discriminate]. inversion Hj; subst. rewrite Hf. apply Hw, H0.
  - rewrite updateAt_nth_error_other in Hj by exact Hn. apply Hw, Hj.
Qed.

Lemma wfV_app vs r d c :
  wfV vs -> wfV (vs ++ [mkView ("task-" ++ showNat (List.length vs + 1)) r d c])%list.
Proof.
  intros Hw j v Hj. destruct (Nat.lt_ge_cases j (List.length vs)) as [Hlt|Hge].
  - rewrite nth_error_app1 in Hj by exact Hlt. apply Hw, Hj.
  - rewrite nth_error_app2 in Hj by exact Hge.
    destruct (j - List.length vs)%nat as [|k] eqn:Hk; simpl in Hj.
    + inversion Hj; subst. simpl. replace j with (List.length vs) by lia. reflexivity.
    + destruct k; discriminate.
Qed.

Lemma closeReplenishmentTask_ids e i t reason :
  taskIdsInSequence e -> nth_error (tasks e) i = Some t ->
  taskIdsInSequence (exec (closeReplenishmentTask (task_id t) reason) e).
Proof.
  intros Hw Hi. apply wf_views. rewrite (closeReplenishmentTask_views e i t reason Hw Hi).
  apply wfV_updateAt; [reflexivity | apply wf_views, Hw].
Qed.

Lemma generateReplenishmentTask_ids rule d trig src cands e :
  taskIdsInSequence e ->
  taskIdsInSequence (exec (generateReplenishmentTask rule d trig src cands) e).
Proof.
  intros Hw. apply wf_views. rewrite generateReplenishmentTask_views.
  apply wfV_app, wf_views, Hw.
Qed.

Lemma exec_forTasks_cons i r body e :
  exec (forTasks (i :: r) body) e
  = exec (forTasks r body)
         (match nth_error (tasks e) i with Some t => exec (body i t) e | None => e end).
Proof.
  unfold forTasks. simpl forEach. run. destruct (nth_error (tasks e) i); reflexivity.
Qed.

(** The loops that close every task of a list. *)
Lemma closeAll_views reason refs e :
  taskIdsInSequence e ->
  taskIdsInSequence
    (exec (forTasks refs (fun _ t => closeReplenishmentTask (task_id t) reason ;; ret tt)) e)
  /\ views (exec (forTasks refs
                    (fun _ t => closeReplenishmentTask (task_id t) reason ;; ret tt)) e)
     = closeAllV refs (views e).
Proof.
  revert e. induction refs as [|i r IH]; intros e Hw; [split; [exact Hw | reflexivity]|].
  rewrite exec_forTasks_cons. unfold closeAllV. simpl fold_left.
  destruct (nth_error (tasks e) i) as [t|] eqn:Hi.
  - run. destruct (IH _ (closeReplenishmentTask_ids e i t reason Hw Hi)) as [H1 H2].
    split; [exact H1|]. rewrite H2, (closeReplenishmentTask_views e i t reason Hw Hi).
    reflexivity.
  - destruct (IH e Hw) as [H1 H2]. split; [exact H1|]. rewrite H2.
    rewrite (updateAt_none closeV (views e) i); [reflexivity|].
    rewrite nth_error_views, Hi. reflexivity.
Qed.

Lemma wfV_closeAllV refs vs : wfV vs -> wfV (closeAllV refs vs).
Proof.
  revert vs. induction refs as [|i r IH]; intros vs H; [exact H|].
  apply IH, wfV_updateAt; [reflexivity | exact H].
Qed.

(** The merge step either does nothing or resets the keeper's deficit and
    closes the other adjustable tasks. *)
Lemma mergePlan_views zone rule openTasks adj e :
  taskIdsInSequence e ->
  views (exec (mergePlan zone rule openTasks adj) e) = views e
  \/ exists keeper extra m,
       adj = keeper :: extra
       /\ views (exec (mergePlan zone rule openTasks adj) e)
          = closeAllV extra (updateAt keeper (setDeficitV m) (views e)).
Proof.
  intros Hw. unfold mergePlan.
  destruct (negb (1 <? List.length adj)%nat); [left; reflexivity|]. run.
  destruct (negb _); [left; reflexivity|].
  destruct adj as [|keeper extra]; [left; reflexivity|].
  right. exists keeper, extra.
  exists (fold_left (fun sum i => sum + Z.max 0 (deficitAt e i)) (keeper :: extra) 0).
  split; [reflexivity|]. run.
  set (m := fold_left _ _ 0).
  set (e1 := updTask keeper _ e).
  assert (Hv1 : views e1 = updateAt keeper (setDeficitV m) (views e)).
  { unfold e1. rewrite views_updTask. apply map_updateAt. reflexivity. }
  assert (Hw1 : taskIdsInSequence e1).
  { apply wf_views. rewrite Hv1. apply wfV_updateAt; [reflexivity | apply wf_views, Hw]. }
  rewrite (proj2 (closeAll_views "merged_plan" extra e1 Hw1)), Hv1. reflexivity.
Qed.

Lemma mergePlan_ids zone rule openTasks adj e :
  taskIdsInSequence e -> taskIdsInSequence (exec (mergePlan zone rule openTasks adj) e).
Proof.
  intros Hw. apply wf_views.
  destruct (mergePlan_views zone rule openTasks adj e Hw) as [H | (k & x & m & _ & H)];
    rewrite H.
  - apply wf_views, Hw.
  - apply wfV_closeAllV, wfV_updateAt; [reflexivity | apply wf_views, Hw].
Qed.

(** Whether or not it merges, the merge step returns the open tasks of the
    rule, and the adjustable ones among them, as they are afterwards. *)
Lemma mergePlan_result zone rule e :
  let refs := openTaskRefs e (rule_id rule) in
  let e1 := exec (mergePlan zone rule refs (notInProgress e refs)) e in
  eval (mergePlan zone rule refs (notInProgress e refs)) e
  = (openTaskRefs e1 (rule_id rule), notInProgress e1 (openTaskRefs e1 (rule_id rule))).
Proof.
  intros refs e1. unfold e1, mergePlan.
  destruct (negb (1 <? List.length _)%nat); [reflexivity|]. run.
  destruct (negb _); [reflexivity|].
  destruct (notInProgress e refs) as [|keeper extra] eqn:Hn; [|reflexivity].
  run. fold refs. rewrite Hn. reflexivity.
Qed.

(** The trim loop, turn by turn. *)
Lemma trimPlan_views refs overflow e :
  taskIdsInSequence e ->
  taskIdsInSequence (exec (trimPlan refs overflow) e)
  /\ eval (trimPlan refs overflow) e
     = fst (fold_left trimStepV (List.rev refs) (overflow, views e))
  /\ views (exec (trimPlan refs overflow) e)
     = snd (fold_left trimStepV (List.rev refs) (overflow, views e)).
Proof.
  unfold trimPlan. generalize (List.rev refs) as l. clear refs.
  intros l. revert overflow e. induction l as [|i r IH]; intros o e Hw;
    [repeat split; auto|].
  rewrite exec_foldM_cons, eval_foldM_cons. simpl fold_left.
  unfold trimStepV at 2 4. simpl fst. simpl snd.
  destruct (o <=? 0) eqn:Ho; run; [apply IH, Hw|].
  rewrite nth_error_views.
  destruct (nth_error (tasks e) i) as [t|] eqn:Hi; simpl option_map; run; [|apply IH, Hw].
  change (v_deficit (viewOf t)) with (task_deficitQty t).
  destruct (task_deficitQty t <=? o) eqn:Hd; run.
  - rewrite <- (closeReplenishmentTask_views e i t "plan_adjusted" Hw Hi).
    apply IH. apply (closeReplenishmentTask_ids e i t _ Hw Hi).
  - set (e1 := updTask i _ e).
    assert (Hv1 : views e1 = updateAt i (setDeficitV (task_deficitQty t - o)) (views e)).
    { unfold e1. rewrite views_updTask. apply (map_updateAt_at _ _ _ _ _ t Hi). reflexivity. }
    rewrite <- Hv1. apply IH. apply wf_views. rewrite Hv1.
    apply wfV_updateAt; [reflexivity | apply wf_views, Hw].
Qed.

Lemma updateAt_id {A} (f : A -> A) (l : list A) i : (forall x, f x = x) -> updateAt i f l = l.
Proof.
  intros H. revert i. induction l as [|y r IH]; intros [|i]; simpl; rewrite ?H, ?IH; auto.
Qed.

Lemma refreshSources_views rule refs e : views (exec (refreshSources rule refs) e) = views e.
Proof.
  unfold refreshSources. revert e. induction refs as [|i r IH]; intros e; [reflexivity|].
  rewrite exec_forTasks_cons. destruct (nth_error (tasks e) i) as [t|] eqn:Hi; [|apply IH].
  rewrite IH. run. rewrite views_updTask.
  rewrite (map_updateAt _ _ (fun v => v)); [|reflexivity].
  apply updateAt_id. reflexivity.
Qed.

(** The loop of the trigger step appends tasks of the rule whose deficits
    add up to what it takes off [remainingQty]. *)
Lemma triggerLoop_views rule cur allCands l st e :
  let c := foldM l st (fun st source =>
             let '(createdAnyTask, remainingQty) := st in
             if remainingQty <=? 0 then ret st else
             let allocQty := Z.min remainingQty (cand_availableQty source) in
             if allocQty <=? 0 then ret st else
             generateReplenishmentTask rule allocQty cur
               (Some (cand_sourceZoneId source)) (Some allCands) ;;
             ret (true, remainingQty - allocQty)) in
  exists ext,
    views (exec c e) = (views e ++ ext)%list
    /\ Forall (newFor (rule_id rule)) ext
    /\ (wfV (views e) -> wfV (views e ++ ext)%list)
    /\ sumZ (map v_deficit ext) + snd (eval c e) = snd st
    /\ (0 <= snd st -> 0 <= snd (eval c e)).
Proof.
  cbv zeta. revert st e. induction l as [|source r IH]; intros [created rem] e.
  - exists []. rewrite app_nil_r. simpl. repeat split; auto.
  - rewrite exec_foldM_cons, eval_foldM_cons. cbv beta iota.
    destruct (rem <=? 0) eqn:Hr; run; [apply IH|].
    destruct (Z.min rem (cand_availableQty source) <=? 0) eqn:Ha; run; [apply IH|].
    set (alloc := Z.min rem (cand_availableQty source)) in *.
    set (e1 := exec (generateReplenishmentTask rule alloc cur _ _) e).
    assert (Hv1 : views e1 = (views e ++ [mkView ("task-" ++ showNat (List.length (views e) + 1))
                                            (rule_id rule) alloc Adjustable])%list)
      by apply generateReplenishmentTask_views.
    destruct (IH (true, rem - alloc) e1) as (ext & Hv & Hn & Hw & Hs & Hp).
    exists (mkView ("task-" ++ showNat (List.length (views e) + 1)) (rule_id rule) alloc
                   Adjustable :: ext).
    rewrite Hv, Hv1, <- app_assoc. simpl app. split; [reflexivity|].
    split; [constructor; [split; reflexivity | exact Hn]|].
    split.
    { intros H0. change (?x :: ext) with ([x] ++ ext)%list. rewrite app_assoc.
      rewrite <- Hv1. apply Hw. rewrite Hv1. apply wfV_app, H0. }
    simpl map. rewrite sumZ_cons. simpl v_deficit. simpl snd in *.
    apply Z.leb_gt in Hr, Ha. split; [lia|]. intros _. apply Hp. unfold alloc. lia.
Qed.

Lemma triggerPlan_views rule cur rem e :
  exists ext,
    views (exec (triggerPlan rule cur rem) e) = (views e ++ ext)%list
    /\ Forall (newFor (rule_id rule)) ext
    /\ (wfV (views e) -> wfV (views e ++ ext)%list)
    /\ (0 <= rem -> sumZ (map v_deficit ext) <= rem).
Proof.
  unfold triggerPlan. run.
  destruct (triggerLoop_views rule cur (buildSourceCandidates e rule None)
              (buildSourceCandidates e rule None) (false, rem) e)
    as (ext & Hv & Hn & Hw & Hs & Hp).
  cbv zeta in Hv, Hs, Hp.
  set (c := foldM _ _ _) in *.
  destruct (eval c e) as [created rem'] eqn:Hc. simpl snd in *. cbv beta iota.
  destruct (negb created && (0 <? rem')) eqn:Hf; run.
  - rewrite generateReplenishmentTask_views, Hv, <- app_assoc.
    eexists. split; [reflexivity|]. split; [|split].
    + apply Forall_app. split; [exact Hn | constructor; [split; reflexivity | constructor]].
    + intros H0. rewrite app_assoc, <- Hv. apply wfV_app. rewrite Hv. apply Hw, H0.
    + intros _. rewrite map_app, sumZ_app. simpl map. rewrite sumZ_cons.
      change (sumZ []) with 0. simpl v_deficit. lia.
  - exists ext. split; [exact Hv|]. split; [exact Hn|]. split; [exact Hw|].
    intros H0. specialize (Hp H0). lia.
Qed.

Lemma triggerPlan_ids rule cur rem e :
  taskIdsInSequence e -> taskIdsInSequence (exec (triggerPlan rule cur rem) e).
Proof.
  intros Hw. destruct (triggerPlan_views rule cur rem e) as (ext & Hv & _ & H & _).
  apply wf_views. rewrite Hv. apply H, wf_views, Hw.
Qed.

(** ** Sums and selections over views *)

Lemma openSumV_app rid vs ext :
  openSumV rid (vs ++ ext)%list = openSumV rid vs + openSumV rid ext.
Proof. unfold openSumV. rewrite map_app. apply sumZ_app. Qed.

Lemma sumZ_map_updateAt {A} (g : A -> Z) (f : A -> A) (l : list A) i x :
  nth_error l i = Some x ->
  sumZ (map g (updateAt i f l)) = sumZ (map g l) - g x + g (f x).
Proof.
  revert i. induction l as [|y r IH]; intros [|i] Hi; simpl in *; try discriminate.
  - inversion Hi; subst. rewrite !sumZ_cons. lia.
  - rewrite !sumZ_cons, (IH i Hi). lia.
Qed.

Lemma openSumV_updateAt rid f vs i v :
  nth_error vs i = Some v ->
  openSumV rid (updateAt i f vs) = openSumV rid vs - contrib rid v + contrib rid (f v).
Proof. apply sumZ_map_updateAt. Qed.

Lemma openSumV_new rid ext :
  Forall (newFor rid) ext -> openSumV rid ext = sumZ (map v_deficit ext).
Proof.
  unfold openSumV. induction 1 as [|v r [Hr Hc] _ IH]; [reflexivity|].
  simpl map. rewrite !sumZ_cons, IH. unfold contrib, isOpenV.
  rewrite Hr, Hc, String.eqb_refl. reflexivity.
Qed.

Lemma ridViews_app rid vs ext :
  ridViews rid (vs ++ ext)%list = (ridViews rid vs ++ ridViews rid ext)%list.
Proof. apply filter_app. Qed.

Lemma ridViews_new rid other ext :
  other <> rid -> Forall (newFor other) ext -> ridViews rid ext = [].
Proof.
  intros Hn. induction 1 as [|v r [Hr _] _ IH]; [reflexivity|].
  simpl. rewrite IH, Hr. destruct (String.eqb_spec other rid); [contradiction | reflexivity].
Qed.

Lemma openSumV_rid rid vs : openSumV rid (ridViews rid vs) = openSumV rid vs.
Proof.
  unfold openSumV, ridViews. induction vs as [|v r IH]; [reflexivity|].
  simpl. destruct (String.eqb (v_rule v) rid) eqn:Hr; simpl map; rewrite !sumZ_cons, IH.
  - reflexivity.
  - unfold contrib. rewrite Hr. simpl. lia.
Qed.

Lemma noAdjV_rid rid vs : noAdjV rid (ridViews rid vs) <-> noAdjV rid vs.
Proof.
  unfold noAdjV, ridViews. induction vs as [|v r IH]; [split; constructor|].
  simpl. destruct (String.eqb_spec (v_rule v) rid) as [Hr|Hr].
  - split; intros H; inversion H; subst; constructor; auto; apply IH; assumption.
  - split; intros H.
    + constructor; [intros; contradiction | apply IH, H].
    + inversion H; subst. apply IH. assumption.
Qed.

Lemma otherAt_updateAt rid f vs i j :
  (forall v, v_rule (f v) = v_rule v) -> otherAt rid vs i -> otherAt rid (updateAt j f vs) i.
Proof.
  intros Hf H v Hv. destruct (Nat.eq_dec i j) as [->|Hn].
  - rewrite updateAt_nth_error in Hv. destruct (nth_error vs j) as [v0|] eqn:H0;
      [|discriminate]. inversion Hv; subst. rewrite Hf. apply (H v0 H0).
  - rewrite updateAt_nth_error_other in Hv by exact Hn. apply (H v Hv).
Qed.

Lemma ridViews_updateAt_other rid f vs i :
  (forall v, v_rule (f v) = v_rule v) -> otherAt rid vs i ->
  ridViews rid (updateAt i f vs) = ridViews rid vs.
Proof.
  intros Hf. unfold otherAt. revert i. induction vs as [|y r IH]; intros [|i] H; simpl;
    auto.
  - rewrite Hf. specialize (H y eq_refl).
    destruct (String.eqb_spec (v_rule y) rid); [contradiction | reflexivity].
  - rewrite (IH i); [reflexivity|]. intros v Hv. apply (H v Hv).
Qed.

Lemma ridViews_closeAllV_other rid refs vs :
  (forall i, In i refs -> otherAt rid vs i) ->
  ridViews rid (closeAllV refs vs) = ridViews rid vs.
Proof.
  revert vs. induction refs as [|i r IH]; intros vs H; [reflexivity|].
  unfold closeAllV. simpl fold_left. fold (closeAllV r (updateAt i closeV vs)).
  rewrite IH.
  - apply ridViews_updateAt_other; [reflexivity | apply H; left; reflexivity].
  - intros j Hj. apply otherAt_updateAt; [reflexivity | apply H; right; exact Hj].
Qed.

Lemma trimStepV_stop l st : fst st <= 0 -> fold_left trimStepV l st = st.
Proof.
  intros H. induction l as [|i r IH]; [reflexivity|].
  simpl. unfold trimStepV at 2. apply Z.leb_le in H. rewrite H. apply Z.leb_le in H. exact IH.
Qed.

Lemma ridViews_trim_other rid l o vs :
  (forall i, In i l -> otherAt rid vs i) ->
  ridViews rid (snd (fold_left trimStepV l (o, vs))) = ridViews rid vs.
Proof.
  revert o vs. induction l as [|i r IH]; intros o vs H; [reflexivity|].
  simpl fold_left. unfold trimStepV at 2. simpl fst. simpl snd.
  destruct (o <=? 0); [apply IH; intros j Hj; apply H; right; exact Hj|].
  destruct (nth_error vs i) as [v|] eqn:Hi; [|apply IH; intros j Hj; apply H; right; exact Hj].
  destruct (v_deficit v <=? o); rewrite IH.
  - apply ridViews_updateAt_other; [reflexivity | apply H; left; reflexivity].
  - intros j Hj. apply otherAt_updateAt; [reflexivity | apply H; right; exact Hj].
  - apply ridViews_updateAt_other; [reflexivity | apply H; left; reflexivity].
  - intros j Hj. apply otherAt_updateAt; [reflexivity | apply H; right; exact Hj].
Qed.

(** ** The open tasks of a rule, as references *)

Lemma map_fst_indexed {A} (l : list A) : map fst (indexed l) = seq 0 (List.length l).
Proof.
  unfold indexed. generalize 0%nat as k. induction l as [|y r IH]; intros k; simpl;
    [reflexivity|]. f_equal. apply IH.
Qed.

Lemma map_snd_indexed {A} (l : list A) : map snd (indexed l) = l.
Proof.
  unfold indexed. generalize 0%nat as k. induction l as [|y r IH]; intros k; simpl;
    [reflexivity|]. f_equal. apply IH.
Qed.

Lemma NoDup_map_fst_filter {A B} (p : A * B -> bool) (l : list (A * B)) :
  NoDup (map fst l) -> NoDup (map fst (filter p l)).
Proof.
  induction l as [|x r IH]; simpl; intros H; [constructor|].
  inversion H as [|a b Hn Hr]; subst. destruct (p x); simpl; [|auto].
  constructor; [|auto]. intros Hin. apply Hn.
  apply in_map_iff in Hin. destruct Hin as [y [Hy Hin]]. apply filter_In in Hin.
  apply in_map_iff. exists y. tauto.
Qed.

Lemma openTaskRefs_NoDup e rid : NoDup (openTaskRefs e rid).
Proof.
  unfold openTaskRefs.
  eapply Permutation_NoDup;
    [apply Permutation_sym, Permutation_map, sortBy_perm|].
  apply NoDup_map_fst_filter. rewrite map_fst_indexed. apply seq_NoDup.
Qed.

Lemma openTaskRefs_in e rid i :
  In i (openTaskRefs e rid)
  <-> exists t, nth_error (tasks e) i = Some t /\ ofOpenRule rid t = true.
Proof.
  unfold openTaskRefs. split.
  - intros H. apply indexed_filter_sorted_in in H. exact H.
  - intros [t [Ht Hp]]. apply in_map_iff. exists (i, t). split; [reflexivity|].
    apply (Permutation_in _ (Permutation_sym (sortBy_perm _ _))).
    apply filter_In. split; [apply nth_error_indexed, Ht | exact Hp].
Qed.

Lemma adjustable_spec e rid :
  let adj := notInProgress e (openTaskRefs e rid) in
  NoDup adj /\ (forall i, In i adj <-> adjAt rid (views e) i).
Proof.
  intros adj. unfold adj, notInProgress. split;
    [apply NoDup_filter, openTaskRefs_NoDup|].
  intros i. rewrite filter_In, openTaskRefs_in. unfold adjAt. rewrite nth_error_views.
  unfold ofOpenRule. split.
  - intros [[t [Ht Hp]] Hq]. rewrite Ht in *. exists (viewOf t).
    apply andb_prop in Hp. destruct Hp as [Hr Ho]. apply String.eqb_eq in Hr.
    split; [reflexivity|]. split; [exact Hr|].
    simpl. destruct (task_status t); simpl in *; congruence.
  - intros [v [Hv [Hr Hc]]]. destruct (nth_error (tasks e) i) as [t|]; [|discriminate].
    inversion Hv; subst v. simpl in *.
    split; [exists t; split; [reflexivity|] |].
    + rewrite Hr, String.eqb_refl. destruct (task_status t); simpl in *; congruence.
    + destruct (task_status t); simpl in *; congruence.
Qed.

Lemma openDeficit_views e rid : openDeficit e rid = openSumV rid (views e).
Proof.
  unfold openDeficit, openSumV, views. induction (tasks e) as [|t r IH]; [reflexivity|].
  simpl. rewrite sumZ_cons, <- IH. unfold contrib, ofOpenRule, isOpenV. simpl.
  destruct (String.eqb (task_ruleId t) rid); simpl;
    [destruct (task_status t); simpl; rewrite ?sumZ_cons; lia | lia].
Qed.

Lemma map_snd_filter {A B} (p : B -> bool) (l : list (A * B)) :
  map snd (filter (fun q => p (snd q)) l) = filter p (map snd l).
Proof.
  induction l as [|x r IH]; simpl; [reflexivity|].
  destruct (p (snd x)); simpl; rewrite IH; reflexivity.
Qed.

Lemma plannedQty_spec e rid :
  fold_left (fun sum i => sum + deficitAt e i) (openTaskRefs e rid) 0 = openDeficit e rid.
Proof.
  rewrite fold_left_add_acc. unfold openTaskRefs, openDeficit. rewrite map_map.
  change (filter _ (indexed (tasks e)))
    with (filter (fun q : nat * ReplenishmentTask => ofOpenRule rid (snd q))
                 (indexed (tasks e))).
  rewrite (sumZ_perm _ _ (Permutation_map _ (sortBy_perm _ _))).
  rewrite (sumZ_map_ext_in _ (fun q => task_deficitQty (snd q))).
  - rewrite <- (map_map snd task_deficitQty).
    rewrite (map_snd_filter (ofOpenRule rid)), map_snd_indexed. lia.
  - intros [i t] Hin. apply filter_In in Hin. destruct Hin as [Hin _].
    apply indexed_in in Hin. unfold deficitAt. simpl. rewrite Hin. reflexivity.
Qed.

(** ** Closing and trimming the adjustable tasks of a rule *)

Lemma closeAllV_nth refs vs j :
  nth_error (closeAllV refs vs) j
  = if in_dec Nat.eq_dec j refs then option_map closeV (nth_error vs j) else nth_error vs j.
Proof.
  revert vs. induction refs as [|i r IH]; intros vs; [reflexivity|].
  unfold closeAllV. simpl fold_left. fold (closeAllV r (updateAt i closeV vs)). rewrite IH.
  destruct (Nat.eq_dec j i) as [->|Hn].
  - rewrite updateAt_nth_error.
    destruct (in_dec Nat.eq_dec i (i :: r)) as [_|Hx]; [|exfalso; apply Hx; left; reflexivity].
    destruct (in_dec Nat.eq_dec i r); [|reflexivity].
    destruct (nth_error vs i); reflexivity.
  - rewrite updateAt_nth_error_other by exact Hn.
    destruct (in_dec Nat.eq_dec j r) as [H1|H1];
      destruct (in_dec Nat.eq_dec j (i :: r)) as [H2|H2]; try reflexivity.
    + exfalso. apply H2. right. exact H1.
    + exfalso. destruct H2 as [H2|H2]; [congruence | contradiction].
Qed.

Lemma noAdjV_nth rid vs :
  noAdjV rid vs
  <-> forall j v, nth_error vs j = Some v -> v_rule v = rid -> v_class v <> Adjustable.
Proof.
  unfold noAdjV. rewrite Forall_forall. split.
  - intros H j v Hj. apply H. eapply nth_error_In, Hj.
  - intros H v Hin. apply In_nth_error in Hin. destruct Hin as [j Hj]. apply (H j v Hj).
Qed.

Lemma closeAllV_noAdj rid refs vs :
  (forall j, adjAt rid vs j -> In j refs) -> noAdjV rid (closeAllV refs vs).
Proof.
  intros H. apply noAdjV_nth. intros j v Hj Hr Hc. rewrite closeAllV_nth in Hj.
  destruct (in_dec Nat.eq_dec j refs) as [Hin|Hn].
  - destruct (nth_error vs j); [|discriminate]. inversion Hj; subst. discriminate.
  - apply Hn, H. exists v. auto.
Qed.

Lemma contrib_adj rid v : v_rule v = rid -> v_class v = Adjustable -> contrib rid v = v_deficit v.
Proof. intros Hr Hc. unfold contrib, isOpenV. rewrite Hr, Hc, String.eqb_refl. reflexivity. Qed.

Lemma trim_target rid l :
  NoDup l ->
  forall o vs,
    0 <= o -> (forall i, In i l -> adjAt rid vs i) ->
    let r := fold_left trimStepV l (o, vs) in
    0 <= fst r
    /\ openSumV rid (snd r) = openSumV rid vs - (o - fst r)
    /\ (forall j, ~ In j l -> nth_error (snd r) j = nth_error vs j)
    /\ (0 < fst r -> forall i, In i l -> exists v, nth_error (snd r) i = Some v
                                                   /\ v_class v = Done).
Proof.
  induction 1 as [|i l Hni Hnd IH]; intros o vs Ho Hadj.
  - cbv zeta. simpl. repeat split; auto; lia.
  - cbv zeta. simpl fold_left.
    remember (trimStepV (o, vs) i) as st1 eqn:Hst.
    unfold trimStepV in Hst. simpl fst in Hst. simpl snd in Hst.
    destruct (o <=? 0) eqn:Hle.
    { subst st1. rewrite trimStepV_stop by (simpl; apply Z.leb_le; exact Hle). simpl.
      apply Z.leb_le in Hle. repeat split; auto; lia. }
    apply Z.leb_gt in Hle.
    destruct (Hadj i (or_introl eq_refl)) as [v [Hv [Hr Hc]]]. rewrite Hv in Hst.
    destruct (v_deficit v <=? o) eqn:Hd; subst st1.
    + apply Z.leb_le in Hd.
      assert (Hadj1 : forall k, In k l -> adjAt rid (updateAt i closeV vs) k).
      { intros k Hk. destruct (Hadj k (or_intror Hk)) as [w Hw]. exists w.
        rewrite updateAt_nth_error_other; [exact Hw|]. intros ->. contradiction. }
      destruct (IH (o - v_deficit v) (updateAt i closeV vs) ltac:(lia) Hadj1)
        as (H1 & H2 & H3 & H4).
      split; [exact H1|]. split.
      { rewrite H2, (openSumV_updateAt rid closeV vs i v Hv), (contrib_adj rid v Hr Hc).
        unfold contrib at 1. simpl. rewrite andb_false_r. lia. }
      split.
      { intros j Hj. rewrite H3 by (intros Hx; apply Hj; right; exact Hx).
        apply updateAt_nth_error_other. intros ->. apply Hj. left. reflexivity. }
      intros Hpos k [<-|Hk]; [|apply H4; assumption].
      rewrite (H3 i Hni), updateAt_nth_error, Hv. exists (closeV v). split; reflexivity.
    + apply Z.leb_gt in Hd. rewrite trimStepV_stop by (simpl; lia). simpl fst. simpl snd.
      split; [lia|]. split.
      { rewrite (openSumV_updateAt rid _ vs i v Hv), (contrib_adj rid v Hr Hc).
        rewrite contrib_adj by assumption. simpl. lia. }
      split; [|lia].
      intros j Hj. apply updateAt_nth_error_other. intros ->. apply Hj. left. reflexivity.
Qed.

(** ** One rule's turn *)

Lemma adjAt_other rid other vs i : other <> rid -> adjAt other vs i -> otherAt rid vs i.
Proof.
  intros Hn [v [Hv [Hr _]]] w Hw. rewrite Hv in Hw. inversion Hw; subst. congruence.
Qed.

Lemma mergePlan_other zone rule e rid :
  taskIdsInSequence e -> rule_id rule <> rid ->
  let refs := openTaskRefs e (rule_id rule) in
  ridViews rid (views (exec (mergePlan zone rule refs (notInProgress e refs)) e))
  = ridViews rid (views e).
Proof.
  intros Hw Hn refs.
  destruct (adjustable_spec e (rule_id rule)) as [_ Hadj]. fold refs in Hadj.
  destruct (mergePlan_views zone rule refs (notInProgress e refs) e Hw)
    as [H | (keeper & extra & m & Ha & H)]; rewrite H; [reflexivity|].
  assert (Ho : forall i, In i (keeper :: extra) -> otherAt rid (views e) i).
  { intros i Hi. apply (adjAt_other rid (rule_id rule)); [exact Hn|].
    apply Hadj. rewrite Ha. exact Hi. }
  rewrite ridViews_closeAllV_other.
  - apply ridViews_updateAt_other; [reflexivity | apply Ho; left; reflexivity].
  - intros i Hi. apply otherAt_updateAt; [reflexivity | apply Ho; right; exact Hi].
Qed.

Lemma evaluateSalesRule_effect zone rule cur e :
  taskIdsInSequence e ->
  taskIdsInSequence (exec (evaluateSalesRule zone rule cur) e)
  /\ (openSumV (rule_id rule) (views (exec (evaluateSalesRule zone rule cur) e))
        <= Z.max 0 (rule_maxQty rule - cur)
      \/ noAdjV (rule_id rule) (views (exec (evaluateSalesRule zone rule cur) e)))
  /\ (forall rid, rule_id rule <> rid ->
        ridViews rid (views (exec (evaluateSalesRule zone rule cur) e))
        = ridViews rid (views e)).
Proof.
  intros Hw. unfold evaluateSalesRule. run. cbv zeta. run.
  pose proof (mergePlan_result zone rule e) as Hm. cbv zeta in Hm. rewrite Hm. clear Hm.
  pose proof (mergePlan_ids zone rule (openTaskRefs e (rule_id rule))
                (notInProgress e (openTaskRefs e (rule_id rule))) e Hw) as Hw1.
  pose proof (fun rid => mergePlan_other zone rule e rid Hw) as Ho1. cbv zeta in Ho1.
  set (e1 := exec (mergePlan _ _ _ _) e) in *. clearbody e1.
  cbv beta iota.
  destruct (adjustable_spec e1 (rule_id rule)) as [Hnd Hadj].
  set (adj := notInProgress e1 (openTaskRefs e1 (rule_id rule))) in *.
  set (rid := rule_id rule) in *.
  set (desired := Z.max 0 (rule_maxQty rule - cur)).
  match goal with |- taskIdsInSequence (exec ?c e1) /\ _ => set (rest := c) end.
  assert (Hgoal : wfV (views (exec rest e1))
                  /\ (openSumV rid (views (exec rest e1)) <= desired
                      \/ noAdjV rid (views (exec rest e1)))
                  /\ (forall other, rid <> other ->
                        ridViews other (views (exec rest e1)) = ridViews other (views e1))).
  2: { destruct Hgoal as (A & B & C). split; [apply wf_views, A|]. split; [exact B|].
       intros other Hn. rewrite C, Ho1; auto. }
  clear Ho1 Hw e. apply wf_views in Hw1 as Hwv1.
  assert (Hother : forall other i, rid <> other -> In i adj -> otherAt other (views e1) i).
  { intros other i Hn Hi. apply (adjAt_other other rid); [exact Hn | apply Hadj, Hi]. }
  unfold rest. clear rest.
  destruct (rule_maxQty rule <=? cur) eqn:Hmax.
  { rewrite (proj2 (closeAll_views "stock_recovered" adj e1 Hw1)).
    split; [apply wfV_closeAllV, Hwv1|]. split.
    - right. apply closeAllV_noAdj. intros j Hj. apply Hadj, Hj.
    - intros other Hn. apply ridViews_closeAllV_other. intros i Hi. apply Hother; assumption. }
  run. rewrite plannedQty_spec, openDeficit_views. fold rid. fold desired.
  set (planned := openSumV rid (views e1)).
  destruct (desired <? planned) eqn:Ht.
  - apply Z.ltb_lt in Ht. run. rewrite Z.sub_diag. change (Z.max 0 0 <=? 0) with true.
    assert (Hsame : views (exec (if cur <=? rule_minQty rule then ret tt else ret tt)
                             (exec (refreshSources rule (openTaskRefs e1 rid))
                                   (exec (trimPlan adj (planned - desired)) e1)))
                    = views (exec (trimPlan adj (planned - desired)) e1)).
    { destruct (cur <=? rule_minQty rule); run; apply refreshSources_views. }
    cbv beta iota. rewrite Hsame. clear Hsame.
    destruct (trimPlan_views adj (planned - desired) e1 Hw1) as (Hw2 & _ & Hv2).
    rewrite Hv2.
    assert (Hin : forall i, In i (List.rev adj) -> adjAt rid (views e1) i).
    { intros i Hi. apply Hadj, in_rev, Hi. }
    destruct (trim_target rid (List.rev adj) (NoDup_rev Hnd) (planned - desired) (views e1)
                ltac:(lia) Hin) as (H1 & H2 & H3 & H4).
    split; [rewrite <- Hv2; apply wf_views, Hw2|]. split.
    + destruct (Z_lt_le_dec 0 (fst (fold_left trimStepV (List.rev adj)
                                              (planned - desired, views e1)))) as [Hpos|Hz].
      * right. apply noAdjV_nth. intros j v Hj Hr Hc.
        destruct (in_dec Nat.eq_dec j (List.rev adj)) as [Hi|Hi].
        -- destruct (H4 Hpos j Hi) as [v' [Hv' Hd]]. congruence.
        -- rewrite (H3 j Hi) in Hj. apply Hi. apply -> in_rev. apply Hadj.
           exists v. auto.
      * left. rewrite H2. fold planned. lia.
    + intros other Hn. apply ridViews_trim_other. intros i Hi.
      apply Hother; [exact Hn | apply in_rev, Hi].
  - apply Z.ltb_ge in Ht. run.
    set (e2 := exec (refreshSources rule (openTaskRefs e1 rid)) e1).
    assert (Hv2 : views e2 = views e1) by apply refreshSources_views.
    assert (Hnone : wfV (views e2)
                    /\ (openSumV rid (views e2) <= desired \/ noAdjV rid (views e2))
                    /\ (forall other, rid <> other ->
                          ridViews other (views e2) = ridViews other (views e1))).
    { rewrite Hv2. split; [exact Hwv1|]. split; [left; fold planned; lia | reflexivity]. }
    destruct (cur <=? rule_minQty rule); [|exact Hnone].
    destruct (Z.max 0 (desired - planned) <=? 0) eqn:Hrem; [exact Hnone|].
    apply Z.leb_gt in Hrem.
    destruct (triggerPlan_views rule cur (Z.max 0 (desired - planned)) e2)
      as (ext & Hv & Hnew & Hwf & Hsum).
    fold rid in Hnew. rewrite Hv, Hv2 in *.
    split; [apply Hwf, Hwv1|]. split.
    + left. rewrite openSumV_app, (openSumV_new rid ext Hnew). fold planned.
      specialize (Hsum ltac:(lia)). lia.
    + intros other Hn. rewrite ridViews_app, (ridViews_new other rid ext Hn Hnew).
      apply app_nil_r.
Qed.

(** ** The whole evaluation of a sales location *)

Lemma getCurrentInventoryQty_plan e e' zoneId skuId source :
  planFrame e' = planFrame e ->
  getCurrentInventoryQty e' zoneId skuId source = getCurrentInventoryQty e zoneId skuId source.
Proof.
  intros H. unfold getCurrentInventoryQty.
  assert (Hs : snapshots e' = snapshots e) by (unfold planFrame in H; congruence).
  rewrite Hs. reflexivity.
Qed.

Lemma noAdjV_onlyInProgress e rid : noAdjV rid (views e) -> onlyInProgressOpen e rid.
Proof.
  unfold noAdjV, views. rewrite Forall_forall. intros H t Hin Hp.
  specialize (H (viewOf t) (in_map viewOf _ _ Hin)). unfold ofOpenRule in Hp.
  apply andb_prop in Hp. destruct Hp as [Hr Ho]. apply String.eqb_eq in Hr.
  specialize (H Hr). simpl in H. destruct (task_status t); simpl in *; congruence.
Qed.

Section SalesLoop.

Variables (zoneId : string) (zone : Zone).
Hypothesis Hsales : zone_isSalesLocation zone = true.

Let body := fun rule : ReplenishmentRule =>
  e <- get ;;
  let currentQty := getCurrentInventoryQty e zoneId (rule_skuId rule) (rule_source rule) in
  if negb (zone_isSalesLocation zone)
  then evaluateInboundReceivingNeed zone rule currentQty
  else evaluateSalesRule zone rule currentQty.

Let currentOf (e : Engine) (rule : ReplenishmentRule) : Z :=
  getCurrentInventoryQty e zoneId (rule_skuId rule) (rule_source rule).

Lemma salesLoop_effect l :
  forall e,
    taskIdsInSequence e ->
    taskIdsInSequence (exec (forEach l body) e)
    /\ planFrame (exec (forEach l body) e) = planFrame e
    /\ (forall rid, (forall r, In r l -> rule_id r <> rid) ->
          ridViews rid (views (exec (forEach l body) e)) = ridViews rid (views e))
    /\ (forall rule,
          In rule l -> (forall r, In r l -> rule_id r = rule_id rule -> r = rule) ->
          openSumV (rule_id rule) (views (exec (forEach l body) e))
            <= Z.max 0 (rule_maxQty rule - currentOf e rule)
          \/ noAdjV (rule_id rule) (views (exec (forEach l body) e))).
Proof.
  induction l as [|r l' IH]; intros e Hw.
  - simpl. repeat split; auto. intros rule [].
  - simpl forEach. rewrite exec_bind.
    assert (Hb : exec (body r) e = exec (evaluateSalesRule zone r (currentOf e r)) e).
    { unfold body. run. rewrite Hsales. reflexivity. }
    rewrite Hb. clear Hb.
    destruct (evaluateSalesRule_effect zone r (currentOf e r) e Hw) as (Hw1 & Hb1 & Ho1).
    pose proof (evaluateSalesRule_plan e zone r (currentOf e r) e eq_refl) as Hp1.
    cbv beta in Hp1.
    set (e1 := exec (evaluateSalesRule zone r (currentOf e r)) e) in *. clearbody e1.
    destruct (IH e1 Hw1) as (Hw2 & Hp2 & Ho2 & Ht2).
    split; [exact Hw2|]. split; [congruence|]. split.
    + intros rid Hn. rewrite Ho2 by (intros x Hx; apply Hn; right; exact Hx).
      apply Ho1, Hn. left. reflexivity.
    + intros rule Hin Hu.
      destruct (existsb (fun x => String.eqb (rule_id x) (rule_id rule)) l') eqn:Hex.
      * apply existsb_exists in Hex. destruct Hex as [x [Hx Hid]].
        apply String.eqb_eq in Hid.
        assert (x = rule) by (apply Hu; [right; exact Hx | exact Hid]). subst x.
        unfold currentOf. rewrite <- (getCurrentInventoryQty_plan e e1) by exact Hp1.
        apply Ht2; [exact Hx|]. intros y Hy. apply Hu. right. exact Hy.
      * assert (Hne : forall x, In x l' -> rule_id x <> rule_id rule).
        { intros x Hx Hid.
          assert (Ht : existsb (fun x => String.eqb (rule_id x) (rule_id rule)) l' = true).
          { apply existsb_exists. exists x. split; [exact Hx | apply String.eqb_eq, Hid]. }
          congruence. }
        assert (r = rule).
        { destruct Hin as [Hr|Hin]; [exact Hr|]. exfalso. apply (Hne rule Hin). reflexivity. }
        subst r. specialize (Ho2 (rule_id rule) Hne).
        rewrite <- (openSumV_rid _ (views (exec _ e1))), <- (noAdjV_rid _ (views (exec _ e1))).
        rewrite Ho2. rewrite openSumV_rid, noAdjV_rid. exact Hb1.
Qed.

End SalesLoop.

(** The bound, from any state whose task ids are in sequence. *)
Lemma evaluateMinMax_bound_from e zoneId zone rule :
  taskIdsInSequence e ->
  findZone e zoneId = Some zone ->
  zone_isSalesLocation zone = true ->
  In rule (activeRulesOf e zoneId) ->
  (forall r, In r (activeRulesOf e zoneId) -> rule_id r = rule_id rule -> r = rule) ->
  let e' := exec (evaluateMinMax zoneId) e in
  let current := getCurrentInventoryQty e' zoneId (rule_skuId rule) (rule_source rule) in
  In rule (activeRulesOf e' zoneId)
  /\ (openDeficit e' (rule_id rule) <= Z.max 0 (rule_maxQty rule - current)
      \/ onlyInProgressOpen e' (rule_id rule)).
Proof.
  intros Hw Hz Hs Hin Hu e' current.
  assert (He : e' = exec (forEach (activeRulesOf e zoneId)
                 (fun rule : ReplenishmentRule =>
                    e <- get ;;
                    let currentQty :=
                      getCurrentInventoryQty e zoneId (rule_skuId rule) (rule_source rule) in
                    if negb (zone_isSalesLocation zone)
                    then evaluateInboundReceivingNeed zone rule currentQty
                    else evaluateSalesRule zone rule currentQty)) e).
  { unfold e', evaluateMinMax. run. rewrite Hz. reflexivity. }
  destruct (salesLoop_effect zoneId zone Hs (activeRulesOf e zoneId) e Hw)
    as (_ & Hp & _ & Ht).
  rewrite <- He in Hp, Ht. specialize (Ht rule Hin Hu).
  assert (Hr : rules e' = rules e) by (unfold planFrame in Hp; congruence).
  split; [unfold activeRulesOf; rewrite Hr; exact Hin|].
  unfold current. rewrite (getCurrentInventoryQty_plan e e') by exact Hp.
  rewrite openDeficit_views.
  destruct Ht as [Ht|Ht]; [left; exact Ht | right; apply noAdjV_onlyInProgress, Ht].
Qed.

(** ** Task ids are given out in sequence *)

Lemma ids_same e e' : tasks e' = tasks e -> taskIdsInSequence e -> taskIdsInSequence e'.
Proof. unfold taskIdsInSequence. intros H. rewrite H. auto. Qed.

Lemma ids_updTask i f e :
  (forall t, task_id (f t) = task_id t) -> taskIdsInSequence e ->
  taskIdsInSequence (updTask i f e).
Proof.
  intros Hf Hw j t Hj. unfold updTask in Hj. simpl in Hj.
  destruct (Nat.eq_dec j i) as [->|Hn].
  - rewrite updateAt_nth_error in Hj. destruct (nth_error (tasks e) i) as [t0|] eqn:H0;
      [|discriminate]. inversion Hj; subst. rewrite Hf. apply Hw, H0.
  - rewrite updateAt_nth_error_other in Hj by exact Hn. apply Hw, Hj.
Qed.

Lemma ids_append e0 e task :
  taskIdsInSequence e0 ->
  task_id task = "task-" ++ showNat (List.length (tasks e0) + 1) ->
  taskIdsInSequence (set_tasks (tasks e0 ++ [task])%list e).
Proof.
  intros Hw Hid j t Hj. simpl in Hj.
  destruct (Nat.lt_ge_cases j (List.length (tasks e0))) as [Hlt|Hge].
  - rewrite nth_error_app1 in Hj by exact Hlt. apply Hw, Hj.
  - rewrite nth_error_app2 in Hj by exact Hge.
    destruct (j - List.length (tasks e0))%nat as [|k] eqn:Hk; simpl in Hj.
    + inversion Hj; subst. rewrite Hid. replace j with (List.length (tasks e0)) by lia.
      reflexivity.
    + destruct k; discriminate.
Qed.

Create HintDb taskids discriminated.

(** A write to a field other than [tasks], a task update that keeps the id,
    or a new task with the next id. *)
Ltac seq_leaf :=
  match goal with
  | H : taskIdsInSequence ?e |- taskIdsInSequence _ =>
      repeat match goal with
             | |- taskIdsInSequence (match ?x with _ => _ end) => destruct x
             end;
      solve [ exact H
            | apply (ids_same e); [reflexivity | exact H]
            | apply ids_updTask;
              [ intros; simpl;
                repeat match goal with
                       | |- context [if ?b then _ else _] => destruct b
                       end;
                reflexivity
              | exact H ]
            | apply (ids_append e); [exact H | reflexivity] ]
  end.

Ltac seq_auto := repeat first [ solve [eauto with taskids] | seq_leaf | pres_step ].

Lemma upsertSnapshot_seq z s q src c : preserves taskIdsInSequence (upsertSnapshot z s q src c).
Proof.
  unfold upsertSnapshot. apply preserves_modify. intros e H.
  destruct (_ && _); destruct (findIndex _ _); exact H.
Qed.

Lemma pushTaskAudit_seq a b c d : preserves taskIdsInSequence (pushTaskAudit a b c d).
Proof. unfold pushTaskAudit. seq_auto. Qed.
#[export] Hint Resolve upsertSnapshot_seq pushTaskAudit_seq : taskids.

Lemma autoAssignPendingTasks_seq at_ : preserves taskIdsInSequence (autoAssignPendingTasks at_).
Proof. unfold autoAssignPendingTasks, assignPendingTask. seq_auto. Qed.

Lemma autoAssignPendingReceivingOrders_seq at_ :
  preserves taskIdsInSequence (autoAssignPendingReceivingOrders at_).
Proof. unfold autoAssignPendingReceivingOrders. seq_auto. Qed.
#[export] Hint Resolve autoAssignPendingTasks_seq autoAssignPendingReceivingOrders_seq
  : taskids.

Lemma closeReplenishmentTask_seq t r : preserves taskIdsInSequence (closeReplenishmentTask t r).
Proof. unfold closeReplenishmentTask. seq_auto. Qed.

Lemma generateReplenishmentTask_seq rule d t s c :
  preserves taskIdsInSequence (generateReplenishmentTask rule d t s c).
Proof. intros e H. apply generateReplenishmentTask_ids, H. Qed.

Lemma createReceivingOrder_seq p : preserves taskIdsInSequence (createReceivingOrder p).
Proof. unfold createReceivingOrder. seq_auto. Qed.
#[export] Hint Resolve closeReplenishmentTask_seq generateReplenishmentTask_seq
  createReceivingOrder_seq : taskids.

Lemma evaluateInboundReceivingNeed_seq z r c :
  preserves taskIdsInSequence (evaluateInboundReceivingNeed z r c).
Proof. unfold evaluateInboundReceivingNeed. seq_auto. Qed.

Lemma evaluateSalesRule_seq z r c : preserves taskIdsInSequence (evaluateSalesRule z r c).
Proof. intros e H. apply (evaluateSalesRule_effect z r c e H). Qed.
#[export] Hint Resolve evaluateInboundReceivingNeed_seq evaluateSalesRule_seq : taskids.

Lemma evaluateMinMax_seq z : preserves taskIdsInSequence (evaluateMinMax z).
Proof. unfold evaluateMinMax. seq_auto. Qed.
#[export] Hint Resolve evaluateMinMax_seq : taskids.

Lemma calculateZoneInventory_seq zoneId :
  preserves taskIdsInSequence (calculateZoneInventory zoneId).
Proof. unfold calculateZoneInventory. seq_auto. Qed.

#[export] Hint Resolve calculateZoneInventory_seq : taskids.

Lemma applyPendingRFIDPicks_seq zoneId :
  preserves taskIdsInSequence (applyPendingRFIDPicks zoneId).
Proof. unfold applyPendingRFIDPicks. seq_auto. Qed.

#[export] Hint Resolve applyPendingRFIDPicks_seq : taskids.

Lemma ingestRFIDRead_seq event : preserves taskIdsInSequence (ingestRFIDRead event).
Proof. unfold ingestRFIDRead. seq_auto. Qed.

Lemma forceZoneSweep_seq z t : preserves taskIdsInSequence (forceZoneSweep z t).
Proof. unfold forceZoneSweep. seq_auto. Qed.

Lemma scanZone_seq z t : preserves taskIdsInSequence (scanZone z t).
Proof. unfold scanZone. seq_auto. Qed.

Lemma deductRFIDImmediate_seq z s q :
  preserves taskIdsInSequence (deductRFIDImmediate z s q).
Proof. unfold deductRFIDImmediate. seq_auto. Qed.

#[export] Hint Resolve deductRFIDImmediate_seq : taskids.

Lemma ingestSalesEvent_seq event : preserves taskIdsInSequence (ingestSalesEvent event).
Proof. unfold ingestSalesEvent. seq_auto. Qed.

#[export] Hint Resolve ingestRFIDRead_seq ingestSalesEvent_seq : taskids.

Lemma upsertCustomer_seq id name : preserves taskIdsInSequence (upsertCustomer id name).
Proof. unfold upsertCustomer. seq_auto. Qed.

#[export] Hint Resolve upsertCustomer_seq : taskids.

Lemma addCustomerItem_seq h p : preserves taskIdsInSequence (addCustomerItem h p).
Proof. unfold addCustomerItem. seq_auto. Qed.

Lemma createExternalRFIDForDestination_seq s d q a :
  preserves taskIdsInSequence (createExternalRFIDForDestination s d q a).
Proof. unfold createExternalRFIDForDestination. seq_auto. Qed.

Lemma restoreConsumedEpcs_seq b s z d a :
  preserves taskIdsInSequence (restoreConsumedEpcs b s z d a).
Proof. unfold restoreConsumedEpcs. seq_auto. Qed.

#[export] Hint Resolve createExternalRFIDForDestination_seq restoreConsumedEpcs_seq
  : taskids.

Lemma removeCustomerItem_seq b t : preserves taskIdsInSequence (removeCustomerItem b t).
Proof. unfold removeCustomerItem. seq_auto. Qed.

Lemma moveRFIDEpcs_seq s d k q a : preserves taskIdsInSequence (moveRFIDEpcs s d k q a).
Proof. unfold moveRFIDEpcs. seq_auto. Qed.

Lemma transferConsumedPendingEpcsToZone_seq b s d a :
  preserves taskIdsInSequence (transferConsumedPendingEpcsToZone b s d a).
Proof. unfold transferConsumedPendingEpcsToZone. seq_auto. Qed.

Lemma transferNonRfid_seq s d k q : preserves taskIdsInSequence (transferNonRfid s d k q).
Proof. unfold transferNonRfid. seq_auto. Qed.

Lemma applyTransferFromSource_seq s d k q :
  preserves taskIdsInSequence (applyTransferFromSource s d k q).
Proof. unfold applyTransferFromSource. seq_auto. Qed.

#[export] Hint Resolve moveRFIDEpcs_seq transferConsumedPendingEpcsToZone_seq
  transferNonRfid_seq applyTransferFromSource_seq : taskids.

Lemma createPersonalizationTask_seq d s q src p :
  preserves taskIdsInSequence (createPersonalizationTask d s q src p).
Proof. unfold createPersonalizationTask. seq_auto. Qed.

#[export] Hint Resolve createPersonalizationTask_seq : taskids.

Lemma routeToCashierStorage_seq i item src t :
  preserves taskIdsInSequence (routeToCashierStorage i item src t).
Proof. unfold routeToCashierStorage. seq_auto. Qed.

#[export] Hint Resolve routeToCashierStorage_seq : taskids.

Lemma processPersonalizationSale_seq i src t :
  preserves taskIdsInSequence (processPersonalizationSale i src t).
Proof. unfold processPersonalizationSale. seq_auto. Qed.

#[export] Hint Resolve processPersonalizationSale_seq : taskids.

Lemma checkoutItem_seq h t n i item :
  preserves taskIdsInSequence (checkoutItem h t n i item).
Proof. unfold checkoutItem. seq_auto. Qed.

#[export] Hint Resolve checkoutItem_seq : taskids.

Lemma checkoutCustomer_seq h c t : preserves taskIdsInSequence (checkoutCustomer h c t).
Proof. unfold checkoutCustomer. seq_auto. Qed.

Lemma tryFallbackSource_seq i d s q st c :
  preserves taskIdsInSequence (tryFallbackSource i d s q st c).
Proof. unfold tryFallbackSource. seq_auto. Qed.

#[export] Hint Resolve tryFallbackSource_seq : taskids.

Lemma attemptTransfers_seq i t q s : preserves taskIdsInSequence (attemptTransfers i t q s).
Proof. unfold attemptTransfers. seq_auto. Qed.

#[export] Hint Resolve attemptTransfers_seq : taskids.

Lemma confirmTask_seq t p : preserves taskIdsInSequence (confirmTask t p).
Proof. unfold confirmTask. seq_auto. Qed.

Lemma recalculateZonesDependingOnSource_seq s :
  preserves taskIdsInSequence (recalculateZonesDependingOnSource s).
Proof. unfold recalculateZonesDependingOnSource. seq_auto. Qed.

Lemma refreshOpenTaskSourceCandidates_seq :
  preserves taskIdsInSequence refreshOpenTaskSourceCandidates.
Proof. unfold refreshOpenTaskSourceCandidates. seq_auto. Qed.

#[export] Hint Resolve recalculateZonesDependingOnSource_seq
  refreshOpenTaskSourceCandidates_seq : taskids.

Lemma pushConfirmation_seq m : preserves taskIdsInSequence (pushConfirmation m).
Proof. unfold pushConfirmation. seq_auto. Qed.

#[export] Hint Resolve pushConfirmation_seq : taskids.

Lemma confirmReceivingOrder_seq o p :
  preserves taskIdsInSequence (confirmReceivingOrder o p).
Proof. unfold confirmReceivingOrder. seq_auto. Qed.

Lemma updateLocation_seq p : preserves taskIdsInSequence (updateLocation p).
Proof. unfold updateLocation. seq_auto. Qed.

Lemma createLocation_seq p : preserves taskIdsInSequence (createLocation p).
Proof. unfold createLocation. seq_auto. Qed.

Lemma reassign_seq : preserves taskIdsInSequence reassign.
Proof. unfold reassign. seq_auto. Qed.

#[export] Hint Resolve reassign_seq : taskids.

Lemma updateStaffShift_seq s b : preserves taskIdsInSequence (updateStaffShift s b).
Proof. unfold updateStaffShift. seq_auto. Qed.

Lemma updateStaffScope_seq s b z : preserves taskIdsInSequence (updateStaffScope s b z).
Proof. unfold updateStaffScope. seq_auto. Qed.

Lemma assignTask_seq t s a : preserves taskIdsInSequence (assignTask t s a).
Proof. unfold assignTask. seq_auto. Qed.

Lemma startTask_seq t s a : preserves taskIdsInSequence (startTask t s a).
Proof. unfold startTask. seq_auto. Qed.

Lemma upsertRule_seq p : preserves taskIdsInSequence (upsertRule p).
Proof. unfold upsertRule. seq_auto. Qed.

Lemma deleteRule_seq r : preserves taskIdsInSequence (deleteRule r).
Proof. unfold deleteRule. seq_auto. Qed.

Lemma getTasks_seq s : preserves taskIdsInSequence (getTasks s).
Proof. unfold getTasks. seq_auto. Qed.

Lemma getReceivingOrders_seq s : preserves taskIdsInSequence (getReceivingOrders s).
Proof. unfold getReceivingOrders. seq_auto. Qed.

Lemma seedDemoEvents_seq : preserves taskIdsInSequence seedDemoEvents.
Proof. unfold seedDemoEvents. seq_auto. Qed.

Lemma loadDemoStream_seq r s : preserves taskIdsInSequence (loadDemoStream r s).
Proof. unfold loadDemoStream. seq_auto. Qed.

#[export] Hint Resolve forceZoneSweep_seq scanZone_seq addCustomerItem_seq
  removeCustomerItem_seq checkoutCustomer_seq confirmTask_seq
  confirmReceivingOrder_seq updateLocation_seq createLocation_seq
  updateStaffShift_seq updateStaffScope_seq assignTask_seq startTask_seq
  upsertRule_seq deleteRule_seq getTasks_seq getReceivingOrders_seq
  seedDemoEvents_seq loadDemoStream_seq : taskids.

Lemma run_seq (c : Command) : preserves taskIdsInSequence (run c).
Proof. destruct c; unfold run; seq_auto. Qed.

(** Every state the engine reaches from its constructor has its task ids in
    sequence: the constructor starts without tasks. *)
Lemma reachable_ids dataset cs : taskIdsInSequence (runAll cs (constructor dataset)).
Proof.
  assert (H0 : taskIdsInSequence (constructor dataset)).
  { intros i t Hi. destruct i; discriminate. }
  revert H0. generalize (constructor dataset).
  induction cs as [|c r IH]; intros e He; simpl; [exact He|].
  apply IH, run_seq, He.
Qed.

(** C4, amended: in every state the engine reaches from its constructor,
    after the min/max evaluation of a sales location every active rule of
    the location is in one of two situations. Either the deficits of its
    open tasks add up to at most [max(0, max - current)], or every task of
    the rule that is still open has been started: started tasks are never
    trimmed. The rule's id is assumed to be its own among the active rules
    of the location. *)
Theorem evaluateMinMax_open_deficit_bound dataset cs zoneId zone rule :
  let e := runAll cs (constructor dataset) in
  findZone e zoneId = Some zone ->
  zone_isSalesLocation zone = true ->
  In rule (activeRulesOf e zoneId) ->
  (forall r, In r (activeRulesOf e zoneId) -> rule_id r = rule_id rule -> r = rule) ->
  let e' := exec (evaluateMinMax zoneId) e in
  let current := getCurrentInventoryQty e' zoneId (rule_skuId rule) (rule_source rule) in
  In rule (activeRulesOf e' zoneId)
  /\ (openDeficit e' (rule_id rule) <= Z.max 0 (rule_maxQty rule - current)
      \/ onlyInProgressOpen e' (rule_id rule)).
Proof.
  intros e Hz Hs Hin Hu.
  exact (evaluateMinMax_bound_from e zoneId zone rule (reachable_ids dataset cs) Hz Hs Hin Hu).
Qed.

Lemma evaluateMinMax_open_deficit_bound_witness :
  let e' := exec (evaluateMinMax "shelf-a") returnAfterStart in
  In demoRule (activeRulesOf e' "shelf-a")
  /\ (openDeficit e' (rule_id demoRule)
        <= Z.max 0 (rule_maxQty demoRule
                    - getCurrentInventoryQty e' "shelf-a" (rule_skuId demoRule)
                                             (rule_source demoRule))
      \/ onlyInProgressOpen e' (rule_id demoRule)).
Proof.
  apply (evaluateMinMax_open_deficit_bound demoDataset returnAfterStartRun "shelf-a"
           demoShelf demoRule).
  - vm_compute. reflexivity.
  - reflexivity.
  - vm_compute. left. reflexivity.
  - intros r Hr _.
    replace (activeRulesOf (runAll returnAfterStartRun (constructor demoDataset)) "shelf-a")
      with [demoRule] in Hr by (vm_compute; reflexivity).
    destruct Hr as [<-|[]]. reflexivity.
Defined.

(** C4, as stated, fails: a sale of 6 scarves leaves 1 on the shelf and
    raises a task for 7; the associate starts the task; one scarf comes
    back. The shelf now holds 2, which is the rule's minimum, so the bound
    of the claim is 8 - 2 = 6, but the started task still carries its
    deficit of 7 after the evaluation. *)
Lemma started_task_exceeds_bound :
  let e' := exec (evaluateMinMax "shelf-a") returnAfterStart in
  let current :=
    getCurrentInventoryQty e' "shelf-a" (rule_skuId demoRule) (rule_source demoRule) in
  findZone e' "shelf-a" = Some demoShelf
  /\ zone_isSalesLocation demoShelf = true
  /\ In demoRule (activeRulesOf e' "shelf-a")
  /\ current <= rule_minQty demoRule
  /\ ~ openDeficit e' (rule_id demoRule) <= rule_maxQty demoRule - current.
Proof.
  cbv zeta. split; [vm_compute; reflexivity|]. split; [reflexivity|].
  split; [vm_compute; left; reflexivity|].
  split; [vm_compute; discriminate|].
  vm_compute. intros H. apply H. reflexivity.
Qed.

(** ** The logs only grow *)

Lemma logsExtend_refl e : logsExtend e e.
Proof.
  repeat split; try (exists []; rewrite app_nil_r; reflexivity). exists []. reflexivity.
Qed.

Lemma logsExtend_trans e0 e1 e2 : logsExtend e0 e1 -> logsExtend e1 e2 -> logsExtend e0 e2.
Proof.
  intros (A & B & C & D) (A' & B' & C' & D').
  destruct A as [a A], B as [b B], C as [c C], D as [d D].
  destruct A' as [a' A'], B' as [b' B'], C' as [c' C'], D' as [d' D'].
  repeat split.
  - exists (a ++ a')%list. rewrite A', A, app_assoc. reflexivity.
  - exists (b ++ b')%list. rewrite B', B, app_assoc. reflexivity.
  - exists (c ++ c')%list. rewrite C', C, app_assoc. reflexivity.
  - exists (d' ++ d)%list. rewrite D', D, app_assoc. reflexivity.
Qed.

Create HintDb logs discriminated.

(** One log of the four: untouched, or with entries added on the right side. *)
Ltac log_component :=
  first
    [ eexists; eassumption
    | match goal with
      | H : ?x = (?l0 ++ ?s)%list |- exists s', (?x ++ ?y)%list = (?l0 ++ s')%list =>
          exists (s ++ y)%list; rewrite H, app_assoc; reflexivity
      | H : ?x = (?s ++ ?l0)%list |- exists s', (?a :: ?x) = (s' ++ ?l0)%list =>
          exists (a :: s); rewrite H; reflexivity
      end ].

Ltac logs_leaf :=
  match goal with
  | |- logsExtend _ _ =>
      repeat match goal with
             | |- logsExtend _ (match ?x with _ => _ end) => destruct x
             end;
      unfold logsExtend, updTask, updOrder, updItem, updZone, updRule, updStaff,
        deletePresence, rebindPresence, refreshPresence in *;
      cbv beta; simpl;
      repeat match goal with
             | H : _ /\ _ |- _ => destruct H
             end;
      repeat match goal with
             | H : exists _, _ |- _ => destruct H
             end;
      solve [ repeat split; log_component ]
  end.

Ltac logs_auto := repeat first [ solve [eauto with logs] | logs_leaf | pres_step ].

Section LogsGrow.

Variable e0 : Engine.

Lemma upsertSnapshot_logs z s q src c :
  preserves (logsExtend e0) (upsertSnapshot z s q src c).
Proof.
  unfold upsertSnapshot. apply preserves_modify. intros e H.
  destruct (_ && _); destruct (findIndex _ _); exact H.
Qed.
#[local] Hint Resolve upsertSnapshot_logs : logs.

Lemma pushTaskAudit_logs a b c d : preserves (logsExtend e0) (pushTaskAudit a b c d).
Proof. unfold pushTaskAudit. logs_auto. Qed.
#[local] Hint Resolve pushTaskAudit_logs : logs.

Lemma autoAssignPendingTasks_logs at_ : preserves (logsExtend e0) (autoAssignPendingTasks at_).
Proof. unfold autoAssignPendingTasks, assignPendingTask. logs_auto. Qed.
#[local] Hint Resolve autoAssignPendingTasks_logs : logs.

Lemma autoAssignPendingReceivingOrders_logs at_ :
  preserves (logsExtend e0) (autoAssignPendingReceivingOrders at_).
Proof. unfold autoAssignPendingReceivingOrders. logs_auto. Qed.
#[local] Hint Resolve autoAssignPendingReceivingOrders_logs : logs.

Lemma closeReplenishmentTask_logs t r : preserves (logsExtend e0) (closeReplenishmentTask t r).
Proof. unfold closeReplenishmentTask. logs_auto. Qed.
#[local] Hint Resolve closeReplenishmentTask_logs : logs.

Lemma generateReplenishmentTask_logs rule d t s c :
  preserves (logsExtend e0) (generateReplenishmentTask rule d t s c).
Proof. unfold generateReplenishmentTask. logs_auto. Qed.
#[local] Hint Resolve generateReplenishmentTask_logs : logs.

Lemma createReceivingOrder_logs p : preserves (logsExtend e0) (createReceivingOrder p).
Proof. unfold createReceivingOrder. logs_auto. Qed.
#[local] Hint Resolve createReceivingOrder_logs : logs.

Lemma evaluateInboundReceivingNeed_logs z r c :
  preserves (logsExtend e0) (evaluateInboundReceivingNeed z r c).
Proof. unfold evaluateInboundReceivingNeed. logs_auto. Qed.
#[local] Hint Resolve evaluateInboundReceivingNeed_logs : logs.

Lemma mergePlan_logs z r o a : preserves (logsExtend e0) (mergePlan z r o a).
Proof. unfold mergePlan. logs_auto. Qed.
#[local] Hint Resolve mergePlan_logs : logs.

Lemma trimPlan_logs a o : preserves (logsExtend e0) (trimPlan a o).
Proof. unfold trimPlan. logs_auto. Qed.
#[local] Hint Resolve trimPlan_logs : logs.

Lemma refreshSources_logs r o : preserves (logsExtend e0) (refreshSources r o).
Proof. unfold refreshSources. logs_auto. Qed.
#[local] Hint Resolve refreshSources_logs : logs.

Lemma triggerPlan_logs rule c r : preserves (logsExtend e0) (triggerPlan rule c r).
Proof. unfold triggerPlan. logs_auto. Qed.
#[local] Hint Resolve triggerPlan_logs : logs.

Lemma evaluateSalesRule_logs z r c : preserves (logsExtend e0) (evaluateSalesRule z r c).
Proof. unfold evaluateSalesRule. logs_auto. Qed.
#[local] Hint Resolve evaluateSalesRule_logs : logs.

Lemma evaluateMinMax_logs z : preserves (logsExtend e0) (evaluateMinMax z).
Proof. unfold evaluateMinMax. logs_auto. Qed.
#[local] Hint Resolve evaluateMinMax_logs : logs.

Lemma calculateZoneInventory_logs z : preserves (logsExtend e0) (calculateZoneInventory z).
Proof. unfold calculateZoneInventory. logs_auto. Qed.
#[local] Hint Resolve calculateZoneInventory_logs : logs.

Lemma applyPendingRFIDPicks_logs z : preserves (logsExtend e0) (applyPendingRFIDPicks z).
Proof. unfold applyPendingRFIDPicks. logs_auto. Qed.
#[local] Hint Resolve applyPendingRFIDPicks_logs : logs.

Lemma ingestRFIDRead_logs event : preserves (logsExtend e0) (ingestRFIDRead event).
Proof. unfold ingestRFIDRead. logs_auto. Qed.
#[local] Hint Resolve ingestRFIDRead_logs : logs.

Lemma forceZoneSweep_logs z t : preserves (logsExtend e0) (forceZoneSweep z t).
Proof. unfold forceZoneSweep. logs_auto. Qed.
#[local] Hint Resolve forceZoneSweep_logs : logs.

Lemma scanZone_logs z t : preserves (logsExtend e0) (scanZone z t).
Proof. unfold scanZone. logs_auto. Qed.
#[local] Hint Resolve scanZone_logs : logs.

Lemma deductRFIDImmediate_logs z s q : preserves (logsExtend e0) (deductRFIDImmediate z s q).
Proof. unfold deductRFIDImmediate. logs_auto. Qed.
#[local] Hint Resolve deductRFIDImmediate_logs : logs.

Lemma ingestSalesEvent_logs event : preserves (logsExtend e0) (ingestSalesEvent event).
Proof. unfold ingestSalesEvent. logs_auto. Qed.
#[local] Hint Resolve ingestSalesEvent_logs : logs.

Lemma upsertCustomer_logs id name : preserves (logsExtend e0) (upsertCustomer id name).
Proof. unfold upsertCustomer. logs_auto. Qed.
#[local] Hint Resolve upsertCustomer_logs : logs.

Lemma addCustomerItem_logs h p : preserves (logsExtend e0) (addCustomerItem h p).
Proof. unfold addCustomerItem. logs_auto. Qed.
#[local] Hint Resolve addCustomerItem_logs : logs.

Lemma createExternalRFIDForDestination_logs s d q a :
  preserves (logsExtend e0) (createExternalRFIDForDestination s d q a).
Proof. unfold createExternalRFIDForDestination. logs_auto. Qed.
#[local] Hint Resolve createExternalRFIDForDestination_logs : logs.

Lemma restoreConsumedEpcs_logs b s z d a :
  preserves (logsExtend e0) (restoreConsumedEpcs b s z d a).
Proof. unfold restoreConsumedEpcs. logs_auto. Qed.
#[local] Hint Resolve restoreConsumedEpcs_logs : logs.

Lemma removeCustomerItem_logs b t : preserves (logsExtend e0) (removeCustomerItem b t).
Proof. unfold removeCustomerItem. logs_auto. Qed.
#[local] Hint Resolve removeCustomerItem_logs : logs.

Lemma moveRFIDEpcs_logs s d k q a : preserves (logsExtend e0) (moveRFIDEpcs s d k q a).
Proof. unfold moveRFIDEpcs. logs_auto. Qed.
#[local] Hint Resolve moveRFIDEpcs_logs : logs.

Lemma transferConsumedPendingEpcsToZone_logs b s d a :
  preserves (logsExtend e0) (transferConsumedPendingEpcsToZone b s d a).
Proof. unfold transferConsumedPendingEpcsToZone. logs_auto. Qed.
#[local] Hint Resolve transferConsumedPendingEpcsToZone_logs : logs.

Lemma transferNonRfid_logs s d k q : preserves (logsExtend e0) (transferNonRfid s d k q).
Proof. unfold transferNonRfid. logs_auto. Qed.
#[local] Hint Resolve transferNonRfid_logs : logs.

Lemma applyTransferFromSource_logs s d k q :
  preserves (logsExtend e0) (applyTransferFromSource s d k q).
Proof. unfold applyTransferFromSource. logs_auto. Qed.
#[local] Hint Resolve applyTransferFromSource_logs : logs.

Lemma createPersonalizationTask_logs d s q src p :
  preserves (logsExtend e0) (createPersonalizationTask d s q src p).
Proof. unfold createPersonalizationTask. logs_auto. Qed.
#[local] Hint Resolve createPersonalizationTask_logs : logs.

Lemma routeToCashierStorage_logs n item src t :
  preserves (logsExtend e0) (routeToCashierStorage n item src t).
Proof. unfold routeToCashierStorage. logs_auto. Qed.
#[local] Hint Resolve routeToCashierStorage_logs : logs.

Lemma processPersonalizationSale_logs n src t :
  preserves (logsExtend e0) (processPersonalizationSale n src t).
Proof. unfold processPersonalizationSale. logs_auto. Qed.
#[local] Hint Resolve processPersonalizationSale_logs : logs.

Lemma checkoutItem_logs h t n k item : preserves (logsExtend e0) (checkoutItem h t n k item).
Proof. unfold checkoutItem. logs_auto. Qed.
#[local] Hint Resolve checkoutItem_logs : logs.

Lemma checkoutCustomer_logs h c t : preserves (logsExtend e0) (checkoutCustomer h c t).
Proof. unfold checkoutCustomer. logs_auto. Qed.
#[local] Hint Resolve checkoutCustomer_logs : logs.

Lemma tryFallbackSource_logs n d s q st c :
  preserves (logsExtend e0) (tryFallbackSource n d s q st c).
Proof. unfold tryFallbackSource. logs_auto. Qed.
#[local] Hint Resolve tryFallbackSource_logs : logs.

Lemma attemptTransfers_logs n t q s : preserves (logsExtend e0) (attemptTransfers n t q s).
Proof. unfold attemptTransfers. logs_auto. Qed.
#[local] Hint Resolve attemptTransfers_logs : logs.

Lemma confirmTask_logs t p : preserves (logsExtend e0) (confirmTask t p).
Proof. unfold confirmTask. logs_auto. Qed.
#[local] Hint Resolve confirmTask_logs : logs.

Lemma recalculateZonesDependingOnSource_logs s :
  preserves (logsExtend e0) (recalculateZonesDependingOnSource s).
Proof. unfold recalculateZonesDependingOnSource. logs_auto. Qed.
#[local] Hint Resolve recalculateZonesDependingOnSource_logs : logs.

Lemma refreshOpenTaskSourceCandidates_logs :
  preserves (logsExtend e0) (refreshOpenTaskSourceCandidates).
Proof. unfold refreshOpenTaskSourceCandidates. logs_auto. Qed.
#[local] Hint Resolve refreshOpenTaskSourceCandidates_logs : logs.

Lemma pushConfirmation_logs m : preserves (logsExtend e0) (pushConfirmation m).
Proof. unfold pushConfirmation. logs_auto. Qed.
#[local] Hint Resolve pushConfirmation_logs : logs.

Lemma confirmReceivingOrder_logs o p : preserves (logsExtend e0) (confirmReceivingOrder o p).
Proof. unfold confirmReceivingOrder. logs_auto. Qed.
#[local] Hint Resolve confirmReceivingOrder_logs : logs.

Lemma updateLocation_logs p : preserves (logsExtend e0) (updateLocation p).
Proof. unfold updateLocation. logs_auto. Qed.
#[local] Hint Resolve updateLocation_logs : logs.

Lemma createLocation_logs p : preserves (logsExtend e0) (createLocation p).
Proof. unfold createLocation. logs_auto. Qed.
#[local] Hint Resolve createLocation_logs : logs.

Lemma reassign_logs : preserves (logsExtend e0) (reassign).
Proof. unfold reassign. logs_auto. Qed.
#[local] Hint Resolve reassign_logs : logs.

Lemma updateStaffShift_logs s b : preserves (logsExtend e0) (updateStaffShift s b).
Proof. unfold updateStaffShift. logs_auto. Qed.
#[local] Hint Resolve updateStaffShift_logs : logs.

Lemma updateStaffScope_logs s b z : preserves (logsExtend e0) (updateStaffScope s b z).
Proof. unfold updateStaffScope. logs_auto. Qed.
#[local] Hint Resolve updateStaffScope_logs : logs.

Lemma assignTask_logs t s a : preserves (logsExtend e0) (assignTask t s a).
Proof. unfold assignTask. logs_auto. Qed.
#[local] Hint Resolve assignTask_logs : logs.

Lemma startTask_logs t s a : preserves (logsExtend e0) (startTask t s a).
Proof. unfold startTask. logs_auto. Qed.
#[local] Hint Resolve startTask_logs : logs.

Lemma upsertRule_logs p : preserves (logsExtend e0) (upsertRule p).
Proof. unfold upsertRule. logs_auto. Qed.
#[local] Hint Resolve upsertRule_logs : logs.

Lemma deleteRule_logs r : preserves (logsExtend e0) (deleteRule r).
Proof. unfold deleteRule. logs_auto. Qed.
#[local] Hint Resolve deleteRule_logs : logs.

Lemma getTasks_logs s : preserves (logsExtend e0) (getTasks s).
Proof. unfold getTasks. logs_auto. Qed.
#[local] Hint Resolve getTasks_logs : logs.

Lemma getReceivingOrders_logs s : preserves (logsExtend e0) (getReceivingOrders s).
Proof. unfold getReceivingOrders. logs_auto. Qed.
#[local] Hint Resolve getReceivingOrders_logs : logs.

Lemma seedDemoEvents_logs : preserves (logsExtend e0) (seedDemoEvents).
Proof. unfold seedDemoEvents. logs_auto. Qed.
#[local] Hint Resolve seedDemoEvents_logs : logs.

Lemma loadDemoStream_logs r s : preserves (logsExtend e0) (loadDemoStream r s).
Proof. unfold loadDemoStream. logs_auto. Qed.
#[local] Hint Resolve loadDemoStream_logs : logs.

Lemma run_logs (c : Command) : preserves (logsExtend e0) (run c).
Proof. destruct c; unfold run; logs_auto. Qed.

End LogsGrow.

(** X1. No command rewrites history: after any run of commands the sales
    log, the read log and the confirmation log are the ones before with
    entries added at the end, and the audit log is the one before with
    entries added at the front. *)
Theorem logs_only_grow (cs : list Command) (e : Engine) : logsExtend e (runAll cs e).
Proof.
  revert e. induction cs as [|c r IH]; intros e; simpl; [apply logsExtend_refl|].
  eapply logsExtend_trans; [|apply IH]. apply (run_logs e c e), logsExtend_refl.
Qed.

(** ** Tasks keep their identity, closed tasks their closure *)

Lemma frozen_same i t0 e e' : tasks e' = tasks e -> frozenAt i t0 e -> frozenAt i t0 e'.
Proof. unfold frozenAt. intros H. rewrite H. auto. Qed.

(** A write to a task that was open in a state [e0] where position [i] was
    already frozen: if [t0] is closed the write is to another position. *)
Lemma frozen_updTask_guard i t0 e0 j f task e :
  (forall t, taskKey (f t) = taskKey t) ->
  frozenAt i t0 e0 -> nth_error (tasks e0) j = Some task ->
  taskIsOpen (task_status task) = true ->
  frozenAt i t0 e -> frozenAt i t0 (updTask j f e).
Proof.
  intros Hf (t1 & Ht1 & Hk1 & Hc1) Hj Ho (t & Ht & Hk & Hc). unfold frozenAt, updTask. simpl.
  destruct (Nat.eq_dec i j) as [->|Hn].
  - exists (f t). rewrite updateAt_nth_error, Ht. split; [reflexivity|].
    split; [rewrite Hf; exact Hk|]. intros Hcl. exfalso.
    rewrite Hj in Ht1. inversion Ht1; subst t1. specialize (Hc1 Hcl).
    subst task. congruence.
  - exists t. rewrite updateAt_nth_error_other by exact Hn. auto.
Qed.

Lemma frozen_append i t0 e0 e task :
  frozenAt i t0 e0 -> frozenAt i t0 (set_tasks (tasks e0 ++ [task])%list e).
Proof.
  intros (t & Ht & Hk & Hc). exists t. simpl. split; [|auto].
  rewrite nth_error_app1; [exact Ht|]. apply nth_error_Some. congruence.
Qed.

Lemma preserves_forTasks_here I refs (body : nat -> ReplenishmentTask -> M unit) :
  (forall i t e0, I e0 -> nth_error (tasks e0) i = Some t -> preserves I (body i t)) ->
  preserves I (forTasks refs body).
Proof.
  intros Hb. unfold forTasks. apply preserves_forEach. intros i.
  apply preserves_bind_get_here. intros e0 H0.
  destruct (nth_error (tasks e0) i) as [t|] eqn:Hi; [|exact H0].
  apply (Hb i t e0 H0 Hi e0 H0).
Qed.

Lemma Forall2_nth_error_l {A B} (R : A -> B -> Prop) l l' j x :
  Forall2 R l l' -> nth_error l j = Some x -> exists y, nth_error l' j = Some y /\ R x y.
Proof.
  intros H. revert j. induction H as [|a b l l' Hab H IH]; intros j Hj.
  - destruct j; discriminate.
  - destruct j; simpl in *.
    + inversion Hj; subst. exists b. auto.
    + apply IH, Hj.
Qed.

Lemma autoAssignPendingTasks_frozen i t0 at_ :
  preserves (frozenAt i t0) (autoAssignPendingTasks at_).
Proof.
  intros e (t & Ht & Hk & Hc).
  pose proof (autoAssignPendingTasks_bumped at_ e) as Hb.
  destruct (Forall2_nth_error_l _ _ _ _ _ Hb Ht) as (t' & Ht' & Hbt).
  exists t'. split; [exact Ht'|].
  destruct Hbt as [-> | [Ha (a & s & u & ->)]]; [auto|].
  split; [exact Hk|]. intros Hcl. exfalso. specialize (Hc Hcl).
  subst t. destruct (task_status t0); simpl in *; congruence.
Qed.

(** A write to a position other than [i] whenever [t0] is closed. *)
Lemma frozen_updTask_away i t0 j f e :
  (forall t, taskKey (f t) = taskKey t) ->
  (taskIsOpen (task_status t0) = false -> j <> i) ->
  frozenAt i t0 e -> frozenAt i t0 (updTask j f e).
Proof.
  intros Hf Hj (t & Ht & Hk & Hc). unfold frozenAt, updTask. simpl.
  destruct (Nat.eq_dec i j) as [->|Hn].
  - exists (f t). rewrite updateAt_nth_error, Ht. split; [reflexivity|].
    split; [rewrite Hf; exact Hk|]. intros Hcl. destruct (Hj Hcl eq_refl).
  - exists t. rewrite updateAt_nth_error_other by exact Hn. auto.
Qed.

Lemma preserves_foldM_in {A S} I (l : list A) (s : S) (body : S -> A -> M S) :
  (forall s x, In x l -> preserves I (body s x)) -> preserves I (foldM l s body).
Proof.
  revert s. induction l as [|x r IH]; intros s Hb; simpl.
  - apply preserves_ret.
  - apply preserves_bind; [apply Hb; left; reflexivity|].
    intros s'. apply IH. intros s0 y Hy. apply Hb. right. exact Hy.
Qed.

Lemma preserves_forTasks_in I refs (body : nat -> ReplenishmentTask -> M unit) :
  (forall i t, In i refs -> preserves I (body i t)) -> preserves I (forTasks refs body).
Proof.
  unfold forTasks. induction refs as [|x r IH]; intros Hb; simpl.
  - apply preserves_ret.
  - apply preserves_bind.
    + apply preserves_bind_get. intros e0 _.
      destruct (nth_error (tasks e0) x); [apply Hb; left; reflexivity | apply preserves_ret].
    + intros _. apply IH. intros j t Hj. apply Hb. right. exact Hj.
Qed.

(** A closed task is not among the open tasks of a rule. *)
Lemma frozen_not_open i t0 e rid :
  frozenAt i t0 e -> taskIsOpen (task_status t0) = false -> ~ In i (openTaskRefs e rid).
Proof.
  intros (t & Ht & _ & Hc) Hcl Hin. apply openTaskRefs_in in Hin.
  destruct Hin as [t' [Ht' Ho]]. rewrite Ht in Ht'. inversion Ht'; subst t'.
  rewrite (Hc Hcl) in Ho. unfold ofOpenRule in Ho. rewrite Hcl, andb_false_r in Ho.
  discriminate.
Qed.

Lemma frozen_found_open i t0 e0 id j task :
  frozenAt i t0 e0 -> findTask e0 id = Some (j, task) ->
  taskIsOpen (task_status task) = true ->
  taskIsOpen (task_status t0) = false -> j <> i.
Proof.
  intros (t & Ht & _ & Hc) Hf Ho Hcl ->.
  apply findTask_some in Hf. destruct Hf as [Hj _]. rewrite Ht in Hj.
  inversion Hj; subst task. rewrite (Hc Hcl) in Ho. congruence.
Qed.

Create HintDb frozen discriminated.

Ltac keeps_fields :=
  intros; simpl;
  repeat match goal with
         | |- context [if ?b then _ else _] => destruct b
         | |- context [match ?x with _ => _ end] => destruct x
         end;
  repeat split; reflexivity.

Ltac task_is_open :=
  match goal with
  | |- taskIsOpen (task_status ?t) = true =>
      destruct (task_status t); simpl in *; congruence
  end.

(** A write to a field other than [tasks]; a write to a task that keeps the
    frozen fields; a new task; a write that closes, starts or assigns a task
    found open. *)
Ltac frozen_leaf :=
  match goal with
  | H : frozenAt ?i ?t0 ?e |- frozenAt ?i ?t0 _ =>
      repeat match goal with
             | |- frozenAt _ _ (match ?x with _ => _ end) => destruct x
             end;
      solve [ exact H
            | apply (frozen_same i t0 e); [reflexivity | exact H]
            | apply (frozen_append i t0 e); exact H
            | match goal with
              | H0 : frozenAt i t0 ?e0, Hn : nth_error (tasks ?e0) ?j = Some ?task
                |- frozenAt i t0 (updTask ?j _ _) =>
                  apply (frozen_updTask_guard i t0 e0 j _ task);
                  [keeps_fields | exact H0 | exact Hn | task_is_open | assumption]
              | H0 : frozenAt i t0 ?e0, Hf : findTask ?e0 _ = Some (?j, ?task)
                |- frozenAt i t0 (updTask ?j _ _) =>
                  apply (frozen_updTask_guard i t0 e0 j _ task);
                  [keeps_fields | exact H0 | exact (proj1 (findTask_some _ _ _ _ Hf))
                  | task_is_open | assumption]
              end ]
  end.

Ltac frozen_step :=
  lazymatch goal with
  | |- preserves _ (forTasks _ _) => apply preserves_forTasks_here; intros ? ? ? ? ?
  | _ => pres_step
  end.

Ltac frozen_auto := repeat first [ solve [eauto with frozen] | frozen_leaf | frozen_step ].

Section FrozenTasks.

Variables (i : nat) (t0 : ReplenishmentTask).

Lemma upsertSnapshot_frozen z s q src c :
  preserves (frozenAt i t0) (upsertSnapshot z s q src c).
Proof.
  unfold upsertSnapshot. apply preserves_modify. intros e H.
  destruct (_ && _); destruct (findIndex _ _); exact H.
Qed.
#[local] Hint Resolve upsertSnapshot_frozen : frozen.

Lemma pushTaskAudit_frz a b c d : preserves (frozenAt i t0) (pushTaskAudit a b c d).
Proof. unfold pushTaskAudit. frozen_auto. Qed.
#[local] Hint Resolve pushTaskAudit_frz : frozen.

Lemma autoAssignPendingTasks_frz at_ : preserves (frozenAt i t0) (autoAssignPendingTasks at_).
Proof. apply autoAssignPendingTasks_frozen. Qed.
#[local] Hint Resolve autoAssignPendingTasks_frz : frozen.

Lemma autoAssignPendingReceivingOrders_frz at_ :
  preserves (frozenAt i t0) (autoAssignPendingReceivingOrders at_).
Proof. unfold autoAssignPendingReceivingOrders. frozen_auto. Qed.
#[local] Hint Resolve autoAssignPendingReceivingOrders_frz : frozen.

Lemma closeReplenishmentTask_frz t r : preserves (frozenAt i t0) (closeReplenishmentTask t r).
Proof. unfold closeReplenishmentTask. frozen_auto. Qed.
#[local] Hint Resolve closeReplenishmentTask_frz : frozen.

Lemma generateReplenishmentTask_frz rule d t s c :
  preserves (frozenAt i t0) (generateReplenishmentTask rule d t s c).
Proof. unfold generateReplenishmentTask. frozen_auto. Qed.
#[local] Hint Resolve generateReplenishmentTask_frz : frozen.

Lemma createReceivingOrder_frz p : preserves (frozenAt i t0) (createReceivingOrder p).
Proof. unfold createReceivingOrder. frozen_auto. Qed.
#[local] Hint Resolve createReceivingOrder_frz : frozen.

Lemma evaluateInboundReceivingNeed_frz z r c :
  preserves (frozenAt i t0) (evaluateInboundReceivingNeed z r c).
Proof. unfold evaluateInboundReceivingNeed. frozen_auto. Qed.
#[local] Hint Resolve evaluateInboundReceivingNeed_frz : frozen.

Ltac frozen_away Hav :=
  match goal with
  | H : frozenAt i t0 ?e |- frozenAt i t0 (updTask ?j _ _) =>
      apply frozen_updTask_away;
      [keeps_fields | intros Hcl Heq; apply (Hav Hcl); subst; simpl; auto using in_rev | exact H]
  end.

Lemma mergePlan_frz z r o a :
  (taskIsOpen (task_status t0) = false -> ~ In i a) ->
  preserves (frozenAt i t0) (mergePlan z r o a).
Proof.
  intros Hav. unfold mergePlan.
  repeat first [ solve [eauto with frozen] | frozen_leaf | frozen_away Hav | frozen_step ].
Qed.

Lemma trimPlan_frz a o :
  (taskIsOpen (task_status t0) = false -> ~ In i a) ->
  preserves (frozenAt i t0) (trimPlan a o).
Proof.
  intros Hav. unfold trimPlan. apply preserves_foldM_in. intros s x Hx.
  apply in_rev in Hx.
  repeat first [ solve [eauto with frozen] | frozen_leaf | frozen_away Hav | frozen_step ].
Qed.

Lemma refreshSources_frz r o :
  (taskIsOpen (task_status t0) = false -> ~ In i o) ->
  preserves (frozenAt i t0) (refreshSources r o).
Proof.
  intros Hav. unfold refreshSources. apply preserves_forTasks_in. intros j t Hj.
  repeat first [ solve [eauto with frozen] | frozen_leaf | frozen_away Hav | frozen_step ].
Qed.

Lemma triggerPlan_frz rule c r : preserves (frozenAt i t0) (triggerPlan rule c r).
Proof. unfold triggerPlan. frozen_auto. Qed.
#[local] Hint Resolve triggerPlan_frz : frozen.

Lemma evaluateSalesRule_frz z r c : preserves (frozenAt i t0) (evaluateSalesRule z r c).
Proof.
  intros e H. unfold evaluateSalesRule. run. rewrite mergePlan_result. cbv zeta.
  set (e1 := exec (mergePlan z r _ _) e).
  assert (H1 : frozenAt i t0 e1).
  { apply mergePlan_frz; [|exact H]. intros Hcl Hin. apply filter_In in Hin.
    apply (frozen_not_open i t0 e (rule_id r) H Hcl), Hin. }
  assert (Ho : taskIsOpen (task_status t0) = false -> ~ In i (openTaskRefs e1 (rule_id r))).
  { apply frozen_not_open, H1. }
  assert (Ha : taskIsOpen (task_status t0) = false ->
               ~ In i (notInProgress e1 (openTaskRefs e1 (rule_id r)))).
  { intros Hcl Hin. apply filter_In in Hin. apply (Ho Hcl), Hin. }
  clearbody e1. cbv beta iota.
  match goal with
  | |- frozenAt _ _ (exec ?rest e1) =>
      assert (Hr : preserves (frozenAt i t0) rest); [| exact (Hr e1 H1)]
  end.
  repeat first [ solve [eauto using trimPlan_frz, refreshSources_frz with frozen]
               | frozen_leaf | frozen_step ].
Qed.
#[local] Hint Resolve evaluateSalesRule_frz : frozen.

Lemma evaluateMinMax_frz z : preserves (frozenAt i t0) (evaluateMinMax z).
Proof. unfold evaluateMinMax. frozen_auto. Qed.
#[local] Hint Resolve evaluateMinMax_frz : frozen.

Lemma calculateZoneInventory_frz z : preserves (frozenAt i t0) (calculateZoneInventory z).
Proof. unfold calculateZoneInventory. frozen_auto. Qed.
#[local] Hint Resolve calculateZoneInventory_frz : frozen.

Lemma applyPendingRFIDPicks_frz z : preserves (frozenAt i t0) (applyPendingRFIDPicks z).
Proof. unfold applyPendingRFIDPicks. frozen_auto. Qed.
#[local] Hint Resolve applyPendingRFIDPicks_frz : frozen.

Lemma ingestRFIDRead_frz event : preserves (frozenAt i t0) (ingestRFIDRead event).
Proof. unfold ingestRFIDRead. frozen_auto. Qed.
#[local] Hint Resolve ingestRFIDRead_frz : frozen.

Lemma forceZoneSweep_frz z t : preserves (frozenAt i t0) (forceZoneSweep z t).
Proof. unfold forceZoneSweep. frozen_auto. Qed.
#[local] Hint Resolve forceZoneSweep_frz : frozen.

Lemma scanZone_frz z t : preserves (frozenAt i t0) (scanZone z t).
Proof. unfold scanZone. frozen_auto. Qed.
#[local] Hint Resolve scanZone_frz : frozen.

Lemma deductRFIDImmediate_frz z s q : preserves (frozenAt i t0) (deductRFIDImmediate z s q).
Proof. unfold deductRFIDImmediate. frozen_auto. Qed.
#[local] Hint Resolve deductRFIDImmediate_frz : frozen.

Lemma ingestSalesEvent_frz event : preserves (frozenAt i t0) (ingestSalesEvent event).
Proof. unfold ingestSalesEvent. frozen_auto. Qed.
#[local] Hint Resolve ingestSalesEvent_frz : frozen.

Lemma upsertCustomer_frz id name : preserves (frozenAt i t0) (upsertCustomer id name).
Proof. unfold upsertCustomer. frozen_auto. Qed.
#[local] Hint Resolve upsertCustomer_frz : frozen.

Lemma addCustomerItem_frz h p : preserves (frozenAt i t0) (addCustomerItem h p).
Proof. unfold addCustomerItem. frozen_auto. Qed.
#[local] Hint Resolve addCustomerItem_frz : frozen.

Lemma createExternalRFIDForDestination_frz s d q a :
  preserves (frozenAt i t0) (createExternalRFIDForDestination s d q a).
Proof. unfold createExternalRFIDForDestination. frozen_auto. Qed.
#[local] Hint Resolve createExternalRFIDForDestination_frz : frozen.

Lemma restoreConsumedEpcs_frz b s z d a :
  preserves (frozenAt i t0) (restoreConsumedEpcs b s z d a).
Proof. unfold restoreConsumedEpcs. frozen_auto. Qed.
#[local] Hint Resolve restoreConsumedEpcs_frz : frozen.

Lemma removeCustomerItem_frz b t : preserves (frozenAt i t0) (removeCustomerItem b t).
Proof. unfold removeCustomerItem. frozen_auto. Qed.
#[local] Hint Resolve removeCustomerItem_frz : frozen.

Lemma moveRFIDEpcs_frz s d k q a : preserves (frozenAt i t0) (moveRFIDEpcs s d k q a).
Proof. unfold moveRFIDEpcs. frozen_auto. Qed.
#[local] Hint Resolve moveRFIDEpcs_frz : frozen.

Lemma transferConsumedPendingEpcsToZone_frz b s d a :
  preserves (frozenAt i t0) (transferConsumedPendingEpcsToZone b s d a).
Proof. unfold transferConsumedPendingEpcsToZone. frozen_auto. Qed.
#[local] Hint Resolve transferConsumedPendingEpcsToZone_frz : frozen.

Lemma transferNonRfid_frz s d k q : preserves (frozenAt i t0) (transferNonRfid s d k q).
Proof. unfold transferNonRfid. frozen_auto. Qed.
#[local] Hint Resolve transferNonRfid_frz : frozen.

Lemma applyTransferFromSource_frz s d k q :
  preserves (frozenAt i t0) (applyTransferFromSource s d k q).
Proof. unfold applyTransferFromSource. frozen_auto. Qed.
#[local] Hint Resolve applyTransferFromSource_frz : frozen.

Lemma createPersonalizationTask_frz d s q src p :
  preserves (frozenAt i t0) (createPersonalizationTask d s q src p).
Proof. unfold createPersonalizationTask. frozen_auto. Qed.
#[local] Hint Resolve createPersonalizationTask_frz : frozen.

Lemma routeToCashierStorage_frz n item src t :
  preserves (frozenAt i t0) (routeToCashierStorage n item src t).
Proof. unfold routeToCashierStorage. frozen_auto. Qed.
#[local] Hint Resolve routeToCashierStorage_frz : frozen.

Lemma processPersonalizationSale_frz n src t :
  preserves (frozenAt i t0) (processPersonalizationSale n src t).
Proof. unfold processPersonalizationSale. frozen_auto. Qed.
#[local] Hint Resolve processPersonalizationSale_frz : frozen.

Lemma checkoutItem_frz h t n k item : preserves (frozenAt i t0) (checkoutItem h t n k item).
Proof. unfold checkoutItem. frozen_auto. Qed.
#[local] Hint Resolve checkoutItem_frz : frozen.

Lemma checkoutCustomer_frz h c t : preserves (frozenAt i t0) (checkoutCustomer h c t).
Proof. unfold checkoutCustomer. frozen_auto. Qed.
#[local] Hint Resolve checkoutCustomer_frz : frozen.

Lemma tryFallbackSource_frz n d s q st c :
  (taskIsOpen (task_status t0) = false -> n <> i) ->
  preserves (frozenAt i t0) (tryFallbackSource n d s q st c).
Proof.
  intros Hav. unfold tryFallbackSource.
  repeat first [ solve [eauto with frozen] | frozen_leaf | frozen_away Hav | frozen_step ].
Qed.

Lemma attemptTransfers_frz n task q s :
  (taskIsOpen (task_status t0) = false -> n <> i) ->
  preserves (frozenAt i t0) (attemptTransfers n task q s).
Proof.
  intros Hav. unfold attemptTransfers.
  repeat first [ solve [eauto using tryFallbackSource_frz with frozen]
               | frozen_leaf | frozen_away Hav | frozen_step ].
Qed.

Lemma confirmTask_frz t p : preserves (frozenAt i t0) (confirmTask t p).
Proof.
  unfold confirmTask.
  repeat first [ solve [eauto with frozen] | frozen_leaf
               | match goal with
                 | |- preserves _ (attemptTransfers _ _ _ _) =>
                     apply attemptTransfers_frz;
                     eapply frozen_found_open; [eassumption | eassumption | task_is_open]
                 end
               | frozen_step ].
Qed.
#[local] Hint Resolve confirmTask_frz : frozen.

Lemma recalculateZonesDependingOnSource_frz s :
  preserves (frozenAt i t0) (recalculateZonesDependingOnSource s).
Proof. unfold recalculateZonesDependingOnSource. frozen_auto. Qed.
#[local] Hint Resolve recalculateZonesDependingOnSource_frz : frozen.

Lemma refreshOpenTaskSourceCandidates_frz :
  preserves (frozenAt i t0) (refreshOpenTaskSourceCandidates).
Proof. unfold refreshOpenTaskSourceCandidates. frozen_auto. Qed.
#[local] Hint Resolve refreshOpenTaskSourceCandidates_frz : frozen.

Lemma pushConfirmation_frz m : preserves (frozenAt i t0) (pushConfirmation m).
Proof. unfold pushConfirmation. frozen_auto. Qed.
#[local] Hint Resolve pushConfirmation_frz : frozen.

Lemma confirmReceivingOrder_frz o p : preserves (frozenAt i t0) (confirmReceivingOrder o p).
Proof. unfold confirmReceivingOrder. frozen_auto. Qed.
#[local] Hint Resolve confirmReceivingOrder_frz : frozen.

Lemma updateLocation_frz p : preserves (frozenAt i t0) (updateLocation p).
Proof. unfold updateLocation. frozen_auto. Qed.
#[local] Hint Resolve updateLocation_frz : frozen.

Lemma createLocation_frz p : preserves (frozenAt i t0) (createLocation p).
Proof. unfold createLocation. frozen_auto. Qed.
#[local] Hint Resolve createLocation_frz : frozen.

Lemma reassign_frz : preserves (frozenAt i t0) (reassign).
Proof. unfold reassign. frozen_auto. Qed.
#[local] Hint Resolve reassign_frz : frozen.

Lemma updateStaffShift_frz s b : preserves (frozenAt i t0) (updateStaffShift s b).
Proof. unfold updateStaffShift. frozen_auto. Qed.
#[local] Hint Resolve updateStaffShift_frz : frozen.

Lemma updateStaffScope_frz s b z : preserves (frozenAt i t0) (updateStaffScope s b z).
Proof. unfold updateStaffScope. frozen_auto. Qed.
#[local] Hint Resolve updateStaffScope_frz : frozen.

Lemma assignTask_frz t s a : preserves (frozenAt i t0) (assignTask t s a).
Proof. unfold assignTask. frozen_auto. Qed.
#[local] Hint Resolve assignTask_frz : frozen.

Lemma startTask_frz t s a : preserves (frozenAt i t0) (startTask t s a).
Proof. unfold startTask. frozen_auto. Qed.
#[local] Hint Resolve startTask_frz : frozen.

Lemma upsertRule_frz p : preserves (frozenAt i t0) (upsertRule p).
Proof. unfold upsertRule. frozen_auto. Qed.
#[local] Hint Resolve upsertRule_frz : frozen.

Lemma deleteRule_frz r : preserves (frozenAt i t0) (deleteRule r).
Proof. unfold deleteRule. frozen_auto. Qed.
#[local] Hint Resolve deleteRule_frz : frozen.

Lemma getTasks_frz s : preserves (frozenAt i t0) (getTasks s).
Proof. unfold getTasks. frozen_auto. Qed.
#[local] Hint Resolve getTasks_frz : frozen.

Lemma getReceivingOrders_frz s : preserves (frozenAt i t0) (getReceivingOrders s).
Proof. unfold getReceivingOrders. frozen_auto. Qed.
#[local] Hint Resolve getReceivingOrders_frz : frozen.

Lemma seedDemoEvents_frz : preserves (frozenAt i t0) (seedDemoEvents).
Proof. unfold seedDemoEvents. frozen_auto. Qed.
#[local] Hint Resolve seedDemoEvents_frz : frozen.

Lemma loadDemoStream_frz r s : preserves (frozenAt i t0) (loadDemoStream r s).
Proof. unfold loadDemoStream. frozen_auto. Qed.
#[local] Hint Resolve loadDemoStream_frz : frozen.

Lemma run_frz (c : Command) : preserves (frozenAt i t0) (run c).
Proof. destruct c; unfold run; frozen_auto. Qed.

End FrozenTasks.

Lemma runAll_frozen i t0 (cs : list Command) (e : Engine) :
  frozenAt i t0 e -> frozenAt i t0 (runAll cs e).
Proof.
  revert e. induction cs as [|c r IH]; intros e H; simpl; [exact H|].
  apply IH, run_frz, H.
Qed.

Lemma frozenAt_here i t0 e : nth_error (tasks e) i = Some t0 -> frozenAt i t0 e.
Proof. intros H. exists t0. auto. Qed.

(** X2. Tasks are never removed or reordered, and the fields a task is
    created with never change: after any run of commands the task at a
    position of [tasks] is still at that position, with the id, rule,
    location, SKU, trigger and target quantities and creation time it had. *)
Theorem tasks_keep_identity (cs : list Command) (e : Engine) (i : nat)
    (t0 : ReplenishmentTask) :
  nth_error (tasks e) i = Some t0 ->
  exists t, nth_error (tasks (runAll cs e)) i = Some t /\ taskKey t = taskKey t0.
Proof.
  intros H. destruct (runAll_frozen i t0 cs e (frozenAt_here i t0 e H)) as (t & Ht & Hk & _).
  exists t. auto.
Qed.

Lemma tasks_keep_identity_witness :
  exists t,
    nth_error (tasks (runAll [CmdIngestSalesEvent lateSale] taskStartedEngine)) 0 = Some t
    /\ task_id t = "task-1" /\ task_zoneId t = "shelf-a" /\ task_skuId t = "SKU-NR-1".
Proof.
  edestruct (tasks_keep_identity [CmdIngestSalesEvent lateSale] taskStartedEngine 0)
    as [t [Ht Hk]]; [vm_compute; reflexivity|].
  exists t. split; [exact Ht|]. unfold taskKey in Hk. simpl in Hk.
  inversion Hk. auto.
Defined.

(** X3. A closed task is final: once a task is CONFIRMED or REJECTED, no
    run of commands changes any of its fields. *)
Theorem closed_task_is_immutable (cs : list Command) (e : Engine) (i : nat)
    (t0 : ReplenishmentTask) :
  nth_error (tasks e) i = Some t0 ->
  taskIsOpen (task_status t0) = false ->
  nth_error (tasks (runAll cs e)) i = Some t0.
Proof.
  intros H Hc.
  destruct (runAll_frozen i t0 cs e (frozenAt_here i t0 e H)) as (t & Ht & _ & Heq).
  rewrite Ht, (Heq Hc). reflexivity.
Qed.

Lemma closed_task_is_immutable_witness :
  exists t0,
    nth_error (tasks cancelledTaskEngine) 0 = Some t0
    /\ task_status t0 = REJECTED
    /\ nth_error (tasks (runAll returnAfterStartRun cancelledTaskEngine)) 0 = Some t0.
Proof.
  eexists. split; [vm_compute; reflexivity|]. split; [reflexivity|].
  apply closed_task_is_immutable; vm_compute; reflexivity.
Defined.

(** X4. In every state the engine reaches from its constructor the task at
    position [i] has the id [task-(i+1)], and looking that id up finds this
    very task: ids are unique. *)
Theorem tasks_found_by_id (dataset : SampleDataset) (cs : list Command) (i : nat)
    (t : ReplenishmentTask) :
  nth_error (tasks (runAll cs (constructor dataset))) i = Some t ->
  task_id t = "task-" ++ showNat (i + 1)
  /\ findTask (runAll cs (constructor dataset)) (task_id t) = Some (i, t).
Proof.
  intros H. pose proof (reachable_ids dataset cs) as Hw. split.
  - apply (Hw i t H).
  - apply findTask_at; assumption.
Qed.

Lemma tasks_found_by_id_witness :
  exists t, findTask (runAll returnAfterStartRun (constructor demoDataset)) "task-1"
            = Some (0%nat, t).
Proof.
  edestruct (tasks_found_by_id demoDataset returnAfterStartRun 0) as [_ Hf];
    [vm_compute; reflexivity|].
  eexists. exact Hf.
Defined.

(** ** Snapshots stay unique per key *)

Lemma sourceEqb_eq a b : sourceEqb a b = true <-> a = b.
Proof. destruct a, b; simpl; split; congruence. Qed.

Lemma snapMatches_key z s src x : snapMatches z s src x = true <-> snapKey x = (z, s, src).
Proof.
  unfold snapMatches, snapKey. rewrite !andb_true_iff, !String.eqb_eq, sourceEqb_eq.
  split; [intros [[-> ->] ->]; reflexivity | intros H; inversion H; auto].
Qed.

Lemma findIndex_go_spec {A} (p : A -> bool) (l : list A) k :
  match (fix go (i : nat) (l : list A) : option nat :=
           match l with
           | [] => None
           | x :: r => if p x then Some i else go (S i) r
           end) k l with
  | Some i => (k <= i)%nat
              /\ (exists x, nth_error l (i - k) = Some x /\ p x = true)
              /\ (forall j y, (j < i - k)%nat -> nth_error l j = Some y -> p y = false)
  | None => forall y, In y l -> p y = false
  end.
Proof.
  revert k. induction l as [|x r IH]; intros k; [intros y []|].
  destruct (p x) eqn:Hp.
  - split; [lia|]. rewrite Nat.sub_diag. split; [exists x; auto|]. intros j y Hj. lia.
  - specialize (IH (S k)). destruct (_ (S k) r) as [i|].
    + destruct IH as (Hk & (y & Hy & Hpy) & Hlt). split; [lia|].
      replace (i - k)%nat with (S (i - S k)) by lia. split; [exists y; auto|].
      intros j z Hj Hz. destruct j; simpl in Hz; [inversion Hz; subst; exact Hp|].
      apply (Hlt j z); [lia | exact Hz].
    + intros y [<-|Hy]; [exact Hp | apply IH, Hy].
Qed.

Lemma findIndex_some {A} (p : A -> bool) (l : list A) i :
  findIndex p l = Some i ->
  (exists x, nth_error l i = Some x /\ p x = true)
  /\ (forall j y, (j < i)%nat -> nth_error l j = Some y -> p y = false).
Proof.
  unfold findIndex. intros H. pose proof (findIndex_go_spec p l 0) as Hs.
  rewrite H in Hs. rewrite Nat.sub_0_r in Hs. tauto.
Qed.

Lemma findIndex_none {A} (p : A -> bool) (l : list A) :
  findIndex p l = None -> forall y, In y l -> p y = false.
Proof.
  unfold findIndex. intros H. pose proof (findIndex_go_spec p l 0) as Hs.
  rewrite H in Hs. exact Hs.
Qed.

Lemma map_updateAt_same {A B} (g : A -> B) (f : A -> A) (l : list A) i :
  (forall x, g (f x) = g x) -> map g (updateAt i f l) = map g l.
Proof.
  intros H. revert i. induction l as [|y r IH]; intros [|i]; simpl; rewrite ?H, ?IH; auto.
Qed.

Lemma map_removeAt {A B} (g : A -> B) (l : list A) i :
  map g (removeAt i l) = removeAt i (map g l).
Proof. revert i. induction l as [|y r IH]; intros [|i]; simpl; rewrite ?IH; auto. Qed.

Lemma removeAt_incl {A} (l : list A) i x : In x (removeAt i l) -> In x l.
Proof.
  revert i. induction l as [|y r IH]; intros [|i]; simpl; auto. intros [H|H]; eauto.
Qed.

Lemma NoDup_removeAt {A} (l : list A) i : NoDup l -> NoDup (removeAt i l).
Proof.
  revert i. induction l as [|y r IH]; intros [|i] H; simpl; auto; inversion H; subst; auto.
  constructor; [|auto]. intros Hin. apply removeAt_incl in Hin. contradiction.
Qed.

(** ** Every write to the snapshots goes through [upsertSnapshot] *)

Create HintDb snap discriminated.

Ltac snap_leaf :=
  match goal with
  | H : snapshotsSatisfy ?P ?e |- snapshotsSatisfy ?P _ =>
      repeat match goal with
             | |- snapshotsSatisfy _ (match ?x with _ => _ end) => destruct x
             end;
      solve [ exact H
            | unfold snapshotsSatisfy, updTask, updOrder, updItem, updZone, updRule,
                updStaff, deletePresence, rebindPresence, refreshPresence in *;
              simpl; exact H ]
  end.

Ltac snap_auto := repeat first [ solve [eauto with snap] | snap_leaf | pres_step ].

Section SnapshotWrites.

Variable P : list InventorySnapshotByZone -> Prop.
Hypothesis upsertSnapshot_snap :
  forall z s q src c, preserves (snapshotsSatisfy P) (upsertSnapshot z s q src c).
#[local] Hint Resolve upsertSnapshot_snap : snap.

Lemma evaluateMinMax_snap z : preserves (snapshotsSatisfy P) (evaluateMinMax z).
Proof.
  intros e H. unfold snapshotsSatisfy.
  rewrite (planFrame_snapshots _ _ (evaluateMinMax_frame z e)). exact H.
Qed.
#[local] Hint Resolve evaluateMinMax_snap : snap.

Lemma pushTaskAudit_snap a b c d : preserves (snapshotsSatisfy P) (pushTaskAudit a b c d).
Proof. unfold pushTaskAudit. snap_auto. Qed.
#[local] Hint Resolve pushTaskAudit_snap : snap.

Lemma autoAssignPendingTasks_snap at_ : preserves (snapshotsSatisfy P) (autoAssignPendingTasks at_).
Proof. unfold autoAssignPendingTasks, assignPendingTask. snap_auto. Qed.
#[local] Hint Resolve autoAssignPendingTasks_snap : snap.

Lemma autoAssignPendingReceivingOrders_snap at_ :
  preserves (snapshotsSatisfy P) (autoAssignPendingReceivingOrders at_).
Proof. unfold autoAssignPendingReceivingOrders. snap_auto. Qed.
#[local] Hint Resolve autoAssignPendingReceivingOrders_snap : snap.

Lemma closeReplenishmentTask_snap t r : preserves (snapshotsSatisfy P) (closeReplenishmentTask t r).
Proof. unfold closeReplenishmentTask. snap_auto. Qed.
#[local] Hint Resolve closeReplenishmentTask_snap : snap.

Lemma generateReplenishmentTask_snap rule d t s c :
  preserves (snapshotsSatisfy P) (generateReplenishmentTask rule d t s c).
Proof. unfold generateReplenishmentTask. snap_auto. Qed.
#[local] Hint Resolve generateReplenishmentTask_snap : snap.

Lemma createReceivingOrder_snap p : preserves (snapshotsSatisfy P) (createReceivingOrder p).
Proof. unfold createReceivingOrder. snap_auto. Qed.
#[local] Hint Resolve createReceivingOrder_snap : snap.

Lemma calculateZoneInventory_snap z : preserves (snapshotsSatisfy P) (calculateZoneInventory z).
Proof. unfold calculateZoneInventory. snap_auto. Qed.
#[local] Hint Resolve calculateZoneInventory_snap : snap.

Lemma applyPendingRFIDPicks_snap z : preserves (snapshotsSatisfy P) (applyPendingRFIDPicks z).
Proof. unfold applyPendingRFIDPicks. snap_auto. Qed.
#[local] Hint Resolve applyPendingRFIDPicks_snap : snap.

Lemma ingestRFIDRead_snap event : preserves (snapshotsSatisfy P) (ingestRFIDRead event).
Proof. unfold ingestRFIDRead. snap_auto. Qed.
#[local] Hint Resolve ingestRFIDRead_snap : snap.

Lemma forceZoneSweep_snap z t : preserves (snapshotsSatisfy P) (forceZoneSweep z t).
Proof. unfold forceZoneSweep. snap_auto. Qed.
#[local] Hint Resolve forceZoneSweep_snap : snap.

Lemma scanZone_snap z t : preserves (snapshotsSatisfy P) (scanZone z t).
Proof. unfold scanZone. snap_auto. Qed.
#[local] Hint Resolve scanZone_snap : snap.

Lemma deductRFIDImmediate_snap z s q : preserves (snapshotsSatisfy P) (deductRFIDImmediate z s q).
Proof. unfold deductRFIDImmediate. snap_auto. Qed.
#[local] Hint Resolve deductRFIDImmediate_snap : snap.

Lemma ingestSalesEvent_snap event : preserves (snapshotsSatisfy P) (ingestSalesEvent event).
Proof. unfold ingestSalesEvent. snap_auto. Qed.
#[local] Hint Resolve ingestSalesEvent_snap : snap.

Lemma upsertCustomer_snap id name : preserves (snapshotsSatisfy P) (upsertCustomer id name).
Proof. unfold upsertCustomer. snap_auto. Qed.
#[local] Hint Resolve upsertCustomer_snap : snap.

Lemma addCustomerItem_snap h p : preserves (snapshotsSatisfy P) (addCustomerItem h p).
Proof. unfold addCustomerItem. snap_auto. Qed.
#[local] Hint Resolve addCustomerItem_snap : snap.

Lemma createExternalRFIDForDestination_snap s d q a :
  preserves (snapshotsSatisfy P) (createExternalRFIDForDestination s d q a).
Proof. unfold createExternalRFIDForDestination. snap_auto. Qed.
#[local] Hint Resolve createExternalRFIDForDestination_snap : snap.

Lemma restoreConsumedEpcs_snap b s z d a :
  preserves (snapshotsSatisfy P) (restoreConsumedEpcs b s z d a).
Proof. unfold restoreConsumedEpcs. snap_auto. Qed.
#[local] Hint Resolve restoreConsumedEpcs_snap : snap.

Lemma removeCustomerItem_snap b t : preserves (snapshotsSatisfy P) (removeCustomerItem b t).
Proof. unfold removeCustomerItem. snap_auto. Qed.
#[local] Hint Resolve removeCustomerItem_snap : snap.

Lemma moveRFIDEpcs_snap s d k q a : preserves (snapshotsSatisfy P) (moveRFIDEpcs s d k q a).
Proof. unfold moveRFIDEpcs. snap_auto. Qed.
#[local] Hint Resolve moveRFIDEpcs_snap : snap.

Lemma transferConsumedPendingEpcsToZone_snap b s d a :
  preserves (snapshotsSatisfy P) (transferConsumedPendingEpcsToZone b s d a).
Proof. unfold transferConsumedPendingEpcsToZone. snap_auto. Qed.
#[local] Hint Resolve transferConsumedPendingEpcsToZone_snap : snap.

Lemma transferNonRfid_snap s d k q : preserves (snapshotsSatisfy P) (transferNonRfid s d k q).
Proof. unfold transferNonRfid. snap_auto. Qed.
#[local] Hint Resolve transferNonRfid_snap : snap.

Lemma applyTransferFromSource_snap s d k q :
  preserves (snapshotsSatisfy P) (applyTransferFromSource s d k q).
Proof. unfold applyTransferFromSource. snap_auto. Qed.
#[local] Hint Resolve applyTransferFromSource_snap : snap.

Lemma createPersonalizationTask_snap d s q src p :
  preserves (snapshotsSatisfy P) (createPersonalizationTask d s q src p).
Proof. unfold createPersonalizationTask. snap_auto. Qed.
#[local] Hint Resolve createPersonalizationTask_snap : snap.

Lemma routeToCashierStorage_snap n item src t :
  preserves (snapshotsSatisfy P) (routeToCashierStorage n item src t).
Proof. unfold routeToCashierStorage. snap_auto. Qed.
#[local] Hint Resolve routeToCashierStorage_snap : snap.

Lemma processPersonalizationSale_snap n src t :
  preserves (snapshotsSatisfy P) (processPersonalizationSale n src t).
Proof. unfold processPersonalizationSale. snap_auto. Qed.
#[local] Hint Resolve processPersonalizationSale_snap : snap.

Lemma checkoutItem_snap h t n k item : preserves (snapshotsSatisfy P) (checkoutItem h t n k item).
Proof. unfold checkoutItem. snap_auto. Qed.
#[local] Hint Resolve checkoutItem_snap : snap.

Lemma checkoutCustomer_snap h c t : preserves (snapshotsSatisfy P) (checkoutCustomer h c t).
Proof. unfold checkoutCustomer. snap_auto. Qed.
#[local] Hint Resolve checkoutCustomer_snap : snap.

Lemma tryFallbackSource_snap n d s q st c :
  preserves (snapshotsSatisfy P) (tryFallbackSource n d s q st c).
Proof. unfold tryFallbackSource. snap_auto. Qed.
#[local] Hint Resolve tryFallbackSource_snap : snap.

Lemma attemptTransfers_snap n t q s : preserves (snapshotsSatisfy P) (attemptTransfers n t q s).
Proof. unfold attemptTransfers. snap_auto. Qed.
#[local] Hint Resolve attemptTransfers_snap : snap.

Lemma confirmTask_snap t p : preserves (snapshotsSatisfy P) (confirmTask t p).
Proof. unfold confirmTask. snap_auto. Qed.
#[local] Hint Resolve confirmTask_snap : snap.

Lemma recalculateZonesDependingOnSource_snap s :
  preserves (snapshotsSatisfy P) (recalculateZonesDependingOnSource s).
Proof. unfold recalculateZonesDependingOnSource. snap_auto. Qed.
#[local] Hint Resolve recalculateZonesDependingOnSource_snap : snap.

Lemma refreshOpenTaskSourceCandidates_snap :
  preserves (snapshotsSatisfy P) (refreshOpenTaskSourceCandidates).
Proof. unfold refreshOpenTaskSourceCandidates. snap_auto. Qed.
#[local] Hint Resolve refreshOpenTaskSourceCandidates_snap : snap.

Lemma pushConfirmation_snap m : preserves (snapshotsSatisfy P) (pushConfirmation m).
Proof. unfold pushConfirmation. snap_auto. Qed.
#[local] Hint Resolve pushConfirmation_snap : snap.

Lemma confirmReceivingOrder_snap o p : preserves (snapshotsSatisfy P) (confirmReceivingOrder o p).
Proof. unfold confirmReceivingOrder. snap_auto. Qed.
#[local] Hint Resolve confirmReceivingOrder_snap : snap.

Lemma updateLocation_snap p : preserves (snapshotsSatisfy P) (updateLocation p).
Proof. unfold updateLocation. snap_auto. Qed.
#[local] Hint Resolve updateLocation_snap : snap.

Lemma createLocation_snap p : preserves (snapshotsSatisfy P) (createLocation p).
Proof. unfold createLocation. snap_auto. Qed.
#[local] Hint Resolve createLocation_snap : snap.

Lemma reassign_snap : preserves (snapshotsSatisfy P) (reassign).
Proof. unfold reassign. snap_auto. Qed.
#[local] Hint Resolve reassign_snap : snap.

Lemma updateStaffShift_snap s b : preserves (snapshotsSatisfy P) (updateStaffShift s b).
Proof. unfold updateStaffShift. snap_auto. Qed.
#[local] Hint Resolve updateStaffShift_snap : snap.

Lemma updateStaffScope_snap s b z : preserves (snapshotsSatisfy P) (updateStaffScope s b z).
Proof. unfold updateStaffScope. snap_auto. Qed.
#[local] Hint Resolve updateStaffScope_snap : snap.

Lemma assignTask_snap t s a : preserves (snapshotsSatisfy P) (assignTask t s a).
Proof. unfold assignTask. snap_auto. Qed.
#[local] Hint Resolve assignTask_snap : snap.

Lemma startTask_snap t s a : preserves (snapshotsSatisfy P) (startTask t s a).
Proof. unfold startTask. snap_auto. Qed.
#[local] Hint Resolve startTask_snap : snap.

Lemma upsertRule_snap p : preserves (snapshotsSatisfy P) (upsertRule p).
Proof. unfold upsertRule. snap_auto. Qed.
#[local] Hint Resolve upsertRule_snap : snap.

Lemma deleteRule_snap r : preserves (snapshotsSatisfy P) (deleteRule r).
Proof. unfold deleteRule. snap_auto. Qed.
#[local] Hint Resolve deleteRule_snap : snap.

Lemma getTasks_snap s : preserves (snapshotsSatisfy P) (getTasks s).
Proof. unfold getTasks. snap_auto. Qed.
#[local] Hint Resolve getTasks_snap : snap.

Lemma getReceivingOrders_snap s : preserves (snapshotsSatisfy P) (getReceivingOrders s).
Proof. unfold getReceivingOrders. snap_auto. Qed.
#[local] Hint Resolve getReceivingOrders_snap : snap.

Lemma seedDemoEvents_snap : preserves (snapshotsSatisfy P) (seedDemoEvents).
Proof. unfold seedDemoEvents. snap_auto. Qed.
#[local] Hint Resolve seedDemoEvents_snap : snap.

Lemma loadDemoStream_snap r s : preserves (snapshotsSatisfy P) (loadDemoStream r s).
Proof. unfold loadDemoStream. snap_auto. Qed.
#[local] Hint Resolve loadDemoStream_snap : snap.

Lemma run_snap (c : Command) : preserves (snapshotsSatisfy P) (run c).
Proof. destruct c; unfold run; snap_auto. Qed.

End SnapshotWrites.

Lemma runAll_snap (P : list InventorySnapshotByZone -> Prop) :
  (forall z s q src c, preserves (snapshotsSatisfy P) (upsertSnapshot z s q src c)) ->
  forall (cs : list Command) (e : Engine),
    snapshotsSatisfy P e -> snapshotsSatisfy P (runAll cs e).
Proof.
  intros HP cs. induction cs as [|c r IH]; intros e He; simpl; [exact He|].
  apply IH, (run_snap P HP), He.
Qed.

(** ** Snapshot keys stay unique *)

Lemma upsertSnapshot_unique z s q src c :
  preserves uniqueSnapshots (upsertSnapshot z s q src c).
Proof.
  unfold upsertSnapshot. apply preserves_modify. intros e H. unfold uniqueSnapshots in *.
  cbv zeta. destruct (_ && _).
  - destruct (findIndex _ _); [|exact H]. simpl. rewrite map_removeAt.
    apply NoDup_removeAt, H.
  - destruct (findIndex _ _) as [i|] eqn:Hf; simpl.
    + rewrite map_updateAt_same; [exact H | reflexivity].
    + rewrite map_app. simpl.
      assert (Hn : ~ In (z, s, src) (map snapKey (snapshots e))).
      { intros Hin. apply in_map_iff in Hin. destruct Hin as [x [Hk Hx]].
        pose proof (findIndex_none _ _ Hf x Hx) as Hp.
        apply snapMatches_key in Hk. congruence. }
      apply NoDup_app; [exact H | constructor; [intros [] | constructor] |].
      intros a Ha [Hi|[]]. apply Hn. subst a. exact Ha.
Qed.

Lemma runAll_unique (cs : list Command) (e : Engine) :
  uniqueSnapshots e -> uniqueSnapshots (runAll cs e).
Proof. apply (runAll_snap (fun l => NoDup (map snapKey l))), upsertSnapshot_unique. Qed.

(** X5. The engine keeps at most one snapshot per location, SKU and source:
    if the seed inventory has no two rows with the same key, no run of
    commands produces two. *)
Theorem snapshots_stay_unique (dataset : SampleDataset) (cs : list Command) :
  NoDup (map snapKey (ds_inventorySeed dataset)) ->
  uniqueSnapshots (runAll cs (constructor dataset)).
Proof. intros H. apply runAll_unique. exact H. Qed.

Lemma snapshots_stay_unique_witness :
  uniqueSnapshots
    (runAll [CmdIngestSalesEvent lateSale; CmdIngestRFIDRead demoRead] (constructor demoDataset)).
Proof.
  apply snapshots_stay_unique.
  vm_compute. repeat constructor; simpl; intuition discriminate.
Defined.

(** ** The cashier storage keeps no empty row *)

Lemma upsertSnapshot_cashier z s q src c :
  preserves (snapshotsSatisfy cashierRowsPositive) (upsertSnapshot z s q src c).
Proof.
  unfold upsertSnapshot. apply preserves_modify. intros e H.
  unfold snapshotsSatisfy, cashierRowsPositive in *. cbv zeta.
  destruct (String.eqb z CASHIER_STORAGE_ZONE_ID && (q <=? 0)) eqn:Hc.
  - destruct (findIndex _ _); [|exact H]. simpl. intros x Hx. apply H.
    eapply removeAt_incl, Hx.
  - destruct (findIndex _ _) as [i|] eqn:Hf; simpl; intros x Hx Hz.
    + apply In_nth_error in Hx. destruct Hx as [j Hj].
      destruct (Nat.eq_dec j i) as [->|Hn].
      * rewrite updateAt_nth_error in Hj.
        destruct (findIndex_some _ _ _ Hf) as [[y [Hy Hp]] _]. rewrite Hy in Hj.
        simpl in Hj. inversion Hj; subst x. simpl in *.
        apply snapMatches_key in Hp. unfold snapKey in Hp. inversion Hp; subst.
        rewrite Hz, String.eqb_refl in Hc. simpl in Hc. apply Z.leb_gt in Hc. exact Hc.
      * rewrite updateAt_nth_error_other in Hj by auto. apply H; [|exact Hz].
        eapply nth_error_In, Hj.
    + apply in_app_or in Hx. destruct Hx as [Hx|[<-|[]]]; [apply H; assumption|].
      simpl in *. subst z. rewrite String.eqb_refl in Hc. simpl in Hc.
      apply Z.leb_gt in Hc. exact Hc.
Qed.

(** X6. The cashier storage lists only what it holds: a snapshot of that
    location that would drop to zero or below is deleted instead, so if the
    seed has no cashier-storage row without stock, no run of commands leaves
    one. *)
Theorem cashier_storage_rows_have_stock (dataset : SampleDataset) (cs : list Command) :
  cashierRowsPositive (ds_inventorySeed dataset) ->
  cashierRowsPositive (snapshots (runAll cs (constructor dataset))).
Proof.
  intros H. apply (runAll_snap cashierRowsPositive upsertSnapshot_cashier). exact H.
Qed.

Lemma cashier_storage_rows_have_stock_witness :
  cashierRowsPositive
    (snapshots
       (runAll [CmdAddCustomerItem 0 jerseyPayload;
                CmdCheckoutCustomer 0 "cust-1" (initialCursor + 2000)]
               (constructor (jerseyDataset true)))).
Proof.
  apply cashier_storage_rows_have_stock.
  intros s [<-|[]] H. discriminate H.
Defined.

(** ** Reading a snapshot back *)

Lemma filter_none {A} (p : A -> bool) (l : list A) :
  (forall y, In y l -> p y = false) -> filter p l = [].
Proof.
  induction l as [|x r IH]; intros H; simpl; [reflexivity|].
  rewrite (H x (or_introl eq_refl)). apply IH. intros y Hy. apply H. right. exact Hy.
Qed.

Lemma filter_unique_at {A K} (g : A -> K) (k : K) (p : A -> bool) (l : list A) i x :
  (forall y, p y = true <-> g y = k) ->
  NoDup (map g l) -> nth_error l i = Some x -> p x = true -> filter p l = [x].
Proof.
  intros Hp. revert i. induction l as [|y r IH]; intros i Hn Hi Hx; [destruct i; discriminate|].
  simpl in Hn. inversion Hn as [|a b Hni Hnd]; subst. destruct i; simpl in Hi.
  - inversion Hi; subst y. simpl. rewrite Hx. f_equal. apply filter_none.
    intros z Hz. destruct (p z) eqn:Hpz; [|reflexivity]. exfalso. apply Hni.
    apply Hp in Hpz. apply Hp in Hx. rewrite Hx, <- Hpz. apply in_map, Hz.
  - simpl. destruct (p y) eqn:Hpy.
    + exfalso. apply Hni. apply Hp in Hpy. apply Hp in Hx. rewrite Hpy, <- Hx.
      apply in_map. eapply nth_error_In, Hi.
    + eapply IH; eauto.
Qed.

Lemma current_of_filter e z s src :
  getCurrentInventoryQty e z s src
  = match filter (snapMatches z s src) (snapshots e) with
    | [x] => snap_qty x
    | l => match sortBy (fun s => - snap_lastCalculatedAt s) l with
           | x :: _ => snap_qty x
           | [] => 0
           end
    end.
Proof.
  unfold getCurrentInventoryQty. destruct (filter _ _) as [|x [|y r]]; reflexivity.
Qed.

Lemma filter_updateAt_other {A} (p : A -> bool) (f : A -> A) (l : list A) i :
  (forall x, nth_error l i = Some x -> p x = false /\ p (f x) = false) ->
  filter p (updateAt i f l) = filter p l.
Proof.
  revert i. induction l as [|y r IH]; intros [|i] H; simpl; auto.
  - destruct (H y eq_refl) as [-> ->]. reflexivity.
  - rewrite IH; [reflexivity|]. intros x Hx. apply H. exact Hx.
Qed.

Lemma filter_removeAt_other {A} (p : A -> bool) (l : list A) i :
  (forall x, nth_error l i = Some x -> p x = false) ->
  filter p (removeAt i l) = filter p l.
Proof.
  revert i. induction l as [|y r IH]; intros [|i] H; simpl; auto.
  - rewrite (H y eq_refl). reflexivity.
  - rewrite IH; [reflexivity|]. intros x Hx. apply H. exact Hx.
Qed.

Lemma snapMatches_other z s src z' s' src' x :
  (z', s', src') <> (z, s, src) -> snapMatches z s src x = true ->
  snapMatches z' s' src' x = false.
Proof.
  intros Hne Hm. destruct (snapMatches z' s' src' x) eqn:Hm'; [|reflexivity].
  apply snapMatches_key in Hm, Hm'. congruence.
Qed.

Lemma removeAt_nth_none_match {A K} (g : A -> K) (k : K) (p : A -> bool) (l : list A) i x :
  (forall y, p y = true <-> g y = k) ->
  NoDup (map g l) -> nth_error l i = Some x -> p x = true ->
  forall y, In y (removeAt i l) -> p y = false.
Proof.
  intros Hp. revert i. induction l as [|a r IH]; intros i Hn Hi Hx y Hy;
    [destruct i; discriminate|].
  simpl in Hn. inversion Hn as [|a' b Hni Hnd]; subst. destruct i; simpl in *.
  - inversion Hi; subst a. destruct (p y) eqn:Hpy; [|reflexivity]. exfalso. apply Hni.
    apply Hp in Hpy. apply Hp in Hx. rewrite Hx, <- Hpy. apply in_map, Hy.
  - destruct Hy as [<-|Hy].
    + destruct (p a) eqn:Hpa; [|reflexivity]. exfalso. apply Hni.
      apply Hp in Hpa. apply Hp in Hx. rewrite Hpa, <- Hx. apply in_map.
      eapply nth_error_In, Hi.
    + eapply IH; eauto.
Qed.

Lemma filter_updateAt_unique {A K} (g : A -> K) (k : K) (p : A -> bool) (f : A -> A)
      (l : list A) i x :
  (forall y, p y = true <-> g y = k) -> (forall y, g (f y) = g y) ->
  NoDup (map g l) -> nth_error l i = Some x -> p x = true ->
  filter p (updateAt i f l) = [f x].
Proof.
  intros Hp Hg Hn Hi Hx.
  apply (filter_unique_at g k p _ i); auto.
  - rewrite map_updateAt_same; auto.
  - rewrite updateAt_nth_error, Hi. reflexivity.
  - apply Hp. rewrite Hg. apply Hp. exact Hx.
Qed.

Lemma upsertSnapshot_read_back z s q src c e :
  uniqueSnapshots e ->
  let e' := exec (upsertSnapshot z s q src c) e in
  getCurrentInventoryQty e' z s src = writtenQty z q
  /\ (forall z' s' src',
        (z', s', src') <> (z, s, src) ->
        getCurrentInventoryQty e' z' s' src' = getCurrentInventoryQty e z' s' src').
Proof.
  intros Hu e'. unfold e', upsertSnapshot. rewrite exec_modify. cbv zeta.
  unfold writtenQty, uniqueSnapshots in *.
  pose proof (snapMatches_key z s src) as Hkey.
  destruct (String.eqb z CASHIER_STORAGE_ZONE_ID && (q <=? 0)) eqn:Hc;
    destruct (findIndex (snapMatches z s src) (snapshots e)) as [i|] eqn:Hf.
  - destruct (findIndex_some _ _ _ Hf) as [[x [Hx Hp]] _]. split.
    + unfold getCurrentInventoryQty. simpl snapshots.
      rewrite (filter_none _ (removeAt i (snapshots e))); [reflexivity|].
      apply (removeAt_nth_none_match snapKey (z, s, src) _ _ i x); auto.
    + intros z' s' src' Hne. unfold getCurrentInventoryQty. simpl snapshots.
      rewrite filter_removeAt_other; [reflexivity|].
      intros y Hy. rewrite Hx in Hy. inversion Hy; subst y.
      apply (snapMatches_other z s src); assumption.
  - split; [|reflexivity]. unfold getCurrentInventoryQty.
    rewrite (filter_none _ (snapshots e)); [reflexivity|]. apply (findIndex_none _ _ Hf).
  - destruct (findIndex_some _ _ _ Hf) as [[x [Hx Hp]] _]. split.
    + unfold getCurrentInventoryQty. simpl snapshots.
      rewrite (filter_updateAt_unique snapKey (z, s, src) _ _ _ i x Hkey); auto.
    + intros z' s' src' Hne. unfold getCurrentInventoryQty. simpl snapshots.
      rewrite filter_updateAt_other; [reflexivity|].
      intros y Hy. rewrite Hx in Hy. inversion Hy; subst y.
      split; apply (snapMatches_other z s src); auto;
        apply Hkey; apply Hkey in Hp; exact Hp.
  - split.
    + unfold getCurrentInventoryQty. simpl snapshots. rewrite filter_app.
      rewrite (filter_none _ (snapshots e)) by apply (findIndex_none _ _ Hf).
      simpl. unfold snapMatches at 1. simpl. rewrite !String.eqb_refl.
      replace (sourceEqb src src) with true by (destruct src; reflexivity). reflexivity.
    + intros z' s' src' Hne. unfold getCurrentInventoryQty. simpl snapshots.
      rewrite filter_app. simpl.
      replace (snapMatches z' s' src' _) with false; [rewrite app_nil_r; reflexivity|].
      symmetry. apply (snapMatches_other z s src); [exact Hne|].
      apply Hkey. reflexivity.
Qed.

(** X7. Writing a snapshot and reading it back: when the snapshot keys are
    unique, after [upsertSnapshot z s q src] the current quantity of
    [(z, s, src)] is [q] (0 for a cashier-storage write of [q <= 0], whose
    row is deleted), and the current quantity of every other key is what it
    was. *)
Theorem upsertSnapshot_then_read (z s : string) (q : Z) (src : InventorySource)
    (c : option Z) (e : Engine) :
  uniqueSnapshots e ->
  let e' := exec (upsertSnapshot z s q src c) e in
  getCurrentInventoryQty e' z s src = writtenQty z q
  /\ (forall z' s' src',
        (z', s', src') <> (z, s, src) ->
        getCurrentInventoryQty e' z' s' src' = getCurrentInventoryQty e z' s' src').
Proof. exact (upsertSnapshot_read_back z s q src c e). Qed.

Lemma upsertSnapshot_then_read_witness :
  getCurrentInventoryQty
    (exec (upsertSnapshot "shelf-a" "SKU-NR-1" 3 NON_RFID None) demoEngine)
    "shelf-a" "SKU-NR-1" NON_RFID = 3
  /\ getCurrentInventoryQty
       (exec (upsertSnapshot "shelf-a" "SKU-NR-1" 3 NON_RFID None) demoEngine)
       "warehouse" "SKU-NR-1" NON_RFID = 180.
Proof.
  destruct (upsertSnapshot_then_read "shelf-a" "SKU-NR-1" 3 NON_RFID None demoEngine)
    as [H1 H2]; [vm_compute; repeat constructor; simpl; intuition discriminate|].
  split; [exact H1|]. rewrite H2 by discriminate. reflexivity.
Defined.

Lemma transferNonRfid_unfold src dst sku qty e :
  let cs := getCurrentInventoryQty e src sku NON_RFID in
  let m := Z.min (Z.max 0 qty) cs in
  (m <= 0 -> eval (transferNonRfid src dst sku qty) e = 0
             /\ exec (transferNonRfid src dst sku qty) e = e)
  /\ (0 < m ->
      let e1 := exec (upsertSnapshot src sku (cs - m) NON_RFID None) e in
      eval (transferNonRfid src dst sku qty) e = m
      /\ exec (transferNonRfid src dst sku qty) e
         = exec (upsertSnapshot dst sku (getCurrentInventoryQty e1 dst sku NON_RFID + m)
                   NON_RFID None) e1).
Proof.
  intros cs m. unfold transferNonRfid. run. fold cs. fold m. split; intros H.
  - destruct (m <=? 0) eqn:Hm; [|apply Z.leb_gt in Hm; lia]. run. auto.
  - destruct (m <=? 0) eqn:Hm; [apply Z.leb_le in Hm; lia|]. run. auto.
Qed.

Lemma writtenQty_nonneg z q : 0 <= q -> writtenQty z q = q.
Proof.
  intros H. unfold writtenQty.
  destruct (String.eqb z CASHIER_STORAGE_ZONE_ID && (q <=? 0)) eqn:Hc; [|reflexivity].
  apply andb_true_iff in Hc. destruct Hc as [_ Hq]. apply Z.leb_le in Hq. lia.
Qed.

(** X8. A NON_RFID transfer conserves stock: between two different
    locations, with unique snapshot keys and a destination quantity that is
    not negative, [transferNonRfid] moves [max(0, min(qty, source))] units,
    returns that number, takes it off the source, adds it to the destination
    and leaves every other quantity alone. *)
Theorem transferNonRfid_conserves (src dst sku : string) (qty : Z) (e : Engine) :
  uniqueSnapshots e ->
  src <> dst ->
  0 <= getCurrentInventoryQty e dst sku NON_RFID ->
  let cs := getCurrentInventoryQty e src sku NON_RFID in
  let cd := getCurrentInventoryQty e dst sku NON_RFID in
  let moved := eval (transferNonRfid src dst sku qty) e in
  let e' := exec (transferNonRfid src dst sku qty) e in
  moved = Z.max 0 (Z.min qty cs)
  /\ getCurrentInventoryQty e' src sku NON_RFID = cs - moved
  /\ getCurrentInventoryQty e' dst sku NON_RFID = cd + moved
  /\ (forall z s source,
        (z, s, source) <> (src, sku, NON_RFID) -> (z, s, source) <> (dst, sku, NON_RFID) ->
        getCurrentInventoryQty e' z s source = getCurrentInventoryQty e z s source).
Proof.
  intros Hu Hne Hd cs cd moved e'.
  destruct (transferNonRfid_unfold src dst sku qty e) as [H0 H1].
  fold cs in H0, H1. cbv zeta in H0, H1.
  destruct (Z_le_gt_dec (Z.min (Z.max 0 qty) cs) 0) as [Hm|Hm].
  - destruct (H0 Hm) as [Hv He]. unfold moved, e'. rewrite Hv, He.
    repeat split; intros; try reflexivity; try (fold cs); try lia.
  - assert (Hm' : 0 < Z.min (Z.max 0 qty) cs) by lia.
    destruct (H1 Hm') as [Hv He]. unfold moved, e'. rewrite Hv, He. clear H0 H1 Hv He.
    set (m := Z.min (Z.max 0 qty) cs) in *.
    set (e1 := exec (upsertSnapshot src sku (cs - m) NON_RFID None) e).
    destruct (upsertSnapshot_read_back src sku (cs - m) NON_RFID None e Hu) as [Hs1 Ho1].
    fold e1 in Hs1, Ho1.
    assert (Hu1 : uniqueSnapshots e1) by (apply upsertSnapshot_unique; exact Hu).
    assert (Hd1 : getCurrentInventoryQty e1 dst sku NON_RFID = cd).
    { apply Ho1. congruence. }
    rewrite Hd1.
    destruct (upsertSnapshot_read_back dst sku (cd + m) NON_RFID None e1 Hu1) as [Hs2 Ho2].
    rewrite writtenQty_nonneg in Hs1 by lia.
    rewrite writtenQty_nonneg in Hs2 by (unfold cd; lia).
    repeat split.
    + lia.
    + rewrite Ho2 by congruence. exact Hs1.
    + exact Hs2.
    + intros z s source Ha Hb. rewrite Ho2 by exact Hb. apply Ho1. exact Ha.
Qed.

Lemma transferNonRfid_conserves_witness :
  eval (transferNonRfid "warehouse" "shelf-a" "SKU-NR-1" 5) demoEngine = 5
  /\ getCurrentInventoryQty (exec (transferNonRfid "warehouse" "shelf-a" "SKU-NR-1" 5) demoEngine)
       "warehouse" "SKU-NR-1" NON_RFID = 175
  /\ getCurrentInventoryQty (exec (transferNonRfid "warehouse" "shelf-a" "SKU-NR-1" 5) demoEngine)
       "shelf-a" "SKU-NR-1" NON_RFID = 12.
Proof.
  destruct (transferNonRfid_conserves "warehouse" "shelf-a" "SKU-NR-1" 5 demoEngine)
    as (H1 & H2 & H3 & _);
    [vm_compute; repeat constructor; simpl; intuition discriminate
    | discriminate | vm_compute; discriminate |].
  split; [exact H1|]. split; [exact H2 | exact H3].
Defined.

(** ** A recompute writes the ledger balance *)

Lemma dedup_NoDup l : NoDup (dedup l).
Proof.
  induction l as [|x r IH]; simpl; constructor.
  - intros H. apply filter_In in H. destruct H as [_ H].
    rewrite String.eqb_refl in H. discriminate.
  - apply NoDup_filter, IH.
Qed.

Lemma calculateNonRFIDInventory_frame e1 e0 skuId zoneId :
  invFrame e1 = invFrame e0 ->
  calculateNonRFIDInventory e1 skuId zoneId = calculateNonRFIDInventory e0 skuId zoneId.
Proof.
  unfold invFrame. intros H. injection H.
  intros _ _ _ _ Hc _ _ _ _ Hs _ Hb _ _ _ _ _.
  unfold calculateNonRFIDInventory, getBaselineSnapshot. rewrite Hc, Hs, Hb. reflexivity.
Qed.

Lemma calculateNonRFIDInventory_nonneg e skuId zoneId :
  0 <= calculateNonRFIDInventory e skuId zoneId.
Proof. unfold calculateNonRFIDInventory. cbv zeta. lia. Qed.

Section UpsertLoop.
Variables (zoneId : string) (source : InventorySource) (body : string -> M unit).
Hypothesis body_upserts :
  forall x e, exists q c, exec (body x) e = exec (upsertSnapshot zoneId x q source c) e.

Lemma upsertLoop_keeps (L : list string) (e : Engine) :
  uniqueSnapshots e ->
  uniqueSnapshots (exec (forEach L body) e)
  /\ invFrame (exec (forEach L body) e) = invFrame e
  /\ (forall z s src, (src <> source \/ z <> zoneId \/ ~ In s L) ->
        getCurrentInventoryQty (exec (forEach L body) e) z s src
        = getCurrentInventoryQty e z s src).
Proof.
  revert e. induction L as [|x r IH]; intros e Hu; simpl forEach; run.
  - auto.
  - destruct (body_upserts x e) as [q [c Hb]]. rewrite Hb.
    set (e1 := exec (upsertSnapshot zoneId x q source c) e).
    assert (Hu1 : uniqueSnapshots e1) by (apply upsertSnapshot_unique, Hu).
    destruct (IH e1 Hu1) as [Ha [Hb' Hc]]. split; [exact Ha|]. split.
    + rewrite Hb'. apply (upsertSnapshot_inv e zoneId x q source c e). reflexivity.
    + intros z s src Hk. rewrite Hc by (simpl in Hk; tauto).
      apply (upsertSnapshot_read_back zoneId x q source c e Hu).
      intros Heq. inversion Heq; subst. simpl in Hk. tauto.
Qed.
End UpsertLoop.

Lemma nonRfidLoop_values zoneId (L : list string) (e : Engine) :
  let body := fun skuId =>
    e <- get ;;
    upsertSnapshot zoneId skuId (calculateNonRFIDInventory e skuId zoneId) NON_RFID None in
  uniqueSnapshots e -> NoDup L ->
  forall s, In s L ->
    getCurrentInventoryQty (exec (forEach L body) e) zoneId s NON_RFID
    = calculateNonRFIDInventory e s zoneId.
Proof.
  cbv zeta. revert e. induction L as [|x r IH]; intros e Hu Hn s Hs; [destruct Hs|].
  inversion Hn as [|a b Hx Hr]; subst.
  simpl forEach. run.
  match goal with |- context [forEach r ?b] => set (body := b) in * end.
  assert (Hbody : forall y e, exists q c,
             exec (body y) e = exec (upsertSnapshot zoneId y q NON_RFID c) e).
  { intros y e'. unfold body. run. eauto. }
  set (v := calculateNonRFIDInventory e x zoneId).
  set (e1 := exec (upsertSnapshot zoneId x v NON_RFID None) e).
  assert (Hu1 : uniqueSnapshots e1) by (apply upsertSnapshot_unique, Hu).
  assert (Hf1 : invFrame e1 = invFrame e).
  { apply (upsertSnapshot_inv e zoneId x v NON_RFID None e). reflexivity. }
  destruct (in_dec string_dec s r) as [Hin|Hnin].
  - rewrite (IH e1 Hu1 Hr s Hin). apply calculateNonRFIDInventory_frame, Hf1.
  - destruct Hs as [<-|Hs]; [|contradiction].
    destruct (upsertLoop_keeps zoneId NON_RFID body Hbody r e1 Hu1) as [_ [_ Hc]].
    rewrite Hc by tauto.
    destruct (upsertSnapshot_read_back zoneId x v NON_RFID None e Hu) as [Hv _].
    fold e1 in Hv. rewrite Hv. apply writtenQty_nonneg, calculateNonRFIDInventory_nonneg.
Qed.

Lemma getCurrentInventoryQty_after_evaluateMinMax zoneId e z s src :
  getCurrentInventoryQty (exec (evaluateMinMax zoneId) e) z s src
  = getCurrentInventoryQty e z s src.
Proof.
  unfold getCurrentInventoryQty.
  rewrite (planFrame_snapshots _ _ (evaluateMinMax_frame zoneId e)). reflexivity.
Qed.

(** X9. A recompute writes the ledger balance: with unique snapshot keys,
    after [calculateZoneInventory z] the current NON_RFID quantity of every
    SKU with an active NON_RFID rule at [z] is what
    [calculateNonRFIDInventory] computed for it in the state before. *)
Theorem calculateZoneInventory_writes_ledger (zoneId : string) (e : Engine)
    (r : ReplenishmentRule) :
  uniqueSnapshots e ->
  In r (rules e) ->
  rule_zoneId r = zoneId -> rule_source r = NON_RFID -> rule_isActive r = true ->
  getCurrentInventoryQty (exec (calculateZoneInventory zoneId) e) zoneId (rule_skuId r) NON_RFID
  = calculateNonRFIDInventory e (rule_skuId r) zoneId.
Proof.
  intros Hu Hr Hz Hs Ha. unfold calculateZoneInventory. run.
  match goal with
  | |- context [exec (forEach ?L ?b) e] =>
      set (L1 := L); set (b1 := b)
  end.
  assert (Hb1 : forall x e', exists q c,
             exec (b1 x) e' = exec (upsertSnapshot zoneId x q RFID c) e').
  { intros x e'. unfold b1. eauto. }
  destruct (upsertLoop_keeps zoneId RFID b1 Hb1 L1 e Hu) as [Hu1 [Hf1 Hc1]].
  set (e1 := exec (forEach L1 b1) e) in *.
  rewrite getCurrentInventoryQty_after_evaluateMinMax.
  rewrite nonRfidLoop_values; [apply calculateNonRFIDInventory_frame, Hf1 | exact Hu1
                              | apply dedup_NoDup |].
  apply dedup_in. apply in_map_iff. exists r. split; [reflexivity|].
  apply filter_In. split; [exact Hr|].
  rewrite Hz, String.eqb_refl, Ha. unfold isRfid. rewrite Hs. reflexivity.
Qed.

Lemma calculateZoneInventory_writes_ledger_witness :
  getCurrentInventoryQty (exec (calculateZoneInventory "shelf-a") demoEngine)
    "shelf-a" "SKU-NR-1" NON_RFID
  = calculateNonRFIDInventory demoEngine "SKU-NR-1" "shelf-a".
Proof.
  apply (calculateZoneInventory_writes_ledger "shelf-a" demoEngine demoRule).
  - vm_compute. repeat constructor; simpl; intuition discriminate.
  - left. reflexivity.
  - reflexivity.
  - reflexivity.
  - reflexivity.
Defined.

(** ** Basket items keep their identity, closed ones their status *)

Lemma basket_same g n k it0 e e' :
  customerBasketItems e' = customerBasketItems e -> basketAt g n k it0 e -> basketAt g n k it0 e'.
Proof. unfold basketAt. intros H. rewrite H. auto. Qed.

Lemma basket_updateAt_same g n k it0 j f e :
  (forall it, itemKey (f it) = itemKey it /\ item_status (f it) = item_status it) ->
  basketAt g n k it0 e ->
  basketAt g n k it0 (set_customerBasketItems (updateAt j f (customerBasketItems e)) e).
Proof.
  intros Hf (Hl & it & Ht & Hk & Hc). unfold basketAt. simpl.
  split; [rewrite length_updateAt; exact Hl|].
  destruct (Nat.eq_dec k j) as [->|Hn].
  - exists (f it). rewrite updateAt_nth_error, Ht. destruct (Hf it) as [H1 H2].
    split; [reflexivity|]. split; [congruence|]. intros Ho. rewrite H2. auto.
  - exists it. rewrite updateAt_nth_error_other by exact Hn. auto.
Qed.

(** A write to a position other than [k] whenever [it0] is closed. *)
Lemma basket_updateAt_away g n k it0 j f e :
  (forall it, itemKey (f it) = itemKey it) ->
  (inCart it0 = false -> j <> k) ->
  basketAt g n k it0 e ->
  basketAt g n k it0 (set_customerBasketItems (updateAt j f (customerBasketItems e)) e).
Proof.
  intros Hf Hj (Hl & it & Ht & Hk & Hc). unfold basketAt. simpl.
  split; [rewrite length_updateAt; exact Hl|].
  destruct (Nat.eq_dec k j) as [->|Hn].
  - exists (f it). rewrite updateAt_nth_error, Ht. split; [reflexivity|].
    split; [rewrite Hf; exact Hk|]. intros Hcl. destruct (Hj Hcl eq_refl).
  - exists it. rewrite updateAt_nth_error_other by exact Hn. auto.
Qed.

(** An item found in the cart in a state where position [k] was already
    tracked is not at [k] if [it0] is closed. *)
Lemma basket_found_in_cart g n k it0 e0 j item :
  basketAt g n k it0 e0 -> nth_error (customerBasketItems e0) j = Some item ->
  inCart item = true -> inCart it0 = false -> j <> k.
Proof.
  intros (_ & it & Ht & _ & Hc) Hj Ho Hcl ->. rewrite Ht in Hj. inversion Hj; subst item.
  specialize (Hc Hcl). unfold inCart in *. rewrite Hc in Ho. congruence.
Qed.

Lemma basket_append g k it0 n e0 e item :
  g = true -> basketAt g n k it0 e0 ->
  basketAt g n k it0 (set_customerBasketItems (customerBasketItems e0 ++ [item])%list e).
Proof.
  intros -> (_ & it & Ht & Hk & Hc). split; [discriminate|]. exists it. simpl.
  split; [|auto]. rewrite nth_error_app1; [exact Ht|]. apply nth_error_Some. congruence.
Qed.

Lemma find_indexed_some {A} (p : nat * A -> bool) (l : list A) i x :
  find p (indexed l) = Some (i, x) -> nth_error l i = Some x /\ p (i, x) = true.
Proof.
  intros H. apply find_some in H. destruct H as [Hin Hp]. split; [|exact Hp].
  apply indexed_in, Hin.
Qed.

Create HintDb basket discriminated.

Ltac keeps_item :=
  intros; simpl;
  repeat match goal with
         | |- context [if ?b then _ else _] => destruct b
         | |- context [match ?x with _ => _ end] => destruct x
         end;
  repeat split; reflexivity.

Ltac item_in_cart :=
  match goal with
  | |- inCart ?it = true => destruct (inCart it); simpl in *; congruence
  end.

Ltac basket_leaf :=
  match goal with
  | H : basketAt ?g ?n ?k ?it0 ?e |- basketAt ?g ?n ?k ?it0 _ =>
      repeat match goal with
             | |- basketAt _ _ _ _ (match ?x with _ => _ end) => destruct x
             end;
      unfold updItem;
      solve [ exact H
            | apply (basket_same g n k it0 e); [reflexivity | exact H]
            | apply basket_updateAt_same; [keeps_item | exact H]
            | match goal with
              | H0 : basketAt g n k it0 ?e0,
                Hf : find _ (indexed (customerBasketItems ?e0)) = Some (?j, ?item) |- _ =>
                  apply basket_updateAt_away;
                  [keeps_item
                  | apply (basket_found_in_cart g n k it0 e0 j item);
                    [exact H0 | exact (proj1 (find_indexed_some _ _ _ _ Hf)) | item_in_cart]
                  | exact H]
              end ]
  end.

Ltac basket_away Hav :=
  match goal with
  | H : basketAt ?g ?n ?k ?it0 ?e |- basketAt ?g ?n ?k ?it0 _ =>
      unfold updItem; apply basket_updateAt_away; [keeps_item | exact Hav | exact H]
  end.

Ltac basket_auto := repeat first [ solve [eauto with basket] | basket_leaf | pres_step ].

Section BasketItems.

Variables (grow : bool) (len pos : nat) (it0 : CustomerBasketItem).

Lemma upsertSnapshot_bsk z s q src c :
  preserves (basketAt grow len pos it0) (upsertSnapshot z s q src c).
Proof.
  unfold upsertSnapshot. apply preserves_modify. intros e H.
  destruct (_ && _); destruct (findIndex _ _); exact H.
Qed.
#[local] Hint Resolve upsertSnapshot_bsk : basket.

Lemma pushTaskAudit_bsk a b c d : preserves (basketAt grow len pos it0) (pushTaskAudit a b c d).
Proof. unfold pushTaskAudit. basket_auto. Qed.
#[local] Hint Resolve pushTaskAudit_bsk : basket.

Lemma autoAssignPendingTasks_bsk at_ :
  preserves (basketAt grow len pos it0) (autoAssignPendingTasks at_).
Proof. unfold autoAssignPendingTasks, assignPendingTask. basket_auto. Qed.
#[local] Hint Resolve autoAssignPendingTasks_bsk : basket.

Lemma autoAssignPendingReceivingOrders_bsk at_ :
  preserves (basketAt grow len pos it0) (autoAssignPendingReceivingOrders at_).
Proof. unfold autoAssignPendingReceivingOrders. basket_auto. Qed.
#[local] Hint Resolve autoAssignPendingReceivingOrders_bsk : basket.

Lemma closeReplenishmentTask_bsk t r :
  preserves (basketAt grow len pos it0) (closeReplenishmentTask t r).
Proof. unfold closeReplenishmentTask. basket_auto. Qed.
#[local] Hint Resolve closeReplenishmentTask_bsk : basket.

Lemma generateReplenishmentTask_bsk rule d t s c :
  preserves (basketAt grow len pos it0) (generateReplenishmentTask rule d t s c).
Proof. unfold generateReplenishmentTask. basket_auto. Qed.
#[local] Hint Resolve generateReplenishmentTask_bsk : basket.

Lemma createReceivingOrder_bsk p : preserves (basketAt grow len pos it0) (createReceivingOrder p).
Proof. unfold createReceivingOrder. basket_auto. Qed.
#[local] Hint Resolve createReceivingOrder_bsk : basket.

Lemma evaluateInboundReceivingNeed_bsk z r c :
  preserves (basketAt grow len pos it0) (evaluateInboundReceivingNeed z r c).
Proof. unfold evaluateInboundReceivingNeed. basket_auto. Qed.
#[local] Hint Resolve evaluateInboundReceivingNeed_bsk : basket.

Lemma mergePlan_bsk z r o a : preserves (basketAt grow len pos it0) (mergePlan z r o a).
Proof. unfold mergePlan. basket_auto. Qed.
#[local] Hint Resolve mergePlan_bsk : basket.

Lemma trimPlan_bsk a o : preserves (basketAt grow len pos it0) (trimPlan a o).
Proof. unfold trimPlan. basket_auto. Qed.
#[local] Hint Resolve trimPlan_bsk : basket.

Lemma refreshSources_bsk r o : preserves (basketAt grow len pos it0) (refreshSources r o).
Proof. unfold refreshSources. basket_auto. Qed.
#[local] Hint Resolve refreshSources_bsk : basket.

Lemma triggerPlan_bsk rule c r : preserves (basketAt grow len pos it0) (triggerPlan rule c r).
Proof. unfold triggerPlan. basket_auto. Qed.
#[local] Hint Resolve triggerPlan_bsk : basket.

Lemma evaluateSalesRule_bsk z r c : preserves (basketAt grow len pos it0) (evaluateSalesRule z r c).
Proof. unfold evaluateSalesRule. basket_auto. Qed.
#[local] Hint Resolve evaluateSalesRule_bsk : basket.

Lemma evaluateMinMax_bsk z : preserves (basketAt grow len pos it0) (evaluateMinMax z).
Proof. unfold evaluateMinMax. basket_auto. Qed.
#[local] Hint Resolve evaluateMinMax_bsk : basket.

Lemma calculateZoneInventory_bsk z : preserves (basketAt grow len pos it0) (calculateZoneInventory z).
Proof. unfold calculateZoneInventory. basket_auto. Qed.
#[local] Hint Resolve calculateZoneInventory_bsk : basket.

Lemma applyPendingRFIDPicks_bsk z : preserves (basketAt grow len pos it0) (applyPendingRFIDPicks z).
Proof. unfold applyPendingRFIDPicks. basket_auto. Qed.
#[local] Hint Resolve applyPendingRFIDPicks_bsk : basket.

Lemma ingestRFIDRead_bsk event : preserves (basketAt grow len pos it0) (ingestRFIDRead event).
Proof. unfold ingestRFIDRead. basket_auto. Qed.
#[local] Hint Resolve ingestRFIDRead_bsk : basket.

Lemma forceZoneSweep_bsk z t : preserves (basketAt grow len pos it0) (forceZoneSweep z t).
Proof. unfold forceZoneSweep. basket_auto. Qed.
#[local] Hint Resolve forceZoneSweep_bsk : basket.

Lemma scanZone_bsk z t : preserves (basketAt grow len pos it0) (scanZone z t).
Proof. unfold scanZone. basket_auto. Qed.
#[local] Hint Resolve scanZone_bsk : basket.

Lemma deductRFIDImmediate_bsk z s q : preserves (basketAt grow len pos it0) (deductRFIDImmediate z s q).
Proof. unfold deductRFIDImmediate. basket_auto. Qed.
#[local] Hint Resolve deductRFIDImmediate_bsk : basket.

Lemma ingestSalesEvent_bsk event : preserves (basketAt grow len pos it0) (ingestSalesEvent event).
Proof. unfold ingestSalesEvent. basket_auto. Qed.
#[local] Hint Resolve ingestSalesEvent_bsk : basket.

Lemma upsertCustomer_bsk id name : preserves (basketAt grow len pos it0) (upsertCustomer id name).
Proof. unfold upsertCustomer. basket_auto. Qed.
#[local] Hint Resolve upsertCustomer_bsk : basket.

Lemma addCustomerItem_bsk h p :
  grow = true -> preserves (basketAt grow len pos it0) (addCustomerItem h p).
Proof.
  intros Hg. unfold addCustomerItem.
  repeat first [ solve [eauto with basket] | basket_leaf
               | match goal with
                 | H0 : basketAt grow len pos it0 ?e0
                   |- basketAt grow len pos it0
                        (set_customerBasketItems (customerBasketItems ?e0 ++ _)%list ?e) =>
                     apply (basket_append grow pos it0 len e0 e); [exact Hg | exact H0]
                 end
               | pres_step ].
Qed.

Lemma createExternalRFIDForDestination_bsk s d q a :
  preserves (basketAt grow len pos it0) (createExternalRFIDForDestination s d q a).
Proof. unfold createExternalRFIDForDestination. basket_auto. Qed.
#[local] Hint Resolve createExternalRFIDForDestination_bsk : basket.

Lemma restoreConsumedEpcs_bsk b s z d a :
  preserves (basketAt grow len pos it0) (restoreConsumedEpcs b s z d a).
Proof. unfold restoreConsumedEpcs. basket_auto. Qed.
#[local] Hint Resolve restoreConsumedEpcs_bsk : basket.

Lemma removeCustomerItem_bsk b t : preserves (basketAt grow len pos it0) (removeCustomerItem b t).
Proof. unfold removeCustomerItem. basket_auto. Qed.
#[local] Hint Resolve removeCustomerItem_bsk : basket.

Lemma moveRFIDEpcs_bsk s d k q a : preserves (basketAt grow len pos it0) (moveRFIDEpcs s d k q a).
Proof. unfold moveRFIDEpcs. basket_auto. Qed.
#[local] Hint Resolve moveRFIDEpcs_bsk : basket.

Lemma transferConsumedPendingEpcsToZone_bsk b s d a :
  preserves (basketAt grow len pos it0) (transferConsumedPendingEpcsToZone b s d a).
Proof. unfold transferConsumedPendingEpcsToZone. basket_auto. Qed.
#[local] Hint Resolve transferConsumedPendingEpcsToZone_bsk : basket.

Lemma transferNonRfid_bsk s d k q : preserves (basketAt grow len pos it0) (transferNonRfid s d k q).
Proof. unfold transferNonRfid. basket_auto. Qed.
#[local] Hint Resolve transferNonRfid_bsk : basket.

Lemma applyTransferFromSource_bsk s d k q :
  preserves (basketAt grow len pos it0) (applyTransferFromSource s d k q).
Proof. unfold applyTransferFromSource. basket_auto. Qed.
#[local] Hint Resolve applyTransferFromSource_bsk : basket.

Lemma createPersonalizationTask_bsk d s q src p :
  preserves (basketAt grow len pos it0) (createPersonalizationTask d s q src p).
Proof. unfold createPersonalizationTask. basket_auto. Qed.
#[local] Hint Resolve createPersonalizationTask_bsk : basket.

Lemma routeToCashierStorage_bsk n item src t :
  preserves (basketAt grow len pos it0) (routeToCashierStorage n item src t).
Proof. unfold routeToCashierStorage. basket_auto. Qed.
#[local] Hint Resolve routeToCashierStorage_bsk : basket.

Lemma processPersonalizationSale_bsk n src t :
  preserves (basketAt grow len pos it0) (processPersonalizationSale n src t).
Proof. unfold processPersonalizationSale. basket_auto. Qed.
#[local] Hint Resolve processPersonalizationSale_bsk : basket.

Lemma checkoutItem_bsk h t s i item :
  (inCart it0 = false -> i <> pos) ->
  preserves (basketAt grow len pos it0) (checkoutItem h t s i item).
Proof.
  intros Hav. unfold checkoutItem.
  repeat first [ solve [eauto with basket] | basket_leaf | basket_away Hav | pres_step ].
Qed.

Lemma checkoutCustomer_bsk h c t : preserves (basketAt grow len pos it0) (checkoutCustomer h c t).
Proof.
  unfold checkoutCustomer.
  apply preserves_bind; [basket_auto|]. intros _.
  apply preserves_bind_get. intros e0 H0.
  destruct (_ =? _)%nat; [basket_auto|].
  apply preserves_bind; [|intros [s a]; basket_auto].
  apply preserves_foldM_in. intros [s a] i Hi.
  apply in_map_iff in Hi. destruct Hi as [[j item] [Hj Hin]]. simpl in Hj. subst j.
  apply filter_In in Hin. destruct Hin as [Hin Hp]. apply indexed_in in Hin.
  simpl in Hp. apply andb_prop in Hp. destruct Hp as [_ Hp].
  pose proof (basket_found_in_cart grow len pos it0 e0 i item H0 Hin Hp) as Hav.
  repeat first [ solve [eauto using checkoutItem_bsk with basket] | basket_leaf | pres_step ].
Qed.
#[local] Hint Resolve checkoutCustomer_bsk : basket.

Lemma tryFallbackSource_bsk n d s q st c :
  preserves (basketAt grow len pos it0) (tryFallbackSource n d s q st c).
Proof. unfold tryFallbackSource. basket_auto. Qed.
#[local] Hint Resolve tryFallbackSource_bsk : basket.

Lemma attemptTransfers_bsk n t q s : preserves (basketAt grow len pos it0) (attemptTransfers n t q s).
Proof. unfold attemptTransfers. basket_auto. Qed.
#[local] Hint Resolve attemptTransfers_bsk : basket.

Lemma confirmTask_bsk t p : preserves (basketAt grow len pos it0) (confirmTask t p).
Proof. unfold confirmTask. basket_auto. Qed.
#[local] Hint Resolve confirmTask_bsk : basket.

Lemma recalculateZonesDependingOnSource_bsk s :
  preserves (basketAt grow len pos it0) (recalculateZonesDependingOnSource s).
Proof. unfold recalculateZonesDependingOnSource. basket_auto. Qed.
#[local] Hint Resolve recalculateZonesDependingOnSource_bsk : basket.

Lemma refreshOpenTaskSourceCandidates_bsk :
  preserves (basketAt grow len pos it0) (refreshOpenTaskSourceCandidates).
Proof. unfold refreshOpenTaskSourceCandidates. basket_auto. Qed.
#[local] Hint Resolve refreshOpenTaskSourceCandidates_bsk : basket.

Lemma pushConfirmation_bsk m : preserves (basketAt grow len pos it0) (pushConfirmation m).
Proof. unfold pushConfirmation. basket_auto. Qed.
#[local] Hint Resolve pushConfirmation_bsk : basket.

Lemma confirmReceivingOrder_bsk o p : preserves (basketAt grow len pos it0) (confirmReceivingOrder o p).
Proof. unfold confirmReceivingOrder. basket_auto. Qed.
#[local] Hint Resolve confirmReceivingOrder_bsk : basket.

Lemma updateLocation_bsk p : preserves (basketAt grow len pos it0) (updateLocation p).
Proof. unfold updateLocation. basket_auto. Qed.
#[local] Hint Resolve updateLocation_bsk : basket.

Lemma createLocation_bsk p : preserves (basketAt grow len pos it0) (createLocation p).
Proof. unfold createLocation. basket_auto. Qed.
#[local] Hint Resolve createLocation_bsk : basket.

Lemma reassign_bsk : preserves (basketAt grow len pos it0) (reassign).
Proof. unfold reassign. basket_auto. Qed.
#[local] Hint Resolve reassign_bsk : basket.

Lemma updateStaffShift_bsk s b : preserves (basketAt grow len pos it0) (updateStaffShift s b).
Proof. unfold updateStaffShift. basket_auto. Qed.
#[local] Hint Resolve updateStaffShift_bsk : basket.

Lemma updateStaffScope_bsk s b z : preserves (basketAt grow len pos it0) (updateStaffScope s b z).
Proof. unfold updateStaffScope. basket_auto. Qed.
#[local] Hint Resolve updateStaffScope_bsk : basket.

Lemma assignTask_bsk t s a : preserves (basketAt grow len pos it0) (assignTask t s a).
Proof. unfold assignTask. basket_auto. Qed.
#[local] Hint Resolve assignTask_bsk : basket.

Lemma startTask_bsk t s a : preserves (basketAt grow len pos it0) (startTask t s a).
Proof. unfold startTask. basket_auto. Qed.
#[local] Hint Resolve startTask_bsk : basket.

Lemma upsertRule_bsk p : preserves (basketAt grow len pos it0) (upsertRule p).
Proof. unfold upsertRule. basket_auto. Qed.
#[local] Hint Resolve upsertRule_bsk : basket.

Lemma deleteRule_bsk r : preserves (basketAt grow len pos it0) (deleteRule r).
Proof. unfold deleteRule. basket_auto. Qed.
#[local] Hint Resolve deleteRule_bsk : basket.

Lemma getTasks_bsk s : preserves (basketAt grow len pos it0) (getTasks s).
Proof. unfold getTasks. basket_auto. Qed.
#[local] Hint Resolve getTasks_bsk : basket.

Lemma getReceivingOrders_bsk s : preserves (basketAt grow len pos it0) (getReceivingOrders s).
Proof. unfold getReceivingOrders. basket_auto. Qed.
#[local] Hint Resolve getReceivingOrders_bsk : basket.

Lemma seedDemoEvents_bsk : preserves (basketAt grow len pos it0) (seedDemoEvents).
Proof. unfold seedDemoEvents. basket_auto. Qed.
#[local] Hint Resolve seedDemoEvents_bsk : basket.

Lemma loadDemoStream_bsk r s : preserves (basketAt grow len pos it0) (loadDemoStream r s).
Proof. unfold loadDemoStream. basket_auto. Qed.
#[local] Hint Resolve loadDemoStream_bsk : basket.

Lemma run_bsk (c : Command) : grow = true -> preserves (basketAt grow len pos it0) (run c).
Proof.
  intros Hg. destruct c; unfold run;
    repeat first [ solve [eauto using addCustomerItem_bsk with basket]
                 | basket_leaf | pres_step ].
Qed.

End BasketItems.

Lemma runAll_basket len pos it0 (cs : list Command) (e : Engine) :
  basketAt true len pos it0 e -> basketAt true len pos it0 (runAll cs e).
Proof.
  revert e. induction cs as [|c r IH]; intros e H; simpl; [exact H|].
  apply IH, run_bsk; [reflexivity | exact H].
Qed.

(** X10. Basket items are never removed or reordered, the fields an item is
    created with never change, and an item that is SOLD or REMOVED keeps that
    status whatever commands follow. *)
Theorem basket_items_keep_identity (cs : list Command) (e : Engine) (k : nat)
    (it0 : CustomerBasketItem) :
  nth_error (customerBasketItems e) k = Some it0 ->
  exists it,
    nth_error (customerBasketItems (runAll cs e)) k = Some it
    /\ itemKey it = itemKey it0
    /\ (inCart it0 = false -> item_status it = item_status it0).
Proof.
  intros H.
  assert (H0 : basketAt true 0 k it0 e).
  { split; [discriminate|]. exists it0. auto. }
  destruct (runAll_basket 0 k it0 cs e H0) as (_ & it & Ht & Hk & Hs).
  exists it. auto.
Qed.

Lemma basket_items_keep_identity_witness :
  exists it,
    nth_error (customerBasketItems
                 (runAll [CmdCheckoutCustomer 0 "cust-1" (initialCursor + 2000);
                          CmdAddCustomerItem 0 jerseyPayload]
                         (jerseyInCart true))) 0 = Some it
    /\ item_customerId it = "cust-1" /\ item_skuId it = "SKU-JSY-1".
Proof.
  edestruct (basket_items_keep_identity
               [CmdCheckoutCustomer 0 "cust-1" (initialCursor + 2000);
                CmdAddCustomerItem 0 jerseyPayload] (jerseyInCart true) 0)
    as (it & Ht & Hk & _); [vm_compute; reflexivity|].
  exists it. split; [exact Ht|]. unfold itemKey in Hk. simpl in Hk. inversion Hk. auto.
Defined.

(** ** Checkout empties the cart *)

Lemma exec_foldM_app {A S} (l1 l2 : list A) (s : S) (body : S -> A -> M S) e :
  exec (foldM (l1 ++ l2) s body) e
  = exec (foldM l2 (eval (foldM l1 s body) e) body) (exec (foldM l1 s body) e).
Proof.
  revert s e. induction l1 as [|x r IH]; intros s e; [reflexivity|].
  simpl app. rewrite !exec_foldM_cons, eval_foldM_cons. apply IH.
Qed.

Lemma checkoutCustomer_steps h c t e :
  let e0 := set_nowCursor t e in
  let items := cartRefs e0 c in
  exec (checkoutCustomer h c t) e
  = if (List.length items =? 0)%nat then e0
    else exec (checkoutWrapUp c (snd (eval (foldM items (0, []) (checkoutTurn h t)) e0)))
              (exec (foldM items (0, []) (checkoutTurn h t)) e0).
Proof.
  intros e0 items. unfold checkoutCustomer. run.
  change (map fst (filter _ (indexed (customerBasketItems (set_nowCursor t e)))))
    with items.
  destruct (List.length items =? 0)%nat; [reflexivity|]. run.
  change (foldM items (0, []) _) with (foldM items (0, []) (checkoutTurn h t)).
  fold e0. destruct (eval (foldM items (0, []) (checkoutTurn h t)) e0) as [s a].
  unfold checkoutWrapUp. run. reflexivity.
Qed.

Lemma cartRefs_in e c j :
  In j (cartRefs e c)
  <-> exists it, nth_error (customerBasketItems e) j = Some it
                 /\ item_customerId it = c /\ inCart it = true.
Proof.
  unfold cartRefs. rewrite in_map_iff. split.
  - intros [[i it] [Hi Hin]]. simpl in Hi. subst i. apply filter_In in Hin.
    destruct Hin as [Hin Hp]. simpl in Hp. apply andb_prop in Hp. destruct Hp as [Hc Hs].
    exists it. split; [apply indexed_in, Hin|]. split; [apply String.eqb_eq, Hc | exact Hs].
  - intros [it [Hj [Hc Hs]]]. exists (j, it). split; [reflexivity|].
    apply filter_In. split; [apply nth_error_indexed, Hj|]. simpl.
    rewrite Hs, (proj2 (String.eqb_eq _ _) Hc). reflexivity.
Qed.

Lemma cartRefs_NoDup e c : NoDup (cartRefs e c).
Proof.
  unfold cartRefs. apply NoDup_map_fst_filter. rewrite map_fst_indexed. apply seq_NoDup.
Qed.

Lemma checkoutTurn_bsk grow len pos it0 h t st i :
  (inCart it0 = false -> i <> pos) ->
  preserves (basketAt grow len pos it0) (checkoutTurn h t st i).
Proof.
  intros Hav. unfold checkoutTurn. destruct st as [s a].
  repeat first [ solve [eauto using checkoutItem_bsk with basket] | basket_leaf | pres_step ].
Qed.

Lemma checkoutLoop_bsk grow len pos it0 h t l st :
  (inCart it0 = false -> ~ In pos l) ->
  preserves (basketAt grow len pos it0) (foldM l st (checkoutTurn h t)).
Proof.
  intros Hav. apply preserves_foldM_in. intros s i Hi. apply checkoutTurn_bsk.
  intros Hc ->. exact (Hav Hc Hi).
Qed.

Lemma checkoutWrapUp_bsk grow len pos it0 c a :
  preserves (basketAt grow len pos it0) (checkoutWrapUp c a).
Proof.
  unfold checkoutWrapUp.
  repeat first [ solve [eauto using calculateZoneInventory_bsk with basket]
               | basket_leaf | pres_step ].
Qed.

(** After its turn, an item is sold. *)
Lemma checkoutTurn_sells len j it0 h t st e :
  inCart it0 = true -> basketAt false len j it0 e ->
  exists it, basketAt false len j it (exec (checkoutTurn h t st j) e)
             /\ itemKey it = itemKey it0 /\ item_status it = SOLD.
Proof.
  intros Hin H.
  assert (H1 : basketAt false len j it0 (exec (checkoutTurn h t st j) e)).
  { apply checkoutTurn_bsk; [congruence | exact H]. }
  destruct H as (_ & it1 & Ht1 & _ & _).
  destruct H1 as (Hl & it & Ht & Hk & _).
  exists it. split; [split; [exact Hl | exists it; auto]|]. split; [exact Hk|].
  unfold checkoutTurn, checkoutItem in Ht. destruct st as [s a].
  autorewrite with run in Ht. rewrite Ht1 in Ht. autorewrite with run in Ht.
  unfold updItem in Ht. simpl customerBasketItems in Ht.
  rewrite updateAt_nth_error in Ht.
  match type of Ht with
  | option_map _ ?o = _ => destruct o as [x|]; [|discriminate]
  end.
  simpl in Ht. inversion Ht. reflexivity.
Qed.

Lemma basketAt_here len j it e :
  List.length (customerBasketItems e) = len ->
  nth_error (customerBasketItems e) j = Some it -> basketAt false len j it e.
Proof. intros Hl Hj. split; [auto|]. exists it. auto. Qed.

Lemma checkoutCustomer_sells h c t e j it0 :
  nth_error (customerBasketItems e) j = Some it0 ->
  item_customerId it0 = c ->
  exists it, nth_error (customerBasketItems (exec (checkoutCustomer h c t) e)) j = Some it
             /\ itemKey it = itemKey it0 /\ inCart it = false
             /\ List.length (customerBasketItems (exec (checkoutCustomer h c t) e))
                = List.length (customerBasketItems e).
Proof.
  intros Hj Hc.
  pose proof (checkoutCustomer_bsk false (List.length (customerBasketItems e)) j it0 h c t e
                (basketAt_here _ j it0 e eq_refl Hj)) as Hall.
  destruct (inCart it0) eqn:Hin.
  2:{ destruct Hall as (Hl & it & Ht & Hk & Hs). exists it.
      split; [exact Ht|]. split; [exact Hk|]. split; [|apply Hl; reflexivity].
      unfold inCart in *. rewrite (Hs Hin). exact Hin. }
  destruct Hall as (Hlen & _).
  rewrite checkoutCustomer_steps in *. cbv zeta in *.
  set (e0 := set_nowCursor t e) in *.
  assert (Hj0 : nth_error (customerBasketItems e0) j = Some it0) by exact Hj.
  assert (Hmem : In j (cartRefs e0 c)).
  { apply cartRefs_in. exists it0. auto. }
  destruct (List.length (cartRefs e0 c) =? 0)%nat eqn:Hz.
  { apply Nat.eqb_eq in Hz. destruct (cartRefs e0 c); [destruct Hmem | discriminate]. }
  pose proof (cartRefs_NoDup e0 c) as Hnd.
  destruct (in_split _ _ Hmem) as (l1 & l2 & Hsplit).
  rewrite Hsplit in *.
  assert (Hn2 : ~ In j l2).
  { apply NoDup_remove_2 in Hnd. intros H. apply Hnd, in_or_app. right. exact H. }
  rewrite exec_foldM_app, exec_foldM_cons.
  set (w := checkoutWrapUp c _).
  set (e1 := exec (foldM l1 (0, []) (checkoutTurn h t)) e0).
  set (s1 := eval (foldM l1 (0, []) (checkoutTurn h t)) e0).
  assert (H1 : basketAt false (List.length (customerBasketItems e)) j it0 e1).
  { apply checkoutLoop_bsk; [congruence|]. apply basketAt_here; [reflexivity | exact Hj0]. }
  destruct (checkoutTurn_sells _ j it0 h t s1 e1 Hin H1) as (it2 & H2 & Hk2 & Hs2).
  assert (Hc2 : inCart it2 = false) by (unfold inCart; rewrite Hs2; reflexivity).
  set (e2 := exec (checkoutTurn h t s1 j) e1) in *.
  assert (H3 : basketAt false (List.length (customerBasketItems e)) j it2
                 (exec (foldM l2 (eval (checkoutTurn h t s1 j) e1) (checkoutTurn h t)) e2)).
  { apply checkoutLoop_bsk; [intros _; exact Hn2 | exact H2]. }
  apply (checkoutWrapUp_bsk false _ j it2 c
           (snd (eval (foldM (l1 ++ j :: l2) (0, []) (checkoutTurn h t)) e0))) in H3.
  fold w in H3. destruct H3 as (Hl & it & Ht & Hk & Hs).
  exists it. split; [exact Ht|]. split.
  - congruence.
  - split; [|apply Hl; reflexivity].
    unfold inCart in *. rewrite (Hs Hc2). rewrite Hs2. reflexivity.
Qed.

(** X11. Checkout empties the cart: in whatever state [checkoutCustomer] is
    called, the customer has no item IN_CART afterwards. *)
Theorem checkoutCustomer_empties_cart (hostNow : Z) (customerId : string) (timestamp : Z)
    (e : Engine) :
  getCustomerBasket (exec (checkoutCustomer hostNow customerId timestamp) e) customerId = [].
Proof.
  unfold getCustomerBasket. apply filter_none. intros it Hin.
  apply In_nth_error in Hin. destruct Hin as [j Hj].
  set (e' := exec (checkoutCustomer hostNow customerId timestamp) e) in *.
  destruct (String.eqb (item_customerId it) customerId) eqn:Hc; [|reflexivity].
  apply String.eqb_eq in Hc. simpl.
  assert (Hlen : List.length (customerBasketItems e') = List.length (customerBasketItems e)).
  { destruct (customerBasketItems e) as [|it0 r] eqn:He.
    - unfold e'. rewrite checkoutCustomer_steps. cbv zeta. unfold cartRefs.
      simpl customerBasketItems. rewrite He. simpl. rewrite He. reflexivity.
    - destruct (checkoutCustomer_sells hostNow (item_customerId it0) timestamp e 0 it0)
        as (_ & _ & _ & _ & Hl); [rewrite He; reflexivity | reflexivity|].
      pose proof (checkoutCustomer_bsk false (List.length (customerBasketItems e)) 0%nat it0
                    hostNow customerId timestamp e
                    (basketAt_here _ 0%nat it0 e eq_refl ltac:(rewrite He; reflexivity)))
        as (Hl' & _).
      fold e' in Hl'. rewrite (Hl' eq_refl), He. reflexivity. }
  assert (Hlt : (j < List.length (customerBasketItems e))%nat).
  { rewrite <- Hlen. apply nth_error_Some. congruence. }
  destruct (nth_error (customerBasketItems e) j) as [it0|] eqn:Hj0;
    [|apply nth_error_None in Hj0; lia].
  pose proof (checkoutCustomer_bsk false (List.length (customerBasketItems e)) j it0
                hostNow customerId timestamp e (basketAt_here _ j it0 e eq_refl Hj0))
    as (_ & it1 & Ht1 & Hk1 & _).
  fold e' in Ht1. rewrite Hj in Ht1. inversion Ht1; subst it1.
  assert (Hc0 : item_customerId it0 = customerId).
  { unfold itemKey in Hk1. inversion Hk1. congruence. }
  destruct (checkoutCustomer_sells hostNow customerId timestamp e j it0 Hj0 Hc0)
    as (it2 & Ht2 & _ & Hs2 & _).
  fold e' in Ht2. rewrite Hj in Ht2. inversion Ht2; subst it2. rewrite Hs2. reflexivity.
Qed.

(** ** Automatic assignment *)

Lemma pickMember_fold_spec load (rest : list StaffMember) first :
  let pick := fold_left (fun selected candidate =>
              let selectedLoad := loadOf load (staff_id selected) in
              let candidateLoad := loadOf load (staff_id candidate) in
              if candidateLoad =? selectedLoad
              then (if String.ltb (staff_id candidate) (staff_id selected)
                    then candidate else selected)
              else (if candidateLoad <? selectedLoad then candidate else selected))
            rest first in
  In pick (first :: rest)
  /\ forall c, In c (first :: rest) -> loadOf load (staff_id pick) <= loadOf load (staff_id c).
Proof.
  revert first. induction rest as [|x r IH]; intros first; simpl.
  - split; [auto|]. intros c [<-|[]]. lia.
  - match goal with
    | |- context [fold_left ?f r ?s] => remember s as s0 eqn:Es0
    end.
    destruct (IH s0) as [Hin Hle]. cbv zeta in Hin, Hle |- *.
    assert (Hs0 : (s0 = first \/ s0 = x)
                  /\ loadOf load (staff_id s0) <= loadOf load (staff_id first)
                  /\ loadOf load (staff_id s0) <= loadOf load (staff_id x)).
    { subst s0. cbv zeta.
      destruct (loadOf load (staff_id x) =? loadOf load (staff_id first)) eqn:He.
      - apply Z.eqb_eq in He. destruct (String.ltb _ _); repeat split;
          try (left; reflexivity); try (right; reflexivity); lia.
      - apply Z.eqb_neq in He.
        destruct (loadOf load (staff_id x) <? loadOf load (staff_id first)) eqn:Hl;
          [apply Z.ltb_lt in Hl | apply Z.ltb_ge in Hl]; repeat split;
          try (left; reflexivity); try (right; reflexivity); lia. }
    clear Es0.
    destruct Hs0 as (Hor & H1 & H2). split.
    + simpl in Hin. destruct Hin as [Hin|Hin]; [|auto].
      rewrite <- Hin. destruct Hor as [->| ->]; auto.
    + intros c [<-|[<-|Hc]].
      * specialize (Hle s0 (or_introl eq_refl)). lia.
      * specialize (Hle s0 (or_introl eq_refl)). lia.
      * apply Hle. right. exact Hc.
Qed.

(** X12. The member the assigners pick from a pool is a member of the pool
    with the least load; nobody is picked only from an empty pool. *)
Theorem pickMember_least_loaded (loadByStaff : list (string * Z))
    (assignPool : list StaffMember) :
  match pickMember loadByStaff assignPool with
  | Some member =>
      In member assignPool
      /\ forall candidate, In candidate assignPool ->
           loadOf loadByStaff (staff_id member) <= loadOf loadByStaff (staff_id candidate)
  | None => assignPool = []
  end.
Proof.
  unfold pickMember. destruct assignPool as [|first rest]; [reflexivity|].
  apply pickMember_fold_spec.
Qed.

Lemma pickMember_some load pool :
  pool <> [] -> exists m, pickMember load pool = Some m /\ In m pool.
Proof.
  intros Hp. unfold pickMember. destruct pool as [|first rest]; [contradiction|].
  eexists. split; [reflexivity | apply pickMember_fold_spec].
Qed.

Lemma assignPoolFor_nonempty staff zoneId : staff <> [] -> fst (assignPoolFor staff zoneId) <> [].
Proof.
  intros Hs. unfold assignPoolFor.
  destruct (0 <? List.length (filter _ staff))%nat eqn:Hl; simpl; [|exact Hs].
  apply Nat.ltb_lt in Hl. intros He. rewrite He in Hl. simpl in Hl. lia.
Qed.

Lemma assignPendingTask_tasks at_ staff load i t e :
  staff <> [] -> nth_error (tasks e) i = Some t ->
  exists member,
    In member (fst (assignPoolFor staff (task_zoneId t)))
    /\ tasks (exec (assignPendingTask at_ staff load i) e)
       = updateAt i (assignedTo member at_) (tasks e).
Proof.
  intros Hs Hi. unfold assignPendingTask. run. rewrite Hi.
  pose proof (assignPoolFor_nonempty staff (task_zoneId t) Hs) as Hp.
  destruct (assignPoolFor staff (task_zoneId t)) as [pool scoped]. simpl in Hp.
  destruct (pickMember_some load pool Hp) as [m [Hm Hin]]. rewrite Hm. run.
  exists m. split; [exact Hin|]. unfold pushTaskAudit. run. reflexivity.
Qed.

Lemma assignLoop_tasks at_ staff (l : list nat) load e :
  staff <> [] -> NoDup l ->
  (forall i, In i l -> exists t, nth_error (tasks e) i = Some t) ->
  let e' := exec (foldM l load (assignPendingTask at_ staff)) e in
  List.length (tasks e') = List.length (tasks e)
  /\ forall i t, nth_error (tasks e) i = Some t ->
       (In i l -> exists member,
                    In member (fst (assignPoolFor staff (task_zoneId t)))
                    /\ nth_error (tasks e') i = Some (assignedTo member at_ t))
       /\ (~ In i l -> nth_error (tasks e') i = Some t).
Proof.
  intros Hs. revert load e. induction l as [|i0 r IH]; intros load e Hn Hr; cbv zeta.
  - split; [reflexivity|]. intros i t Hi. split; [intros []|auto].
  - inversion Hn as [|a b Hni Hnr]; subst. rewrite exec_foldM_cons.
    destruct (Hr i0 (or_introl eq_refl)) as [t0 Ht0].
    destruct (assignPendingTask_tasks at_ staff load i0 t0 e Hs Ht0) as [m [Hm Hstep]].
    set (e1 := exec (assignPendingTask at_ staff load i0) e) in *.
    assert (Hr1 : forall i, In i r -> exists t, nth_error (tasks e1) i = Some t).
    { intros i Hi. destruct (Hr i (or_intror Hi)) as [t Ht]. exists t.
      rewrite Hstep, updateAt_nth_error_other; [exact Ht|]. intros ->. exact (Hni Hi). }
    destruct (IH (eval (assignPendingTask at_ staff load i0) e) e1 Hnr Hr1) as [Hlen Hall].
    split; [rewrite Hlen, Hstep; apply length_updateAt|].
    intros i t Hi. destruct (Nat.eq_dec i i0) as [->|Hne].
    + rewrite Ht0 in Hi. inversion Hi; subst t0. split; [|intros H; destruct H; left; auto].
      intros _. exists m. split; [exact Hm|].
      apply (Hall i0 (assignedTo m at_ t)); [|exact Hni].
      rewrite Hstep, updateAt_nth_error, Ht0. reflexivity.
    + assert (Hi1 : nth_error (tasks e1) i = Some t).
      { rewrite Hstep, updateAt_nth_error_other; auto. }
      destruct (Hall i t Hi1) as [Ha Hb]. split.
      * intros [Heq|Hin]; [congruence | apply Ha, Hin].
      * intros Hnin. apply Hb. intros Hin. apply Hnin. right. exact Hin.
Qed.

Lemma Forall2_of_nth_error {A B} (R : A -> B -> Prop) (l : list A) (l' : list B) :
  List.length l' = List.length l ->
  (forall i x, nth_error l i = Some x -> exists y, nth_error l' i = Some y /\ R x y) ->
  Forall2 R l l'.
Proof.
  revert l'. induction l as [|x r IH]; intros [|y r'] Hl H; try discriminate; constructor.
  - destruct (H 0%nat x eq_refl) as [y' [Hy HR]]. inversion Hy; subst. exact HR.
  - apply IH; [simpl in Hl; lia|]. intros i z Hz. apply (H (S i) z Hz).
Qed.

(** X13. With somebody on shift, [autoAssignPendingTasks] assigns every
    task that is CREATED without assignee, and touches no other task: each
    such task becomes ASSIGNED at the given time to a member on shift, one
    whose scope covers the task's location if any member's does. *)
Theorem autoAssignPendingTasks_assigns_waiting (at_ : Z) (e : Engine) :
  getAssignableActiveStaff e <> [] ->
  Forall2 (autoAssignOutcome (getAssignableActiveStaff e) at_)
          (tasks e) (tasks (exec (autoAssignPendingTasks at_) e)).
Proof.
  intros Hs. unfold autoAssignPendingTasks. run.
  set (pending := map fst (sortBy _ (filter _ (indexed (tasks e))))).
  assert (Hin : forall i, In i pending <->
                  exists t, nth_error (tasks e) i = Some t /\ isPending t = true).
  { intros i. unfold pending. split.
    - intros H. apply indexed_filter_sorted_in in H. exact H.
    - intros [t [Ht Hp]]. apply in_map_iff. exists (i, t). split; [reflexivity|].
      apply (Permutation_in _ (Permutation_sym (sortBy_perm _ _))).
      apply filter_In. split; [apply nth_error_indexed, Ht | exact Hp]. }
  assert (Hnd : NoDup pending).
  { unfold pending. eapply Permutation_NoDup;
      [apply Permutation_sym, Permutation_map, sortBy_perm|].
    apply NoDup_map_fst_filter. rewrite map_fst_indexed. apply seq_NoDup. }
  destruct (List.length pending =? 0)%nat eqn:Hz; run.
  - apply Nat.eqb_eq in Hz. apply Forall2_of_nth_error; [reflexivity|].
    intros i t Ht. exists t. split; [exact Ht|]. unfold autoAssignOutcome.
    destruct (isPending t) eqn:Hp; [|reflexivity].
    assert (Hi : In i pending) by (apply Hin; eauto).
    destruct pending; [destruct Hi | discriminate].
  - destruct (List.length (getAssignableActiveStaff e) =? 0)%nat eqn:Hl.
    { apply Nat.eqb_eq in Hl. destruct (getAssignableActiveStaff e); [congruence|discriminate]. }
    run.
    destruct (assignLoop_tasks at_ (getAssignableActiveStaff e) pending
                (initialLoad e (getAssignableActiveStaff e)) e Hs Hnd) as [Hlen Hall].
    { intros i Hi. apply Hin in Hi. destruct Hi as [t [Ht _]]. eauto. }
    apply Forall2_of_nth_error; [exact Hlen|].
    intros i t Ht. destruct (Hall i t Ht) as [Ha Hb]. unfold autoAssignOutcome.
    destruct (isPending t) eqn:Hp.
    + destruct Ha as [m [Hm Hn]]; [apply Hin; eauto|].
      eexists. split; [exact Hn|]. exists m. auto.
    + eexists. split; [apply Hb|reflexivity].
      intros Hi. apply Hin in Hi. destruct Hi as [t' [Ht' Hp']]. congruence.
Qed.

Lemma autoAssignPendingTasks_assigns_waiting_witness :
  Forall2 (autoAssignOutcome (getAssignableActiveStaff waitingTaskEngine) (initialCursor + 2000))
          (tasks waitingTaskEngine)
          (tasks (exec (autoAssignPendingTasks (initialCursor + 2000)) waitingTaskEngine)).
Proof.
  apply autoAssignPendingTasks_assigns_waiting. vm_compute. discriminate.
Defined.

(** ** Rejected requests *)

Ltac reject_step :=
  first
    [ reflexivity
    | discriminate
    | progress (autorewrite with run; cbv beta iota)
    | match goal with
      | |- context [eval (if ?b then _ else _) _] => destruct b eqn:?
      | |- context [eval (match ?x with _ => _ end) _] => destruct x eqn:?
      | |- context [eval (let (_, _) := ?x in _) _] => destruct x eqn:?
      end ].

Ltac reject_auto :=
  unfold leavesStateWhen, isNot; intros e; repeat reject_step;
  let H := fresh in
  intros H; exfalso; revert H; cbn [fst];
  repeat match goal with
         | |- context [if ?b then _ else _] => destruct b
         end;
  discriminate.

Lemma startTask_rejects t s a : leavesStateWhen (startTask t s a) (isNot "started").
Proof. unfold startTask. reject_auto. Qed.

Lemma assignTask_rejects t s a : leavesStateWhen (assignTask t s a) (isNot "assigned").
Proof. unfold assignTask. reject_auto. Qed.

Lemma createReceivingOrder_rejects p : leavesStateWhen (createReceivingOrder p) (isNot "created").
Proof. unfold createReceivingOrder. reject_auto. Qed.

Lemma confirmReceivingOrder_rejects o p :
  leavesStateWhen (confirmReceivingOrder o p)
    (fun r => String.eqb (fst r) "order_not_found" || String.eqb (fst r) "order_not_open").
Proof. unfold confirmReceivingOrder. reject_auto. Qed.

Lemma createLocation_rejects p : leavesStateWhen (createLocation p) (isNot "created").
Proof. unfold createLocation. reject_auto. Qed.

Lemma updateLocation_rejects p : leavesStateWhen (updateLocation p) (isNot "updated").
Proof. unfold updateLocation. reject_auto. Qed.

Lemma updateStaffShift_rejects s b : leavesStateWhen (updateStaffShift s b) (isNot "updated").
Proof. unfold updateStaffShift. reject_auto. Qed.

Lemma updateStaffScope_rejects s b z :
  leavesStateWhen (updateStaffScope s b z) (isNot "updated").
Proof. unfold updateStaffScope. reject_auto. Qed.

Lemma deleteRule_rejects r : leavesStateWhen (deleteRule r) (fun x => isNot "deleted" (fst x)).
Proof. unfold deleteRule. reject_auto. Qed.

Lemma ingestRFIDRead_rejects ev :
  leavesStateWhen (ingestRFIDRead ev) (fun x => isNot "accepted" (fst x)).
Proof. unfold ingestRFIDRead. reject_auto. Qed.

Lemma scanZone_rejects z t : leavesStateWhen (scanZone z t) (isNot "accepted").
Proof. unfold scanZone. reject_auto. Qed.

Lemma forceZoneSweep_rejects z t :
  leavesStateWhen (forceZoneSweep z t) (fun x => isNot "accepted" (fst x)).
Proof. unfold forceZoneSweep. reject_auto. Qed.

(** X14. Rejected requests are atomic: [startTask], [assignTask],
    [createReceivingOrder], [createLocation], [updateLocation],
    [updateStaffShift], [updateStaffScope], [deleteRule], [ingestRFIDRead],
    [scanZone] and [forceZoneSweep] leave the state exactly as it was whenever
    they answer with anything but their success status, and so does
    [confirmReceivingOrder] when the order is unknown or not in transit. *)
Theorem rejected_requests_change_nothing :
  (forall taskId staffId at_, leavesStateWhen (startTask taskId staffId at_) (isNot "started"))
  /\ (forall taskId staffId at_,
        leavesStateWhen (assignTask taskId staffId at_) (isNot "assigned"))
  /\ (forall payload, leavesStateWhen (createReceivingOrder payload) (isNot "created"))
  /\ (forall orderId payload,
        leavesStateWhen (confirmReceivingOrder orderId payload)
          (fun r => String.eqb (fst r) "order_not_found"
                    || String.eqb (fst r) "order_not_open"))
  /\ (forall payload, leavesStateWhen (createLocation payload) (isNot "created"))
  /\ (forall payload, leavesStateWhen (updateLocation payload) (isNot "updated"))
  /\ (forall staffId activeShift,
        leavesStateWhen (updateStaffShift staffId activeShift) (isNot "updated"))
  /\ (forall staffId scopeAllZones zoneIds,
        leavesStateWhen (updateStaffScope staffId scopeAllZones zoneIds) (isNot "updated"))
  /\ (forall ruleId, leavesStateWhen (deleteRule ruleId) (fun r => isNot "deleted" (fst r)))
  /\ (forall event, leavesStateWhen (ingestRFIDRead event) (fun r => isNot "accepted" (fst r)))
  /\ (forall zoneId timestamp, leavesStateWhen (scanZone zoneId timestamp) (isNot "accepted"))
  /\ (forall zoneId timestamp,
        leavesStateWhen (forceZoneSweep zoneId timestamp) (fun r => isNot "accepted" (fst r))).
Proof.
  repeat split; intros.
  - apply startTask_rejects.
  - apply assignTask_rejects.
  - apply createReceivingOrder_rejects.
  - apply confirmReceivingOrder_rejects.
  - apply createLocation_rejects.
  - apply updateLocation_rejects.
  - apply updateStaffShift_rejects.
  - apply updateStaffScope_rejects.
  - apply deleteRule_rejects.
  - apply ingestRFIDRead_rejects.
  - apply scanZone_rejects.
  - apply forceZoneSweep_rejects.
Qed.

Lemma rejected_requests_change_nothing_witness :
  exec (startTask "task-9" "staff-1" (initialCursor + 1000)) demoEngine = demoEngine
  /\ exec (deleteRule "rule-unknown") demoEngine = demoEngine.
Proof.
  destruct rejected_requests_change_nothing as (Hstart & _ & _ & _ & _ & _ & _ & _ & Hdel & _).
  split; [apply Hstart | apply Hdel]; vm_compute; reflexivity.
Defined.

(** ** Receiving orders change only by creation, assignment and confirmation *)

Lemma ordersEvolve_trans l1 l2 l3 :
  ordersEvolve l1 l2 -> ordersEvolve l2 l3 -> ordersEvolve l1 l3.
Proof.
  intros H12 H23. induction H23 as [|l2 l3 l4 H23 IH Hw]; [exact H12|].
  eapply evolve_step; [apply IH, H12 | exact Hw].
Qed.

Lemma orders_same l0 e e' :
  receivingOrders e' = receivingOrders e -> ordersFrom l0 e -> ordersFrom l0 e'.
Proof. unfold ordersFrom. intros H. rewrite H. auto. Qed.

Lemma orderAssigned_inTransit s a o : orderInTransit (orderAssigned s a o) = orderInTransit o.
Proof. reflexivity. Qed.

(** The loop of [autoAssignPendingReceivingOrders]. *)
Lemma assignOrders_loop l0 at_ staff (refs : list nat) load e :
  ordersFrom l0 e ->
  (forall i o, In i refs -> nth_error (receivingOrders e) i = Some o ->
               orderInTransit o = true) ->
  ordersFrom l0
    (exec (foldM refs load (fun loadByStaff i =>
       e <- get ;;
       match nth_error (receivingOrders e) i with
       | None => ret loadByStaff
       | Some order =>
           let (assignPool, _) := assignPoolFor staff (order_destinationZoneId order) in
           match pickMember loadByStaff assignPool with
           | None => ret loadByStaff
           | Some member =>
               modify (updOrder i (fun o =>
                 order_set_updatedAt at_ (order_set_assignedAt (Some at_)
                   (order_set_assignedStaffId (Some (staff_id member)) o)))) ;;
               modify (set_nowCursor at_) ;;
               ret (mapSet (staff_id member) (loadOf loadByStaff (staff_id member) + 1)
                           loadByStaff)
           end
       end)) e).
Proof.
  revert load e. induction refs as [|i r IH]; intros load e H Hp; [exact H|].
  rewrite exec_foldM_cons. apply IH.
  - run. destruct (nth_error (receivingOrders e) i) as [order|] eqn:Hi; run; [|exact H].
    destruct (assignPoolFor staff (order_destinationZoneId order)) as [pool scoped].
    destruct (pickMember load pool) as [member|]; run; [|exact H].
    unfold ordersFrom, updOrder. simpl receivingOrders.
    eapply evolve_step; [exact H|].
    apply (write_assign _ i order (staff_id member) at_ Hi).
    apply (Hp i order (or_introl eq_refl) Hi).
  - intros j o Hj. run.
    destruct (nth_error (receivingOrders e) i) as [order|] eqn:Hi; run;
      [|intros Ho; apply (Hp j o (or_intror Hj) Ho)].
    destruct (assignPoolFor staff (order_destinationZoneId order)) as [pool scoped].
    destruct (pickMember load pool) as [member|]; run;
      [|intros Ho; apply (Hp j o (or_intror Hj) Ho)].
    unfold updOrder. simpl receivingOrders. intros Ho.
    destruct (Nat.eq_dec j i) as [->|Hn].
    + rewrite updateAt_nth_error, Hi in Ho. simpl in Ho. inversion Ho; subst o.
      apply (Hp i order (or_introl eq_refl) Hi).
    + rewrite updateAt_nth_error_other in Ho by exact Hn.
      apply (Hp j o (or_intror Hj) Ho).
Qed.

Lemma autoAssignPendingReceivingOrders_evolves l0 at_ :
  preserves (ordersFrom l0) (autoAssignPendingReceivingOrders at_).
Proof.
  intros e H. unfold autoAssignPendingReceivingOrders. run.
  destruct (List.length _ =? 0)%nat; run; [exact H|].
  destruct (List.length (getAssignableActiveStaff e) =? 0)%nat; run; [exact H|].
  apply assignOrders_loop; [exact H|].
  intros i o Hi Ho. apply indexed_filter_sorted_in in Hi.
  destruct Hi as [x [Hx Hp]]. rewrite Ho in Hx. inversion Hx; subst x.
  simpl in Hp. apply andb_prop in Hp. apply Hp.
Qed.

Create HintDb orders discriminated.

Ltac orders_leaf :=
  match goal with
  | H : ordersFrom ?l0 ?e |- ordersFrom ?l0 _ =>
      repeat match goal with
             | |- ordersFrom _ (match ?x with _ => _ end) => destruct x
             | |- ordersFrom _ (if ?x then _ else _) => destruct x
             end;
      solve [ exact H | apply (orders_same l0 e); [reflexivity | exact H] ]
  end.

Ltac orders_auto := repeat first [ solve [eauto with orders] | orders_leaf | pres_step ].

(** The movement of stock a confirmation starts with leaves the orders alone. *)
Ltac kept_leaf :=
  match goal with
  | H : ordersKept ?l0 ?l ?e |- ordersKept ?l0 ?l _ =>
      repeat match goal with
             | |- ordersKept _ _ (match ?x with _ => _ end) => destruct x
             | |- ordersKept _ _ (if ?x then _ else _) => destruct x
             end;
      solve [ exact H
            | destruct H as [? ?]; split;
              [apply (orders_same l0 e); [reflexivity | assumption] | assumption] ]
  end.

Ltac kept_auto := repeat first [ kept_leaf | pres_step ].

Section OrderWrites.

Variable l0 : list ReceivingOrder.

Lemma upsertSnapshot_orders z s q src c :
  preserves (ordersFrom l0) (upsertSnapshot z s q src c).
Proof.
  unfold upsertSnapshot. apply preserves_modify. intros e H.
  destruct (_ && _); destruct (findIndex _ _); exact H.
Qed.
#[local] Hint Resolve upsertSnapshot_orders : orders.

Lemma pushTaskAudit_orders a b c d : preserves (ordersFrom l0) (pushTaskAudit a b c d).
Proof. unfold pushTaskAudit. orders_auto. Qed.
#[local] Hint Resolve pushTaskAudit_orders : orders.

Lemma autoAssignPendingTasks_orders at_ : preserves (ordersFrom l0) (autoAssignPendingTasks at_).
Proof. unfold autoAssignPendingTasks, assignPendingTask. orders_auto. Qed.
#[local] Hint Resolve autoAssignPendingTasks_orders : orders.

Lemma autoAssignPendingReceivingOrders_orders at_ :
  preserves (ordersFrom l0) (autoAssignPendingReceivingOrders at_).
Proof. apply autoAssignPendingReceivingOrders_evolves. Qed.
#[local] Hint Resolve autoAssignPendingReceivingOrders_orders : orders.

Lemma closeReplenishmentTask_orders t r : preserves (ordersFrom l0) (closeReplenishmentTask t r).
Proof. unfold closeReplenishmentTask. orders_auto. Qed.
#[local] Hint Resolve closeReplenishmentTask_orders : orders.

Lemma generateReplenishmentTask_orders rule d t s c :
  preserves (ordersFrom l0) (generateReplenishmentTask rule d t s c).
Proof. unfold generateReplenishmentTask. orders_auto. Qed.
#[local] Hint Resolve generateReplenishmentTask_orders : orders.

Lemma createReceivingOrder_orders p : preserves (ordersFrom l0) (createReceivingOrder p).
Proof.
  unfold createReceivingOrder.
  repeat first
    [ solve [eauto with orders] | orders_leaf
    | match goal with
      | H0 : ordersFrom l0 ?e0
        |- ordersFrom l0 (set_receivingOrders (_ :: receivingOrders ?e0) _) =>
          unfold ordersFrom; simpl receivingOrders;
          eapply evolve_step; [exact H0 | apply write_create; reflexivity]
      end
    | pres_step ].
Qed.
#[local] Hint Resolve createReceivingOrder_orders : orders.

Lemma evaluateInboundReceivingNeed_orders z r c :
  preserves (ordersFrom l0) (evaluateInboundReceivingNeed z r c).
Proof. unfold evaluateInboundReceivingNeed. orders_auto. Qed.
#[local] Hint Resolve evaluateInboundReceivingNeed_orders : orders.

Lemma mergePlan_orders z r o a : preserves (ordersFrom l0) (mergePlan z r o a).
Proof. unfold mergePlan. orders_auto. Qed.
#[local] Hint Resolve mergePlan_orders : orders.

Lemma trimPlan_orders a o : preserves (ordersFrom l0) (trimPlan a o).
Proof. unfold trimPlan. orders_auto. Qed.
#[local] Hint Resolve trimPlan_orders : orders.

Lemma refreshSources_orders r o : preserves (ordersFrom l0) (refreshSources r o).
Proof. unfold refreshSources. orders_auto. Qed.
#[local] Hint Resolve refreshSources_orders : orders.

Lemma triggerPlan_orders rule c r : preserves (ordersFrom l0) (triggerPlan rule c r).
Proof. unfold triggerPlan. orders_auto. Qed.
#[local] Hint Resolve triggerPlan_orders : orders.

Lemma evaluateSalesRule_orders z r c : preserves (ordersFrom l0) (evaluateSalesRule z r c).
Proof. unfold evaluateSalesRule. orders_auto. Qed.
#[local] Hint Resolve evaluateSalesRule_orders : orders.

Lemma evaluateMinMax_orders z : preserves (ordersFrom l0) (evaluateMinMax z).
Proof. unfold evaluateMinMax. orders_auto. Qed.
#[local] Hint Resolve evaluateMinMax_orders : orders.

Lemma calculateZoneInventory_orders z : preserves (ordersFrom l0) (calculateZoneInventory z).
Proof. unfold calculateZoneInventory. orders_auto. Qed.
#[local] Hint Resolve calculateZoneInventory_orders : orders.

Lemma applyPendingRFIDPicks_orders z : preserves (ordersFrom l0) (applyPendingRFIDPicks z).
Proof. unfold applyPendingRFIDPicks. orders_auto. Qed.
#[local] Hint Resolve applyPendingRFIDPicks_orders : orders.

Lemma ingestRFIDRead_orders event : preserves (ordersFrom l0) (ingestRFIDRead event).
Proof. unfold ingestRFIDRead. orders_auto. Qed.
#[local] Hint Resolve ingestRFIDRead_orders : orders.

Lemma forceZoneSweep_orders z t : preserves (ordersFrom l0) (forceZoneSweep z t).
Proof. unfold forceZoneSweep. orders_auto. Qed.
#[local] Hint Resolve forceZoneSweep_orders : orders.

Lemma scanZone_orders z t : preserves (ordersFrom l0) (scanZone z t).
Proof. unfold scanZone. orders_auto. Qed.
#[local] Hint Resolve scanZone_orders : orders.

Lemma deductRFIDImmediate_orders z s q : preserves (ordersFrom l0) (deductRFIDImmediate z s q).
Proof. unfold deductRFIDImmediate. orders_auto. Qed.
#[local] Hint Resolve deductRFIDImmediate_orders : orders.

Lemma ingestSalesEvent_orders event : preserves (ordersFrom l0) (ingestSalesEvent event).
Proof. unfold ingestSalesEvent. orders_auto. Qed.
#[local] Hint Resolve ingestSalesEvent_orders : orders.

Lemma upsertCustomer_orders id name : preserves (ordersFrom l0) (upsertCustomer id name).
Proof. unfold upsertCustomer. orders_auto. Qed.
#[local] Hint Resolve upsertCustomer_orders : orders.

Lemma addCustomerItem_orders h p : preserves (ordersFrom l0) (addCustomerItem h p).
Proof. unfold addCustomerItem. orders_auto. Qed.
#[local] Hint Resolve addCustomerItem_orders : orders.

Lemma createExternalRFIDForDestination_orders s d q a :
  preserves (ordersFrom l0) (createExternalRFIDForDestination s d q a).
Proof. unfold createExternalRFIDForDestination. orders_auto. Qed.
#[local] Hint Resolve createExternalRFIDForDestination_orders : orders.

Lemma restoreConsumedEpcs_orders b s z d a :
  preserves (ordersFrom l0) (restoreConsumedEpcs b s z d a).
Proof. unfold restoreConsumedEpcs. orders_auto. Qed.
#[local] Hint Resolve restoreConsumedEpcs_orders : orders.

Lemma removeCustomerItem_orders b t : preserves (ordersFrom l0) (removeCustomerItem b t).
Proof. unfold removeCustomerItem. orders_auto. Qed.
#[local] Hint Resolve removeCustomerItem_orders : orders.

Lemma moveRFIDEpcs_orders s d k q a : preserves (ordersFrom l0) (moveRFIDEpcs s d k q a).
Proof. unfold moveRFIDEpcs. orders_auto. Qed.
#[local] Hint Resolve moveRFIDEpcs_orders : orders.

Lemma transferConsumedPendingEpcsToZone_orders b s d a :
  preserves (ordersFrom l0) (transferConsumedPendingEpcsToZone b s d a).
Proof. unfold transferConsumedPendingEpcsToZone. orders_auto. Qed.
#[local] Hint Resolve transferConsumedPendingEpcsToZone_orders : orders.

Lemma transferNonRfid_orders s d k q : preserves (ordersFrom l0) (transferNonRfid s d k q).
Proof. unfold transferNonRfid. orders_auto. Qed.
#[local] Hint Resolve transferNonRfid_orders : orders.

Lemma applyTransferFromSource_orders s d k q :
  preserves (ordersFrom l0) (applyTransferFromSource s d k q).
Proof. unfold applyTransferFromSource. orders_auto. Qed.
#[local] Hint Resolve applyTransferFromSource_orders : orders.

Lemma createPersonalizationTask_orders d s q src p :
  preserves (ordersFrom l0) (createPersonalizationTask d s q src p).
Proof. unfold createPersonalizationTask. orders_auto. Qed.
#[local] Hint Resolve createPersonalizationTask_orders : orders.

Lemma routeToCashierStorage_orders n item src t :
  preserves (ordersFrom l0) (routeToCashierStorage n item src t).
Proof. unfold routeToCashierStorage. orders_auto. Qed.
#[local] Hint Resolve routeToCashierStorage_orders : orders.

Lemma processPersonalizationSale_orders n src t :
  preserves (ordersFrom l0) (processPersonalizationSale n src t).
Proof. unfold processPersonalizationSale. orders_auto. Qed.
#[local] Hint Resolve processPersonalizationSale_orders : orders.

Lemma checkoutItem_orders h t n k item : preserves (ordersFrom l0) (checkoutItem h t n k item).
Proof. unfold checkoutItem. orders_auto. Qed.
#[local] Hint Resolve checkoutItem_orders : orders.

Lemma checkoutCustomer_orders h c t : preserves (ordersFrom l0) (checkoutCustomer h c t).
Proof. unfold checkoutCustomer. orders_auto. Qed.
#[local] Hint Resolve checkoutCustomer_orders : orders.

Lemma tryFallbackSource_orders n d s q st c :
  preserves (ordersFrom l0) (tryFallbackSource n d s q st c).
Proof. unfold tryFallbackSource. orders_auto. Qed.
#[local] Hint Resolve tryFallbackSource_orders : orders.

Lemma attemptTransfers_orders n t q s : preserves (ordersFrom l0) (attemptTransfers n t q s).
Proof. unfold attemptTransfers. orders_auto. Qed.
#[local] Hint Resolve attemptTransfers_orders : orders.

Lemma confirmTask_orders t p : preserves (ordersFrom l0) (confirmTask t p).
Proof. unfold confirmTask. orders_auto. Qed.
#[local] Hint Resolve confirmTask_orders : orders.

Lemma recalculateZonesDependingOnSource_orders s :
  preserves (ordersFrom l0) (recalculateZonesDependingOnSource s).
Proof. unfold recalculateZonesDependingOnSource. orders_auto. Qed.
#[local] Hint Resolve recalculateZonesDependingOnSource_orders : orders.

Lemma refreshOpenTaskSourceCandidates_orders :
  preserves (ordersFrom l0) (refreshOpenTaskSourceCandidates).
Proof. unfold refreshOpenTaskSourceCandidates. orders_auto. Qed.
#[local] Hint Resolve refreshOpenTaskSourceCandidates_orders : orders.

Lemma pushConfirmation_orders m : preserves (ordersFrom l0) (pushConfirmation m).
Proof. unfold pushConfirmation. orders_auto. Qed.
#[local] Hint Resolve pushConfirmation_orders : orders.

Lemma confirmReceivingOrder_orders o p : preserves (ordersFrom l0) (confirmReceivingOrder o p).
Proof.
  intros e H. unfold confirmReceivingOrder. rewrite exec_bind, eval_get, exec_get.
  destruct (find _ (indexed (receivingOrders e))) as [[i order]|] eqn:Hf; [|exact H].
  destruct (negb (orderInTransit order)) eqn:Hs; [exact H|].
  apply negb_false_iff in Hs. apply find_indexed_some in Hf. destruct Hf as [Hi _].
  rewrite exec_bind, exec_modify, exec_bind.
  set (e1 := set_nowCursor (crp_confirmedAt p) e).
  match goal with
  | |- context [eval ?m e1] => set (movement := m)
  end.
  assert (Hm : preserves (ordersKept l0 (receivingOrders e)) movement).
  { unfold movement, createExternalRFIDForDestination, moveRFIDEpcs, upsertSnapshot,
      pushConfirmation, rebindPresence. kept_auto. }
  destruct (Hm e1) as [H2 Heq]; [split; [exact H | reflexivity]|].
  destruct (eval movement e1 <=? 0); [exact H2|].
  rewrite exec_bind, exec_modify.
  match goal with
  | |- ordersFrom l0 (exec ?rest ?e3) =>
      assert (Hr : preserves (ordersFrom l0) rest); [orders_auto | apply Hr]
  end.
  unfold ordersFrom, updOrder. simpl receivingOrders. rewrite Heq.
  eapply evolve_step; [exact H|].
  apply (write_confirm _ i order (eval movement e1) (crp_confirmedBy p) (crp_confirmedAt p) Hi Hs).
Qed.
#[local] Hint Resolve confirmReceivingOrder_orders : orders.

Lemma updateLocation_orders p : preserves (ordersFrom l0) (updateLocation p).
Proof. unfold updateLocation. orders_auto. Qed.
#[local] Hint Resolve updateLocation_orders : orders.

Lemma createLocation_orders p : preserves (ordersFrom l0) (createLocation p).
Proof. unfold createLocation. orders_auto. Qed.
#[local] Hint Resolve createLocation_orders : orders.

Lemma reassign_orders : preserves (ordersFrom l0) (reassign).
Proof. unfold reassign. orders_auto. Qed.
#[local] Hint Resolve reassign_orders : orders.

Lemma updateStaffShift_orders s b : preserves (ordersFrom l0) (updateStaffShift s b).
Proof. unfold updateStaffShift. orders_auto. Qed.
#[local] Hint Resolve updateStaffShift_orders : orders.

Lemma updateStaffScope_orders s b z : preserves (ordersFrom l0) (updateStaffScope s b z).
Proof. unfold updateStaffScope. orders_auto. Qed.
#[local] Hint Resolve updateStaffScope_orders : orders.

Lemma assignTask_orders t s a : preserves (ordersFrom l0) (assignTask t s a).
Proof. unfold assignTask. orders_auto. Qed.
#[local] Hint Resolve assignTask_orders : orders.

Lemma startTask_orders t s a : preserves (ordersFrom l0) (startTask t s a).
Proof. unfold startTask. orders_auto. Qed.
#[local] Hint Resolve startTask_orders : orders.

Lemma upsertRule_orders p : preserves (ordersFrom l0) (upsertRule p).
Proof. unfold upsertRule. orders_auto. Qed.
#[local] Hint Resolve upsertRule_orders : orders.

Lemma deleteRule_orders r : preserves (ordersFrom l0) (deleteRule r).
Proof. unfold deleteRule. orders_auto. Qed.
#[local] Hint Resolve deleteRule_orders : orders.

Lemma getTasks_orders s : preserves (ordersFrom l0) (getTasks s).
Proof. unfold getTasks. orders_auto. Qed.
#[local] Hint Resolve getTasks_orders : orders.

Lemma getReceivingOrders_orders s : preserves (ordersFrom l0) (getReceivingOrders s).
Proof. unfold getReceivingOrders. orders_auto. Qed.
#[local] Hint Resolve getReceivingOrders_orders : orders.

Lemma seedDemoEvents_orders : preserves (ordersFrom l0) (seedDemoEvents).
Proof. unfold seedDemoEvents. orders_auto. Qed.
#[local] Hint Resolve seedDemoEvents_orders : orders.

Lemma loadDemoStream_orders r s : preserves (ordersFrom l0) (loadDemoStream r s).
Proof. unfold loadDemoStream. orders_auto. Qed.
#[local] Hint Resolve loadDemoStream_orders : orders.

Lemma run_orders (c : Command) : preserves (ordersFrom l0) (run c).
Proof. destruct c; unfold run; orders_auto. Qed.

End OrderWrites.

Lemma runAll_orders (cs : list Command) (e : Engine) :
  ordersEvolve (receivingOrders e) (receivingOrders (runAll cs e)).
Proof.
  revert e. induction cs as [|c r IH]; intros e; simpl; [apply evolve_refl|].
  eapply ordersEvolve_trans; [|apply IH].
  apply (run_orders (receivingOrders e) c e), evolve_refl.
Qed.

Lemma orderAssigned_key s a o : orderKey (orderAssigned s a o) = orderKey o.
Proof. reflexivity. Qed.

Lemma orderConfirmed_key q b a o : orderKey (orderConfirmed q b a o) = orderKey o.
Proof. reflexivity. Qed.

Lemma updateAt_keeps_order (f : ReceivingOrder -> ReceivingOrder) l i x o0 :
  (forall o, orderKey (f o) = orderKey o) ->
  nth_error l i = Some x -> orderInTransit x = true -> In o0 l ->
  exists o, In o (updateAt i f l) /\ orderKey o = orderKey o0
            /\ (orderInTransit o0 = false -> o = o0).
Proof.
  intros Hf Hi Hx Hin. apply In_nth_error in Hin. destruct Hin as [j Hj].
  destruct (Nat.eq_dec j i) as [->|Hn].
  - rewrite Hi in Hj. inversion Hj; subst x. exists (f o0). split.
    + apply (nth_error_In _ i). rewrite updateAt_nth_error, Hi. reflexivity.
    + split; [apply Hf | congruence].
  - exists o0. split; [|auto]. apply (nth_error_In _ j).
    rewrite updateAt_nth_error_other by exact Hn. exact Hj.
Qed.

Lemma orderWrite_keeps l l' o0 :
  orderWrite l l' -> In o0 l ->
  exists o, In o l' /\ orderKey o = orderKey o0 /\ (orderInTransit o0 = false -> o = o0).
Proof.
  intros Hw Hin. destruct Hw as [l o Hid Hs | l i x s a Hi Hx | l i x q b a Hi Hx].
  - exists o0. split; [right; exact Hin | auto].
  - apply (updateAt_keeps_order _ l i x); auto.
  - apply (updateAt_keeps_order _ l i x); auto.
Qed.

Lemma ordersEvolve_keeps l l' o0 :
  ordersEvolve l l' -> In o0 l ->
  exists o, In o l' /\ orderKey o = orderKey o0 /\ (orderInTransit o0 = false -> o = o0).
Proof.
  intros He Hin. induction He as [l|l1 l2 l3 H12 IH Hw].
  - exists o0. auto.
  - destruct (IH Hin) as (o1 & H1 & Hk1 & Hc1).
    destruct (orderWrite_keeps l2 l3 o1 Hw H1) as (o2 & H2 & Hk2 & Hc2).
    exists o2. split; [exact H2|]. split; [congruence|].
    intros Hc. specialize (Hc1 Hc). subst o1. apply Hc2, Hc.
Qed.

(** X15. Receiving orders are never removed and keep the fields they were
    created with; an order that is no longer in transit never changes again,
    whatever commands follow. *)
Theorem confirmed_order_is_immutable (cs : list Command) (e : Engine)
    (o0 : ReceivingOrder) :
  In o0 (receivingOrders e) ->
  exists o,
    In o (receivingOrders (runAll cs e))
    /\ orderKey o = orderKey o0
    /\ (orderInTransit o0 = false -> o = o0).
Proof. intros H. apply (ordersEvolve_keeps _ _ o0 (runAll_orders cs e) H). Qed.

Lemma confirmed_order_is_immutable_witness :
  exists o,
    In o (receivingOrders
            (runAll [CmdConfirmReceivingOrder "recv-1"
                       (mkConfirmReceiving (initialCursor + 2000) "staff-1");
                     CmdIngestSalesEvent lateSale] orderedEngine))
    /\ order_id o = "recv-1" /\ order_requestedQty o = 5.
Proof.
  edestruct (confirmed_order_is_immutable
               [CmdConfirmReceivingOrder "recv-1"
                  (mkConfirmReceiving (initialCursor + 2000) "staff-1");
                CmdIngestSalesEvent lateSale] orderedEngine)
    as (o & Hin & Hk & _); [vm_compute; left; reflexivity|].
  unfold orderKey in Hk. injection Hk as H1 H2 H3 H4 H5 H6 H7 H8.
  exists o. split; [exact Hin|]. split; [exact H1 | exact H6].
Defined.

Lemma orderWrite_ids l l' : orderWrite l l' -> orderIdsInSequence l -> orderIdsInSequence l'.
Proof.
  unfold orderIdsInSequence.
  intros [l0 o Hid Hs | l0 i x s a Hi Hx | l0 i x q b a Hi Hx] H.
  - simpl List.length. rewrite seq_S, rev_app_distr. simpl. rewrite Hid, H.
    rewrite Nat.add_comm. reflexivity.
  - rewrite length_updateAt, map_updateAt_same; [exact H | reflexivity].
  - rewrite length_updateAt, map_updateAt_same; [exact H | reflexivity].
Qed.

Lemma ordersEvolve_ids l l' : ordersEvolve l l' -> orderIdsInSequence l -> orderIdsInSequence l'.
Proof.
  intros He H. induction He as [l|l1 l2 l3 H12 IH Hw]; [exact H|].
  apply (orderWrite_ids l2 l3 Hw), IH, H.
Qed.

Lemma NoDup_map_of_injective {A B} (f : A -> B) (l : list A) :
  (forall a b, f a = f b -> a = b) -> NoDup l -> NoDup (map f l).
Proof.
  intros Hf H. induction H as [|x r Hx Hr IH]; simpl; constructor; [|exact IH].
  intros Hin. apply in_map_iff in Hin. destruct Hin as [y [Hy Hin]].
  apply Hf in Hy. subst y. exact (Hx Hin).
Qed.

(** X16. In every state the engine reaches from its constructor the
    receiving orders, newest first, have the ids [recv-n], ..., [recv-1]:
    order ids are unique. *)
Theorem order_ids_are_sequential (dataset : SampleDataset) (cs : list Command) :
  orderIdsInSequence (receivingOrders (runAll cs (constructor dataset)))
  /\ NoDup (map order_id (receivingOrders (runAll cs (constructor dataset)))).
Proof.
  assert (H : orderIdsInSequence (receivingOrders (runAll cs (constructor dataset)))).
  { apply (ordersEvolve_ids _ _ (runAll_orders cs (constructor dataset))). reflexivity. }
  split; [exact H|]. rewrite H.
  apply NoDup_map_of_injective; [|apply NoDup_rev, seq_NoDup].
  intros a b Hab. inversion Hab as [Hs]. apply showNat_inj, Hs.
Qed.

(** ** Writing a rule and looking it up *)

Lemma invFrame_rules e1 e0 : invFrame e1 = invFrame e0 -> rules e1 = rules e0.
Proof. unfold invFrame. intros H. injection H. intros; assumption. Qed.

Lemma find_updateAt_first {A} (p : A -> bool) (f : A -> A) (l : list A) i x :
  (forall j y, (j < i)%nat -> nth_error l j = Some y -> p y = false) ->
  nth_error l i = Some x -> p (f x) = true ->
  find p (updateAt i f l) = Some (f x).
Proof.
  intros Hfirst Hi Hp. revert i Hi Hfirst. induction l as [|y r IH]; intros i Hi Hfirst;
    [destruct i; discriminate|].
  destruct i; simpl in *.
  - inversion Hi; subst y. rewrite Hp. reflexivity.
  - rewrite (Hfirst 0%nat y) by (simpl; auto; lia).
    apply IH; [exact Hi|]. intros j z Hj Hz. apply (Hfirst (S j) z); [lia | exact Hz].
Qed.

Lemma find_app_new {A} (p : A -> bool) (l : list A) x :
  (forall y, In y l -> p y = false) -> p x = true -> find p (l ++ [x]) = Some x.
Proof.
  intros Hall Hp. induction l as [|y r IH]; simpl; [rewrite Hp; reflexivity|].
  rewrite (Hall y (or_introl eq_refl)). apply IH. intros z Hz. apply Hall. right. exact Hz.
Qed.

Lemma upsertRule_rules payload e :
  rules (exec (upsertRule payload) e)
  = match findIndex (ruleMatches payload) (rules e) with
    | Some i =>
        updateAt i (fun existing =>
          mkRule (rule_id existing) (rule_zoneId existing) (rule_skuId existing)
                 (rule_source existing) (ur_inboundSourceLocationId payload)
                 (ur_minQty payload) (ur_maxQty payload)
                 (match ur_priority payload with
                  | Some p => p
                  | None => rule_priority existing
                  end)
                 true (nowCursor e)) (rules e)
    | None =>
        (rules e ++
         [mkRule (toLowerCase ("rule-" ++ ur_zoneId payload ++ "-" ++ ur_skuId payload ++ "-"
                               ++ showSource (ur_source payload)))
                 (ur_zoneId payload) (ur_skuId payload) (ur_source payload)
                 (ur_inboundSourceLocationId payload) (ur_minQty payload)
                 (ur_maxQty payload)
                 (match ur_priority payload with Some p => p | None => 2 end)
                 true (nowCursor e)])%list
    end.
Proof.
  unfold upsertRule. run. fold (ruleMatches payload).
  destruct (findIndex (ruleMatches payload) (rules e)) as [i|]; run;
    rewrite (invFrame_rules _ _ (calculateZoneInventory_frame _ _)); reflexivity.
Qed.

(** X17. Writing a rule and looking it up: after [upsertRule] the first
    rule with the payload's location, SKU and source is active, carries the
    payload's min, max and inbound source, and has the id the call returned;
    the number of rules grows by one exactly when no rule had that key. *)
Theorem upsertRule_then_lookup (payload : UpsertRulePayload) (e : Engine) :
  let e' := exec (upsertRule payload) e in
  exists rule,
    find (ruleMatches payload) (rules e') = Some rule
    /\ eval (upsertRule payload) e = rule_id rule
    /\ rule_isActive rule = true
    /\ rule_minQty rule = ur_minQty payload
    /\ rule_maxQty rule = ur_maxQty payload
    /\ rule_inboundSourceLocationId rule = ur_inboundSourceLocationId payload
    /\ List.length (rules e')
       = (if existsb (ruleMatches payload) (rules e)
          then List.length (rules e) else S (List.length (rules e))).
Proof.
  intros e'. unfold e'. rewrite upsertRule_rules.
  unfold upsertRule. run. fold (ruleMatches payload).
  destruct (findIndex (ruleMatches payload) (rules e)) as [i|] eqn:Hf; run.
  - destruct (findIndex_some _ _ _ Hf) as [[x [Hx Hp]] Hfirst].
    eexists. split; [apply (find_updateAt_first _ _ _ i x Hfirst Hx); exact Hp|].
    rewrite (invFrame_rules _ _ (calculateZoneInventory_frame _ _)).
    unfold updRule. simpl rules. rewrite updateAt_nth_error, Hx. simpl.
    repeat split. rewrite length_updateAt.
    replace (existsb (ruleMatches payload) (rules e)) with true; [reflexivity|].
    symmetry. apply existsb_exists. exists x. split; [eapply nth_error_In, Hx | exact Hp].
  - pose proof (findIndex_none _ _ Hf) as Hall.
    eexists. split.
    + apply find_app_new; [exact Hall|]. unfold ruleMatches. simpl.
      rewrite !String.eqb_refl. destruct (ur_source payload); reflexivity.
    + simpl. repeat split. rewrite length_app. simpl.
      replace (existsb (ruleMatches payload) (rules e)) with false; [lia|].
      symmetry. apply not_true_is_false. intros He. apply existsb_exists in He.
      destruct He as [x [Hx Hp]]. rewrite (Hall x Hx) in Hp. discriminate.
Qed.

(** ** Deleting a rule *)

Lemma retired_same rid e e' : tasks e' = tasks e -> noOpenTaskOf rid e -> noOpenTaskOf rid e'.
Proof. unfold noOpenTaskOf. intros H. rewrite H. auto. Qed.

Lemma retired_updTask rid i f e :
  (forall t, task_ruleId (f t) = task_ruleId t
             /\ (taskIsOpen (task_status t) = false -> taskIsOpen (task_status (f t)) = false)) ->
  noOpenTaskOf rid e -> noOpenTaskOf rid (updTask i f e).
Proof.
  intros Hf H t Hin Hr. unfold updTask in Hin. simpl in Hin.
  apply In_nth_error in Hin. destruct Hin as [j Hj].
  destruct (Nat.eq_dec j i) as [->|Hn].
  - rewrite updateAt_nth_error in Hj. destruct (nth_error (tasks e) i) as [t0|] eqn:H0;
      [|discriminate]. simpl in Hj. inversion Hj; subst t. destruct (Hf t0) as [H1 H2].
    apply H2. apply (H t0); [eapply nth_error_In, H0 | congruence].
  - rewrite updateAt_nth_error_other in Hj by exact Hn. apply (H t); [|exact Hr].
    eapply nth_error_In, Hj.
Qed.

Lemma retired_append rid e0 e task :
  task_ruleId task <> rid -> noOpenTaskOf rid e0 ->
  noOpenTaskOf rid (set_tasks (tasks e0 ++ [task])%list e).
Proof.
  intros Hne H t Hin Hr. simpl in Hin. apply in_app_or in Hin.
  destruct Hin as [Hin|[<-|[]]]; [apply (H t Hin Hr) | contradiction].
Qed.

Lemma autoAssignPendingTasks_retired rid at_ :
  preserves (noOpenTaskOf rid) (autoAssignPendingTasks at_).
Proof.
  intros e H t Hin Hr. apply In_nth_error in Hin. destruct Hin as [j Hj].
  destruct (Forall2_nth_error_r _ _ _ _ _ (autoAssignPendingTasks_bumped at_ e) Hj)
    as [t0 [H0 Hb]].
  destruct (bumped_fields _ _ Hb) as (_ & Hrule & _ & _ & _ & _ & Hopen & _).
  rewrite Hopen. apply (H t0); [eapply nth_error_In, H0 | congruence].
Qed.

Create HintDb retired discriminated.
#[export] Hint Resolve autoAssignPendingTasks_retired : retired.

Ltac keeps_closed :=
  intros; split;
  [ reflexivity
  | cbn - [startsWith];
    repeat match goal with
           | |- context [if ?b then _ else _] => destruct b
           end;
    auto ].

Ltac retired_leaf :=
  match goal with
  | H : noOpenTaskOf ?rid ?e |- noOpenTaskOf ?rid _ =>
      repeat match goal with
             | |- noOpenTaskOf _ (match ?x with _ => _ end) => destruct x
             | |- noOpenTaskOf _ (if ?x then _ else _) => destruct x
             end;
      solve [ exact H
            | apply (retired_same rid e); [reflexivity | exact H]
            | apply retired_updTask; [keeps_closed | exact H] ]
  end.

Ltac retired_auto := repeat first [ solve [eauto with retired] | retired_leaf | pres_step ].

Section RetiredRule.

Variable rid : string.

Lemma upsertSnapshot_retired z s q src c :
  preserves (noOpenTaskOf rid) (upsertSnapshot z s q src c).
Proof.
  unfold upsertSnapshot. apply preserves_modify. intros e H.
  destruct (_ && _); destruct (findIndex _ _); exact H.
Qed.
#[local] Hint Resolve upsertSnapshot_retired : retired.

Lemma pushTaskAudit_retired a b c d : preserves (noOpenTaskOf rid) (pushTaskAudit a b c d).
Proof. unfold pushTaskAudit. retired_auto. Qed.
#[local] Hint Resolve pushTaskAudit_retired : retired.

Lemma autoAssignPendingReceivingOrders_retired at_ :
  preserves (noOpenTaskOf rid) (autoAssignPendingReceivingOrders at_).
Proof.
  intros e H. apply (retired_same rid e); [|exact H].
  apply autoAssignPendingReceivingOrders_tasks.
Qed.
#[local] Hint Resolve autoAssignPendingReceivingOrders_retired : retired.

Lemma closeReplenishmentTask_retired t r :
  preserves (noOpenTaskOf rid) (closeReplenishmentTask t r).
Proof. unfold closeReplenishmentTask. retired_auto. Qed.
#[local] Hint Resolve closeReplenishmentTask_retired : retired.

Lemma generateReplenishmentTask_retired rule d t s c :
  rule_id rule <> rid ->
  preserves (noOpenTaskOf rid) (generateReplenishmentTask rule d t s c).
Proof.
  intros Hne. unfold generateReplenishmentTask.
  repeat first
    [ solve [eauto with retired] | retired_leaf
    | match goal with
      | H0 : noOpenTaskOf rid ?e0
        |- noOpenTaskOf rid (set_tasks (tasks ?e0 ++ _)%list _) =>
          apply retired_append; [exact Hne | exact H0]
      end
    | pres_step ].
Qed.

Lemma createReceivingOrder_retired p : preserves (noOpenTaskOf rid) (createReceivingOrder p).
Proof. unfold createReceivingOrder. retired_auto. Qed.
#[local] Hint Resolve createReceivingOrder_retired : retired.

Lemma evaluateInboundReceivingNeed_retired z r c :
  preserves (noOpenTaskOf rid) (evaluateInboundReceivingNeed z r c).
Proof. unfold evaluateInboundReceivingNeed. retired_auto. Qed.
#[local] Hint Resolve evaluateInboundReceivingNeed_retired : retired.

Lemma mergePlan_retired z r o a : preserves (noOpenTaskOf rid) (mergePlan z r o a).
Proof. unfold mergePlan. retired_auto. Qed.
#[local] Hint Resolve mergePlan_retired : retired.

Lemma trimPlan_retired a o : preserves (noOpenTaskOf rid) (trimPlan a o).
Proof. unfold trimPlan. retired_auto. Qed.
#[local] Hint Resolve trimPlan_retired : retired.

Lemma refreshSources_retired r o : preserves (noOpenTaskOf rid) (refreshSources r o).
Proof. unfold refreshSources. retired_auto. Qed.
#[local] Hint Resolve refreshSources_retired : retired.

Lemma triggerPlan_retired rule c r :
  rule_id rule <> rid -> preserves (noOpenTaskOf rid) (triggerPlan rule c r).
Proof.
  intros Hne. unfold triggerPlan.
  repeat first [ solve [eauto using generateReplenishmentTask_retired with retired]
               | retired_leaf | pres_step ].
Qed.

Lemma evaluateSalesRule_retired z rule c :
  rule_id rule <> rid -> preserves (noOpenTaskOf rid) (evaluateSalesRule z rule c).
Proof.
  intros Hne. unfold evaluateSalesRule.
  repeat first [ solve [eauto using triggerPlan_retired with retired]
               | retired_leaf | pres_step ].
Qed.

Lemma preserves_forEach_in {A} I (l : list A) (body : A -> M unit) :
  (forall x, In x l -> preserves I (body x)) -> preserves I (forEach l body).
Proof.
  induction l as [|x r IH]; intros Hb; simpl.
  - apply preserves_ret.
  - apply preserves_bind; [apply Hb; left; reflexivity|].
    intros _. apply IH. intros y Hy. apply Hb. right. exact Hy.
Qed.

Lemma evaluateMinMax_retired z : preserves (ruleRetired rid) (evaluateMinMax z).
Proof.
  intros e [HJ HK]. split.
  - unfold evaluateMinMax. rewrite exec_bind, eval_get, exec_get.
    destruct (findZone e z) as [zone|]; [|exact HJ].
    apply preserves_forEach_in; [|exact HJ]. intros rule Hin.
    apply filter_In in Hin. destruct Hin as [Hin Hact].
    apply andb_prop in Hact. destruct Hact as [_ Hact].
    assert (Hne : rule_id rule <> rid).
    { intros Heq. rewrite (HK rule Hin Heq) in Hact. discriminate. }
    repeat first [ solve [eauto using evaluateSalesRule_retired with retired]
                 | retired_leaf | pres_step ].
  - intros r Hr.
    rewrite (invFrame_rules _ _ (planFrame_inv _ _ (evaluateMinMax_frame z e))) in Hr.
    apply HK, Hr.
Qed.

Lemma calculateZoneInventory_retired z :
  preserves (ruleRetired rid) (calculateZoneInventory z).
Proof.
  intros e [HJ HK].
  assert (Hu : forall z s q src c,
            preserves (ruleRetired rid) (upsertSnapshot z s q src c)).
  { intros z0 s q src c e0 [H1 H2]. split; [apply upsertSnapshot_retired, H1|].
    intros r Hr. apply H2.
    rewrite <- (invFrame_rules _ _ (upsertSnapshot_inv e0 z0 s q src c e0 eq_refl)).
    exact Hr. }
  assert (H : preserves (ruleRetired rid) (calculateZoneInventory z)).
  { unfold calculateZoneInventory.
    repeat first [ solve [eauto using evaluateMinMax_retired] | assumption | pres_step ]. }
  apply H. split; assumption.
Qed.

End RetiredRule.

(** The loop of [deleteRule] over the tasks. *)
Lemma cancelLoop_tasks rid (l : list nat) (e : Engine) :
  let body := fun (j : nat) (task : ReplenishmentTask) =>
    if negb (String.eqb (task_ruleId task) rid) then ret tt else
    if negb (taskIsOpen (task_status task)) then ret tt else
    e <- get ;;
    modify (updTask j (fun t =>
      task_set_updatedAt (nowCursor e) (task_set_closedAt (Some (nowCursor e))
        (task_set_closeReason (Some "rule_deleted") (task_set_status REJECTED t))))) ;;
    pushTaskAudit (task_id task) A_CANCELLED None "rule_deleted" in
  let e' := exec (forTasks l body) e in
  rules e' = rules e
  /\ List.length (tasks e') = List.length (tasks e)
  /\ forall j t', nth_error (tasks e') j = Some t' ->
        (In j l -> task_ruleId t' = rid -> taskIsOpen (task_status t') = false)
        /\ (~ In j l -> nth_error (tasks e) j = Some t')
        /\ (exists t, nth_error (tasks e) j = Some t
                      /\ task_ruleId t' = task_ruleId t
                      /\ (taskIsOpen (task_status t) = false
                          -> taskIsOpen (task_status t') = false)).
Proof.
  cbv zeta. revert e. induction l as [|i r IH]; intros e.
  - unfold forTasks. simpl. split; [reflexivity|]. split; [reflexivity|].
    intros j t' Hj. split; [intros []|]. split; [auto|]. exists t'. auto.
  - rewrite exec_forTasks_cons.
    match goal with
    | |- context [exec (forTasks r ?b) ?s1] => set (body := b); set (e1 := s1) in *
    end.
    assert (H1 : rules e1 = rules e
                 /\ List.length (tasks e1) = List.length (tasks e)
                 /\ (forall j, j <> i -> nth_error (tasks e1) j = nth_error (tasks e) j)
                 /\ (forall t1, nth_error (tasks e1) i = Some t1 ->
                       (task_ruleId t1 = rid -> taskIsOpen (task_status t1) = false)
                       /\ exists t, nth_error (tasks e) i = Some t
                                    /\ task_ruleId t1 = task_ruleId t
                                    /\ (taskIsOpen (task_status t) = false
                                        -> taskIsOpen (task_status t1) = false))).
    { unfold e1. destruct (nth_error (tasks e) i) as [t|] eqn:Hi.
      - destruct (negb (String.eqb (task_ruleId t) rid)) eqn:Hr; run.
        + split; [reflexivity|]. split; [reflexivity|]. split; [reflexivity|].
          intros t1 Ht1. rewrite Hi in Ht1. inversion Ht1; subst t1.
          split; [|exists t; auto].
          intros Heq. apply negb_true_iff, String.eqb_neq in Hr. contradiction.
        + destruct (negb (taskIsOpen (task_status t))) eqn:Ho; run.
          * split; [reflexivity|]. split; [reflexivity|]. split; [reflexivity|].
            intros t1 Ht1. rewrite Hi in Ht1. inversion Ht1; subst t1.
            split; [|exists t; auto]. intros _. apply negb_true_iff in Ho. exact Ho.
          * unfold pushTaskAudit. run. unfold updTask. simpl.
            split; [reflexivity|]. split; [apply length_updateAt|]. split.
            -- intros j Hn. apply updateAt_nth_error_other. exact Hn.
            -- intros t1 Ht1. rewrite updateAt_nth_error, Hi in Ht1. simpl in Ht1.
               inversion Ht1; subst t1. simpl. split; [reflexivity|].
               exists t. auto.
      - split; [reflexivity|]. split; [reflexivity|]. split; [reflexivity|].
        intros t1 Ht1. rewrite Hi in Ht1. discriminate. }
    destruct H1 as (Hr1 & Hl1 & Ho1 & Hi1).
    destruct (IH e1) as (Hr2 & Hl2 & Hall). fold body in Hr2, Hl2, Hall.
    split; [congruence|]. split; [congruence|].
    intros j t' Hj. destruct (Hall j t' Hj) as (Ha & Hb & (t1 & Ht1 & Hk1 & Hc1)).
    destruct (Nat.eq_dec j i) as [->|Hn].
    + destruct (Hi1 t1 Ht1) as (Hclosed & t & Ht & Hk & Hc). split.
      * intros _ Hrid. apply Hc1, Hclosed. congruence.
      * split; [intros Hnin; exfalso; apply Hnin; left; reflexivity|].
        exists t. split; [exact Ht|]. split; [congruence | auto].
    + rewrite (Ho1 j Hn) in Ht1. split.
      * intros [Heq|Hin]; [congruence | apply Ha, Hin].
      * split.
        -- intros Hnin. rewrite <- (Ho1 j Hn). apply Hb. intros Hin. apply Hnin. right. exact Hin.
        -- exists t1. auto.
Qed.

Lemma NoDup_map_nth_error {A B} (f : A -> B) (l : list A) i j x y :
  NoDup (map f l) -> nth_error l i = Some x -> nth_error l j = Some y -> f x = f y -> i = j.
Proof.
  intros Hn Hi Hj Hf. apply (proj1 (NoDup_nth_error (map f l)) Hn).
  - rewrite length_map. apply nth_error_Some. congruence.
  - rewrite !nth_error_map, Hi, Hj. simpl. congruence.
Qed.

(** X18. Deleting a rule retires it: when rule ids are unique and
    [deleteRule] answers "deleted", afterwards no rule with that id is active
    and no task of that rule is open, not even one that was IN_PROGRESS; the
    recompute that follows creates none. *)
Theorem deleteRule_retires_rule (ruleId : string) (e : Engine) :
  NoDup (map rule_id (rules e)) ->
  fst (eval (deleteRule ruleId) e) = "deleted" ->
  ruleRetired ruleId (exec (deleteRule ruleId) e).
Proof.
  intros Hnd. unfold deleteRule. rewrite exec_bind, eval_bind, eval_get, exec_get.
  destruct (find _ (indexed (rules e))) as [[i rule]|] eqn:Hf; [|discriminate].
  apply find_indexed_some in Hf. destruct Hf as [Hi Hid]. simpl in Hid.
  apply String.eqb_eq in Hid.
  destruct (negb (rule_isActive rule)) eqn:Hact; [discriminate|]. intros _.
  rewrite exec_bind, exec_modify, exec_bind, exec_bind, exec_ret.
  apply calculateZoneInventory_retired. rewrite Hid.
  match goal with
  | |- context [forTasks ?l _] =>
      destruct (cancelLoop_tasks ruleId l
                  (updRule i (fun r =>
                     mkRule (rule_id r) (rule_zoneId r) (rule_skuId r) (rule_source r)
                            (rule_inboundSourceLocationId r) (rule_minQty r) (rule_maxQty r)
                            (rule_priority r) false (nowCursor e)) e))
        as (Hr & Hl & Hall)
  end.
  split.
  - intros t Hin Hrid. apply In_nth_error in Hin. destruct Hin as [j Hj].
    destruct (Hall j t Hj) as (Ha & _). apply Ha; [|exact Hrid].
    apply in_seq. split; [lia|].
    assert (Hlt : (j < List.length (tasks (exec (forTasks _ _) _)))%nat)
      by (apply nth_error_Some; rewrite Hj; discriminate).
    rewrite Hl in Hlt. exact Hlt.
  - intros r Hin Hrid. rewrite Hr in Hin. unfold updRule in Hin. simpl in Hin.
    apply In_nth_error in Hin. destruct Hin as [j Hj].
    destruct (Nat.eq_dec j i) as [->|Hn].
    + rewrite updateAt_nth_error, Hi in Hj. simpl in Hj. inversion Hj. reflexivity.
    + rewrite updateAt_nth_error_other in Hj by exact Hn. exfalso. apply Hn.
      apply (NoDup_map_nth_error rule_id (rules e) j i r rule Hnd Hj Hi). congruence.
Qed.

Lemma deleteRule_retires_rule_witness :
  ruleRetired "rule-shelf-a-sku-nr-1-non_rfid"
    (exec (deleteRule "rule-shelf-a-sku-nr-1-non_rfid") startedTaskEngine).
Proof.
  apply deleteRule_retires_rule.
  - vm_compute. repeat constructor. intros [].
  - vm_compute. reflexivity.
Defined.

(** ** Confirmations that move stock *)

Lemma butSource_same i t0 now e e' :
  tasks e' = tasks e -> nowCursor e' = nowCursor e ->
  taskButSource i t0 now e -> taskButSource i t0 now e'.
Proof. unfold taskButSource. intros H1 H2. rewrite H1, H2. auto. Qed.

Lemma butSource_write i t0 now s e :
  taskButSource i t0 now e -> taskButSource i t0 now (updTask i (task_set_sourceZoneId s) e).
Proof.
  intros (Hn & t & Ht & Heq). split; [exact Hn|].
  exists (task_set_sourceZoneId s t). unfold updTask. simpl.
  rewrite updateAt_nth_error, Ht. split; [reflexivity|]. rewrite Heq. reflexivity.
Qed.

Ltac butSource_leaf :=
  match goal with
  | H : taskButSource ?i ?t0 ?now ?e |- taskButSource ?i ?t0 ?now _ =>
      repeat match goal with
             | |- taskButSource _ _ _ (match ?x with _ => _ end) => destruct x
             | |- taskButSource _ _ _ (if ?x then _ else _) => destruct x
             end;
      solve [ exact H
            | apply (butSource_same i t0 now e); [reflexivity | reflexivity | exact H]
            | apply butSource_write; exact H ]
  end.

Ltac butSource_auto := repeat first [ assumption | butSource_leaf | pres_step ].

Lemma applyTransferFromSource_butSource i t0 now s d k q :
  preserves (taskButSource i t0 now) (applyTransferFromSource s d k q).
Proof. unfold applyTransferFromSource, upsertSnapshot. butSource_auto. Qed.

Lemma attemptTransfers_butSource i t0 now task q s :
  preserves (taskButSource i t0 now) (attemptTransfers i task q s).
Proof.
  pose proof (applyTransferFromSource_butSource i t0 now) as Ha.
  unfold attemptTransfers, tryFallbackSource.
  repeat first [ solve [auto] | butSource_leaf | pres_step ].
Qed.

Lemma closeReplenishmentTask_at i t reason e :
  taskIdsInSequence e -> nth_error (tasks e) i = Some t ->
  taskIsOpen (task_status t) = true ->
  nth_error (tasks (exec (closeReplenishmentTask (task_id t) reason) e)) i
  = Some (task_set_updatedAt (nowCursor e) (task_set_closedAt (Some (nowCursor e))
            (task_set_closeReason (Some reason)
              (task_set_status (if startsWith reason "confirmed" then CONFIRMED else REJECTED)
                 t)))).
Proof.
  intros Hw Hi Ho. unfold closeReplenishmentTask. run. rewrite (findTask_at e i t Hw Hi). run.
  rewrite Ho. simpl negb. run. unfold pushTaskAudit at 1. run.
  set (t' := task_set_updatedAt _ _).
  match goal with
  | |- nth_error (tasks (exec ?c2 (exec ?c1 ?e1))) i = _ =>
      assert (H1 : frozenAt i t' e1);
      [ exists t'; unfold updTask; simpl; rewrite updateAt_nth_error, Hi; auto
      | assert (H2 : frozenAt i t' (exec c2 (exec c1 e1)))
          by (apply autoAssignPendingReceivingOrders_frz, autoAssignPendingTasks_frz, H1) ]
  end.
  destruct H2 as (t2 & Ht2 & _ & Hc). rewrite Ht2. f_equal. apply Hc.
  unfold t'. simpl. destruct (startsWith reason "confirmed"); reflexivity.
Qed.

(** X19. A confirmation that moves stock closes the task: when task ids
    are in sequence, the task is IN_PROGRESS and the transfer attempts of
    [confirmTask] move a positive quantity, the call returns that transfer,
    the task ends as CONFIRMED with the moved quantity, the confirming user,
    the confirmation time and the reason "confirmed" or "confirmed_partial"
    (moved below the deficit), every other field but the source kept, and the
    movement is in the confirmation log; the recompute and the automatic
    assignment that follow leave the closed task as it is. *)
Theorem confirmTask_moves_stock (taskId : string) (payload : ConfirmPayload) (e : Engine)
    (i : nat) (task : ReplenishmentTask) :
  taskIdsInSequence e ->
  findTask e taskId = Some (i, task) ->
  task_status task = IN_PROGRESS ->
  let transfer :=
    eval (attemptTransfers i task (Z.max 0 (cp_confirmedQty payload))
            (chosenSource payload task))
         (set_nowCursor (cp_confirmedAt payload) e) in
  0 < tr_movedQty transfer ->
  let reason :=
    if tr_movedQty transfer <? Z.max 0 (task_deficitQty task)
    then "confirmed_partial" else "confirmed" in
  let e' := exec (confirmTask taskId payload) e in
  eval (confirmTask taskId payload) e = Some (i, transfer)
  /\ (exists source,
        nth_error (tasks e') i
        = Some (taskConfirmed payload (tr_movedQty transfer) reason
                  (task_set_sourceZoneId source task)))
  /\ In (confirmationOf payload (tr_movedQty transfer) task) (replenishmentConfirmations e').
Proof.
  intros Hw Hf Hs transfer Hm reason e'.
  destruct (findTask_some _ _ _ _ Hf) as [Hi Hid].
  set (e1 := set_nowCursor (cp_confirmedAt payload) e).
  set (att := attemptTransfers i task (Z.max 0 (cp_confirmedQty payload))
                (chosenSource payload task)) in *.
  set (e2 := exec att e1).
  assert (H2 : taskButSource i task (cp_confirmedAt payload) e2).
  { apply attemptTransfers_butSource. split; [reflexivity|]. exists task.
    split; [exact Hi | destruct task; reflexivity]. }
  assert (Hw2 : taskIdsInSequence e2).
  { apply attemptTransfers_seq. apply (ids_same e); [reflexivity | exact Hw]. }
  destruct H2 as (Hn2 & t2 & Ht2 & Heq2).
  set (confirmF := fun t =>
         task_set_updatedAt (cp_confirmedAt payload)
           (task_set_confirmedBy (Some (cp_confirmedBy payload))
             (task_set_confirmedQty (Some (tr_movedQty transfer)) t))).
  set (e5 := exec (pushTaskAudit (task_id task) A_CONFIRMED (Some (cp_confirmedBy payload))
                     ("confirmed_qty=" ++ showZ (tr_movedQty transfer) ++ " source_zone="
                      ++ match chosenSource payload task with
                         | Some s => s
                         | None => "n/a"
                         end))
                  (set_replenishmentConfirmations
                     (replenishmentConfirmations (updTask i confirmF e2)
                      ++ [confirmationOf payload (tr_movedQty transfer) task])%list
                     (updTask i confirmF e2))).
  assert (H5 : nth_error (tasks e5) i = Some (confirmF t2)).
  { unfold e5, pushTaskAudit, updTask. run. simpl. rewrite updateAt_nth_error, Ht2. reflexivity. }
  assert (Hw5 : taskIdsInSequence e5).
  { apply (ids_same (updTask i confirmF e2)); [reflexivity|].
    apply ids_updTask; [reflexivity | exact Hw2]. }
  assert (Hn5 : nowCursor e5 = cp_confirmedAt payload) by exact Hn2.
  assert (Hid5 : task_id (confirmF t2) = task_id task) by (rewrite Heq2; reflexivity).
  assert (Ho5 : taskIsOpen (task_status (confirmF t2)) = true).
  { rewrite Heq2. simpl. rewrite Hs. reflexivity. }
  pose proof (closeReplenishmentTask_at i (confirmF t2) reason e5 Hw5 H5 Ho5) as H6.
  rewrite Hid5, Hn5 in H6.
  set (e6 := exec (closeReplenishmentTask (task_id task) reason) e5) in *.
  assert (Hexec : e' = exec (when (match chosenSource payload task with
                                   | Some s => truthy s && negb (String.eqb s (task_zoneId task))
                                   | None => false
                                   end)
                               (calculateZoneInventory
                                  (match chosenSource payload task with
                                   | Some s => s
                                   | None => EmptyString
                                   end) ;; ret tt))
                         (exec (calculateZoneInventory (task_zoneId task)) e6)
                  /\ eval (confirmTask taskId payload) e = Some (i, transfer)).
  { unfold e', confirmTask. run. rewrite Hf. run. rewrite Hs. simpl negb. run.
    fold (chosenSource payload task). fold att. fold transfer.
    destruct (tr_movedQty transfer <=? 0) eqn:Hz; [apply Z.leb_le in Hz; lia|]. run.
    split; reflexivity. }
  destruct Hexec as [Hexec Heval]. split; [exact Heval|].
  set (closed := task_set_updatedAt _ _) in H6.
  assert (Hc : taskIsOpen (task_status closed) = false).
  { unfold closed, reason. simpl. destruct (_ <? _); reflexivity. }
  assert (H7 : frozenAt i closed e').
  { rewrite Hexec. apply preserves_when.
    - intros _. apply preserves_bind; [apply calculateZoneInventory_frz | intros _; apply preserves_ret].
    - apply calculateZoneInventory_frz. exists closed. auto. }
  split.
  - exists (task_sourceZoneId t2). destruct H7 as (t7 & Ht7 & _ & Heq7).
    rewrite Ht7, (Heq7 Hc). unfold closed, taskConfirmed, confirmF, reason. rewrite Heq2.
    simpl. destruct (_ <? _); reflexivity.
  - assert (Hl : logsExtend e5 e').
    { rewrite Hexec. apply preserves_when.
      - intros _. apply preserves_bind;
          [apply calculateZoneInventory_logs | intros _; apply preserves_ret].
      - apply calculateZoneInventory_logs, closeReplenishmentTask_logs, logsExtend_refl. }
    destruct Hl as (_ & _ & [s Hs'] & _). rewrite Hs'. apply in_or_app. left.
    unfold e5, pushTaskAudit. run. simpl. apply in_or_app. right. left. reflexivity.
Qed.

Lemma confirmTask_moves_stock_witness :
  exists t,
    nth_error (tasks (exec (confirmTask "task-1" demoConfirm) startedTaskEngine)) 0 = Some t
    /\ task_status t = CONFIRMED /\ task_confirmedQty t = Some 6.
Proof.
  edestruct (confirmTask_moves_stock "task-1" demoConfirm startedTaskEngine 0)
    as (_ & (source & Ht) & _).
  - intros [|j] t Hj; vm_compute in Hj; [inversion Hj; reflexivity | destruct j; discriminate].
  - vm_compute. reflexivity.
  - reflexivity.
  - vm_compute. reflexivity.
  - eexists. split; [exact Ht|]. split; [reflexivity | vm_compute; reflexivity].
Defined.

(** ** Fallback sources of a task *)

Lemma includes_In (l : list string) (x : string) : includes l x = true <-> In x l.
Proof.
  unfold includes. rewrite existsb_exists. split.
  - intros (y & Hy & Heq). apply String.eqb_eq in Heq. now subst.
  - intros H. exists x. split; [exact H | apply String.eqb_refl].
Qed.

Lemma fallbackStep_fold (exclude l c : list string) :
  NoDup c -> (forall id, In id c -> ~ In id exclude) ->
  let r := fold_left fallbackStep l (c, (exclude ++ c)%list) in
  snd r = (exclude ++ fst r)%list
  /\ NoDup (fst r)
  /\ (forall id, In id (fst r) <-> In id c \/ (In id l /\ ~ In id exclude)).
Proof.
  revert c. induction l as [|x l IH]; intros c Hnd Hex; cbn zeta.
  - simpl. repeat split; auto. intros [H|[[] _]]; exact H.
  - simpl. destruct (includes (exclude ++ c) x) eqn:Hin.
    + apply includes_In in Hin.
      destruct (IH c Hnd Hex) as (H1 & H2 & H3). repeat split; auto.
      * intros H. apply H3 in H. tauto.
      * intros [H|[[->|H] Hn]]; apply H3; auto.
        apply in_app_or in Hin. destruct Hin; [contradiction | auto].
    + assert (Hx : ~ In x (exclude ++ c)).
      { intros H. apply includes_In in H. congruence. }
      assert (Hxe : ~ In x exclude) by (intros H; apply Hx, in_or_app; auto).
      assert (Hxc : ~ In x c) by (intros H; apply Hx, in_or_app; auto).
      rewrite <- app_assoc.
      destruct (IH (c ++ [x])%list) as (H1 & H2 & H3).
      * apply NoDup_app; repeat split; auto.
        -- constructor; [intros [] | constructor].
        -- intros y Hy [<-|[]]. contradiction.
      * intros id H. apply in_app_or in H. destruct H as [H|[<-|[]]]; auto.
      * repeat split; auto.
        -- intros H. apply H3 in H. destruct H as [H|[H Hn]]; [|tauto].
           apply in_app_or in H. destruct H as [H|[<-|[]]]; auto.
        -- intros [H|[[->|H] Hn]]; apply H3; auto.
           ++ left. apply in_or_app. auto.
           ++ left. apply in_or_app. right. left. reflexivity.
Qed.

(** X20. The fallback sources of a task hold no zone twice, and they are
    exactly the zones configured for the task (its own source candidates and
    the sources of its destination) that are not among the excluded ones. *)
Theorem getFallbackSourceZoneIds_fresh (e : Engine) (task : ReplenishmentTask)
    (exclude : list string) :
  NoDup (getFallbackSourceZoneIds e task exclude)
  /\ forall id, In id (getFallbackSourceZoneIds e task exclude)
                <-> In id (configuredSourceIds e task) /\ ~ In id exclude.
Proof.
  unfold getFallbackSourceZoneIds, configuredSourceIds. cbv zeta.
  change (fun st id => let '(candidates, excludeSet) := st in _) with fallbackStep.
  set (ts := match task_sourceCandidates task with Some c => c | None => [] end).
  pose proof (fallbackStep_fold exclude (map cand_sourceZoneId (sortBy cand_sortOrder ts)) []
                (NoDup_nil _) (fun _ H => match H with end)) as H1.
  cbv zeta in H1. rewrite app_nil_r in H1.
  destruct (fold_left fallbackStep _ ([], exclude)) as [c1 x1] eqn:E1.
  simpl in H1. destruct H1 as (Hx1 & Hnd1 & Hin1).
  assert (Hts : forall id, In id (map cand_sourceZoneId (sortBy cand_sortOrder ts))
                           <-> In id (map cand_sourceZoneId ts)).
  { intros id. split; apply Permutation_in;
      [|apply Permutation_sym]; apply Permutation_map, sortBy_perm. }
  destruct (findZone e (task_zoneId task)) as [zone|].
  - subst x1.
    pose proof (fallbackStep_fold exclude (map ref_sourceZoneId (sortedSources zone)) c1 Hnd1)
      as H2.
    cbv zeta in H2.
    destruct H2 as (_ & Hnd2 & Hin2).
    { intros id H. apply Hin1 in H. destruct H as [[]|[_ H]]. exact H. }
    split; [exact Hnd2|].
    intros id. rewrite Hin2, Hin1, in_app_iff, Hts.
    assert (Hz : In id (map ref_sourceZoneId (sortedSources zone))
                 <-> In id (map ref_sourceZoneId (zone_replenishmentSources zone))).
    { unfold sortedSources. split; apply Permutation_in;
        [|apply Permutation_sym]; apply Permutation_map, sortBy_perm. }
    rewrite Hz. simpl. tauto.
  - simpl. split; [exact Hnd1|].
    intros id. rewrite Hin1, app_nil_r, Hts. simpl. tauto.
Qed.

(** ** Sources of a location *)

Lemma ascending_insertBy {A} (key : A -> Z) (x : A) (l : list A) :
  ascending (map key l) = true -> ascending (map key (insertBy key x l)) = true.
Proof.
  induction l as [|y r IH]; intros H; [reflexivity|].
  simpl insertBy. destruct (key x <=? key y) eqn:Hxy.
  - change (map key (x :: y :: r)) with (key x :: map key (y :: r)).
    simpl ascending at 1. simpl map at 1. rewrite Hxy. exact H.
  - assert (Hr : ascending (map key r) = true).
    { simpl in H. destruct (map key r); [reflexivity|].
      apply andb_prop in H. apply H. }
    specialize (IH Hr). simpl map. simpl map in H.
    destruct r as [|z r']; simpl insertBy in *.
    + simpl. rewrite andb_true_r. apply Z.leb_le. apply Z.leb_gt in Hxy. lia.
    + destruct (key x <=? key z) eqn:Hxz.
      * simpl map in *. simpl ascending at 1.
        apply andb_true_intro. split; [|exact IH].
        apply Z.leb_le. apply Z.leb_gt in Hxy. lia.
      * simpl map in *. simpl ascending at 1. simpl ascending in H at 1.
        apply andb_prop in H. destruct H as [Hyz _].
        apply andb_true_intro. split; [exact Hyz | exact IH].
Qed.

Lemma ascending_sortBy {A} (key : A -> Z) (l : list A) :
  ascending (map key (sortBy key l)) = true.
Proof.
  induction l as [|x r IH]; [reflexivity|]. simpl. apply ascending_insertBy, IH.
Qed.

Lemma mapSet_keys {V} (k : string) (v : V) (m : list (string * V)) (x : string) :
  In x (map fst (mapSet k v m)) <-> x = k \/ In x (map fst m).
Proof.
  induction m as [|[k' v'] r IH]; simpl.
  - intuition.
  - destruct (String.eqb k' k) eqn:Hk; simpl.
    + apply String.eqb_eq in Hk. subst k'. intuition.
    + rewrite IH. intuition.
Qed.

Lemma mapSet_NoDup {V} (k : string) (v : V) (m : list (string * V)) :
  NoDup (map fst m) -> NoDup (map fst (mapSet k v m)).
Proof.
  induction m as [|[k' v'] r IH]; simpl; intros H.
  - constructor; [intros [] | constructor].
  - inversion H as [|? ? Hn Hr]; subst.
    destruct (String.eqb k' k) eqn:Hk; simpl.
    + apply String.eqb_eq in Hk. subst k'. constructor; assumption.
    + constructor; [|apply IH, Hr].
      rewrite mapSet_keys. intros [->|Hin]; [|contradiction].
      rewrite String.eqb_refl in Hk. discriminate.
Qed.

Lemma normalizeSources_spec (e : Engine) (zoneId : string)
    (sources : list ReplenishmentSourceRef) :
  let srcs := normalizeSources e zoneId sources in
  NoDup (map ref_sourceZoneId srcs)
  /\ ascending (map ref_sortOrder srcs) = true
  /\ forall id, In id (map ref_sourceZoneId srcs)
                <-> In id (map ref_sourceZoneId sources) /\ acceptedSource e zoneId id.
Proof.
  cbv zeta. unfold normalizeSources.
  set (step := fun unique source => _).
  assert (H : forall l m, NoDup (map fst m) ->
            NoDup (map fst (fold_left step l m))
            /\ forall id, In id (map fst (fold_left step l m))
                 <-> In id (map fst m)
                     \/ (In id (map ref_sourceZoneId l) /\ acceptedSource e zoneId id)).
  { induction l as [|s r IH]; intros m Hm; simpl.
    - split; [exact Hm|]. intros id. intuition.
    - assert (Hstep : NoDup (map fst (step m s))
                /\ forall id, In id (map fst (step m s))
                     <-> In id (map fst m)
                         \/ (id = ref_sourceZoneId s /\ acceptedSource e zoneId id)).
      { unfold step, acceptedSource.
        destruct (negb (isExternal (ref_sourceZoneId s))
                  && negb (zoneExists e (ref_sourceZoneId s))) eqn:Hrej.
        - apply andb_prop in Hrej. destruct Hrej as [Hx Hz].
          apply negb_true_iff in Hx. apply negb_true_iff in Hz.
          split; [exact Hm|]. intros id. split; [auto|].
          intros [H|(-> & _ & [H|H])]; [exact H | congruence | congruence].
        - assert (Hacc : isExternal (ref_sourceZoneId s) = true
                         \/ zoneExists e (ref_sourceZoneId s) = true).
          { destruct (isExternal (ref_sourceZoneId s)); [left; reflexivity|].
            destruct (zoneExists e (ref_sourceZoneId s)); [right; reflexivity|].
            discriminate. }
          destruct (String.eqb (ref_sourceZoneId s) zoneId) eqn:Hs.
          + apply String.eqb_eq in Hs.
            split; [exact Hm|]. intros id. split; [auto|].
            intros [H|(-> & Hne & _)]; [exact H | contradiction].
          + apply String.eqb_neq in Hs.
            split; [apply mapSet_NoDup, Hm|]. intros id. rewrite mapSet_keys.
            split; [ intros [->|H]; auto | intros [H|(-> & _)]; auto ]. }
      destruct Hstep as [Hn Hin]. destruct (IH (step m s) Hn) as [Hn' Hin'].
      split; [exact Hn'|]. intros id. rewrite Hin', Hin. intuition. }
  destruct (H sources [] (NoDup_nil _)) as [Hn Hin].
  set (unique := fold_left step sources []) in *.
  set (refs := map (fun kv => mkSourceRef (fst kv) (snd kv)) unique).
  assert (Hids : map ref_sourceZoneId refs = map fst unique).
  { unfold refs. rewrite map_map. apply map_ext. reflexivity. }
  assert (Hp : Permutation (map ref_sourceZoneId (sortBy ref_sortOrder refs)) (map fst unique)).
  { rewrite <- Hids. apply Permutation_map, sortBy_perm. }
  split; [|split].
  - apply (Permutation_NoDup (Permutation_sym Hp)), Hn.
  - apply ascending_sortBy.
  - intros id. split; intros Hi.
    + apply (Permutation_in _ Hp) in Hi. apply Hin in Hi. destruct Hi as [[]|Hi]. exact Hi.
    + apply (Permutation_in _ (Permutation_sym Hp)). apply Hin. right. exact Hi.
Qed.

Lemma find_on_indexed {A} (p : A -> bool) (l : list A) (x : A) :
  find p l = Some x -> exists i, find (fun q => p (snd q)) (indexed l) = Some (i, x).
Proof.
  unfold indexed. generalize 0%nat. induction l as [|y r IH]; intros k H; [discriminate|].
  simpl in *. destruct (p y).
  - inversion H; subst. exists k. reflexivity.
  - apply IH, H.
Qed.

Lemma find_keys_at {A} (key : A -> string) (id : string) (l l' : list A) (k i : nat) (x : A) :
  map key l' = map key l ->
  find (fun q => String.eqb (key (snd q)) id) (combine (seq k (List.length l)) l) = Some (i, x) ->
  (k <= i)%nat /\ find (fun z => String.eqb (key z) id) l' = nth_error l' (i - k).
Proof.
  revert l' k. induction l as [|y r IH]; intros [|y' r'] k Hm H; simpl in *; try discriminate.
  injection Hm as Hk Hr. rewrite Hk. destruct (String.eqb (key y) id).
  - inversion H; subst. split; [lia|]. rewrite Nat.sub_diag. reflexivity.
  - destruct (IH r' (S k) Hr H) as [Hle Hf]. split; [lia|].
    replace (i - k)%nat with (S (i - S k)) by lia. exact Hf.
Qed.

Lemma map_zone_id_updateAt (f : Zone -> Zone) (l : list Zone) (i : nat) :
  (forall z, zone_id (f z) = zone_id z) ->
  map zone_id (updateAt i f l) = map zone_id l.
Proof.
  intros Hf. revert i. induction l as [|z r IH]; intros [|i]; simpl; auto.
  - rewrite Hf. reflexivity.
  - rewrite IH. reflexivity.
Qed.

Lemma zoneExists_ids (e1 e : Engine) (id : string) :
  map zone_id (zones e1) = map zone_id (zones e) -> zoneExists e1 id = zoneExists e id.
Proof.
  unfold zoneExists. intros H.
  assert (G : forall l, existsb (fun z => String.eqb (zone_id z) id) l
                        = existsb (fun k => String.eqb k id) (map zone_id l)).
  { induction l as [|z r IH]; simpl; [reflexivity | rewrite IH; reflexivity]. }
  rewrite !G, H. reflexivity.
Qed.

(** The loop of [updateLocation] over the tasks. *)
Lemma sourceLoop_tasks (zid : string) (removed : list string) (l : list nat) (e : Engine) :
  NoDup l ->
  let body := fun (j : nat) (task : ReplenishmentTask) =>
    if negb (String.eqb (task_zoneId task) zid) then ret tt else
    if negb (taskIsOpen (task_status task)) then ret tt else
    match task_sourceZoneId task with
    | None => ret tt
    | Some s =>
        if negb (truthy s) || negb (includes removed s) then ret tt else
        e <- get ;;
        modify (updTask j (fun t =>
          task_set_updatedAt (nowCursor e) (task_set_closedAt (Some (nowCursor e))
            (task_set_closeReason (Some "source_removed")
              (task_set_status REJECTED t))))) ;;
        pushTaskAudit (task_id task) A_CANCELLED None ("source_removed=" ++ s)
    end in
  let e' := exec (forTasks l body) e in
  zones e' = zones e
  /\ nowCursor e' = nowCursor e
  /\ forall j, nth_error (tasks e') j
       = option_map (fun t => if existsb (Nat.eqb j) l && usesRemovedSource zid removed t
                              then sourceRemoved (nowCursor e) t else t)
                    (nth_error (tasks e) j).
Proof.
  cbv zeta. revert e. induction l as [|i r IH]; intros e Hnd.
  - unfold forTasks. simpl forEach. run. split; [reflexivity|]. split; [reflexivity|].
    intros j. simpl. destruct (nth_error (tasks e) j); reflexivity.
  - inversion Hnd as [|? ? Hni Hr]; subst.
    rewrite exec_forTasks_cons.
    match goal with
    | |- context [exec (forTasks r ?b) ?s1] => set (body := b); set (e1 := s1) in *
    end.
    assert (H1 : zones e1 = zones e /\ nowCursor e1 = nowCursor e
                 /\ forall j, nth_error (tasks e1) j
                      = option_map (fun t => if Nat.eqb j i && usesRemovedSource zid removed t
                                             then sourceRemoved (nowCursor e) t else t)
                                   (nth_error (tasks e) j)).
    { unfold e1. destruct (nth_error (tasks e) i) as [t|] eqn:Hi.
      - assert (Hsame : forall j, nth_error (tasks e) j
                  = option_map (fun t0 => if Nat.eqb j i && false then sourceRemoved (nowCursor e) t0
                                          else t0) (nth_error (tasks e) j)).
        { intros j. rewrite andb_false_r. destruct (nth_error (tasks e) j); reflexivity. }
        assert (Hno : usesRemovedSource zid removed t = false ->
                      forall j, nth_error (tasks e) j
                        = option_map (fun t0 => if Nat.eqb j i && usesRemovedSource zid removed t0
                                                then sourceRemoved (nowCursor e) t0 else t0)
                                     (nth_error (tasks e) j)).
        { intros Hu j. destruct (Nat.eqb j i) eqn:Hj.
          - apply Nat.eqb_eq in Hj. subst j. rewrite Hi. simpl. rewrite Hu. reflexivity.
          - simpl. destruct (nth_error (tasks e) j); reflexivity. }
        unfold body. unfold usesRemovedSource in Hno.
        destruct (String.eqb (task_zoneId t) zid) eqn:E1; simpl negb; cbv iota;
          [|split; [reflexivity|]; split; [reflexivity|]; apply Hno; reflexivity].
        destruct (taskIsOpen (task_status t)) eqn:E2; simpl negb; cbv iota;
          [|split; [reflexivity|]; split; [reflexivity|]; apply Hno; reflexivity].
        destruct (task_sourceZoneId t) as [s|] eqn:E3;
          [|split; [reflexivity|]; split; [reflexivity|]; apply Hno; reflexivity].
        destruct (truthy s) eqn:E4; simpl negb; simpl orb;
          [|split; [reflexivity|]; split; [reflexivity|]; apply Hno; reflexivity].
        destruct (includes removed s) eqn:E5; simpl negb; cbv iota;
          [|split; [reflexivity|]; split; [reflexivity|]; apply Hno; reflexivity].
        unfold pushTaskAudit. run. unfold updTask. simpl.
        split; [reflexivity|]. split; [reflexivity|].
        intros j. destruct (Nat.eqb j i) eqn:Hj.
        + apply Nat.eqb_eq in Hj. subst j. rewrite updateAt_nth_error, Hi. simpl.
          unfold usesRemovedSource. rewrite E1, E2, E3, E4, E5. reflexivity.
        + apply Nat.eqb_neq in Hj. rewrite updateAt_nth_error_other by exact Hj.
          simpl. destruct (nth_error (tasks e) j); reflexivity.
      - split; [reflexivity|]. split; [reflexivity|].
        intros j. destruct (Nat.eqb j i) eqn:Hj.
        + apply Nat.eqb_eq in Hj. subst j. rewrite Hi. reflexivity.
        + simpl. destruct (nth_error (tasks e) j); reflexivity. }
    destruct H1 as (Hz1 & Hn1 & Ht1).
    destruct (IH e1 Hr) as (Hz2 & Hn2 & Ht2). fold body in Hz2, Hn2, Ht2.
    split; [congruence|]. split; [congruence|].
    intros j. rewrite Ht2, Ht1, Hn1. destruct (nth_error (tasks e) j) as [t|]; [|reflexivity].
    simpl. f_equal. destruct (Nat.eqb j i) eqn:Hj; simpl.
    + apply Nat.eqb_eq in Hj. subst j.
      assert (Hex : existsb (Nat.eqb i) r = false).
      { destruct (existsb (Nat.eqb i) r) eqn:Hex; [|reflexivity].
        apply existsb_exists in Hex. destruct Hex as (x & Hx & Heq).
        apply Nat.eqb_eq in Heq. subst x. contradiction. }
      rewrite Hex. simpl. reflexivity.
    + reflexivity.
Qed.

Lemma updateLocation_shape (payload : UpdateLocationPayload)
    (sources : list ReplenishmentSourceRef) (e : Engine) (i : nat) (zone : Zone) :
  find (fun p => String.eqb (zone_id (snd p)) (ul_zoneId payload)) (indexed (zones e))
    = Some (i, zone) ->
  ul_replenishmentSources payload = Some sources ->
  exists e1 e3,
    exec (updateLocation payload) e = exec (calculateZoneInventory (zone_id zone)) e3
    /\ map zone_id (zones e1) = map zone_id (zones e)
    /\ zones e3 = updateAt i (zone_set_replenishmentSources
                                (normalizeSources e1 (zone_id zone) sources)) (zones e1)
    /\ nowCursor e3 = nowCursor e
    /\ forall j, nth_error (tasks e3) j
         = option_map
             (fun t =>
                if usesRemovedSource (zone_id zone)
                     (filter (fun id =>
                        negb (includes (dedup (map ref_sourceZoneId
                                (normalizeSources e1 (zone_id zone) sources))) id))
                        (dedup (map ref_sourceZoneId (zone_replenishmentSources zone)))) t
                then sourceRemoved (nowCursor e) t else t)
             (nth_error (tasks e) j).
Proof.
  intros Hf Hs. unfold updateLocation. run. rewrite Hf, Hs. run.
  match goal with
  | |- context [normalizeSources ?s1 _ _] => set (e1 := s1) in *
  end.
  assert (H1 : tasks e1 = tasks e /\ nowCursor e1 = nowCursor e
               /\ map zone_id (zones e1) = map zone_id (zones e)).
  { unfold e1. destruct (ul_name payload), (ul_color payload), (ul_isSalesLocation payload),
      (ul_mapPolygon payload) as [poly|]; try destruct (3 <=? List.length poly)%nat;
      run; unfold updZone; simpl;
      (split; [reflexivity|]; split; [reflexivity|]);
      repeat (rewrite map_zone_id_updateAt; [|intros z; reflexivity]); reflexivity. }
  destruct H1 as (Ht1 & Hn1 & Hz1).
  set (newSources := normalizeSources e1 (zone_id zone) sources) in *.
  set (removed := filter _ (dedup (map ref_sourceZoneId (zone_replenishmentSources zone)))) in *.
  match goal with
  | |- context [exec (calculateZoneInventory _) ?s3] => set (e3 := s3) in *
  end.
  exists e1, e3. split; [reflexivity|]. split; [exact Hz1|].
  set (e2 := updZone i (zone_set_replenishmentSources newSources) e1) in *.
  unfold e3. destruct (0 <? List.length removed)%nat eqn:Hlen.
  - destruct (sourceLoop_tasks (zone_id zone) removed (seq 0 (List.length (tasks e1))) e2
                (seq_NoDup _ _)) as (Hz & Hn & Ht).
    split; [exact Hz|]. split; [rewrite Hn; exact Hn1|].
    intros j. rewrite Ht. change (tasks e2) with (tasks e1). change (nowCursor e2) with (nowCursor e1).
    rewrite Ht1, Hn1. destruct (nth_error (tasks e) j) as [t|] eqn:Hj; [|reflexivity].
    simpl. f_equal.
    assert (Hex : existsb (Nat.eqb j) (seq 0 (List.length (tasks e))) = true).
    { apply existsb_exists. exists j. split; [|apply Nat.eqb_refl].
      apply in_seq. split; [lia|]. simpl. apply nth_error_Some. congruence. }
    rewrite Hex. reflexivity.
  - run. split; [reflexivity|]. split; [exact Hn1|].
    intros j. change (tasks e2) with (tasks e1). rewrite Ht1.
    destruct (nth_error (tasks e) j) as [t|]; [|reflexivity]. simpl. f_equal.
    assert (Hr : removed = []).
    { destruct removed; [reflexivity | discriminate]. }
    assert (Hg : forall rm, rm = [] ->
              t = if usesRemovedSource (zone_id zone) rm t
                  then sourceRemoved (nowCursor e) t else t).
    { intros rm ->. unfold usesRemovedSource.
      destruct (task_sourceZoneId t); simpl; rewrite ?andb_false_r; reflexivity. }
    exact (Hg removed Hr).
Qed.

Lemma acceptedSource_ids (e1 e : Engine) (zoneId id : string) :
  map zone_id (zones e1) = map zone_id (zones e) ->
  acceptedSource e1 zoneId id <-> acceptedSource e zoneId id.
Proof. intros H. unfold acceptedSource. rewrite (zoneExists_ids e1 e id H). tauto. Qed.

(** X21. The sources of a location are normalised on update: when
    [updateLocation] finds the location and is given sources, the location is
    found afterwards with sources that name no zone twice, are in ascending
    sort order, and name exactly the zones of the given sources that are not
    the location itself and are external or known locations. *)
Theorem updateLocation_normalises_sources (payload : UpdateLocationPayload)
    (sources : list ReplenishmentSourceRef) (e : Engine) (zone : Zone) :
  findZone e (ul_zoneId payload) = Some zone ->
  ul_replenishmentSources payload = Some sources ->
  exists zone',
    findZone (exec (updateLocation payload) e) (ul_zoneId payload) = Some zone'
    /\ NoDup (map ref_sourceZoneId (zone_replenishmentSources zone'))
    /\ ascending (map ref_sortOrder (zone_replenishmentSources zone')) = true
    /\ forall id, In id (map ref_sourceZoneId (zone_replenishmentSources zone'))
                  <-> In id (map ref_sourceZoneId sources)
                      /\ acceptedSource e (ul_zoneId payload) id.
Proof.
  intros Hz Hs. unfold findZone in Hz.
  destruct (find_on_indexed _ _ _ Hz) as [i Hf].
  destruct (updateLocation_shape payload sources e i zone Hf Hs)
    as (e1 & e3 & He & Hids & Hz3 & _ & _).
  destruct (find_indexed_some _ _ _ _ Hf) as [Hi Hid]. simpl in Hid.
  apply String.eqb_eq in Hid.
  assert (Hi1 : exists z1, nth_error (zones e1) i = Some z1).
  { destruct (nth_error (zones e1) i) as [z1|] eqn:H1; [exists z1; reflexivity|].
    apply nth_error_None in H1.
    assert (Hlt : (i < List.length (zones e))%nat) by (apply nth_error_Some; congruence).
    rewrite <- (length_map zone_id (zones e)), <- Hids, length_map in Hlt. lia. }
  destruct Hi1 as [z1 Hi1].
  set (newSources := normalizeSources e1 (zone_id zone) sources) in *.
  exists (zone_set_replenishmentSources newSources z1). split.
  - unfold findZone. rewrite He.
    rewrite (invFrame_zones _ _ (calculateZoneInventory_frame _ _)), Hz3.
    unfold indexed in Hf.
    destruct (find_keys_at zone_id (ul_zoneId payload) (zones e)
                (updateAt i (zone_set_replenishmentSources newSources) (zones e1)) 0 i zone)
      as [_ Hfind]; [|exact Hf|].
    + rewrite map_zone_id_updateAt by (intros z; reflexivity). exact Hids.
    + rewrite Hfind, Nat.sub_0_r, updateAt_nth_error, Hi1. reflexivity.
  - destruct (normalizeSources_spec e1 (zone_id zone) sources) as (Hn & Ha & Hin).
    fold newSources in Hn, Ha, Hin. simpl.
    split; [exact Hn|]. split; [exact Ha|].
    intros id. rewrite Hin, (acceptedSource_ids e1 e _ id Hids), Hid. reflexivity.
Qed.

Lemma updateLocation_normalises_sources_witness :
  exists zone',
    findZone (exec (updateLocation
                      (mkUpdateLocation "shelf-a" None None None None
                         (Some [mkSourceRef "warehouse" 5; mkSourceRef "shelf-a" 1;
                                mkSourceRef "nowhere" 2; mkSourceRef "external-dc" 3;
                                mkSourceRef "warehouse" 4])))
                   demoEngine) "shelf-a" = Some zone'
    /\ map ref_sourceZoneId (zone_replenishmentSources zone') = ["external-dc"; "warehouse"].
Proof.
  edestruct (updateLocation_normalises_sources
               (mkUpdateLocation "shelf-a" None None None None
                  (Some [mkSourceRef "warehouse" 5; mkSourceRef "shelf-a" 1;
                         mkSourceRef "nowhere" 2; mkSourceRef "external-dc" 3;
                         mkSourceRef "warehouse" 4]))
               [mkSourceRef "warehouse" 5; mkSourceRef "shelf-a" 1;
                mkSourceRef "nowhere" 2; mkSourceRef "external-dc" 3;
                mkSourceRef "warehouse" 4] demoEngine) as (zone' & Hfind & _).
  - vm_compute. reflexivity.
  - reflexivity.
  - exists zone'. split; [exact Hfind|].
    vm_compute in Hfind. injection Hfind as <-. reflexivity.
Defined.

(** X22. Removing a source from a location rejects the open tasks that
    use it: an open task of the location whose source was among the location's
    sources and is not among the accepted new ones ends as REJECTED with reason
    "source_removed", closed at the current time, all else kept; the
    recompute that follows does not touch it. *)
Theorem updateLocation_rejects_tasks_of_removed_source (payload : UpdateLocationPayload)
    (sources : list ReplenishmentSourceRef) (e : Engine) (zone : Zone)
    (j : nat) (t : ReplenishmentTask) (s : string) :
  findZone e (ul_zoneId payload) = Some zone ->
  ul_replenishmentSources payload = Some sources ->
  nth_error (tasks e) j = Some t ->
  task_zoneId t = ul_zoneId payload ->
  taskIsOpen (task_status t) = true ->
  task_sourceZoneId t = Some s ->
  truthy s = true ->
  In s (map ref_sourceZoneId (zone_replenishmentSources zone)) ->
  ~ (In s (map ref_sourceZoneId sources) /\ acceptedSource e (ul_zoneId payload) s) ->
  nth_error (tasks (exec (updateLocation payload) e)) j
  = Some (sourceRemoved (nowCursor e) t).
Proof.
  intros Hz Hs Hj Hzone Hopen Hsrc Htr Hprev Hgone. unfold findZone in Hz.
  destruct (find_on_indexed _ _ _ Hz) as [i Hf].
  destruct (updateLocation_shape payload sources e i zone Hf Hs)
    as (e1 & e3 & He & Hids & _ & _ & Ht3).
  destruct (find_indexed_some _ _ _ _ Hf) as [Hi Hid]. simpl in Hid.
  apply String.eqb_eq in Hid.
  specialize (Ht3 j). rewrite Hj in Ht3. simpl in Ht3.
  set (removed := filter _ _) in Ht3.
  assert (Hrem : includes removed s = true).
  { apply includes_In. apply filter_In. split; [apply dedup_in; exact Hprev|].
    apply negb_true_iff. destruct (includes _ s) eqn:Hinc; [|reflexivity].
    exfalso. apply Hgone. apply includes_In in Hinc. apply (proj1 (dedup_in _ _)) in Hinc.
    apply (proj1 (proj2 (proj2 (normalizeSources_spec e1 (zone_id zone) sources)) s)) in Hinc.
    rewrite (acceptedSource_ids e1 e _ s Hids), Hid in Hinc. exact Hinc. }
  assert (Hu : usesRemovedSource (zone_id zone) removed t = true).
  { unfold usesRemovedSource. rewrite Hzone, Hid, String.eqb_refl, Hopen, Hsrc, Htr, Hrem.
    reflexivity. }
  rewrite Hu in Ht3.
  assert (H3 : frozenAt j (sourceRemoved (nowCursor e) t) e3).
  { exists (sourceRemoved (nowCursor e) t). auto. }
  apply (calculateZoneInventory_frz j (sourceRemoved (nowCursor e) t) (zone_id zone)) in H3.
  rewrite <- He in H3. destruct H3 as (t' & Ht' & _ & Hc).
  rewrite Ht'. f_equal. apply Hc. reflexivity.
Qed.

Lemma updateLocation_rejects_tasks_of_removed_source_witness :
  exists t,
    nth_error (tasks (exec (updateLocation
                              (mkUpdateLocation "shelf-a" None None None None (Some [])))
                           startedTaskEngine)) 0 = Some t
    /\ task_status t = REJECTED /\ task_closeReason t = Some "source_removed".
Proof.
  eexists. split.
  - eapply (updateLocation_rejects_tasks_of_removed_source
             (mkUpdateLocation "shelf-a" None None None None (Some [])) []
             startedTaskEngine).
    + vm_compute. reflexivity.
    + reflexivity.
    + vm_compute. reflexivity.
    + reflexivity.
    + reflexivity.
    + reflexivity.
    + reflexivity.
    + vm_compute. left. reflexivity.
    + intros [[] _].
  - split; reflexivity.
Defined.

(** ** A recompute counts the tags present *)

Lemma mapGet_mapSet_same {V} (k : string) (v : V) (m : list (string * V)) :
  mapGet k (mapSet k v m) = Some v.
Proof.
  unfold mapGet. induction m as [|[k' v'] r IH]; simpl.
  - rewrite String.eqb_refl. reflexivity.
  - destruct (String.eqb k' k) eqn:Hk; simpl.
    + rewrite String.eqb_refl. reflexivity.
    + rewrite Hk. exact IH.
Qed.

Lemma mapGet_mapSet_other {V} (k k' : string) (v : V) (m : list (string * V)) :
  k' <> k -> mapGet k' (mapSet k v m) = mapGet k' m.
Proof.
  intros Hn. unfold mapGet. induction m as [|[k0 v0] r IH]; simpl.
  - apply String.eqb_neq in Hn. rewrite String.eqb_sym, Hn. reflexivity.
  - destruct (String.eqb k0 k) eqn:Hk; simpl.
    + apply String.eqb_eq in Hk. subst k0.
      apply String.eqb_neq in Hn. rewrite String.eqb_sym, Hn. reflexivity.
    + destruct (String.eqb k0 k'); [reflexivity | exact IH].
Qed.

Lemma mapGet_keys {V} (k : string) (m : list (string * V)) :
  mapGet k m <> None <-> In k (map fst m).
Proof.
  unfold mapGet. induction m as [|[k0 v0] r IH]; simpl.
  - split; [congruence | intros []].
  - destruct (String.eqb k0 k) eqn:Hk; simpl.
    + apply String.eqb_eq in Hk. split; [auto | discriminate].
    + apply String.eqb_neq in Hk. rewrite IH. split; [auto | intros [H|H]; [contradiction | exact H]].
Qed.

Section Buckets.
Variables (now : Z) (zoneId skuId : string).

Let present (p : EPCPresence) : bool :=
  String.eqb (pres_zoneId p) zoneId && String.eqb (pres_skuId p) skuId
  && negb (pres_lastSeenAt p <? now - ttlMs).

Let step (bySku : list (string * list string)) (p : EPCPresence) :=
  if negb (String.eqb (pres_zoneId p) zoneId) then bySku else
  if pres_lastSeenAt p <? now - ttlMs then bySku else
  let bucket := match mapGet (pres_skuId p) bySku with Some b => b | None => [] end in
  mapSet (pres_skuId p)
         (if includes bucket (pres_epc p) then bucket else (bucket ++ [pres_epc p])%list)
         bySku.

Let bucketOf (m : list (string * list string)) : list string :=
  match mapGet skuId m with Some b => b | None => [] end.

Lemma bucket_fold (l : list EPCPresence) (m : list (string * list string)) :
  NoDup (bucketOf m ++ map pres_epc (filter present l)) ->
  bucketOf (fold_left step l m) = (bucketOf m ++ map pres_epc (filter present l))%list
  /\ (In skuId (map fst (fold_left step l m))
      <-> In skuId (map fst m) \/ filter present l <> []).
Proof.
  revert m. induction l as [|p r IH]; intros m Hnd; simpl fold_left; simpl filter in *.
  - rewrite app_nil_r. split; [reflexivity|]. split; [auto | intros [H|H]; [exact H | congruence]].
  - assert (Hstep : (present p = false /\ bucketOf (step m p) = bucketOf m
                     /\ (In skuId (map fst (step m p)) <-> In skuId (map fst m)))
                    \/ (present p = true
                        /\ (~ In (pres_epc p) (bucketOf m) ->
                            bucketOf (step m p) = (bucketOf m ++ [pres_epc p])%list)
                        /\ In skuId (map fst (step m p)))).
    { unfold present, step.
      destruct (String.eqb (pres_zoneId p) zoneId); simpl; [|left; tauto].
      destruct (pres_lastSeenAt p <? now - ttlMs); simpl;
        [left; rewrite andb_false_r; tauto|].
      rewrite andb_true_r.
      destruct (String.eqb (pres_skuId p) skuId) eqn:Hs.
      - apply String.eqb_eq in Hs. right. split; [reflexivity|]. split.
        + intros Hni. unfold bucketOf. rewrite Hs, mapGet_mapSet_same.
          destruct (includes _ (pres_epc p)) eqn:Hinc; [|reflexivity].
          apply includes_In in Hinc. contradiction.
        + apply mapSet_keys. left. symmetry. exact Hs.
      - apply String.eqb_neq in Hs. left. split; [reflexivity|]. split.
        + unfold bucketOf. rewrite mapGet_mapSet_other by congruence. reflexivity.
        + rewrite mapSet_keys. split; [intros [H|H]; [congruence | exact H] | auto]. }
    destruct Hstep as [(Hp & Hb & Hk) | (Hp & Hb & Hk)]; rewrite Hp in *.
    + destruct (IH (step m p)) as [H1 H2]; [rewrite Hb; exact Hnd|].
      rewrite H1, H2, Hb, Hk. tauto.
    + simpl map in Hnd.
      assert (Hni : ~ In (pres_epc p) (bucketOf m)).
      { intros Hin. apply NoDup_remove_2 in Hnd. apply Hnd. apply in_or_app. left. exact Hin. }
      specialize (Hb Hni).
      destruct (IH (step m p)) as [H1 H2].
      { rewrite Hb, <- app_assoc. exact Hnd. }
      rewrite H1, H2, Hb, <- app_assoc. split; [reflexivity|].
      split; [intros _; right; discriminate | intros _; left; exact Hk].
Qed.

End Buckets.

(** Among records with distinct EPCs, those that pass a test have distinct EPCs. *)
Lemma epcs_of_filter_NoDup (keep : EPCPresence -> bool) (records : list EPCPresence) :
  NoDup (map pres_epc records) -> NoDup (map pres_epc (filter keep records)).
Proof.
  intros Hn. induction records as [|x r IH]; simpl; [constructor|].
  inversion Hn as [|? ? Hx Hr]; subst. destruct (keep x); simpl; [|apply IH, Hr].
  constructor; [|apply IH, Hr]. intros Hin. apply Hx.
  apply in_map_iff in Hin. destruct Hin as (y & Hy & Hin).
  apply in_map_iff. exists y. split; [exact Hy|]. apply filter_In in Hin. apply Hin.
Qed.

(** The bucket of a SKU in [bySku] holds the tags [getPresentEPCs] lists. *)
Lemma presentBySku_counts (e : Engine) (zoneId skuId : string) :
  NoDup (map pres_epc (mapValues (epcPresence e))) ->
  List.length (match mapGet skuId (presentBySku e zoneId) with Some b => b | None => [] end)
  = List.length (getPresentEPCs e zoneId skuId)
  /\ (In skuId (map fst (presentBySku e zoneId)) <-> getPresentEPCs e zoneId skuId <> []).
Proof.
  intros Hnd. unfold presentBySku, getPresentEPCs.
  set (present := fun p => _ && negb (pres_lastSeenAt p <? nowCursor e - ttlMs)).
  destruct (bucket_fold (nowCursor e) zoneId skuId (mapValues (epcPresence e)) [])
    as [Hb Hk].
  { simpl. apply epcs_of_filter_NoDup, Hnd. }
  cbv zeta in Hb, Hk. fold present in Hb, Hk. split.
  - rewrite Hb. simpl. rewrite !length_map.
    symmetry. apply Permutation_length, sortBy_perm.
  - rewrite Hk. simpl. split.
    + intros [[]|H] Hnil. apply H. apply map_eq_nil in Hnil.
      apply Permutation_nil. rewrite <- Hnil at 1. apply sortBy_perm.
    + intros H. right. intros Hnil. apply H. rewrite Hnil. reflexivity.
Qed.

Lemma rfidLoop_values zoneId (qty : string -> Z) (conf : string -> option Z)
    (L : list string) (e : Engine) :
  let body := fun skuId => upsertSnapshot zoneId skuId (qty skuId) RFID (conf skuId) in
  uniqueSnapshots e -> NoDup L -> (forall s, 0 <= qty s) ->
  forall s, In s L ->
    getCurrentInventoryQty (exec (forEach L body) e) zoneId s RFID = qty s.
Proof.
  cbv zeta. revert e. induction L as [|x r IH]; intros e Hu Hn Hq s Hs; [destruct Hs|].
  inversion Hn as [|a b Hx Hr]; subst.
  simpl forEach. run.
  match goal with |- context [forEach r ?b] => set (body := b) in * end.
  assert (Hbody : forall y e, exists q c,
             exec (body y) e = exec (upsertSnapshot zoneId y q RFID c) e).
  { intros y e'. unfold body. eauto. }
  set (e1 := exec (upsertSnapshot zoneId x (qty x) RFID (conf x)) e).
  assert (Hu1 : uniqueSnapshots e1) by (apply upsertSnapshot_unique, Hu).
  destruct (in_dec string_dec s r) as [Hin|Hnin].
  - apply (IH e1 Hu1 Hr Hq s Hin).
  - destruct Hs as [<-|Hs]; [|contradiction].
    destruct (upsertLoop_keeps zoneId RFID body Hbody r e1 Hu1) as [_ [_ Hc]].
    rewrite Hc by tauto.
    destruct (upsertSnapshot_read_back zoneId x (qty x) RFID (conf x) e Hu) as [Hv _].
    fold e1 in Hv. rewrite Hv. apply writtenQty_nonneg, Hq.
Qed.

Lemma calculateZoneInventory_tags (zoneId skuId : string) (e : Engine) :
  uniqueSnapshots e ->
  NoDup (map pres_epc (mapValues (epcPresence e))) ->
  (getPresentEPCs e zoneId skuId <> []
   \/ (exists r, In r (rules e) /\ rule_zoneId r = zoneId /\ rule_skuId r = skuId
                 /\ rule_source r = RFID /\ rule_isActive r = true)
   \/ (exists s, In s (snapshots e) /\ snap_zoneId s = zoneId /\ snap_skuId s = skuId
                 /\ snap_source s = RFID)) ->
  getCurrentInventoryQty (exec (calculateZoneInventory zoneId) e) zoneId skuId RFID
  = Z.of_nat (List.length (getPresentEPCs e zoneId skuId)).
Proof.
  intros Hu Hnd Hc. unfold calculateZoneInventory. run.
  match goal with
  | |- context [exec (forEach ?L2 ?b2) (exec (forEach ?L ?b) e)] =>
      set (L1 := L); set (b1 := b); set (Lb := L2); set (bb := b2)
  end.
  rewrite getCurrentInventoryQty_after_evaluateMinMax.
  assert (Hb1 : forall x e', exists q c,
             exec (b1 x) e' = exec (upsertSnapshot zoneId x q RFID c) e').
  { intros x e'. unfold b1. eauto. }
  assert (Hbb : forall x e', exists q c,
             exec (bb x) e' = exec (upsertSnapshot zoneId x q NON_RFID c) e').
  { intros x e'. unfold bb. run. eauto. }
  destruct (upsertLoop_keeps zoneId RFID b1 Hb1 L1 e Hu) as [Hu1 _].
  destruct (upsertLoop_keeps zoneId NON_RFID bb Hbb Lb (exec (forEach L1 b1) e) Hu1)
    as [_ [_ Hkeep]].
  rewrite Hkeep by (left; discriminate).
  destruct (presentBySku_counts e zoneId skuId Hnd) as [Hlen Hkey].
  set (qty := fun s => match mapGet s (presentBySku e zoneId) with
                       | Some b => Z.of_nat (List.length b)
                       | None => 0
                       end).
  rewrite (rfidLoop_values zoneId qty (fun s => Some (if 0 <? qty s then 90 else 70)) L1 e Hu).
  - unfold qty. rewrite <- Hlen. destruct (mapGet skuId (presentBySku e zoneId)); reflexivity.
  - apply dedup_NoDup.
  - intros s. unfold qty. destruct (mapGet s (presentBySku e zoneId)); lia.
  - unfold L1. apply dedup_in. apply in_or_app.
    destruct Hc as [Hp | [(r & Hr & Hz & Hs & Hsrc & Ha) | (s & Hs & Hz & Hk & Hsrc)]].
    + left. apply Hkey, Hp.
    + right. apply in_or_app. left. apply in_map_iff. exists r. split; [exact Hs|].
      apply filter_In. split; [exact Hr|].
      rewrite Hz, String.eqb_refl, Ha. unfold isRfid. rewrite Hsrc. reflexivity.
    + right. apply in_or_app. right. apply in_map_iff. exists s. split; [exact Hk|].
      apply filter_In. split; [exact Hs|].
      rewrite Hz, String.eqb_refl. unfold isRfid. rewrite Hsrc. reflexivity.
Qed.

(** X23. A recompute sets the RFID quantity to the number of tags present:
    when snapshots are unique and no EPC has two presence records, after
    [calculateZoneInventory] the RFID quantity of a SKU that has a present tag,
    an active RFID rule or an RFID snapshot in the location is the number of
    tags [getPresentEPCs] lists, so 0 once every tag has expired. *)
Theorem calculateZoneInventory_counts_tags (zoneId skuId : string) (e : Engine) :
  uniqueSnapshots e ->
  NoDup (map pres_epc (mapValues (epcPresence e))) ->
  (getPresentEPCs e zoneId skuId <> []
   \/ (exists r, In r (rules e) /\ rule_zoneId r = zoneId /\ rule_skuId r = skuId
                 /\ rule_source r = RFID /\ rule_isActive r = true)
   \/ (exists s, In s (snapshots e) /\ snap_zoneId s = zoneId /\ snap_skuId s = skuId
                 /\ snap_source s = RFID)) ->
  getCurrentInventoryQty (exec (calculateZoneInventory zoneId) e) zoneId skuId RFID
  = Z.of_nat (List.length (getPresentEPCs e zoneId skuId)).
Proof. apply calculateZoneInventory_tags. Qed.

Lemma calculateZoneInventory_counts_tags_witness :
  getCurrentInventoryQty
    (exec (calculateZoneInventory "shelf-a") (exec (ingestRFIDRead demoRead) demoEngine))
    "shelf-a" "SKU-RFID-1" RFID = 1.
Proof.
  rewrite (calculateZoneInventory_counts_tags "shelf-a" "SKU-RFID-1"
             (exec (ingestRFIDRead demoRead) demoEngine)).
  - vm_compute. reflexivity.
  - vm_compute. repeat constructor; simpl; intuition discriminate.
  - vm_compute. repeat constructor; simpl; intuition discriminate.
  - left. vm_compute. discriminate.
Defined.

(** ** Moving tags between locations *)

Lemma rebind_absent {V} (g : V -> V) (k : string) (m : list (string * V)) :
  ~ In k (map fst m) ->
  map (fun kv => if String.eqb (fst kv) k then (fst kv, g (snd kv)) else kv) m = m.
Proof.
  induction m as [|[k1 v1] r IH]; intros Hk; [reflexivity|]. simpl in *.
  destruct (String.eqb k1 k) eqn:E1.
  - apply String.eqb_eq in E1. subst k1. exfalso. apply Hk. left. reflexivity.
  - f_equal. apply IH. tauto.
Qed.

Lemma rebind_one {V} (g : V -> V) (k : string) (m : list (string * V)) :
  NoDup (map fst m) ->
  match mapGet k m with Some p => mapSet k (g p) m | None => m end
  = map (fun kv => if String.eqb (fst kv) k then (fst kv, g (snd kv)) else kv) m.
Proof.
  unfold mapGet. induction m as [|[k' v'] r IH]; intros Hn; [reflexivity|].
  inversion Hn as [|? ? Hk Hr]; subst. simpl.
  destruct (String.eqb k' k) eqn:E; simpl.
  - rewrite ?E. apply String.eqb_eq in E. subst k'. f_equal.
    symmetry. apply rebind_absent, Hk.
  - specialize (IH Hr). destruct (find _ r) as [[k1 v1]|] eqn:Hf; simpl in *.
    + rewrite ?E. f_equal. exact IH.
    + f_equal. exact IH.
Qed.

Lemma rebind_fold {V} (g : V -> V) (epcs : list string) (m : list (string * V)) :
  NoDup (map fst m) -> (forall v, g (g v) = g v) ->
  fold_left (fun m epc => match mapGet epc m with Some p => mapSet epc (g p) m | None => m end)
            epcs m
  = map (fun kv => if includes epcs (fst kv) then (fst kv, g (snd kv)) else kv) m.
Proof.
  intros Hn Hg. revert m Hn. induction epcs as [|k r IH]; intros m Hn; simpl fold_left.
  - rewrite <- (List.map_id m) at 1. apply map_ext. intros [a b]. reflexivity.
  - rewrite rebind_one by exact Hn. rewrite IH.
    + rewrite map_map. apply map_ext. intros [a b]. unfold includes. simpl.
      rewrite (String.eqb_sym a k).
      destruct (String.eqb k a); simpl; [|reflexivity].
      destruct (existsb (String.eqb a) r); simpl; [rewrite Hg|]; reflexivity.
    + rewrite map_map.
      replace (map (fun x => fst (if String.eqb (fst x) k then (fst x, g (snd x)) else x)) m)
        with (map fst m); [exact Hn|].
      apply map_ext. intros [a b]. simpl. destruct (String.eqb a k); reflexivity.
Qed.

Lemma length_filter_map {A B} (p : B -> bool) (f : A -> B) (l : list A) :
  List.length (filter p (map f l)) = List.length (filter (fun x => p (f x)) l).
Proof.
  induction l as [|x r IH]; [reflexivity|]. simpl. destruct (p (f x)); simpl; rewrite IH; reflexivity.
Qed.

Lemma length_filter_ext_in {A} (p q : A -> bool) (l : list A) :
  (forall x, In x l -> p x = q x) -> List.length (filter p l) = List.length (filter q l).
Proof. intros H. rewrite (filter_ext_in p q l H). reflexivity. Qed.

Lemma length_filter_split {A} (a b : A -> bool) (l : list A) :
  (List.length (filter a l)
   = List.length (filter (fun x => a x && negb (b x)) l)
     + List.length (filter (fun x => a x && b x) l))%nat.
Proof.
  induction l as [|x r IH]; [reflexivity|]. simpl.
  destruct (a x), (b x); simpl; lia.
Qed.

Lemma length_filter_or {A} (a b : A -> bool) (l : list A) :
  (forall x, In x l -> a x = true -> b x = false) ->
  (List.length (filter (fun x => a x || b x) l)
   = List.length (filter a l) + List.length (filter b l))%nat.
Proof.
  induction l as [|x r IH]; intros H; [reflexivity|]. simpl.
  assert (Hr : forall y, In y r -> a y = true -> b y = false)
    by (intros y Hy; apply H; right; exact Hy).
  specialize (IH Hr). pose proof (H x (or_introl eq_refl)) as Hx.
  destruct (a x) eqn:Ea; simpl.
  - rewrite (Hx eq_refl). simpl. lia.
  - destruct (b x); simpl; lia.
Qed.

Lemma NoDup_map_injective_in {A B} (f : A -> B) (l : list A) (x y : A) :
  NoDup (map f l) -> In x l -> In y l -> f x = f y -> x = y.
Proof.
  induction l as [|z r IH]; intros Hn Hx Hy Hf; [destruct Hx|].
  inversion Hn as [|? ? Hz Hr]; subst. simpl in Hx, Hy.
  destruct Hx as [<-|Hx], Hy as [<-|Hy]; auto.
  - exfalso. apply Hz. rewrite Hf. apply in_map, Hy.
  - exfalso. apply Hz. rewrite <- Hf. apply in_map, Hx.
Qed.

(** As many records of [l] that satisfy [a] carry an EPC of [moved] as
    [moved] has entries. *)
Lemma length_filter_moved (a : EPCPresence -> bool) (l : list EPCPresence)
    (moved : list string) :
  NoDup (map pres_epc l) -> NoDup moved ->
  (forall x, In x moved -> In x (map pres_epc (filter a l))) ->
  List.length (filter (fun p => a p && includes moved (pres_epc p)) l) = List.length moved.
Proof.
  intros Hl Hm Hsub. rewrite <- (length_map pres_epc).
  apply Permutation_length, NoDup_Permutation.
  - apply epcs_of_filter_NoDup, Hl.
  - exact Hm.
  - intros x. split.
    + intros H. apply in_map_iff in H. destruct H as (p & <- & Hp).
      apply filter_In in Hp. destruct Hp as [_ Hp]. apply andb_prop in Hp.
      apply includes_In, Hp.
    + intros H. pose proof (Hsub x H) as Hx. apply in_map_iff in Hx.
      destruct Hx as (p & <- & Hp). apply filter_In in Hp.
      apply in_map_iff. exists p. split; [reflexivity|]. apply filter_In.
      split; [apply Hp|]. rewrite (proj2 Hp). apply includes_In, H.
Qed.

Lemma slice0_firstn {A} (n : Z) (l : list A) : exists k, slice0 n l = firstn k l.
Proof. unfold slice0. destruct (0 <=? n); eauto. Qed.

Lemma firstn_In_list {A} (k : nat) (l : list A) (x : A) : In x (firstn k l) -> In x l.
Proof.
  revert k. induction l as [|y r IH]; intros [|k] H; simpl in *; try tauto.
  destruct H as [H|H]; [left; exact H | right; eapply IH; exact H].
Qed.

Lemma NoDup_firstn {A} (k : nat) (l : list A) : NoDup l -> NoDup (firstn k l).
Proof.
  revert k. induction l as [|x r IH]; intros [|k] H; simpl; try constructor.
  - inversion H; subst. intros Hin. apply H2. revert Hin. apply firstn_In_list.
  - inversion H; subst. apply IH. assumption.
Qed.

Lemma presenceKeyed_values (e : Engine) :
  presenceKeyed e -> NoDup (map pres_epc (mapValues (epcPresence e))).
Proof.
  intros [Hn Hk]. unfold mapValues. rewrite map_map.
  replace (map (fun x => pres_epc (snd x)) (epcPresence e)) with (map fst (epcPresence e));
    [exact Hn|].
  apply map_ext_in. intros [k p] Hin. simpl. symmetry. apply Hk, Hin.
Qed.

Lemma tagCount_filter (e : Engine) (zoneId skuId : string) :
  tagCount e zoneId skuId
  = Z.of_nat (List.length
      (filter (fun p => String.eqb (pres_zoneId p) zoneId && String.eqb (pres_skuId p) skuId
                        && negb (pres_lastSeenAt p <? nowCursor e - ttlMs))
              (mapValues (epcPresence e)))).
Proof.
  unfold tagCount, getPresentEPCs. rewrite length_map.
  rewrite (Permutation_length (sortBy_perm _ _)). reflexivity.
Qed.

(** X24. Moving tags conserves them: when every presence record is filed
    once under its own EPC, the two locations differ and the move time is
    within the TTL, [moveRFIDEpcs] takes as many tags of the SKU from the
    source as it adds to the destination, namely the tags it returns: for a
    quantity of 0 or more, the smaller of the quantity and the tags present
    at the source. *)
Theorem moveRFIDEpcs_conserves_tags (sourceZoneId destinationZoneId skuId : string)
    (qty at_ : Z) (e : Engine) :
  presenceKeyed e ->
  sourceZoneId <> destinationZoneId ->
  nowCursor e - ttlMs <= at_ ->
  let moved := eval (moveRFIDEpcs sourceZoneId destinationZoneId skuId qty at_) e in
  let e' := exec (moveRFIDEpcs sourceZoneId destinationZoneId skuId qty at_) e in
  tagCount e' sourceZoneId skuId
    = tagCount e sourceZoneId skuId - Z.of_nat (List.length moved)
  /\ tagCount e' destinationZoneId skuId
     = tagCount e destinationZoneId skuId + Z.of_nat (List.length moved)
  /\ (0 <= qty -> Z.of_nat (List.length moved) = Z.min qty (tagCount e sourceZoneId skuId))
  /\ presenceKeyed e'.
Proof.
  intros Hkeyed Hne Hat moved e'.
  pose proof (presenceKeyed_values e Hkeyed) as Hnd.
  destruct Hkeyed as [Hkeys Hkey].
  unfold moveRFIDEpcs in moved, e'. autorewrite with run in moved, e'. cbv zeta in moved, e'.
  set (g := fun p => pres_set_lastSeenAt at_
                       (pres_set_antennaId (antennaOfZone e destinationZoneId)
                          (pres_set_zoneId destinationZoneId p))).
  set (h := fun kv : string * EPCPresence =>
              if includes moved (fst kv) then (fst kv, g (snd kv)) else kv).
  set (h' := fun p => if includes moved (pres_epc p) then g p else p).
  assert (Hm' : epcPresence e' = map h (epcPresence e)).
  { unfold e', rebindPresence. simpl.
    apply (rebind_fold g moved (epcPresence e) Hkeys). intros [a b c d x y]. reflexivity. }
  assert (Hv' : mapValues (epcPresence e') = map h' (mapValues (epcPresence e))).
  { rewrite Hm'. unfold mapValues. rewrite !map_map. apply map_ext_in.
    intros [k p] Hin. unfold h, h'. simpl. rewrite (Hkey k p Hin).
    destruct (includes moved k); reflexivity. }
  assert (Hnow : nowCursor e' = nowCursor e) by reflexivity.
  set (l := mapValues (epcPresence e)) in *.
  set (P := fun z p => String.eqb (pres_zoneId p) z && String.eqb (pres_skuId p) skuId
                       && negb (pres_lastSeenAt p <? nowCursor e - ttlMs)).
  assert (Hmoved : exists k, moved = firstn k (map pres_epc (sortBy pres_lastSeenAt
                                                   (filter (P sourceZoneId) l)))).
  { apply slice0_firstn. }
  destruct Hmoved as [k Hmoved].
  assert (Hsub : forall x, In x moved -> In x (map pres_epc (filter (P sourceZoneId) l))).
  { intros x Hx. rewrite Hmoved in Hx. apply firstn_In_list in Hx.
    revert Hx. apply Permutation_in, Permutation_map, sortBy_perm. }
  assert (Hmnd : NoDup moved).
  { rewrite Hmoved. apply NoDup_firstn.
    apply (Permutation_NoDup (Permutation_sym (Permutation_map _ (sortBy_perm _ _)))).
    apply epcs_of_filter_NoDup, Hnd. }
  assert (Hin_src : forall p, In p l -> includes moved (pres_epc p) = true ->
                              P sourceZoneId p = true).
  { intros p Hp Hinc. apply includes_In, Hsub, in_map_iff in Hinc.
    destruct Hinc as (p' & Heq & Hp'). apply filter_In in Hp'. destruct Hp' as [Hl' HP'].
    rewrite <- (NoDup_map_injective_in pres_epc l p' p Hnd Hl' Hp Heq). exact HP'. }
  assert (Hcount : List.length (filter (fun p => P sourceZoneId p
                                                 && includes moved (pres_epc p)) l)
                   = List.length moved).
  { apply length_filter_moved; assumption. }
  assert (Hsrc : tagCount e' sourceZoneId skuId
                 = tagCount e sourceZoneId skuId - Z.of_nat (List.length moved)).
  { rewrite !tagCount_filter, Hv', Hnow. fold l. fold (P sourceZoneId).
    rewrite length_filter_map.
    rewrite (length_filter_split (P sourceZoneId) (fun p => includes moved (pres_epc p)) l).
    rewrite Hcount.
    rewrite (length_filter_ext_in (fun x => P sourceZoneId (h' x))
               (fun x => P sourceZoneId x && negb (includes moved (pres_epc x))) l); [lia|].
    intros p Hp. unfold h'. destruct (includes moved (pres_epc p)) eqn:Hinc.
    - rewrite andb_false_r. unfold P, g. simpl.
      apply String.eqb_neq in Hne. rewrite String.eqb_sym, Hne. reflexivity.
    - rewrite andb_true_r. reflexivity. }
  assert (Hdst : tagCount e' destinationZoneId skuId
                 = tagCount e destinationZoneId skuId + Z.of_nat (List.length moved)).
  { rewrite !tagCount_filter, Hv', Hnow. fold l. fold (P destinationZoneId).
    rewrite length_filter_map.
    rewrite (length_filter_ext_in (fun x => P destinationZoneId (h' x))
               (fun x => P destinationZoneId x
                         || (P sourceZoneId x && includes moved (pres_epc x))) l).
    - rewrite length_filter_or; [rewrite Hcount; lia|].
      intros p _ Hd. unfold P in *.
      apply andb_prop in Hd. destruct Hd as [Hd _]. apply andb_prop in Hd.
      destruct Hd as [Hd _]. apply String.eqb_eq in Hd.
      assert (Hz : String.eqb (pres_zoneId p) sourceZoneId = false).
      { apply String.eqb_neq. congruence. }
      rewrite Hz. reflexivity.
    - intros p Hp. unfold h'. destruct (includes moved (pres_epc p)) eqn:Hinc.
      + pose proof (Hin_src p Hp Hinc) as HP. rewrite HP. rewrite orb_true_r.
        unfold P in HP |- *. unfold g. simpl.
        apply andb_prop in HP. destruct HP as [HP _]. apply andb_prop in HP.
        destruct HP as [_ Hs]. rewrite Hs, String.eqb_refl. simpl.
        apply negb_true_iff, Z.ltb_ge. exact Hat.
      + rewrite andb_false_r, orb_false_r. reflexivity. }
  split; [exact Hsrc|]. split; [exact Hdst|]. split.
  - intros Hq. rewrite tagCount_filter. fold l. fold (P sourceZoneId).
    change moved with (slice0 qty (getPresentEPCs e sourceZoneId skuId)).
    unfold slice0, getPresentEPCs. apply Z.leb_le in Hq. rewrite Hq. cbv iota.
    fold l. fold (P sourceZoneId).
    rewrite length_firstn, length_map, (Permutation_length (sortBy_perm _ _)). lia.
  - split.
    + rewrite Hm', map_map.
      replace (map (fun x => fst (h x)) (epcPresence e)) with (map fst (epcPresence e));
        [exact Hkeys|].
      apply map_ext. intros [a b]. unfold h. simpl. destruct (includes moved a); reflexivity.
    + intros k0 p Hin. rewrite Hm' in Hin. apply in_map_iff in Hin.
      destruct Hin as ([k1 p1] & Heq & Hin). unfold h in Heq. simpl in Heq.
      destruct (includes moved k1); inversion Heq; subst; [|apply Hkey, Hin].
      unfold g. simpl. apply Hkey, Hin.
Qed.

Lemma moveRFIDEpcs_conserves_tags_witness :
  tagCount (exec (moveRFIDEpcs "shelf-a" "warehouse" "SKU-RFID-1" 1 (initialCursor + 1000))
                 (exec (ingestRFIDRead demoRead) demoEngine))
           "warehouse" "SKU-RFID-1" = 1.
Proof.
  edestruct (moveRFIDEpcs_conserves_tags "shelf-a" "warehouse" "SKU-RFID-1" 1
               (initialCursor + 1000) (exec (ingestRFIDRead demoRead) demoEngine))
    as (_ & Hdst & _).
  - split.
    + vm_compute. repeat constructor; simpl; intuition discriminate.
    + intros k p Hin. vm_compute in Hin. destruct Hin as [Heq|[]].
      inversion Heq. reflexivity.
  - discriminate.
  - vm_compute. discriminate.
  - rewrite Hdst. vm_compute. reflexivity.
Defined.

(** ** A tag is filed once, under its own EPC *)

Lemma keyed_same e e' :
  epcPresence e' = epcPresence e -> presenceKeyed e -> presenceKeyed e'.
Proof. unfold presenceKeyed. intros H. rewrite H. auto. Qed.

Lemma mapSet_in {V} (k : string) (v : V) (m : list (string * V)) (k' : string) (v' : V) :
  In (k', v') (mapSet k v m) -> (k', v') = (k, v) \/ In (k', v') m.
Proof.
  induction m as [|[k0 v0] r IH]; simpl.
  - intros [H|[]]. left. congruence.
  - destruct (String.eqb k0 k); simpl.
    + intros [H|H]; [left; congruence | right; right; exact H].
    + intros [H|H]; [right; left; exact H|]. destruct (IH H); [left | right; right]; assumption.
Qed.

Lemma keyed_mapSet (m : list (string * EPCPresence)) (k : string) (p : EPCPresence) :
  pres_epc p = k ->
  NoDup (map fst m) /\ (forall k' p', In (k', p') m -> pres_epc p' = k') ->
  NoDup (map fst (mapSet k p m))
  /\ (forall k' p', In (k', p') (mapSet k p m) -> pres_epc p' = k').
Proof.
  intros Hp [Hn Hk]. split; [apply mapSet_NoDup, Hn|].
  intros k' p' Hin. apply mapSet_in in Hin. destruct Hin as [Heq|Hin]; [|apply Hk, Hin].
  inversion Heq; subst. reflexivity.
Qed.

Lemma keyed_set (k : string) (p : EPCPresence) (e : Engine) :
  pres_epc p = k -> presenceKeyed e ->
  presenceKeyed (set_epcPresence (mapSet k p (epcPresence e)) e).
Proof. intros Hp H. unfold presenceKeyed. simpl. apply keyed_mapSet; assumption. Qed.

Lemma keyed_delete (epcs : list string) (e : Engine) :
  presenceKeyed e -> presenceKeyed (deletePresence epcs e).
Proof.
  unfold presenceKeyed, deletePresence. simpl. generalize (epcPresence e) as m.
  induction epcs as [|x r IH]; intros m H; simpl; [exact H|].
  apply IH. destruct H as [Hn Hk]. unfold mapDelete. split.
  - clear Hk. induction m as [|[k0 v0] m' IHm]; simpl; [constructor|].
    inversion Hn as [|? ? H1 H2]; subst.
    destruct (negb (String.eqb k0 x)); simpl; [|apply IHm, H2].
    constructor; [|apply IHm, H2]. intros Hin. apply H1.
    apply in_map_iff in Hin. destruct Hin as (y & Hy & Hin). apply filter_In in Hin.
    apply in_map_iff. exists y. split; [exact Hy | apply Hin].
  - intros k p Hin. apply filter_In in Hin. apply Hk, Hin.
Qed.

Lemma keyed_refresh (zoneId : string) (timestamp : Z) (e : Engine) :
  presenceKeyed e -> presenceKeyed (refreshPresence zoneId timestamp e).
Proof.
  unfold presenceKeyed, refreshPresence. simpl. intros [Hn Hk]. split.
  - rewrite map_map.
    replace (map _ (epcPresence e)) with (map fst (epcPresence e)); [exact Hn|].
    apply map_ext. intros [k p]. simpl. destruct (String.eqb _ _); reflexivity.
  - intros k p Hin. apply in_map_iff in Hin. destruct Hin as ([k1 p1] & Heq & Hin).
    simpl in Heq. destruct (String.eqb _ _); inversion Heq; subst; [|apply Hk, Hin].
    simpl. apply Hk, Hin.
Qed.

Lemma mapGet_in {V} (k : string) (m : list (string * V)) (v : V) :
  mapGet k m = Some v -> In (k, v) m.
Proof.
  unfold mapGet. destruct (find _ m) as [[k0 v0]|] eqn:Hf; [|discriminate].
  simpl. intros H. inversion H; subst. apply find_some in Hf. destruct Hf as [Hin Heq].
  simpl in Heq. apply String.eqb_eq in Heq. subst. exact Hin.
Qed.

Lemma keyed_rebind (epcs : list string) (zoneId antennaId : string) (at_ : Z) (e : Engine) :
  presenceKeyed e -> presenceKeyed (rebindPresence epcs zoneId antennaId at_ e).
Proof.
  unfold presenceKeyed, rebindPresence. simpl. generalize (epcPresence e) as m.
  induction epcs as [|x r IH]; intros m H; simpl; [exact H|].
  apply IH. destruct (mapGet x m) as [p|] eqn:Hg; [|exact H].
  apply keyed_mapSet; [|exact H]. simpl. destruct H as [_ Hk]. apply Hk, mapGet_in, Hg.
Qed.

Lemma keyed_restore (epcs : list string) (skuId zoneId antennaId : string) (at_ : Z)
    (e : Engine) :
  presenceKeyed e ->
  presenceKeyed
    (set_epcPresence
       (fold_left (fun m epc => mapSet epc (mkPresence epc skuId zoneId antennaId at_ None) m)
                  epcs (epcPresence e)) e).
Proof.
  unfold presenceKeyed. simpl. generalize (epcPresence e) as m.
  induction epcs as [|x r IH]; intros m H; simpl; [exact H|].
  apply IH. apply keyed_mapSet; [reflexivity | exact H].
Qed.

Create HintDb keyed discriminated.

Ltac keyed_leaf :=
  match goal with
  | H : presenceKeyed ?e |- presenceKeyed _ =>
      repeat match goal with
             | |- presenceKeyed (match ?x with _ => _ end) => destruct x
             | |- presenceKeyed (if ?x then _ else _) => destruct x
             end;
      solve [ exact H
            | apply (keyed_same e); [reflexivity | exact H]
            | apply keyed_set; [reflexivity | exact H]
            | apply keyed_delete; exact H
            | apply keyed_refresh; exact H
            | apply keyed_rebind; exact H
            | apply keyed_restore; exact H ]
  end.

Ltac keyed_auto := repeat first [ solve [eauto with keyed] | keyed_leaf | pres_step ].

Lemma upsertSnapshot_keyed z s q src c : preserves presenceKeyed (upsertSnapshot z s q src c).
Proof.
  unfold upsertSnapshot. apply preserves_modify. intros e H.
  destruct (_ && _); destruct (findIndex _ _); exact H.
Qed.
#[export] Hint Resolve upsertSnapshot_keyed : keyed.

Lemma pushTaskAudit_keyed a b c d : preserves presenceKeyed (pushTaskAudit a b c d).
Proof. unfold pushTaskAudit. keyed_auto. Qed.
#[export] Hint Resolve pushTaskAudit_keyed : keyed.

Lemma autoAssignPendingTasks_keyed at_ : preserves presenceKeyed (autoAssignPendingTasks at_).
Proof. unfold autoAssignPendingTasks, assignPendingTask. keyed_auto. Qed.
#[export] Hint Resolve autoAssignPendingTasks_keyed : keyed.

Lemma autoAssignPendingReceivingOrders_keyed at_ :
  preserves presenceKeyed (autoAssignPendingReceivingOrders at_).
Proof. unfold autoAssignPendingReceivingOrders. keyed_auto. Qed.
#[export] Hint Resolve autoAssignPendingReceivingOrders_keyed : keyed.

Lemma closeReplenishmentTask_keyed t r : preserves presenceKeyed (closeReplenishmentTask t r).
Proof. unfold closeReplenishmentTask. keyed_auto. Qed.
#[export] Hint Resolve closeReplenishmentTask_keyed : keyed.

Lemma generateReplenishmentTask_keyed rule d t s c :
  preserves presenceKeyed (generateReplenishmentTask rule d t s c).
Proof. unfold generateReplenishmentTask. keyed_auto. Qed.
#[export] Hint Resolve generateReplenishmentTask_keyed : keyed.

Lemma createReceivingOrder_keyed p : preserves presenceKeyed (createReceivingOrder p).
Proof. unfold createReceivingOrder. keyed_auto. Qed.
#[export] Hint Resolve createReceivingOrder_keyed : keyed.

Lemma evaluateInboundReceivingNeed_keyed z r c :
  preserves presenceKeyed (evaluateInboundReceivingNeed z r c).
Proof. unfold evaluateInboundReceivingNeed. keyed_auto. Qed.
#[export] Hint Resolve evaluateInboundReceivingNeed_keyed : keyed.

Lemma mergePlan_keyed z r o a : preserves presenceKeyed (mergePlan z r o a).
Proof. unfold mergePlan. keyed_auto. Qed.
#[export] Hint Resolve mergePlan_keyed : keyed.

Lemma trimPlan_keyed a o : preserves presenceKeyed (trimPlan a o).
Proof. unfold trimPlan. keyed_auto. Qed.
#[export] Hint Resolve trimPlan_keyed : keyed.

Lemma refreshSources_keyed r o : preserves presenceKeyed (refreshSources r o).
Proof. unfold refreshSources. keyed_auto. Qed.
#[export] Hint Resolve refreshSources_keyed : keyed.

Lemma triggerPlan_keyed rule c r : preserves presenceKeyed (triggerPlan rule c r).
Proof. unfold triggerPlan. keyed_auto. Qed.
#[export] Hint Resolve triggerPlan_keyed : keyed.

Lemma evaluateSalesRule_keyed z r c : preserves presenceKeyed (evaluateSalesRule z r c).
Proof. unfold evaluateSalesRule. keyed_auto. Qed.
#[export] Hint Resolve evaluateSalesRule_keyed : keyed.

Lemma evaluateMinMax_keyed z : preserves presenceKeyed (evaluateMinMax z).
Proof. unfold evaluateMinMax. keyed_auto. Qed.
#[export] Hint Resolve evaluateMinMax_keyed : keyed.

Lemma calculateZoneInventory_keyed z : preserves presenceKeyed (calculateZoneInventory z).
Proof. unfold calculateZoneInventory. keyed_auto. Qed.
#[export] Hint Resolve calculateZoneInventory_keyed : keyed.

Lemma applyPendingRFIDPicks_keyed z : preserves presenceKeyed (applyPendingRFIDPicks z).
Proof. unfold applyPendingRFIDPicks. keyed_auto. Qed.
#[export] Hint Resolve applyPendingRFIDPicks_keyed : keyed.

Lemma ingestRFIDRead_keyed event : preserves presenceKeyed (ingestRFIDRead event).
Proof. unfold ingestRFIDRead. keyed_auto. Qed.
#[export] Hint Resolve ingestRFIDRead_keyed : keyed.

Lemma forceZoneSweep_keyed z t : preserves presenceKeyed (forceZoneSweep z t).
Proof. unfold forceZoneSweep. keyed_auto. Qed.
#[export] Hint Resolve forceZoneSweep_keyed : keyed.

Lemma scanZone_keyed z t : preserves presenceKeyed (scanZone z t).
Proof. unfold scanZone. keyed_auto. Qed.
#[export] Hint Resolve scanZone_keyed : keyed.

Lemma deductRFIDImmediate_keyed z s q : preserves presenceKeyed (deductRFIDImmediate z s q).
Proof. unfold deductRFIDImmediate. keyed_auto. Qed.
#[export] Hint Resolve deductRFIDImmediate_keyed : keyed.

Lemma ingestSalesEvent_keyed event : preserves presenceKeyed (ingestSalesEvent event).
Proof. unfold ingestSalesEvent. keyed_auto. Qed.
#[export] Hint Resolve ingestSalesEvent_keyed : keyed.

Lemma upsertCustomer_keyed id name : preserves presenceKeyed (upsertCustomer id name).
Proof. unfold upsertCustomer. keyed_auto. Qed.
#[export] Hint Resolve upsertCustomer_keyed : keyed.

Lemma addCustomerItem_keyed h p : preserves presenceKeyed (addCustomerItem h p).
Proof. unfold addCustomerItem. keyed_auto. Qed.
#[export] Hint Resolve addCustomerItem_keyed : keyed.

Lemma createExternalRFIDForDestination_keyed s d q a :
  preserves presenceKeyed (createExternalRFIDForDestination s d q a).
Proof. unfold createExternalRFIDForDestination. keyed_auto. Qed.
#[export] Hint Resolve createExternalRFIDForDestination_keyed : keyed.

Lemma restoreConsumedEpcs_keyed b s z d a :
  preserves presenceKeyed (restoreConsumedEpcs b s z d a).
Proof. unfold restoreConsumedEpcs. keyed_auto. Qed.
#[export] Hint Resolve restoreConsumedEpcs_keyed : keyed.

Lemma removeCustomerItem_keyed b t : preserves presenceKeyed (removeCustomerItem b t).
Proof. unfold removeCustomerItem. keyed_auto. Qed.
#[export] Hint Resolve removeCustomerItem_keyed : keyed.

Lemma moveRFIDEpcs_keyed s d k q a : preserves presenceKeyed (moveRFIDEpcs s d k q a).
Proof. unfold moveRFIDEpcs. keyed_auto. Qed.
#[export] Hint Resolve moveRFIDEpcs_keyed : keyed.

Lemma transferConsumedPendingEpcsToZone_keyed b s d a :
  preserves presenceKeyed (transferConsumedPendingEpcsToZone b s d a).
Proof. unfold transferConsumedPendingEpcsToZone. keyed_auto. Qed.
#[export] Hint Resolve transferConsumedPendingEpcsToZone_keyed : keyed.

Lemma transferNonRfid_keyed s d k q : preserves presenceKeyed (transferNonRfid s d k q).
Proof. unfold transferNonRfid. keyed_auto. Qed.
#[export] Hint Resolve transferNonRfid_keyed : keyed.

Lemma applyTransferFromSource_keyed s d k q :
  preserves presenceKeyed (applyTransferFromSource s d k q).
Proof. unfold applyTransferFromSource. keyed_auto. Qed.
#[export] Hint Resolve applyTransferFromSource_keyed : keyed.

Lemma createPersonalizationTask_keyed d s q src p :
  preserves presenceKeyed (createPersonalizationTask d s q src p).
Proof. unfold createPersonalizationTask. keyed_auto. Qed.
#[export] Hint Resolve createPersonalizationTask_keyed : keyed.

Lemma routeToCashierStorage_keyed n item src t :
  preserves presenceKeyed (routeToCashierStorage n item src t).
Proof. unfold routeToCashierStorage. keyed_auto. Qed.
#[export] Hint Resolve routeToCashierStorage_keyed : keyed.

Lemma processPersonalizationSale_keyed n src t :
  preserves presenceKeyed (processPersonalizationSale n src t).
Proof. unfold processPersonalizationSale. keyed_auto. Qed.
#[export] Hint Resolve processPersonalizationSale_keyed : keyed.

Lemma checkoutItem_keyed h t n k item : preserves presenceKeyed (checkoutItem h t n k item).
Proof. unfold checkoutItem. keyed_auto. Qed.
#[export] Hint Resolve checkoutItem_keyed : keyed.

Lemma checkoutCustomer_keyed h c t : preserves presenceKeyed (checkoutCustomer h c t).
Proof. unfold checkoutCustomer. keyed_auto. Qed.
#[export] Hint Resolve checkoutCustomer_keyed : keyed.

Lemma tryFallbackSource_keyed n d s q st c :
  preserves presenceKeyed (tryFallbackSource n d s q st c).
Proof. unfold tryFallbackSource. keyed_auto. Qed.
#[export] Hint Resolve tryFallbackSource_keyed : keyed.

Lemma attemptTransfers_keyed n t q s : preserves presenceKeyed (attemptTransfers n t q s).
Proof. unfold attemptTransfers. keyed_auto. Qed.
#[export] Hint Resolve attemptTransfers_keyed : keyed.

Lemma confirmTask_keyed t p : preserves presenceKeyed (confirmTask t p).
Proof. unfold confirmTask. keyed_auto. Qed.
#[export] Hint Resolve confirmTask_keyed : keyed.

Lemma recalculateZonesDependingOnSource_keyed s :
  preserves presenceKeyed (recalculateZonesDependingOnSource s).
Proof. unfold recalculateZonesDependingOnSource. keyed_auto. Qed.
#[export] Hint Resolve recalculateZonesDependingOnSource_keyed : keyed.

Lemma refreshOpenTaskSourceCandidates_keyed :
  preserves presenceKeyed (refreshOpenTaskSourceCandidates).
Proof. unfold refreshOpenTaskSourceCandidates. keyed_auto. Qed.
#[export] Hint Resolve refreshOpenTaskSourceCandidates_keyed : keyed.

Lemma pushConfirmation_keyed m : preserves presenceKeyed (pushConfirmation m).
Proof. unfold pushConfirmation. keyed_auto. Qed.
#[export] Hint Resolve pushConfirmation_keyed : keyed.

Lemma confirmReceivingOrder_keyed o p : preserves presenceKeyed (confirmReceivingOrder o p).
Proof. unfold confirmReceivingOrder. keyed_auto. Qed.
#[export] Hint Resolve confirmReceivingOrder_keyed : keyed.

Lemma updateLocation_keyed p : preserves presenceKeyed (updateLocation p).
Proof. unfold updateLocation. keyed_auto. Qed.
#[export] Hint Resolve updateLocation_keyed : keyed.

Lemma createLocation_keyed p : preserves presenceKeyed (createLocation p).
Proof. unfold createLocation. keyed_auto. Qed.
#[export] Hint Resolve createLocation_keyed : keyed.

Lemma reassign_keyed : preserves presenceKeyed (reassign).
Proof. unfold reassign. keyed_auto. Qed.
#[export] Hint Resolve reassign_keyed : keyed.

Lemma updateStaffShift_keyed s b : preserves presenceKeyed (updateStaffShift s b).
Proof. unfold updateStaffShift. keyed_auto. Qed.
#[export] Hint Resolve updateStaffShift_keyed : keyed.

Lemma updateStaffScope_keyed s b z : preserves presenceKeyed (updateStaffScope s b z).
Proof. unfold updateStaffScope. keyed_auto. Qed.
#[export] Hint Resolve updateStaffScope_keyed : keyed.

Lemma assignTask_keyed t s a : preserves presenceKeyed (assignTask t s a).
Proof. unfold assignTask. keyed_auto. Qed.
#[export] Hint Resolve assignTask_keyed : keyed.

Lemma startTask_keyed t s a : preserves presenceKeyed (startTask t s a).
Proof. unfold startTask. keyed_auto. Qed.
#[export] Hint Resolve startTask_keyed : keyed.

Lemma upsertRule_keyed p : preserves presenceKeyed (upsertRule p).
Proof. unfold upsertRule. keyed_auto. Qed.
#[export] Hint Resolve upsertRule_keyed : keyed.

Lemma deleteRule_keyed r : preserves presenceKeyed (deleteRule r).
Proof. unfold deleteRule. keyed_auto. Qed.
#[export] Hint Resolve deleteRule_keyed : keyed.

Lemma getTasks_keyed s : preserves presenceKeyed (getTasks s).
Proof. unfold getTasks. keyed_auto. Qed.
#[export] Hint Resolve getTasks_keyed : keyed.

Lemma getReceivingOrders_keyed s : preserves presenceKeyed (getReceivingOrders s).
Proof. unfold getReceivingOrders. keyed_auto. Qed.
#[export] Hint Resolve getReceivingOrders_keyed : keyed.

Lemma seedDemoEvents_keyed : preserves presenceKeyed (seedDemoEvents).
Proof. unfold seedDemoEvents. keyed_auto. Qed.
#[export] Hint Resolve seedDemoEvents_keyed : keyed.

Lemma loadDemoStream_keyed r s : preserves presenceKeyed (loadDemoStream r s).
Proof. unfold loadDemoStream. keyed_auto. Qed.
#[export] Hint Resolve loadDemoStream_keyed : keyed.

Lemma run_keyed (c : Command) : preserves presenceKeyed (run c).
Proof. destruct c; unfold run; keyed_auto. Qed.

Lemma runAll_keyed (cs : list Command) (e : Engine) :
  presenceKeyed e -> presenceKeyed (runAll cs e).
Proof.
  revert e. induction cs as [|c r IH]; intros e H; simpl; [exact H|]. apply IH, run_keyed, H.
Qed.

(** X25. A tag is in one place: in every state reached from the
    constructor the presence map holds no EPC twice and each record under its
    own EPC, so no tag is counted in two locations. *)
Theorem tags_are_filed_once (dataset : SampleDataset) (cs : list Command) :
  presenceKeyed (runAll cs (constructor dataset)).
Proof. apply runAll_keyed. split; [constructor | intros k p []]. Qed.

(** ** A scan counts every tag filed in the location *)

(** X26. A scan counts every tag filed in the location, expired or not:
    when the location exists, snapshots are unique and presence records are
    filed once under their EPC, [scanZone] answers "accepted" and the RFID
    quantity of a SKU with a record in the location becomes the number of its
    records there, whatever their age. *)
Theorem scanZone_counts_filed_tags (zoneId skuId : string) (timestamp : Z) (e : Engine)
    (zone : Zone) :
  findZone e zoneId = Some zone ->
  uniqueSnapshots e ->
  presenceKeyed e ->
  let filed := filter (fun p => String.eqb (pres_zoneId p) zoneId
                                && String.eqb (pres_skuId p) skuId)
                      (mapValues (epcPresence e)) in
  filed <> [] ->
  eval (scanZone zoneId timestamp) e = "accepted"
  /\ getCurrentInventoryQty (exec (scanZone zoneId timestamp) e) zoneId skuId RFID
     = Z.of_nat (List.length filed).
Proof.
  intros Hz Hu Hk filed Hf. unfold scanZone. run. rewrite Hz. run.
  split; [reflexivity|].
  set (e1 := refreshPresence zoneId timestamp (set_nowCursor timestamp e)).
  assert (Hk1 : presenceKeyed e1).
  { apply keyed_refresh. apply (keyed_same e); [reflexivity | exact Hk]. }
  assert (Hlen : List.length (getPresentEPCs e1 zoneId skuId) = List.length filed).
  { unfold getPresentEPCs. rewrite length_map, (Permutation_length (sortBy_perm _ _)).
    unfold e1, refreshPresence, mapValues. simpl. rewrite map_map, length_filter_map.
    unfold filed, mapValues. rewrite length_filter_map.
    apply length_filter_ext_in. intros [k p] _. simpl.
    destruct (String.eqb (pres_zoneId p) zoneId) eqn:Ez; simpl.
    - rewrite Ez. simpl.
      replace (timestamp <? timestamp - ttlMs) with false; [apply andb_true_r|].
      symmetry. apply Z.ltb_ge. unfold ttlMs, rfidPresenceTtlSec. lia.
    - rewrite Ez. reflexivity. }
  rewrite calculateZoneInventory_tags.
  - rewrite Hlen. reflexivity.
  - exact Hu.
  - apply presenceKeyed_values, Hk1.
  - left. intros Hnil. rewrite Hnil in Hlen. simpl in Hlen. destruct filed; [auto | discriminate].
Qed.

Lemma scanZone_counts_filed_tags_witness :
  getCurrentInventoryQty
    (exec (scanZone "shelf-a" (initialCursor + 900000))
          (exec (ingestRFIDRead demoRead) demoEngine))
    "shelf-a" "SKU-RFID-1" RFID = 1.
Proof.
  edestruct (scanZone_counts_filed_tags "shelf-a" "SKU-RFID-1" (initialCursor + 900000)
               (exec (ingestRFIDRead demoRead) demoEngine)) as (_ & Hq).
  - vm_compute. reflexivity.
  - vm_compute. repeat constructor; simpl; intuition discriminate.
  - split.
    + vm_compute. repeat constructor; simpl; intuition discriminate.
    + intros k p Hin. vm_compute in Hin. destruct Hin as [Heq|[]].
      inversion Heq. reflexivity.
  - vm_compute. discriminate.
  - rewrite Hq. vm_compute. reflexivity.
Defined.

(** ** The audit trail accounts for every task *)

Lemma audited_more (a : TaskAuditEntry) (audit : list TaskAuditEntry) (t : ReplenishmentTask) :
  audited audit t -> audited (a :: audit) t.
Proof.
  intros [(x & Hx & H1) (y & Hy & H2)].
  split; [exists x | exists y]; (split; [right; assumption | assumption]).
Qed.

Lemma audited_status (a : TaskAuditEntry) (audit : list TaskAuditEntry)
    (t t' : ReplenishmentTask) :
  audited audit t -> task_id t' = task_id t -> audit_taskId a = task_id t ->
  explains (audit_action a) (task_status t') ->
  audited (a :: audit) t'.
Proof.
  intros [(x & Hx & H1 & H2) _] Hid Ha He. split.
  - exists x. split; [right; exact Hx|]. split; [congruence | exact H2].
  - exists a. split; [left; reflexivity|]. split; [congruence | exact He].
Qed.

Lemma audit_same e e' :
  tasks e' = tasks e -> taskAudit e' = taskAudit e -> auditComplete e -> auditComplete e'.
Proof. unfold auditComplete. intros H1 H2. rewrite H1, H2. auto. Qed.

Lemma audit_push (a : TaskAuditEntry) (e : Engine) :
  auditComplete e -> auditComplete (set_taskAudit (a :: taskAudit e) e).
Proof. intros H t Hin. simpl. apply audited_more, H, Hin. Qed.

Lemma In_updateAt {A} (f : A -> A) (l : list A) (i : nat) (x : A) :
  In x (updateAt i f l) ->
  In x l \/ exists x0, nth_error l i = Some x0 /\ x = f x0.
Proof.
  intros Hin. apply In_nth_error in Hin. destruct Hin as [j Hj].
  destruct (Nat.eq_dec j i) as [->|Hn].
  - rewrite updateAt_nth_error in Hj. destruct (nth_error l i) as [x0|]; [|discriminate].
    simpl in Hj. inversion Hj. right. exists x0. auto.
  - rewrite updateAt_nth_error_other in Hj by exact Hn. left. eapply nth_error_In, Hj.
Qed.

Lemma audit_upd (i : nat) (f : ReplenishmentTask -> ReplenishmentTask) (e : Engine) :
  (forall t, task_id (f t) = task_id t /\ task_status (f t) = task_status t) ->
  auditComplete e -> auditComplete (updTask i f e).
Proof.
  intros Hf H t Hin. unfold updTask in *. simpl in *.
  apply In_updateAt in Hin. destruct Hin as [Hin | (t0 & H0 & ->)]; [apply H, Hin|].
  destruct (Hf t0) as [H1 H2]. pose proof (H t0 (nth_error_In _ _ H0)) as Ha.
  unfold audited in *. rewrite H1, H2. exact Ha.
Qed.

(** A write to the status of a task, with the audit entry that goes with it. *)
Lemma audit_write (e e' : Engine) (i : nat) (t0 : ReplenishmentTask)
    (f : ReplenishmentTask -> ReplenishmentTask) (a : TaskAuditEntry) :
  auditComplete e ->
  nth_error (tasks e) i = Some t0 ->
  tasks e' = updateAt i f (tasks e) ->
  taskAudit e' = a :: taskAudit e ->
  audit_taskId a = task_id t0 ->
  task_id (f t0) = task_id t0 ->
  explains (audit_action a) (task_status (f t0)) ->
  auditComplete e'.
Proof.
  intros H H0 Ht Ha Hid Hf He t Hin. rewrite Ht in Hin. rewrite Ha.
  apply In_updateAt in Hin. destruct Hin as [Hin | (t1 & H1 & ->)].
  - apply audited_more, H, Hin.
  - rewrite H0 in H1. inversion H1; subst t1.
    apply (audited_status a (taskAudit e) t0); auto.
    apply H. eapply nth_error_In, H0.
Qed.

(** A new task, with the audit entry of its creation. *)
Lemma audit_create (e e' : Engine) (task : ReplenishmentTask) (a : TaskAuditEntry) :
  auditComplete e ->
  tasks e' = (tasks e ++ [task])%list ->
  taskAudit e' = a :: taskAudit e ->
  audit_taskId a = task_id task -> audit_action a = A_CREATED ->
  task_status task = CREATED ->
  auditComplete e'.
Proof.
  intros H Ht Ha Hid Hact Hs t Hin. rewrite Ht in Hin. rewrite Ha.
  apply in_app_or in Hin. destruct Hin as [Hin|[<-|[]]].
  - apply audited_more, H, Hin.
  - split; exists a; (split; [left; reflexivity|]); split; auto.
    rewrite Hs. exact I.
Qed.

Lemma preserves_forTasks_at I refs (body : nat -> ReplenishmentTask -> M unit) :
  (forall i t e0, I e0 -> nth_error (tasks e0) i = Some t -> I (exec (body i t) e0)) ->
  preserves I (forTasks refs body).
Proof.
  intros Hb. unfold forTasks. apply preserves_forEach. intros i.
  apply preserves_bind_get_here. intros e0 H0.
  destruct (nth_error (tasks e0) i) as [t|] eqn:Hi; [|exact H0].
  apply (Hb i t e0 H0 Hi).
Qed.

Create HintDb audit discriminated.

Ltac keeps_status :=
  intros; cbv zeta;
  repeat match goal with
         | |- context [if ?b then _ else _] => destruct b
         end;
  split; reflexivity.

Ltac audit_leaf :=
  match goal with
  | H : auditComplete ?e |- auditComplete _ =>
      repeat match goal with
             | |- auditComplete (match ?x with _ => _ end) => destruct x
             | |- auditComplete (if ?x then _ else _) => destruct x
             end;
      solve [ exact H
            | apply (audit_same e); [reflexivity | reflexivity | exact H]
            | apply audit_push; exact H
            | apply audit_upd; [keeps_status | exact H] ]
  end.

Ltac audit_auto := repeat first [ solve [eauto with audit] | audit_leaf | pres_step ].

Lemma upsertSnapshot_audit z s q src c : preserves auditComplete (upsertSnapshot z s q src c).
Proof.
  unfold upsertSnapshot. apply preserves_modify. intros e H.
  destruct (_ && _); destruct (findIndex _ _); exact H.
Qed.
#[export] Hint Resolve upsertSnapshot_audit : audit.

Lemma assignPendingTask_audit at_ staff load i :
  preserves auditComplete (assignPendingTask at_ staff load i).
Proof.
  unfold assignPendingTask. apply preserves_bind_get_here. intros e H.
  destruct (nth_error (tasks e) i) as [task|] eqn:Hi; [|exact H].
  destruct (assignPoolFor staff (task_zoneId task)) as [pool scoped].
  destruct (pickMember load pool) as [member|]; [|exact H].
  unfold pushTaskAudit. run.
  eapply (audit_write e _ i task); [exact H | exact Hi | reflexivity | reflexivity
                                   | reflexivity | reflexivity | reflexivity].
Qed.
#[export] Hint Resolve assignPendingTask_audit : audit.

Lemma pushTaskAudit_audit a b c d : preserves auditComplete (pushTaskAudit a b c d).
Proof. unfold pushTaskAudit. audit_auto. Qed.
#[export] Hint Resolve pushTaskAudit_audit : audit.

Lemma autoAssignPendingTasks_audit at_ : preserves auditComplete (autoAssignPendingTasks at_).
Proof. unfold autoAssignPendingTasks. audit_auto. Qed.
#[export] Hint Resolve autoAssignPendingTasks_audit : audit.

Lemma autoAssignPendingReceivingOrders_audit at_ :
  preserves auditComplete (autoAssignPendingReceivingOrders at_).
Proof. unfold autoAssignPendingReceivingOrders. audit_auto. Qed.
#[export] Hint Resolve autoAssignPendingReceivingOrders_audit : audit.

Lemma closeReplenishmentTask_audit t r : preserves auditComplete (closeReplenishmentTask t r).
Proof.
  unfold closeReplenishmentTask. apply preserves_bind_get_here. intros e H.
  destruct (findTask e t) as [[i task]|] eqn:Hf; [|exact H].
  destruct (negb (taskIsOpen (task_status task))); [exact H|].
  unfold pushTaskAudit at 1. run.
  apply autoAssignPendingReceivingOrders_audit, autoAssignPendingTasks_audit.
  eapply (audit_write e _ i task);
    [exact H | apply (findTask_some _ _ _ _ Hf) | reflexivity | reflexivity | reflexivity
    | reflexivity | simpl; destruct (startsWith r "confirmed"); simpl; auto].
Qed.
#[export] Hint Resolve closeReplenishmentTask_audit : audit.

Lemma generateReplenishmentTask_audit rule d t s c :
  preserves auditComplete (generateReplenishmentTask rule d t s c).
Proof.
  unfold generateReplenishmentTask. apply preserves_bind_get_here. intros e H.
  unfold pushTaskAudit at 1. run. apply autoAssignPendingTasks_audit.
  eapply (audit_create e); [exact H | reflexivity | reflexivity | reflexivity | reflexivity
                           | reflexivity].
Qed.
#[export] Hint Resolve generateReplenishmentTask_audit : audit.

Lemma createReceivingOrder_audit p : preserves auditComplete (createReceivingOrder p).
Proof. unfold createReceivingOrder. audit_auto. Qed.
#[export] Hint Resolve createReceivingOrder_audit : audit.

Lemma evaluateInboundReceivingNeed_audit z r c :
  preserves auditComplete (evaluateInboundReceivingNeed z r c).
Proof. unfold evaluateInboundReceivingNeed. audit_auto. Qed.
#[export] Hint Resolve evaluateInboundReceivingNeed_audit : audit.

Lemma mergePlan_audit z r o a : preserves auditComplete (mergePlan z r o a).
Proof. unfold mergePlan. audit_auto. Qed.
#[export] Hint Resolve mergePlan_audit : audit.

Lemma trimPlan_audit a o : preserves auditComplete (trimPlan a o).
Proof. unfold trimPlan. audit_auto. Qed.
#[export] Hint Resolve trimPlan_audit : audit.

Lemma refreshSources_audit r o : preserves auditComplete (refreshSources r o).
Proof. unfold refreshSources. audit_auto. Qed.
#[export] Hint Resolve refreshSources_audit : audit.

Lemma triggerPlan_audit rule c r : preserves auditComplete (triggerPlan rule c r).
Proof. unfold triggerPlan. audit_auto. Qed.
#[export] Hint Resolve triggerPlan_audit : audit.

Lemma evaluateSalesRule_audit z r c : preserves auditComplete (evaluateSalesRule z r c).
Proof. unfold evaluateSalesRule. audit_auto. Qed.
#[export] Hint Resolve evaluateSalesRule_audit : audit.

Lemma evaluateMinMax_audit z : preserves auditComplete (evaluateMinMax z).
Proof. unfold evaluateMinMax. audit_auto. Qed.
#[export] Hint Resolve evaluateMinMax_audit : audit.

Lemma calculateZoneInventory_audit z : preserves auditComplete (calculateZoneInventory z).
Proof. unfold calculateZoneInventory. audit_auto. Qed.
#[export] Hint Resolve calculateZoneInventory_audit : audit.

Lemma applyPendingRFIDPicks_audit z : preserves auditComplete (applyPendingRFIDPicks z).
Proof. unfold applyPendingRFIDPicks. audit_auto. Qed.
#[export] Hint Resolve applyPendingRFIDPicks_audit : audit.

Lemma ingestRFIDRead_audit event : preserves auditComplete (ingestRFIDRead event).
Proof. unfold ingestRFIDRead. audit_auto. Qed.
#[export] Hint Resolve ingestRFIDRead_audit : audit.

Lemma forceZoneSweep_audit z t : preserves auditComplete (forceZoneSweep z t).
Proof. unfold forceZoneSweep. audit_auto. Qed.
#[export] Hint Resolve forceZoneSweep_audit : audit.

Lemma scanZone_audit z t : preserves auditComplete (scanZone z t).
Proof. unfold scanZone. audit_auto. Qed.
#[export] Hint Resolve scanZone_audit : audit.

Lemma deductRFIDImmediate_audit z s q : preserves auditComplete (deductRFIDImmediate z s q).
Proof. unfold deductRFIDImmediate. audit_auto. Qed.
#[export] Hint Resolve deductRFIDImmediate_audit : audit.

Lemma ingestSalesEvent_audit event : preserves auditComplete (ingestSalesEvent event).
Proof. unfold ingestSalesEvent. audit_auto. Qed.
#[export] Hint Resolve ingestSalesEvent_audit : audit.

Lemma upsertCustomer_audit id name : preserves auditComplete (upsertCustomer id name).
Proof. unfold upsertCustomer. audit_auto. Qed.
#[export] Hint Resolve upsertCustomer_audit : audit.

Lemma addCustomerItem_audit h p : preserves auditComplete (addCustomerItem h p).
Proof. unfold addCustomerItem. audit_auto. Qed.
#[export] Hint Resolve addCustomerItem_audit : audit.

Lemma createExternalRFIDForDestination_audit s d q a :
  preserves auditComplete (createExternalRFIDForDestination s d q a).
Proof. unfold createExternalRFIDForDestination. audit_auto. Qed.
#[export] Hint Resolve createExternalRFIDForDestination_audit : audit.

Lemma restoreConsumedEpcs_audit b s z d a :
  preserves auditComplete (restoreConsumedEpcs b s z d a).
Proof. unfold restoreConsumedEpcs. audit_auto. Qed.
#[export] Hint Resolve restoreConsumedEpcs_audit : audit.

Lemma removeCustomerItem_audit b t : preserves auditComplete (removeCustomerItem b t).
Proof. unfold removeCustomerItem. audit_auto. Qed.
#[export] Hint Resolve removeCustomerItem_audit : audit.

Lemma moveRFIDEpcs_audit s d k q a : preserves auditComplete (moveRFIDEpcs s d k q a).
Proof. unfold moveRFIDEpcs. audit_auto. Qed.
#[export] Hint Resolve moveRFIDEpcs_audit : audit.

Lemma transferConsumedPendingEpcsToZone_audit b s d a :
  preserves auditComplete (transferConsumedPendingEpcsToZone b s d a).
Proof. unfold transferConsumedPendingEpcsToZone. audit_auto. Qed.
#[export] Hint Resolve transferConsumedPendingEpcsToZone_audit : audit.

Lemma transferNonRfid_audit s d k q : preserves auditComplete (transferNonRfid s d k q).
Proof. unfold transferNonRfid. audit_auto. Qed.
#[export] Hint Resolve transferNonRfid_audit : audit.

Lemma applyTransferFromSource_audit s d k q :
  preserves auditComplete (applyTransferFromSource s d k q).
Proof. unfold applyTransferFromSource. audit_auto. Qed.
#[export] Hint Resolve applyTransferFromSource_audit : audit.

Lemma createPersonalizationTask_audit d s q src p :
  preserves auditComplete (createPersonalizationTask d s q src p).
Proof.
  unfold createPersonalizationTask. apply preserves_bind_get_here. intros e H.
  unfold pushTaskAudit at 1. run. apply autoAssignPendingTasks_audit.
  eapply (audit_create e); [exact H | reflexivity | reflexivity | reflexivity | reflexivity
                           | reflexivity].
Qed.
#[export] Hint Resolve createPersonalizationTask_audit : audit.

Lemma routeToCashierStorage_audit n item src t :
  preserves auditComplete (routeToCashierStorage n item src t).
Proof. unfold routeToCashierStorage. audit_auto. Qed.
#[export] Hint Resolve routeToCashierStorage_audit : audit.

Lemma processPersonalizationSale_audit n src t :
  preserves auditComplete (processPersonalizationSale n src t).
Proof. unfold processPersonalizationSale. audit_auto. Qed.
#[export] Hint Resolve processPersonalizationSale_audit : audit.

Lemma checkoutItem_audit h t n k item : preserves auditComplete (checkoutItem h t n k item).
Proof. unfold checkoutItem. audit_auto. Qed.
#[export] Hint Resolve checkoutItem_audit : audit.

Lemma checkoutCustomer_audit h c t : preserves auditComplete (checkoutCustomer h c t).
Proof. unfold checkoutCustomer. audit_auto. Qed.
#[export] Hint Resolve checkoutCustomer_audit : audit.

Lemma tryFallbackSource_audit n d s q st c :
  preserves auditComplete (tryFallbackSource n d s q st c).
Proof. unfold tryFallbackSource. audit_auto. Qed.
#[export] Hint Resolve tryFallbackSource_audit : audit.

Lemma attemptTransfers_audit n t q s : preserves auditComplete (attemptTransfers n t q s).
Proof. unfold attemptTransfers. audit_auto. Qed.
#[export] Hint Resolve attemptTransfers_audit : audit.

Lemma confirmTask_audit t p : preserves auditComplete (confirmTask t p).
Proof. unfold confirmTask. audit_auto. Qed.
#[export] Hint Resolve confirmTask_audit : audit.

Lemma recalculateZonesDependingOnSource_audit s :
  preserves auditComplete (recalculateZonesDependingOnSource s).
Proof. unfold recalculateZonesDependingOnSource. audit_auto. Qed.
#[export] Hint Resolve recalculateZonesDependingOnSource_audit : audit.

Lemma refreshOpenTaskSourceCandidates_audit :
  preserves auditComplete (refreshOpenTaskSourceCandidates).
Proof. unfold refreshOpenTaskSourceCandidates. audit_auto. Qed.
#[export] Hint Resolve refreshOpenTaskSourceCandidates_audit : audit.

Lemma pushConfirmation_audit m : preserves auditComplete (pushConfirmation m).
Proof. unfold pushConfirmation. audit_auto. Qed.
#[export] Hint Resolve pushConfirmation_audit : audit.

Lemma confirmReceivingOrder_audit o p : preserves auditComplete (confirmReceivingOrder o p).
Proof. unfold confirmReceivingOrder. audit_auto. Qed.
#[export] Hint Resolve confirmReceivingOrder_audit : audit.

Lemma updateLocation_audit p : preserves auditComplete (updateLocation p).
Proof.
  unfold updateLocation.
  repeat first
    [ solve [eauto with audit] | audit_leaf
    | lazymatch goal with
      | |- preserves _ (forTasks _ _) =>
          apply preserves_forTasks_at; intros jx taskx ex Hx Hjx;
          destruct (negb (String.eqb (task_zoneId taskx) _)); [exact Hx|];
          destruct (negb (taskIsOpen (task_status taskx))); [exact Hx|];
          destruct (task_sourceZoneId taskx) as [sx|]; [|exact Hx];
          destruct (negb (truthy sx) || _); [exact Hx|];
          unfold pushTaskAudit; run;
          eapply (audit_write ex _ jx taskx);
            [exact Hx | exact Hjx | reflexivity | reflexivity | reflexivity | reflexivity
            | right; reflexivity]
      end
    | pres_step ].
Qed.
#[export] Hint Resolve updateLocation_audit : audit.

Lemma createLocation_audit p : preserves auditComplete (createLocation p).
Proof. unfold createLocation. audit_auto. Qed.
#[export] Hint Resolve createLocation_audit : audit.

Lemma reassign_audit : preserves auditComplete (reassign).
Proof. unfold reassign. audit_auto. Qed.
#[export] Hint Resolve reassign_audit : audit.

Lemma updateStaffShift_audit s b : preserves auditComplete (updateStaffShift s b).
Proof. unfold updateStaffShift. audit_auto. Qed.
#[export] Hint Resolve updateStaffShift_audit : audit.

Lemma updateStaffScope_audit s b z : preserves auditComplete (updateStaffScope s b z).
Proof. unfold updateStaffScope. audit_auto. Qed.
#[export] Hint Resolve updateStaffScope_audit : audit.

Lemma assignTask_audit t s a : preserves auditComplete (assignTask t s a).
Proof.
  unfold assignTask. apply preserves_bind_get_here. intros e H.
  destruct (findTask e t) as [[i task]|] eqn:Hf; [|exact H].
  destruct (negb (taskIsOpen (task_status task))); [exact H|].
  destruct (findActiveStaff e s) as [member|]; [|exact H].
  destruct (_ && _); [exact H|].
  unfold pushTaskAudit. run.
  eapply (audit_write e _ i task);
    [exact H | apply (findTask_some _ _ _ _ Hf) | reflexivity | reflexivity | reflexivity
    | reflexivity | reflexivity].
Qed.
#[export] Hint Resolve assignTask_audit : audit.

Lemma startTask_audit t s a : preserves auditComplete (startTask t s a).
Proof.
  unfold startTask. apply preserves_bind_get_here. intros e H.
  destruct (findTask e t) as [[i task]|] eqn:Hf; [|exact H].
  destruct (negb (taskIsOpen (task_status task))); [exact H|].
  destruct (isInProgress (task_status task)); [exact H|].
  destruct (findActiveStaff e s) as [member|]; [|exact H].
  cbv zeta.
  destruct (negb (inScope member (task_zoneId task)) && _); [exact H|].
  destruct (truthyOpt (task_assignedStaffId task) && _); [exact H|].
  unfold pushTaskAudit. run.
  eapply (audit_write e _ i task);
    [exact H | apply (findTask_some _ _ _ _ Hf) | reflexivity | reflexivity | reflexivity
    | reflexivity | reflexivity].
Qed.
#[export] Hint Resolve startTask_audit : audit.

Lemma upsertRule_audit p : preserves auditComplete (upsertRule p).
Proof. unfold upsertRule. audit_auto. Qed.
#[export] Hint Resolve upsertRule_audit : audit.

Lemma deleteRule_audit r : preserves auditComplete (deleteRule r).
Proof.
  unfold deleteRule.
  repeat first
    [ solve [eauto with audit] | audit_leaf
    | lazymatch goal with
      | |- preserves _ (forTasks _ _) =>
          apply preserves_forTasks_at; intros jx taskx ex Hx Hjx;
          destruct (negb (String.eqb (task_ruleId taskx) _)); [exact Hx|];
          destruct (negb (taskIsOpen (task_status taskx))); [exact Hx|];
          unfold pushTaskAudit; run;
          eapply (audit_write ex _ jx taskx);
            [exact Hx | exact Hjx | reflexivity | reflexivity | reflexivity | reflexivity
            | right; reflexivity]
      end
    | pres_step ].
Qed.
#[export] Hint Resolve deleteRule_audit : audit.

Lemma getTasks_audit s : preserves auditComplete (getTasks s).
Proof. unfold getTasks. audit_auto. Qed.
#[export] Hint Resolve getTasks_audit : audit.

Lemma getReceivingOrders_audit s : preserves auditComplete (getReceivingOrders s).
Proof. unfold getReceivingOrders. audit_auto. Qed.
#[export] Hint Resolve getReceivingOrders_audit : audit.

Lemma seedDemoEvents_audit : preserves auditComplete (seedDemoEvents).
Proof. unfold seedDemoEvents. audit_auto. Qed.
#[export] Hint Resolve seedDemoEvents_audit : audit.

Lemma loadDemoStream_audit r s : preserves auditComplete (loadDemoStream r s).
Proof. unfold loadDemoStream. audit_auto. Qed.
#[export] Hint Resolve loadDemoStream_audit : audit.

Lemma run_audit (c : Command) : preserves auditComplete (run c).
Proof. destruct c; unfold run; audit_auto. Qed.

Lemma runAll_audit (cs : list Command) (e : Engine) :
  auditComplete e -> auditComplete (runAll cs e).
Proof.
  revert e. induction cs as [|c r IH]; intros e H; simpl; [exact H|]. apply IH, run_audit, H.
Qed.

(** X27. The audit trail accounts for every task: in every state reached
    from the constructor, each task has an audit entry of its creation and an
    entry that accounts for its status: ASSIGNED for an assigned task, STARTED
    for one in progress, CLOSED for a confirmed one, CLOSED or CANCELLED for a
    rejected one. *)
Theorem audit_accounts_for_every_task (dataset : SampleDataset) (cs : list Command) :
  auditComplete (runAll cs (constructor dataset)).
Proof. apply runAll_audit. intros t []. Qed.

(** ** Inbound orders never ask for more than the rule's maximum *)

Lemma planned_of_keys e e' zoneId skuId source :
  map planKey (receivingOrders e') = map planKey (receivingOrders e) ->
  plannedInTransitQty e' zoneId skuId source = plannedInTransitQty e zoneId skuId source.
Proof.
  unfold plannedInTransitQty. generalize (receivingOrders e) as l, (receivingOrders e') as l'.
  intros l l'. revert l. induction l' as [|o' r' IH]; intros [|o r] H; simpl in *;
    try discriminate; [reflexivity|].
  unfold planKey in H. injection H as H1 H2 H3 H4 H5 Hr. fold planKey in Hr.
  rewrite H1, H2, H3, H4. specialize (IH r Hr).
  destruct (_ && _); simpl; [|exact IH].
  rewrite !sumZ_cons, H5. f_equal. exact IH.
Qed.

Lemma planned_same ks e e' :
  receivingOrders e' = receivingOrders e -> ordersPlanned ks e -> ordersPlanned ks e'.
Proof. unfold ordersPlanned. intros H. rewrite H. auto. Qed.

Lemma planned_updOrder ks i f e :
  (forall o, planKey (f o) = planKey o) ->
  ordersPlanned ks e -> ordersPlanned ks (updOrder i f e).
Proof.
  unfold ordersPlanned, updOrder. simpl. intros Hf <-.
  generalize (receivingOrders e) as l. intros l. revert i.
  induction l as [|o r IH]; intros [|i]; simpl; auto.
  - rewrite Hf. reflexivity.
  - rewrite IH. reflexivity.
Qed.

Ltac planned_leaf :=
  match goal with
  | H : ordersPlanned ?ks ?e |- ordersPlanned ?ks _ =>
      repeat match goal with
             | |- ordersPlanned _ (match ?x with _ => _ end) => destruct x
             | |- ordersPlanned _ (if ?x then _ else _) => destruct x
             end;
      solve [ exact H
            | apply (planned_same ks e); [reflexivity | exact H]
            | apply planned_updOrder; [intros; reflexivity | exact H] ]
  end.

Ltac planned_auto := repeat first [ assumption | planned_leaf | pres_step ].

Lemma pushTaskAudit_planned ks a b c d : preserves (ordersPlanned ks) (pushTaskAudit a b c d).
Proof. unfold pushTaskAudit. planned_auto. Qed.

Lemma autoAssignPendingTasks_planned ks at_ :
  preserves (ordersPlanned ks) (autoAssignPendingTasks at_).
Proof.
  pose proof (pushTaskAudit_planned ks) as Hp.
  unfold autoAssignPendingTasks, assignPendingTask.
  repeat first [ solve [auto] | planned_leaf | pres_step ].
Qed.

Lemma autoAssignPendingReceivingOrders_planned ks at_ :
  preserves (ordersPlanned ks) (autoAssignPendingReceivingOrders at_).
Proof. unfold autoAssignPendingReceivingOrders. planned_auto. Qed.

Lemma closeReplenishmentTask_planned ks t r :
  preserves (ordersPlanned ks) (closeReplenishmentTask t r).
Proof.
  pose proof (pushTaskAudit_planned ks) as Hp.
  pose proof (autoAssignPendingTasks_planned ks) as Ht.
  pose proof (autoAssignPendingReceivingOrders_planned ks) as Ho.
  unfold closeReplenishmentTask.
  repeat first [ solve [auto] | planned_leaf | pres_step ].
Qed.

Lemma plannedInTransitQty_nonneg e zoneId skuId source :
  0 <= plannedInTransitQty e zoneId skuId source.
Proof.
  unfold plannedInTransitQty.
  match goal with |- context [filter ?f ?l] => generalize (filter f l) end.
  intros l. induction l as [|o r IH]; simpl; [unfold sumZ; simpl; lia|].
  rewrite sumZ_cons. lia.
Qed.

(** What [createReceivingOrder] adds to the plan of a location. *)
Lemma createReceivingOrder_planned (payload : ReceivingPayload) (e : Engine) :
  let planned e := plannedInTransitQty e (rp_destinationZoneId payload) (rp_skuId payload)
                     (rp_source payload) in
  planned (exec (createReceivingOrder payload) e) = planned e
  \/ planned (exec (createReceivingOrder payload) e)
     = Z.max 0 (rp_requestedQty payload) + planned e.
Proof.
  cbv zeta. unfold createReceivingOrder. run.
  destruct (Z.max 0 (rp_requestedQty payload) <=? 0); run; [left; reflexivity|].
  destruct (findZone e (rp_destinationZoneId payload)); run; [|left; reflexivity].
  destruct (negb (mapHas _ _)); run; [left; reflexivity|].
  destruct (negb (sourceEqb _ _)); run; [left; reflexivity|].
  destruct (negb (isExternal _) && negb (existsb _ _)); run; [left; reflexivity|].
  destruct (negb (isExternal _) && String.eqb _ _); run; [left; reflexivity|].
  right.
  match goal with
  | |- plannedInTransitQty (exec ?c ?s1) _ _ _ = _ =>
      rewrite (planned_of_keys s1 (exec c s1));
      [|apply (autoAssignPendingReceivingOrders_planned _ _ s1); reflexivity]
  end.
  unfold plannedInTransitQty. simpl receivingOrders. simpl filter.
  rewrite !String.eqb_refl.
  assert (Hs : sourceEqb (rp_source payload) (rp_source payload) = true)
    by (destruct (rp_source payload); reflexivity).
  rewrite Hs. simpl. rewrite sumZ_cons. rewrite Z.max_r by lia. reflexivity.
Qed.

(** X28. Inbound orders never ask for more than the rule's maximum: after
    [evaluateInboundReceivingNeed] the quantity in transit to the location for
    the rule's SKU and source is at least what it was and at most the larger
    of what it was and the gap between the rule's maximum and the current
    quantity; it is unchanged when the current quantity is above the minimum. *)
Theorem evaluateInboundReceivingNeed_never_over_orders (zone : Zone)
    (rule : ReplenishmentRule) (currentQty : Z) (e : Engine) :
  let planned e := plannedInTransitQty e (zone_id zone) (rule_skuId rule) (rule_source rule) in
  let e' := exec (evaluateInboundReceivingNeed zone rule currentQty) e in
  planned e <= planned e' <= Z.max (planned e) (Z.max 0 (rule_maxQty rule - currentQty))
  /\ (rule_minQty rule < currentQty -> planned e' = planned e).
Proof.
  cbv zeta. unfold evaluateInboundReceivingNeed. run.
  match goal with
  | |- context [exec (forTasks ?l ?b) e] => set (e1 := exec (forTasks l b) e)
  end.
  assert (H1 : plannedInTransitQty e1 (zone_id zone) (rule_skuId rule) (rule_source rule)
               = plannedInTransitQty e (zone_id zone) (rule_skuId rule) (rule_source rule)).
  { apply planned_of_keys.
    assert (Hp : preserves (ordersPlanned (map planKey (receivingOrders e)))
                   (forTasks (seq 0 (List.length (tasks e)))
                      (fun _ task =>
                         if negb (String.eqb (task_ruleId task) (rule_id rule)) then ret tt else
                         if negb (taskIsOpen (task_status task)) then ret tt else
                         if isInProgress (task_status task) then ret tt else
                         closeReplenishmentTask (task_id task) "non_sales_receiving_flow" ;;
                         ret tt))).
    { pose proof (closeReplenishmentTask_planned (map planKey (receivingOrders e))) as Hc.
      repeat first [ solve [auto] | planned_leaf | pres_step ]. }
    apply (Hp e). reflexivity. }
  set (p0 := plannedInTransitQty e (zone_id zone) (rule_skuId rule) (rule_source rule)) in *.
  assert (Hp0 : 0 <= p0) by apply plannedInTransitQty_nonneg.
  destruct (rule_minQty rule <? currentQty) eqn:Hmin; run.
  - rewrite H1. split; [lia | reflexivity].
  - apply Z.ltb_ge in Hmin. split; [|lia].
    destruct (Z.max 0 (rule_maxQty rule - currentQty) <=? 0) eqn:Hd; run; [rewrite H1; lia|].
    fold (plannedInTransitQty e1 (zone_id zone) (rule_skuId rule) (rule_source rule)).
    rewrite H1.
    destruct (Z.max 0 (Z.max 0 (rule_maxQty rule - currentQty) - p0) <=? 0) eqn:Hr; run;
      [rewrite H1; lia|].
    apply Z.leb_gt in Hr.
    match goal with
    | |- context [exec (createReceivingOrder ?payload) e1] =>
        destruct (createReceivingOrder_planned payload e1) as [Hc|Hc];
        simpl rp_destinationZoneId in Hc; simpl rp_skuId in Hc; simpl rp_source in Hc;
        simpl rp_requestedQty in Hc; rewrite Hc, H1
    end; lia.
Qed.

(** ** The personalisation sale *)

Lemma filedIn_same e e' zoneId epc :
  epcPresence e' = epcPresence e -> filedIn e zoneId epc -> filedIn e' zoneId epc.
Proof. unfold filedIn. intros H. rewrite H. auto. Qed.

Section Filed.
Variable zoneId : string.

Let filed (m : list (string * EPCPresence)) (epc : string) : Prop :=
  exists p, mapGet epc m = Some p /\ pres_zoneId p = zoneId.

Lemma filed_mapSet m k v epc :
  pres_zoneId v = zoneId -> filed m epc -> filed (mapSet k v m) epc.
Proof.
  intros Hv (p & Hp & Hz). destruct (string_dec epc k) as [->|Hn].
  - exists v. rewrite mapGet_mapSet_same. auto.
  - exists p. rewrite mapGet_mapSet_other by exact Hn. auto.
Qed.

Lemma filed_mapSet_new m k v : pres_zoneId v = zoneId -> filed (mapSet k v m) k.
Proof. intros Hv. exists v. rewrite mapGet_mapSet_same. auto. Qed.

(** The write of [restoreConsumedEpcs] for one pending pick. *)
Lemma filed_restore skuId antennaId at_ (epcs : list string) m :
  let m' := fold_left (fun m epc =>
              mapSet epc (mkPresence epc skuId zoneId antennaId at_ None) m) epcs m in
  (forall epc, filed m epc -> filed m' epc)
  /\ (forall epc, In epc epcs -> filed m' epc).
Proof.
  cbv zeta. revert m. induction epcs as [|x r IH]; intros m; simpl.
  - split; [auto | intros epc []].
  - destruct (IH (mapSet x (mkPresence x skuId zoneId antennaId at_ None) m)) as [H1 H2].
    split.
    + intros epc H. apply H1, filed_mapSet; [reflexivity | exact H].
    + intros epc [<-|Hin]; [apply H1, filed_mapSet_new; reflexivity | apply H2, Hin].
Qed.

(** The write of [moveRFIDEpcs]. *)
Lemma filed_rebind antennaId at_ (epcs : list string) m :
  let m' := fold_left (fun m epc =>
              match mapGet epc m with
              | Some presence =>
                  mapSet epc (pres_set_lastSeenAt at_ (pres_set_antennaId antennaId
                                (pres_set_zoneId zoneId presence))) m
              | None => m
              end) epcs m in
  (forall epc, filed m epc -> filed m' epc)
  /\ ((forall epc, In epc epcs -> mapGet epc m <> None) ->
      forall epc, In epc epcs -> filed m' epc).
Proof.
  cbv zeta. revert m. induction epcs as [|x r IH]; intros m; simpl.
  - split; [auto | intros _ epc []].
  - set (m1 := match mapGet x m with Some presence => _ | None => m end).
    destruct (IH m1) as [H1 H2].
    assert (Hkeep : forall epc, filed m epc -> filed m1 epc).
    { intros epc H. unfold m1. destruct (mapGet x m); [|exact H].
      apply filed_mapSet; [reflexivity | exact H]. }
    split; [intros epc H; apply H1, Hkeep, H|].
    intros Hall epc Hin.
    assert (Hall1 : forall y, In y r -> mapGet y m1 <> None).
    { intros y Hy. unfold m1. destruct (mapGet x m) as [p|] eqn:Hx; [|apply Hall; right; exact Hy].
      destruct (string_dec y x) as [->|Hn].
      - rewrite mapGet_mapSet_same. discriminate.
      - rewrite mapGet_mapSet_other by exact Hn. apply Hall. right. exact Hy. }
    destruct Hin as [<-|Hin]; [|apply (H2 Hall1), Hin].
    apply H1. unfold m1. destruct (mapGet x m) as [p|] eqn:Hx.
    + apply filed_mapSet_new. reflexivity.
    + exfalso. apply (Hall x); [left; reflexivity | exact Hx].
Qed.

End Filed.

(** The loop of [restoreConsumedEpcs] over the pending picks. *)
Lemma restoreLoop_files basketItemId skuId zoneId antennaId at_ (picks0 : list PendingRFIDPick)
    (l : list nat) (restored : Z) (e : Engine) :
  let body := fun (restored : Z) (i : nat) =>
    e <- get ;;
    match nth_error (pendingRFIDPicks e) i with
    | None => ret restored
    | Some pending =>
        if negb (String.eqb (pick_basketItemId pending) basketItemId) then ret restored else
        modify (fun e => set_epcPresence
          (fold_left (fun m epc =>
             mapSet epc (mkPresence epc skuId zoneId antennaId at_ None) m)
             (pick_consumedEpcs pending) (epcPresence e)) e) ;;
        modify (fun e => set_pendingRFIDPicks
          (updateAt i (fun p => completePick (pick_set_consumedEpcs [] p))
                    (pendingRFIDPicks e)) e) ;;
        ret (restored + Z.of_nat (List.length (pick_consumedEpcs pending)))
    end in
  NoDup l ->
  (forall j, In j l -> nth_error (pendingRFIDPicks e) j = nth_error picks0 j) ->
  let e' := exec (foldM l restored body) e in
  generatedEpcSeq e' = generatedEpcSeq e
  /\ (forall epc, filedIn e zoneId epc -> filedIn e' zoneId epc)
  /\ (forall j pick epc, In j l -> nth_error picks0 j = Some pick ->
        pick_basketItemId pick = basketItemId -> In epc (pick_consumedEpcs pick) ->
        filedIn e' zoneId epc).
Proof.
  cbv zeta. revert restored e. induction l as [|i r IH]; intros restored e Hnd Hsame.
  - simpl. repeat split; auto. intros j pick epc [].
  - inversion Hnd as [|? ? Hni Hr]; subst. rewrite exec_foldM_cons.
    match goal with
    | |- context [exec (foldM r ?s1 ?b) ?x1] => set (body := b); set (s' := s1); set (e1 := x1)
    end.
    assert (H1 : generatedEpcSeq e1 = generatedEpcSeq e
                 /\ (forall epc, filedIn e zoneId epc -> filedIn e1 zoneId epc)
                 /\ (forall j, j <> i ->
                       nth_error (pendingRFIDPicks e1) j = nth_error (pendingRFIDPicks e) j)
                 /\ (forall pick epc, nth_error picks0 i = Some pick ->
                       pick_basketItemId pick = basketItemId ->
                       In epc (pick_consumedEpcs pick) -> filedIn e1 zoneId epc)).
    { unfold e1, body. run. rewrite (Hsame i (or_introl eq_refl)).
      destruct (nth_error picks0 i) as [pending|] eqn:Hi; run.
      - destruct (negb (String.eqb (pick_basketItemId pending) basketItemId)) eqn:Hb; run.
        + repeat split; auto. intros pick epc Hp Hid. inversion Hp; subst pick.
          apply negb_true_iff, String.eqb_neq in Hb. contradiction.
        + destruct (filed_restore zoneId skuId antennaId at_ (pick_consumedEpcs pending)
                      (epcPresence e)) as [Hk Hn].
          split; [reflexivity|]. split; [intros epc H; apply Hk, H|]. split.
          * intros j Hj. simpl. apply updateAt_nth_error_other. exact Hj.
          * intros pick epc Hp _ Hin. inversion Hp; subst pick. apply Hn, Hin.
      - repeat split; auto. intros pick epc Hp. discriminate. }
    destruct H1 as (Hg1 & Hk1 & Ho1 & Hi1).
    destruct (IH s' e1 Hr) as (Hg2 & Hk2 & Hall).
    { intros j Hj. rewrite Ho1 by (intros ->; contradiction).
      apply Hsame. right. exact Hj. }
    fold body in Hg2, Hk2, Hall.
    split; [congruence|]. split; [intros epc H; apply Hk2, Hk1, H|].
    intros j pick epc [<-|Hj] Hp Hid Hin.
    + apply Hk2. apply (Hi1 pick epc Hp Hid Hin).
    + apply (Hall j pick epc Hj Hp Hid Hin).
Qed.

Lemma transferConsumedPendingEpcsToZone_files basketItemId skuId zoneId at_ (e : Engine) :
  let e' := exec (transferConsumedPendingEpcsToZone basketItemId skuId zoneId at_) e in
  generatedEpcSeq e' = generatedEpcSeq e
  /\ (forall epc, filedIn e zoneId epc -> filedIn e' zoneId epc)
  /\ (forall pick epc, In pick (pendingRFIDPicks e) ->
        pick_basketItemId pick = basketItemId -> In epc (pick_consumedEpcs pick) ->
        filedIn e' zoneId epc).
Proof.
  cbv zeta. unfold transferConsumedPendingEpcsToZone, restoreConsumedEpcs. run.
  destruct (restoreLoop_files basketItemId skuId zoneId (antennaOfZone e zoneId) at_
              (pendingRFIDPicks e) (seq 0 (List.length (pendingRFIDPicks e))) 0 e
              (seq_NoDup _ _) (fun _ _ => eq_refl)) as (Hg & Hk & Hall).
  split; [exact Hg|]. split; [exact Hk|].
  intros pick epc Hin Hid He. apply In_nth_error in Hin. destruct Hin as [j Hj].
  apply (Hall j pick epc); auto.
  apply in_seq. split; [lia|]. simpl. apply nth_error_Some. congruence.
Qed.

(** The loop of [createExternalRFIDForDestination]. *)
Lemma createLoop_files skuId zoneId antennaId at_ (n a : nat) (created : Z) (e : Engine) :
  let body := fun (created : Z) (_ : nat) =>
    e <- get ;;
    let epc := generatedEpc (generatedEpcSeq e) in
    modify (set_generatedEpcSeq (generatedEpcSeq e + 1)) ;;
    modify (fun e => set_mapping
      (mapping e ++ [mkMapping ("map-rcv-" ++ toLowerCase epc) epc skuId None at_ None])%list e) ;;
    modify (fun e => set_epcPresence
      (mapSet epc (mkPresence epc skuId zoneId antennaId at_ None) (epcPresence e)) e) ;;
    ret (created + 1) in
  let e' := exec (foldM (seq a n) created body) e in
  (forall epc, filedIn e zoneId epc -> filedIn e' zoneId epc)
  /\ (forall k, 0 <= k < Z.of_nat n ->
        filedIn e' zoneId (generatedEpc (generatedEpcSeq e + k))).
Proof.
  cbv zeta. revert a created e. induction n as [|n IH]; intros a created e.
  - simpl. split; [auto | intros k Hk; lia].
  - simpl seq. rewrite exec_foldM_cons.
    match goal with
    | |- context [exec (foldM _ ?s1 ?b) ?x1] => set (body := b); set (s' := s1); set (e1 := x1)
    end.
    assert (H1 : generatedEpcSeq e1 = generatedEpcSeq e + 1
                 /\ (forall epc, filedIn e zoneId epc -> filedIn e1 zoneId epc)
                 /\ filedIn e1 zoneId (generatedEpc (generatedEpcSeq e))).
    { unfold e1, body. run. simpl. split; [reflexivity|]. split.
      - intros epc H. apply (filed_mapSet zoneId); [reflexivity | exact H].
      - apply (filed_mapSet_new zoneId). reflexivity. }
    destruct H1 as (Hg1 & Hk1 & Hn1).
    destruct (IH (S a) s' e1) as (Hk2 & Hall). fold body in Hk2, Hall.
    split; [intros epc H; apply Hk2, Hk1, H|].
    intros k Hk. destruct (Z.eq_dec k 0) as [->|Hn].
    + rewrite Z.add_0_r. apply Hk2, Hn1.
    + replace (generatedEpcSeq e + k) with (generatedEpcSeq e1 + (k - 1)) by lia.
      apply Hall. lia.
Qed.

Lemma createExternalRFIDForDestination_files skuId zoneId qty at_ (e : Engine) :
  let e' := exec (createExternalRFIDForDestination skuId zoneId qty at_) e in
  (forall epc, filedIn e zoneId epc -> filedIn e' zoneId epc)
  /\ (forall k, 0 <= k < qty -> filedIn e' zoneId (generatedEpc (generatedEpcSeq e + k))).
Proof.
  cbv zeta. unfold createExternalRFIDForDestination. run.
  destruct (createLoop_files skuId zoneId (antennaOfZone e zoneId) at_ (Z.to_nat qty) 0 0 e)
    as [Hk Hall].
  split; [exact Hk|]. intros k Hr. apply Hall. lia.
Qed.

Lemma moveRFIDEpcs_files sourceZoneId zoneId skuId qty at_ (e : Engine) :
  let e' := exec (moveRFIDEpcs sourceZoneId zoneId skuId qty at_) e in
  (forall epc, filedIn e zoneId epc -> filedIn e' zoneId epc)
  /\ (presenceKeyed e ->
      forall epc, In epc (slice0 qty (getPresentEPCs e sourceZoneId skuId)) ->
                  filedIn e' zoneId epc).
Proof.
  cbv zeta. unfold moveRFIDEpcs. run. unfold rebindPresence, filedIn. simpl epcPresence.
  destruct (filed_rebind zoneId (antennaOfZone e zoneId) at_
              (slice0 qty (getPresentEPCs e sourceZoneId skuId)) (epcPresence e)) as [Hk Hn].
  split; [exact Hk|]. intros [_ Hkey]. apply Hn.
  intros epc Hin. destruct (slice0_firstn qty (getPresentEPCs e sourceZoneId skuId)) as [k Hs].
  rewrite Hs in Hin. apply firstn_In_list in Hin. unfold getPresentEPCs in Hin.
  apply in_map_iff in Hin. destruct Hin as (p & Hp & Hin).
  apply (Permutation_in _ (sortBy_perm _ _)) in Hin. apply filter_In in Hin.
  destruct Hin as [Hin _]. unfold mapValues in Hin. apply in_map_iff in Hin.
  destruct Hin as ([k0 p0] & Heq & Hin). simpl in Heq. subst p0.
  apply mapGet_keys. apply in_map_iff. exists (k0, p). split; [|exact Hin].
  simpl. rewrite <- Hp. symmetry. apply Hkey, Hin.
Qed.

(** What the NON_RFID branch of the routing does to the two quantities. *)
Lemma routeToCashierStorage_moves_stock i item timestamp (e : Engine) :
  let sku := item_skuId item in
  let onHand := getCurrentInventoryQty e (item_zoneId item) sku NON_RFID in
  let inCashier := getCurrentInventoryQty e CASHIER_STORAGE_ZONE_ID sku NON_RFID in
  let movedQty := Z.min (Z.max 0 (item_qty item)) onHand in
  let e1 := exec (routeToCashierStorage i item NON_RFID timestamp) e in
  0 < movedQty -> uniqueSnapshots e -> item_zoneId item <> CASHIER_STORAGE_ZONE_ID ->
  0 <= inCashier ->
  getCurrentInventoryQty e1 (item_zoneId item) sku NON_RFID = onHand - movedQty
  /\ getCurrentInventoryQty e1 CASHIER_STORAGE_ZONE_ID sku NON_RFID = inCashier + movedQty.
Proof.
  intros sku onHand inCashier movedQty e1 Hm Hu Hne Hc.
  assert (He1 : e1 = exec (transferNonRfid (item_zoneId item) CASHIER_STORAGE_ZONE_ID sku
                             (item_qty item)) e).
  { unfold e1, routeToCashierStorage. simpl isRfid. cbv iota. run. reflexivity. }
  rewrite He1.
  destruct (transferNonRfid_unfold (item_zoneId item) CASHIER_STORAGE_ZONE_ID sku
              (item_qty item) e) as [_ H1].
  destruct (H1 Hm) as [_ He]. rewrite He. clear H1 He.
  fold onHand. fold movedQty.
  set (e0 := exec (upsertSnapshot (item_zoneId item) sku (onHand - movedQty) NON_RFID None) e).
  destruct (upsertSnapshot_read_back (item_zoneId item) sku (onHand - movedQty) NON_RFID None
              e Hu) as [Hs1 Ho1].
  fold e0 in Hs1, Ho1.
  assert (Hu0 : uniqueSnapshots e0) by (apply upsertSnapshot_unique; exact Hu).
  assert (Hd0 : getCurrentInventoryQty e0 CASHIER_STORAGE_ZONE_ID sku NON_RFID = inCashier).
  { apply Ho1. congruence. }
  rewrite Hd0.
  destruct (upsertSnapshot_read_back CASHIER_STORAGE_ZONE_ID sku (inCashier + movedQty)
              NON_RFID None e0 Hu0) as [Hs2 Ho2].
  rewrite writtenQty_nonneg in Hs1 by (unfold movedQty; lia).
  rewrite writtenQty_nonneg in Hs2 by lia.
  split; [rewrite Ho2 by congruence; exact Hs1 | exact Hs2].
Qed.

(** What the RFID branch of the routing files in cashier storage. *)
Lemma routeToCashierStorage_files_tags i item timestamp (e : Engine) :
  let sku := item_skuId item in
  let picked := Z.max 0 (item_pickedConfirmedQty item) in
  let restored := eval (transferConsumedPendingEpcsToZone (item_id item) sku
                          CASHIER_STORAGE_ZONE_ID timestamp) e in
  let eB := exec (when (restored <? picked)
                    (createExternalRFIDForDestination sku CASHIER_STORAGE_ZONE_ID
                       (picked - restored) timestamp ;; ret tt))
                 (exec (transferConsumedPendingEpcsToZone (item_id item) sku
                          CASHIER_STORAGE_ZONE_ID timestamp) e) in
  let outstanding := Z.max 0 (item_qty item - picked) in
  let e1 := exec (routeToCashierStorage i item RFID timestamp) e in
  (forall pick epc, In pick (pendingRFIDPicks e) -> pick_basketItemId pick = item_id item ->
       In epc (pick_consumedEpcs pick) -> filedIn e1 CASHIER_STORAGE_ZONE_ID epc)
  /\ (forall k, 0 <= k < picked - restored ->
        filedIn e1 CASHIER_STORAGE_ZONE_ID (generatedEpc (generatedEpcSeq e + k)))
  /\ (presenceKeyed e ->
      forall epc, In epc (slice0 outstanding (getPresentEPCs eB (item_zoneId item) sku)) ->
                  filedIn e1 CASHIER_STORAGE_ZONE_ID epc).
Proof.
  intros sku picked restored eB outstanding e1.
  set (eA := exec (transferConsumedPendingEpcsToZone (item_id item) sku
                     CASHIER_STORAGE_ZONE_ID timestamp) e) in *.
  destruct (transferConsumedPendingEpcsToZone_files (item_id item) sku CASHIER_STORAGE_ZONE_ID
              timestamp e) as (HgA & HkA & HpA).
  fold eA in HgA, HkA, HpA.
  assert (HB : (forall epc, filedIn eA CASHIER_STORAGE_ZONE_ID epc ->
                            filedIn eB CASHIER_STORAGE_ZONE_ID epc)
               /\ (forall k, 0 <= k < picked - restored ->
                     filedIn eB CASHIER_STORAGE_ZONE_ID
                       (generatedEpc (generatedEpcSeq e + k)))).
  { unfold eB. rewrite exec_when. destruct (restored <? picked) eqn:Hr.
    - run. rewrite <- HgA. apply createExternalRFIDForDestination_files.
    - apply Z.ltb_ge in Hr. split; [auto | intros k Hk; lia]. }
  destruct HB as [HkB HnB].
  assert (H1 : e1 = updItem i (item_set_pickedConfirmedQty 0)
                      (exec (when (0 <? outstanding)
                               (moveRFIDEpcs (item_zoneId item) CASHIER_STORAGE_ZONE_ID sku
                                  outstanding timestamp ;; ret tt)) eB)).
  { unfold e1, routeToCashierStorage. simpl isRfid. cbv iota. run. reflexivity. }
  set (eC := exec (when (0 <? outstanding)
                     (moveRFIDEpcs (item_zoneId item) CASHIER_STORAGE_ZONE_ID sku
                        outstanding timestamp ;; ret tt)) eB) in *.
  assert (HC : (forall epc, filedIn eB CASHIER_STORAGE_ZONE_ID epc ->
                            filedIn eC CASHIER_STORAGE_ZONE_ID epc)
               /\ (presenceKeyed eB ->
                   forall epc, In epc (slice0 outstanding
                                         (getPresentEPCs eB (item_zoneId item) sku)) ->
                               filedIn eC CASHIER_STORAGE_ZONE_ID epc)).
  { unfold eC. rewrite exec_when. destruct (0 <? outstanding) eqn:Ho.
    - run. apply moveRFIDEpcs_files.
    - apply Z.ltb_ge in Ho. split; [auto|]. intros _ epc Hin.
      assert (H0 : outstanding = 0) by (unfold outstanding in *; lia).
      rewrite H0 in Hin. destruct Hin. }
  destruct HC as [HkC HmC].
  assert (Hlast : forall epc, filedIn eC CASHIER_STORAGE_ZONE_ID epc ->
                              filedIn e1 CASHIER_STORAGE_ZONE_ID epc).
  { intros epc H. rewrite H1. apply (filedIn_same eC); [reflexivity | exact H]. }
  split; [|split].
  - intros pick epc Hin Hid He. apply Hlast, HkC, HkB. apply (HpA pick epc Hin Hid He).
  - intros k Hk. apply Hlast, HkC, HnB, Hk.
  - intros Hkeyed epc Hin. apply Hlast. apply HmC; [|exact Hin].
    unfold eB. rewrite exec_when. destruct (restored <? picked).
    + run. apply createExternalRFIDForDestination_keyed.
      apply transferConsumedPendingEpcsToZone_keyed, Hkeyed.
    + apply transferConsumedPendingEpcsToZone_keyed, Hkeyed.
Qed.


